(* ===== verification/_CoqProject ===== *)
-Q . S2P
Prelude.v
GoStrings.v
Messages.v
Scheduler.v
Float64.v
Cluster.v
Janitor.v
Fs.v
Storage.v
Proxy.v
Flight.v
Blobs.v
ByteStream.v
ExecServer.v
Remote.v
CasServer.v
Sandbox.v
Persistent.v
Tree.v
Worker.v
Pool.v
Staging.v
Outputs.v
WorkerDemo.v
Node.v
ClusterRun.v
Telemetry.v
Config.v
Main.v
