(* ===== verification/Prelude.v ===== *)
(** goREgo: a cache and executor for the Bazel Remote Execution API.

    This library models the Go program under src/ and proves what makes its
    parts correct.  The program: a node runs a gRPC server (src/pkg/server) over
    a blob store.  The store is a directory (src/pkg/storage/local.go), behind a
    proxy to a remote cache if one is configured (src/pkg/proxy,
    src/pkg/storage/remote.go), and a janitor (src/pkg/janitor) keeps it below
    its size limit.  Execute requests become operations of a scheduler
    (src/pkg/scheduler), from whose queue a pool of workers (src/pkg/execution)
    takes tasks; nodes gossip their load (src/pkg/cluster) and forward requests
    to less loaded peers.

    ** Files, modules and sources

    - [Prelude], [GoStrings], [Messages]: results and errors of Go calls,
      automation, finite-map counting; the string functions the sources use
      (prefixes, cutting, host:port, decimal numbers); digests, messages of the
      API, and classes for [anypb], grpc status and the SDK's digests.
    - [Scheduler] (scheduler.go): the state [Scheduler.Scheduler] is the struct,
      with a heap of operation objects (the table holds pointers), subscriber
      channels with their buffers, and the task queue.  One definition per method;
      [None] is a panic (send on or close of a closed channel).  [event], [run]:
      the calls of clients, handlers and workers in any order of the lock.
    - [Float64], [Cluster] (cluster.go): binary64 conversion, division, addition,
      comparison and truncation; the peer table, the gossip callbacks
      ([NotifyMsg], [NotifyJoin], ...), [SelectBestPeer] for any iteration order of
      the map, DNS discovery, the filter of known peers.
    - [Janitor] (janitor.go): [Cleanup] on a finite map of files with refused
      removals, and the loop of [Run] as a step function over its channels, its
      timer and the timer functions in flight.
    - [Fs]: paths, a file system with inodes and hard links, system calls that may
      fail ([OS], any schedule), the history of the states another process could
      have seen, and the rules of [wp] for reasoning about sequences of calls.
    - [Storage] (local.go, null.go): the local store on [Fs].
    - [Proxy] (proxy.go): read-through, write-through with the pipe to a remote of
      any behaviour (class [Remote]), retries, the action cache.
    - [Flight] (proxy.go): the same methods cut into sections at singleflight's
      [Do]; callers that overlap, with [step] for one section of one caller.
    - [Blobs] (storage.go): the interface [BlobStore] as a class, its laws as a
      second class; the local and the proxy store are instances of both.
    - [ByteStream] (bytestream.go): resource names, [Read], and [Write] with its
      pipe and the store's [Put] running beside it.
    - [ExecServer] (execution.go): [Execute], forwarding, the update stream and
      [WaitExecution], on the scheduler and the cluster manager.
    - [Remote] (remote.go): the client of another cache; the chunked upload against
      any server, and against the service of [ByteStream].
    - [CasServer] (server.go, actioncache.go, operations.go): the unary services;
      the CAS service is proved against the laws of [Blobs].
    - [Sandbox] (sandbox.go): the linux-sandbox command line.
    - [Persistent] (persistent.go): framing of the worker protocol and the manager
      of persistent worker processes (which nothing in the program starts).
    - [Tree]: the disk of a worker: inodes, hard links, symbolic links resolved
      component by component, modes; the system calls of package os on it.
    - [Worker] (worker.go): one definition per function, in a monad over the disk,
      the stores and a count of calls; [executeTask] and [runWorker] over the
      scheduler of [Scheduler], the sandbox of [Sandbox].  The stores and processes
      are interfaces ([Stores], [Runner]).  [Pool] proves what does not depend on
      the contents of files, [Staging] what [stageDirectory] makes, [Outputs] what
      [buildTree] uploads; [WorkerDemo] has concrete stores, a codec and processes
      on which the whole worker runs.
    - [Node] (execution.go, worker.go, scheduler.go): any number of handlers and
      workers on one scheduler, every critical section, channel operation and send
      a step of its own; [sections_are_methods] ties the steps to [ExecServer] and
      [Worker].
    - [ClusterRun] (cluster.go): joining, leaving, and the loop of [Run] as a step
      per tick, over memberlist's queue of broadcasts.
    - [Telemetry] (telemetry.go): what [Setup] registers.
    - [Config] (config.go, and the TLS parts of main.go and remote.go): the records
      with their keys, the defaults, the server's credentials, the connection to
      the backing cache.
    - [Main] (main.go): [boot] builds a node with the constructors of the
      components; [step] is the life of the process, its goroutines and shutdown.

    ** What the theorems show

    - Scheduler: no run panics and the invariant holds (channels open and bounded,
      queue bounded, [executingCount] exact); the queue refines an unbounded FIFO;
      [Enqueue], [Complete] and [CleanupExpired] on every branch; what deleting or
      cancelling an operation leaves behind.
    - Cluster: the chosen peer has spare capacity, is strictly less loaded and is
      minimal in float64 arithmetic, and exactly so for loads below 2^26; no gossip
      lists the node itself; addresses stay dialable.
    - Janitor: the limit is enforced as far as the minimum age and the operating
      system allow, oldest files first; no notification is lost.
    - Storage: every state others can see has the old or the whole new contents
      of a blob; what was put is what is read; linked files share their inode.
    - Proxy, Blobs: success of a write-through [Put] means both stores have the
      bytes; a [Get] returns only what the remote holds; the cases in which a
      remote's answer is lost or an early answer fails the upload.
    - Flight: alone, the sections are the method; overlapping calls all return, and
      a shared success still means that the remote has the blob; updates that
      differ, and failures of other clients, are shared too.
    - ByteStream, Remote: the matcher agrees with the regular expressions; a read
      sends exactly the slice; an upload to a peer hands its store exactly the bytes
      of the reader, with or without compression; where an upload hangs or panics.
    - ExecServer: a stream ends at completion; what happens to forwarded, cached and
      deleted operations.
    - Worker: staging recreates exactly the tree a digest denotes, and what
      [buildTree] uploads stages to the same tree; every task a worker takes is
      finished in the scheduler, and a worker drains the queue; nothing is left of
      the build directory; only successful results are cached; two operations
      never share a directory unless a client chooses the name; names listed twice
      overwrite a blob; what a deadline does to a command.
    - Node: whatever interleaves, no step panics, a node that gets no new calls
      comes to rest, and then every accepted task has been executed exactly once,
      every listed operation is completed and every client has its answer, but for
      removed operations; a client that waits gets the result; the two races in
      which a stream ends without it.
    - ClusterRun: an outdated state is never sent again.
    - Config, Main: verified clients are verified against the configured
      authorities; the parts of a booted node fit together; what it advertises is
      what it runs, for a concurrency from zero on; a shutdown after a signal
      terminates, with the workers outliving the requests; after the failure of a
      goroutine the process hangs with its server open.
    - CasServer, Sandbox, Persistent: missing blobs are reported exactly and stored
      ones never; the command line reads back; requests are sent at most twice, and
      how two failing requests disturb each other.

    Every property with hypotheses has a witness of the name of the property with
    [_witness] appended, in the module [Demo] of its file, or in [WorkerDemo].

    ** Bounds and fuel

    [ByteStream.read_fuel] (bytes plus chunks plus one) bounds the iterations of a
    read or upload loop; that it is enough is part of the theorems about [Read] and
    [Remote.Put].  The recursions of [Worker] over directories take one unit of fuel
    per level: the theorems name the depth of the tree and prove that it is enough.
    A path resolves at most forty symbolic links ([Tree.max_links]), as in Linux.
    [Sandbox.read_args] takes the length of the arguments.  DNS
    discovery makes five attempts and [Proxy.PutFile] the configured number: these
    are the program's own bounds.  64-bit sums in [Janitor] and 32-bit loads in
    [Cluster] wrap around as in Go; the theorems state the ranges they need.

    ** Not modelled

    Libraries are parameters: protobuf codecs, gRPC, memberlist, zstd, viper, the
    SDK's client, digests and resource names, crypto/tls and its files,
    linux-sandbox, worker processes, OpenTelemetry.  Tracing, metrics, logging and
    the debug handlers have no effect on the results.  singleflight is modelled by what
    it documents, in [Flight]; the sections of a call are atomic there.  Contexts
    appear where the sources react to their end.  The worker's disk is used by one task at
    a time, apart from what its processes do.

    ** Plan

    Next: the executions of several workers on one disk; the local store as an
    instance of the stores of the worker; a restriction of the paths of a command
    to its execroot, and what holds under it; two nodes of a cluster with a
    forwarded request between them. *)

From stdpp Require Export base tactics numbers list option gmap sets strings pretty sorting.
From Stdlib Require Export ZArith Lia Ascii String.

#[global] Set Default Goal Selector "!".
#[global] Arguments String.append : simpl nomatch.

(** ** Outcomes of Go calls

    A Go function that returns [(T, error)] is modelled by [result T]; a call
    that may panic returns an [option] around it ([None] is the panic). *)

Inductive code :=
  | OK | Canceled | Unknown | InvalidArgument | DeadlineExceeded | NotFound
  | ResourceExhausted | FailedPrecondition | Unimplemented | Internal | Unavailable.

#[global] Instance code_eq_dec : EqDecision code.
Proof. solve_decision. Defined.

(** Error values the sources create or test for.  [Wrapped m e] is
    [fmt.Errorf("m: %w", e)], [Errorf m] an [fmt.Errorf] without [%w]. *)
Inductive error :=
  | StatusErr (c : code) (msg : string)
  | ErrNotExist
  | ErrIO (msg : string)
  | CtxCanceled
  | CtxDeadlineExceeded
  | EOF
  | ErrClosedPipe
  | Errorf (msg : string)
  | Wrapped (msg : string) (e : error).

#[global] Instance error_eq_dec : EqDecision error.
Proof. solve_decision. Defined.

Inductive result (A : Type) :=
  | Ok (a : A)
  | Err (e : error).
Arguments Ok {A} a.
Arguments Err {A} e.

#[global] Instance result_ret : MRet result := λ A a, Ok a.
#[global] Instance result_bind : MBind result :=
  λ A B f m, match m with Ok a => f a | Err e => Err e end.

#[global] Instance result_eq_dec `{EqDecision A} : EqDecision (result A).
Proof. solve_decision. Defined.

(** ** Proof automation *)

Create HintDb gorego.
Create Rewrite HintDb gorego.

(** Break the innermost [match] of the goal or of a hypothesis, keeping the
    equation, and discard the impossible branches. *)
Ltac break_match :=
  match goal with
  | |- context [match ?x with _ => _ end] =>
      lazymatch x with context [match _ with _ => _ end] => fail | _ => destruct x eqn:? end
  | H : context [match ?x with _ => _ end] |- _ =>
      lazymatch x with context [match _ with _ => _ end] => fail | _ => destruct x eqn:? end
  end; simplify_eq/=.

(** [crush] closes goals that are case analysis, congruence and arithmetic. *)
Ltac crush := repeat (break_match; try done); try naive_solver lia.

(** Boolean tests of the sources, turned into propositions. *)
Ltac to_prop :=
  repeat match goal with
  | H : _ && _ = true |- _ => apply andb_true_iff in H as [? ?]
  | H : _ && _ = false |- _ => apply andb_false_iff in H
  | H : _ || _ = false |- _ => apply orb_false_iff in H as [? ?]
  | H : _ || _ = true |- _ => apply orb_true_iff in H
  | H : negb _ = true |- _ => apply negb_true_iff in H
  | H : negb _ = false |- _ => apply negb_false_iff in H
  | H : (_ <? _)%Z = true |- _ => apply Z.ltb_lt in H
  | H : (_ <? _)%Z = false |- _ => apply Z.ltb_ge in H
  | H : (_ <=? _)%Z = true |- _ => apply Z.leb_le in H
  | H : (_ <=? _)%Z = false |- _ => apply Z.leb_gt in H
  | H : (_ =? _)%Z = true |- _ => apply Z.eqb_eq in H
  | H : (_ =? _)%Z = false |- _ => apply Z.eqb_neq in H
  | H : (_ <? _)%nat = true |- _ => apply Nat.ltb_lt in H
  | H : (_ <? _)%nat = false |- _ => apply Nat.ltb_ge in H
  | H : (_ <=? _)%nat = true |- _ => apply Nat.leb_le in H
  | H : (_ <=? _)%nat = false |- _ => apply Nat.leb_gt in H
  | H : bool_decide _ = true |- _ => apply bool_decide_eq_true in H
  | H : bool_decide _ = false |- _ => apply bool_decide_eq_false in H
  | H : (_ =? _)%string = true |- _ => apply String.eqb_eq in H
  | H : (_ =? _)%string = false |- _ => apply String.eqb_neq in H
  end.

(** ** Counting the entries of a map *)

Section count_if.
Context {K A : Type} `{Countable K} (P : A → Prop) `{∀ a, Decision (P a)}.
Implicit Types (m : gmap K A) (k : K) (a : A).

Definition count_if m : nat := size (filter (λ kv, P kv.2) m).

Definition indicator (b : bool) : nat := if b then 1 else 0.

Lemma count_if_empty : count_if ∅ = 0.
Proof. unfold count_if. by rewrite map_filter_empty, map_size_empty. Qed.

Lemma count_if_insert_new m k a :
  m !! k = None →
  count_if (<[k:=a]> m) = indicator (bool_decide (P a)) + count_if m.
Proof.
  intros Hk. unfold count_if. rewrite map_filter_insert.
  assert (filter (λ kv, P kv.2) m !! k = None) as Hf.
  { apply map_lookup_filter_None. auto. }
  case_decide as HP; simpl in HP.
  - rewrite map_size_insert_None, bool_decide_eq_true_2; auto.
  - rewrite delete_id, bool_decide_eq_false_2; auto.
Qed.

Lemma count_if_insert m k old a :
  m !! k = Some old →
  count_if (<[k:=a]> m) + indicator (bool_decide (P old))
  = count_if m + indicator (bool_decide (P a)).
Proof.
  intros Hk. rewrite <- (insert_delete_id m k old) at 2 by done.
  rewrite <- insert_delete_eq.
  rewrite !count_if_insert_new by apply lookup_delete_eq. lia.
Qed.

Lemma count_if_pos m k a : m !! k = Some a → P a → 1 ≤ count_if m.
Proof.
  intros Hk HP. unfold count_if.
  destruct (decide (filter (λ kv, P kv.2) m = ∅)) as [He|He].
  - assert (filter (λ kv, P kv.2) m !! k = Some a) as Hl
      by (by apply map_lookup_filter_Some).
    rewrite He, lookup_empty in Hl. done.
  - apply map_size_non_empty_iff in He. lia.
Qed.
End count_if.

(** ** Adding up over a map *)

Section total.
Context {K A : Type} `{Countable K}.
Implicit Types (f g : A → nat) (m : gmap K A).

Definition total f m : nat := sum_list_with f (map_to_list m).*2.

Lemma total_ext f g m : (∀ k a, m !! k = Some a → f a = g a) → total f m = total g m.
Proof.
  intros Hfg. unfold total. assert (∀ a, a ∈ (map_to_list m).*2 → f a = g a) as Hin.
  { intros a ([k a'] & -> & Hk%elem_of_map_to_list)%list_elem_of_fmap. by eapply Hfg. }
  induction (map_to_list m).*2 as [|a l IH]; [done|]. simpl. rewrite Hin by (by left).
  rewrite IH; [done|]. intros; apply Hin. by right.
Qed.

(** One entry changes, and with it the measure of that entry alone. *)
Lemma total_update f g m k a a' :
  m !! k = Some a → (∀ k' b, k' ≠ k → m !! k' = Some b → f b = g b) →
  total g (<[k:=a']> m) + f a = total f m + g a'.
Proof.
  intros Hk Hfg. rewrite <- (insert_delete_id m k a Hk) at 2. rewrite <- insert_delete_eq.
  assert (total f (delete k m) = total g (delete k m)) as Heq.
  { apply total_ext. intros k' b [Hne Hb]%lookup_delete_Some. by apply (Hfg k'). }
  assert (∀ h b, total h (<[k:=b]> (delete k m)) = h b + total h (delete k m)) as Hins.
  { intros h b. unfold total. by rewrite map_to_list_insert by apply lookup_delete_eq. }
  rewrite !Hins. lia.
Qed.

Lemma total_insert f m k a a' : m !! k = Some a → total f (<[k:=a']> m) + f a = total f m + f a'.
Proof. intros Hk. by apply total_update. Qed.
End total.
