(* ===== verification/GoStrings.v ===== *)
(** String operations of the Go language and its standard library that the
    sources use: slicing, prefix tests, searching and splitting on a byte,
    [strings.ReplaceAll] of a byte, decimal printing and [strconv.ParseInt],
    [net.SplitHostPort] and [net.JoinHostPort].  Go strings are byte
    sequences; they are [string] here, one [ascii] per byte. *)

From S2P Require Import Prelude.

(** ** Slicing: [s[:n]] and [s[n:]] for [n <= len(s)] *)

Fixpoint str_take (n : nat) (s : string) : string :=
  match n, s with
  | S n, String a s => String a (str_take n s)
  | _, _ => EmptyString
  end.

Fixpoint str_drop (n : nat) (s : string) : string :=
  match n, s with
  | S n, String _ s => str_drop n s
  | _, s => s
  end.

(** [strings.HasPrefix] and [strings.TrimPrefix]. *)
Definition HasPrefix (s p : string) : bool :=
  (str_take (String.length p) s =? p)%string.

Definition TrimPrefix (s p : string) : string :=
  if HasPrefix s p then str_drop (String.length p) s else s.

(** [strings.Contains], and [strings.Replace] of the first occurrence. *)
Fixpoint Contains (s sub : string) : bool :=
  HasPrefix s sub || match s with String _ s => Contains s sub | "" => false end.
Fixpoint ReplaceFirst (s old new : string) : string :=
  if HasPrefix s old then new +:+ str_drop (String.length old) s
  else match s with String a s => String a (ReplaceFirst s old new) | "" => "" end.

(** The white space of [unicode.IsSpace], in UTF-8. *)
Definition utf8_byte (n : N) : string := String (ascii_of_N n) "".
Definition spaces : list string :=
  (utf8_byte <$> [9; 10; 11; 12; 13; 32]%N) ++
  ((λ l, foldr (λ n s, utf8_byte n +:+ s) "" l) <$>
    [[194; 133]; [194; 160]; [225; 154; 128]; [226; 128; 168]; [226; 128; 169]; [226; 128; 175];
     [226; 129; 159]; [227; 128; 128]]%N ++ ((λ k, [226; 128; 128 + N.of_nat k]%N) <$> seq 0 11)).

Fixpoint str_rev (acc s : string) : string :=
  match s with String a s => str_rev (String a acc) s | "" => acc end.

(** Cuts the strings of [cut] off the front; every turn cuts at least a byte. *)
Fixpoint trim_front (fuel : nat) (cut : list string) (s : string) : string :=
  match fuel with
  | O => s
  | S fuel =>
      match list_find (λ p, HasPrefix s p = true) cut with
      | Some (_, p) => trim_front fuel cut (str_drop (String.length p) s)
      | None => s
      end
  end.
(** [strings.TrimSpace] and [bytes.TrimSpace]. *)
Definition TrimSpace (s : string) : string :=
  let s := trim_front (String.length s) spaces s in
  str_rev "" (trim_front (String.length s) (str_rev "" <$> spaces) (str_rev "" s)).


(** ** Searching for a byte *)

(** The text before and after the first occurrence of [c]. *)
Fixpoint cut_byte (c : ascii) (s : string) : option (string * string) :=
  match s with
  | EmptyString => None
  | String a s =>
      if (a =? c)%char then Some (EmptyString, s)
      else match cut_byte c s with
           | Some (l, r) => Some (String a l, r)
           | None => None
           end
  end.

(** [strings.IndexByte(s, c) >= 0]. *)
Fixpoint contains_byte (c : ascii) (s : string) : bool :=
  match s with
  | EmptyString => false
  | String a s => (a =? c)%char || contains_byte c s
  end.

(** The text before and after the last occurrence of [c]
    ([bytealg.LastIndexByteString]). *)
Fixpoint cut_last_byte (c : ascii) (s : string) : option (string * string) :=
  match s with
  | EmptyString => None
  | String a s' =>
      match cut_last_byte c s' with
      | Some (l, r) => Some (String a l, r)
      | None => if (a =? c)%char then Some (EmptyString, s') else None
      end
  end.

(** [strings.Split(s, c)] for a one-byte separator. *)
Fixpoint split_byte (c : ascii) (s : string) : list string :=
  match s with
  | EmptyString => [EmptyString]
  | String a s' =>
      if (a =? c)%char then EmptyString :: split_byte c s'
      else match split_byte c s' with
           | x :: xs => String a x :: xs
           | [] => [String a EmptyString]
           end
  end.

(** [strings.Join(xs, c)]. *)
Fixpoint join_byte (c : ascii) (xs : list string) : string :=
  match xs with
  | [] => EmptyString
  | [x] => x
  | x :: xs => x +:+ String c (join_byte c xs)
  end.

(** [strings.ReplaceAll(s, c, d)] for one-byte [c] and [d]. *)
Fixpoint replace_byte (c d : ascii) (s : string) : string :=
  match s with
  | EmptyString => EmptyString
  | String a s => String (if (a =? c)%char then d else a) (replace_byte c d s)
  end.

(** ** Decimal numbers *)

Definition is_digit (a : ascii) : bool :=
  let n := nat_of_ascii a in (48 <=? n) && (n <=? 57).

Definition is_hex (a : ascii) : bool :=
  let n := nat_of_ascii a in
  is_digit a || ((97 <=? n) && (n <=? 102)) || ((65 <=? n) && (n <=? 70)).

Fixpoint str_all (p : ascii → bool) (s : string) : bool :=
  match s with
  | EmptyString => true
  | String a s => p a && str_all p s
  end.

(** Value of a digit string, most significant digit first. *)
Fixpoint dec_value (acc : Z) (s : string) : Z :=
  match s with
  | EmptyString => acc
  | String a s => dec_value (10 * acc + (Z.of_nat (nat_of_ascii a) - 48)) s
  end.

Definition max_int64 : Z := 9223372036854775807.

(** [strconv.ParseInt(s, 10, 64)] on a non-empty string of digits: a value
    above the range of int64 is a range error. *)
Definition ParseInt_digits (s : string) : result Z :=
  let v := dec_value 0 s in
  if (v <=? max_int64)%Z then Ok v else Err (Errorf "value out of range").

(** ** Host and port *)

(** [net.JoinHostPort]: a host with a colon is put in brackets. *)
Definition JoinHostPort (host port : string) : string :=
  if contains_byte ":" host then "[" +:+ host +:+ "]:" +:+ port
  else host +:+ ":" +:+ port.

(** [net.SplitHostPort]: the port follows the last colon; a bracketed host may
    contain colons, an unbracketed one may not, and no other bracket is allowed. *)
Definition SplitHostPort (hostport : string) : result (string * string) :=
  match cut_last_byte ":" hostport with
  | None => Err (Errorf "missing port in address")
  | Some (before, port) =>
      match hostport with
      | String "[" rest =>
          match cut_byte "]" rest with
          | None => Err (Errorf "missing ']' in address")
          | Some (host, after) =>
              match after with
              | EmptyString => Err (Errorf "missing port in address")
              | String c p =>
                  if negb (c =? ":")%char then Err (Errorf "missing port in address")
                  else if contains_byte ":" p then
                    Err (Errorf "too many colons in address")
                  else if contains_byte "[" host || contains_byte "[" after then
                    Err (Errorf "unexpected '[' in address")
                  else if contains_byte "]" after then
                    Err (Errorf "unexpected ']' in address")
                  else Ok (host, p)
              end
          end
      | _ =>
          if contains_byte ":" before then Err (Errorf "too many colons in address")
          else if contains_byte "[" hostport then Err (Errorf "unexpected '[' in address")
          else if contains_byte "]" hostport then Err (Errorf "unexpected ']' in address")
          else Ok (before, port)
      end
  end.

Example split_v4 : SplitHostPort "10.0.0.1:50051" = Ok ("10.0.0.1", "50051").
Proof. reflexivity. Qed.
Example split_v6 : SplitHostPort "[::1]:80" = Ok ("::1", "80").
Proof. reflexivity. Qed.
Example split_any : SplitHostPort ":50051" = Ok ("", "50051").
Proof. reflexivity. Qed.
Example split_bad : SplitHostPort "fe80::1:7946" = Err (Errorf "too many colons in address").
Proof. reflexivity. Qed.

(** ** Lemmas *)

Lemma str_app_nil_r (s : string) : s +:+ "" = s.
Proof. induction s as [|a s IH]; [done|]. by simpl; rewrite IH. Qed.

Lemma str_app_assoc (a b c : string) : a +:+ (b +:+ c) = (a +:+ b) +:+ c.
Proof. induction a as [|x a IH]; [done|]. by simpl; rewrite IH. Qed.

Lemma str_length_app (a b : string) :
  String.length (a +:+ b) = String.length a + String.length b.
Proof. induction a as [|x a IH]; [done|]. by simpl; rewrite IH. Qed.

Lemma str_take_app (a b : string) : str_take (String.length a) (a +:+ b) = a.
Proof. induction a as [|x a IH]; [by destruct b|]. by simpl; rewrite IH. Qed.

Lemma str_drop_app (a b : string) : str_drop (String.length a) (a +:+ b) = b.
Proof. induction a as [|x a IH]; [done|]. done. Qed.

Lemma str_take_drop n (s : string) : str_take n s +:+ str_drop n s = s.
Proof. revert s. induction n as [|n IH]; intros [|a s]; try done. by simpl; rewrite IH. Qed.

Lemma HasPrefix_app (p s : string) : HasPrefix (p +:+ s) p = true.
Proof. unfold HasPrefix. rewrite str_take_app. apply String.eqb_refl. Qed.

Lemma TrimPrefix_app (p s : string) : TrimPrefix (p +:+ s) p = s.
Proof. unfold TrimPrefix. by rewrite HasPrefix_app, str_drop_app. Qed.

Lemma contains_byte_app c (a b : string) :
  contains_byte c (a +:+ b) = contains_byte c a || contains_byte c b.
Proof. induction a as [|x a IH]; [done|]. simpl. by rewrite IH, orb_assoc. Qed.

Lemma cut_byte_app c (l r : string) :
  contains_byte c l = false → cut_byte c (l +:+ String c r) = Some (l, r).
Proof.
  induction l as [|a l IH]; simpl.
  - by rewrite Ascii.eqb_refl.
  - intros [Ha Hl]%orb_false_iff. by rewrite Ha, IH.
Qed.

Lemma cut_byte_none c (s : string) :
  contains_byte c s = false → cut_byte c s = None.
Proof.
  induction s as [|a s IH]; [done|]. simpl.
  intros [Ha Hs]%orb_false_iff. by rewrite Ha, IH.
Qed.

Lemma cut_last_byte_none c (s : string) :
  contains_byte c s = false → cut_last_byte c s = None.
Proof.
  induction s as [|a s IH]; [done|]. simpl.
  intros [Ha Hs]%orb_false_iff. by rewrite IH, Ha.
Qed.

Lemma cut_last_byte_app c (l r : string) :
  contains_byte c r = false → cut_last_byte c (l +:+ String c r) = Some (l, r).
Proof.
  intros Hr. induction l as [|a l IH]; simpl.
  - by rewrite cut_last_byte_none, Ascii.eqb_refl.
  - by rewrite IH.
Qed.

Lemma cut_byte_Some c (s l r : string) :
  cut_byte c s = Some (l, r) → s = l +:+ String c r ∧ contains_byte c l = false.
Proof.
  revert l r. induction s as [|a s IH]; intros l r; simpl; [done|].
  destruct (a =? c)%char eqn:E.
  - intros [= <- <-]. by apply Ascii.eqb_eq in E as ->.
  - destruct (cut_byte c s) as [[l' r']|]; [|done]. intros [= <- <-].
    destruct (IH l' r' eq_refl) as [-> Hl]. simpl. by rewrite E.
Qed.

Lemma cut_last_byte_Some c (s l r : string) :
  cut_last_byte c s = Some (l, r) → s = l +:+ String c r ∧ contains_byte c r = false.
Proof.
  revert l r. induction s as [|a s IH]; intros l r; simpl; [done|].
  destruct (cut_last_byte c s) as [[l' r']|] eqn:Ec.
  - intros [= <- <-]. destruct (IH l' r' eq_refl) as [-> ?]. done.
  - destruct (a =? c)%char eqn:E; [|done]. intros [= <- <-]. apply Ascii.eqb_eq in E as ->.
    split; [done|]. clear IH. induction s as [|b s IHs]; [done|]. simpl in *.
    destruct (cut_last_byte c s) as [[]|]; [done|].
    destruct (b =? c)%char; [done|]. by apply IHs.
Qed.

#[export] Hint Rewrite str_app_nil_r str_take_app str_drop_app HasPrefix_app TrimPrefix_app
  : gorego.

(** [SplitHostPort] inverts [JoinHostPort] for hosts without brackets and ports
    without colons and brackets: IPv4, IPv6 and names alike. *)
Lemma split_join_host_port host port :
  contains_byte "[" host = false → contains_byte "]" host = false →
  contains_byte ":" port = false → contains_byte "[" port = false →
  contains_byte "]" port = false →
  SplitHostPort (JoinHostPort host port) = Ok (host, port).
Proof.
  intros Hl Hr Hc Hpl Hpr. unfold JoinHostPort, SplitHostPort.
  destruct (contains_byte ":" host) eqn:Hcolon.
  - replace ("[" +:+ host +:+ "]:" +:+ port)
      with (("[" +:+ host +:+ "]") +:+ String ":" port)
      by (by rewrite <- !str_app_assoc).
    rewrite cut_last_byte_app by done. simpl.
    rewrite <- str_app_assoc. simpl. rewrite cut_byte_app by done. simpl.
    by rewrite Hc, Hl, Hpl, Hpr.
  - change (host +:+ ":" +:+ port) with (host +:+ String ":" port).
    rewrite cut_last_byte_app by done.
    assert (contains_byte "[" (host +:+ String ":" port) = false) as Hb1
      by (rewrite contains_byte_app; simpl; by rewrite Hl, Hpl).
    assert (contains_byte "]" (host +:+ String ":" port) = false) as Hb2
      by (rewrite contains_byte_app; simpl; by rewrite Hr, Hpr).
    destruct host as [|a host']; simpl in *; [by rewrite Hpl, Hpr|].
    destruct (a =? "[")%char eqn:Ha; [done|].
    destruct a as [[] [] [] [] [] [] [] []]; try done;
      by rewrite Hcolon, ?Hb1, ?Hb2.
Qed.

(** What [SplitHostPort] accepts: the parts contain no bracket, the port no colon. *)
Lemma SplitHostPort_Ok addr host port :
  SplitHostPort addr = Ok (host, port) →
  contains_byte "[" host = false ∧ contains_byte "]" host = false ∧
  contains_byte ":" port = false ∧ contains_byte "[" port = false ∧
  contains_byte "]" port = false.
Proof.
  unfold SplitHostPort. destruct (cut_last_byte ":" addr) as [[before p]|] eqn:Hl; [|done].
  apply cut_last_byte_Some in Hl as [Heq Hp].
  assert (∀ r, (if contains_byte ":" before then Err (Errorf "too many colons in address")
                else if contains_byte "[" addr then Err (Errorf "unexpected '[' in address")
                else if contains_byte "]" addr then Err (Errorf "unexpected ']' in address")
                else Ok (before, p)) = Ok r → r = (host, port) →
    contains_byte "[" host = false ∧ contains_byte "]" host = false ∧
    contains_byte ":" port = false ∧ contains_byte "[" port = false ∧
    contains_byte "]" port = false) as Hplain.
  { intros r. destruct (contains_byte ":" before); [done|].
    destruct (contains_byte "[" addr) eqn:E1; [done|].
    destruct (contains_byte "]" addr) eqn:E2; [done|]. intros [= <-] [= -> ->].
    rewrite Heq, contains_byte_app in E1, E2. simpl in E1, E2.
    apply orb_false_iff in E1, E2. tauto. }
  destruct addr as [|a rest]; [by destruct before|].
  destruct (a =? "[")%char eqn:Ha.
  - apply Ascii.eqb_eq in Ha as ->.
    destruct (cut_byte "]" rest) as [[h after]|] eqn:Hc; [|done].
    apply cut_byte_Some in Hc as [_ Hh]. destruct after as [|c q]; [done|].
    destruct (c =? ":")%char eqn:Ec; [|done]. simpl. destruct (contains_byte ":" q) eqn:E0; [done|].
    apply Ascii.eqb_eq in Ec as ->. simpl.
    destruct (contains_byte "[" h || contains_byte "[" q) eqn:E1; [done|].
    destruct (contains_byte "]" q) eqn:E2; [done|]. intros [= <- <-].
    apply orb_false_iff in E1 as [? ?]. done.
  - intros Hr. eapply Hplain; [|done]. revert Hr.
    destruct a as [[] [] [] [] [] [] [] []]; done.
Qed.

Lemma split_byte_nonempty c (s : string) : split_byte c s ≠ [].
Proof. destruct s as [|a s]; simpl; [done|]. crush. Qed.

Lemma split_byte_no_sep c (s : string) :
  contains_byte c s = false → split_byte c s = [s].
Proof.
  induction s as [|a s IH]; [done|]. simpl.
  intros [Ha Hs]%orb_false_iff. by rewrite Ha, IH.
Qed.

(** Splitting at a separator: the pieces of both sides. *)
Lemma split_byte_app_sep c (l r : string) :
  split_byte c (l +:+ String c r) = split_byte c l ++ split_byte c r.
Proof.
  induction l as [|a l IH]; simpl; [by rewrite Ascii.eqb_refl|].
  destruct (a =? c)%char; [by rewrite IH|]. rewrite IH.
  destruct (split_byte c l) as [|x xs] eqn:E; [by destruct (split_byte_nonempty c l)|done].
Qed.

Lemma join_split_byte c (s : string) : join_byte c (split_byte c s) = s.
Proof.
  induction s as [|a s IH]; [done|]. simpl.
  destruct (a =? c)%char eqn:Ha.
  - apply Ascii.eqb_eq in Ha as ->. simpl. rewrite IH.
    destruct (split_byte c s) eqn:E; [by destruct (split_byte_nonempty c s)|done].
  - destruct (split_byte c s) as [|x xs] eqn:E; [by destruct (split_byte_nonempty c s)|].
    simpl in *. destruct xs; simpl in *; congruence.
Qed.

Lemma replace_byte_app c d (a b : string) :
  replace_byte c d (a +:+ b) = replace_byte c d a +:+ replace_byte c d b.
Proof. induction a as [|x a IH]; [done|]. by simpl; rewrite IH. Qed.
Lemma replace_byte_id c d (s : string) : contains_byte c s = false → replace_byte c d s = s.
Proof.
  induction s as [|x s IH]; [done|]. simpl. intros [Hx Hs]%orb_false_iff. by rewrite Hx, IH.
Qed.
(** Replacing by a byte that does not occur loses nothing. *)
Lemma replace_byte_inj c d (a b : string) :
  contains_byte d a = false → contains_byte d b = false →
  replace_byte c d a = replace_byte c d b → a = b.
Proof.
  revert b. induction a as [|x a IH]; intros [|y b]; simpl; try done.
  intros [Hx Ha]%orb_false_iff [Hy Hb]%orb_false_iff [= Hxy Hab]. f_equal; [|by apply IH].
  apply Ascii.eqb_neq in Hx, Hy.
  destruct (x =? c)%char eqn:Ex, (y =? c)%char eqn:Ey; try congruence.
  apply Ascii.eqb_eq in Ex, Ey. congruence.
Qed.
Lemma replace_byte_contains c d e (s : string) :
  e ≠ d → contains_byte e s = false → contains_byte e (replace_byte c d s) = false.
Proof.
  intros He. induction s as [|x s IH]; [done|]. simpl. intros [Hx Hs]%orb_false_iff.
  rewrite IH by done. rewrite orb_false_r. destruct (x =? c)%char; [|done]. apply Ascii.eqb_neq. congruence.
Qed.

Lemma join_byte_contains c s (l : list string) :
  c ≠ s → Forall (λ x, contains_byte c x = false) l → contains_byte c (join_byte s l) = false.
Proof.
  intros Hs Hl. induction Hl as [|x l Hx Hl IH]; [done|]. destruct l as [|y l]; [done|].
  change (join_byte s (x :: y :: l)) with (x +:+ String s (join_byte s (y :: l))).
  rewrite contains_byte_app, Hx. cbn [contains_byte orb]. rewrite IH, orb_false_r.
  apply Ascii.eqb_neq. congruence.
Qed.

(** Splitting what has been joined, with something appended to the last piece. *)
Lemma split_join_byte c (l : list string) x y :
  Forall (λ s, contains_byte c s = false) l → contains_byte c x = false → contains_byte c y = false →
  split_byte c (join_byte c (l ++ [x]) +:+ y) = l ++ [x +:+ y].
Proof.
  intros Hl Hx Hy. induction Hl as [|s l Hs Hl IH].
  - simpl. rewrite split_byte_no_sep; [done|]. by rewrite contains_byte_app, Hx, Hy.
  - assert (join_byte c ((s :: l) ++ [x]) = s +:+ String c (join_byte c (l ++ [x]))) as ->
      by (simpl; by destruct l).
    rewrite <- str_app_assoc. simpl. rewrite split_byte_app_sep, (split_byte_no_sep c s) by done.
    by rewrite IH.
Qed.

Lemma split_byte_pieces c (s x : string) :
  x ∈ split_byte c s → contains_byte c x = false.
Proof.
  revert x. induction s as [|a s IH]; intros x; simpl.
  - by rewrite list_elem_of_singleton; intros ->.
  - destruct (a =? c)%char eqn:Ha.
    + rewrite elem_of_cons. intros [->|Hx]; auto.
    + destruct (split_byte c s) as [|y ys] eqn:E; [by destruct (split_byte_nonempty c s)|].
      rewrite elem_of_cons. intros [->|Hx].
      * simpl. rewrite Ha. apply IH. by left.
      * apply IH. by right.
Qed.

(** Decimal printing ([fmt.Sprintf("%d", n)] for [n >= 0]) and its reading. *)
Definition print_dec (n : N) : string := pretty n.

Lemma pretty_go_digits n s :
  str_all is_digit s = true → str_all is_digit (pretty_N_go n s) = true.
Proof.
  revert s. induction (N.lt_wf_0 n) as [n _ IH]. intros s Hs.
  destruct (decide (0 < n)%N) as [Hn|Hn].
  - rewrite pretty_N_go_step by done. apply IH; [apply N.div_lt; lia|].
    simpl. rewrite Hs, andb_true_r. unfold pretty_N_char. by repeat case_match.
  - assert (n = 0%N) as -> by lia. by rewrite pretty_N_go_0.
Qed.

Lemma print_dec_digits n : str_all is_digit (print_dec n) = true.
Proof.
  unfold print_dec, pretty, pretty_N. case_decide; [done|]. by apply pretty_go_digits.
Qed.

Lemma digits_no_byte c s :
  is_digit c = false → str_all is_digit s = true → contains_byte c s = false.
Proof.
  intros Hc. induction s as [|a s IH]; [done|]. simpl. intros [Ha Hs]%andb_true_iff.
  rewrite IH by done. rewrite orb_false_r. apply Ascii.eqb_neq. intros ->. congruence.
Qed.

Lemma print_dec_no_colon n : contains_byte ":" (print_dec n) = false.
Proof. apply digits_no_byte; [done|]. apply print_dec_digits. Qed.

Lemma print_dec_inj n m : print_dec n = print_dec m → n = m.
Proof. apply (inj pretty). Qed.

(** Reading what was printed. *)
Lemma pretty_char_value d :
  (d < 10)%N → (Z.of_nat (nat_of_ascii (pretty_N_char d)) - 48)%Z = Z.of_N d.
Proof.
  intros Hd. assert (d = 0 ∨ d = 1 ∨ d = 2 ∨ d = 3 ∨ d = 4 ∨ d = 5 ∨ d = 6 ∨ d = 7 ∨ d = 8 ∨ d = 9)%N
    as Hc by lia.
  repeat destruct Hc as [->|Hc]; try reflexivity. by subst.
Qed.

Lemma pretty_go_value n s : dec_value 0 (pretty_N_go n s) = dec_value (Z.of_N n) s.
Proof.
  revert s. induction n as [n IH] using (well_founded_induction N.lt_wf_0); intros s.
  destruct (decide (0 < n)%N) as [Hn|Hn].
  - rewrite pretty_N_go_step by done. rewrite IH by (apply N.div_lt; lia). simpl.
    rewrite pretty_char_value by (apply N.mod_lt; lia). f_equal.
    rewrite N2Z.inj_div, N2Z.inj_mod. pose proof (Z.div_mod (Z.of_N n) 10). lia.
  - assert (n = 0%N) as -> by lia. by rewrite pretty_N_go_0.
Qed.

Lemma dec_value_print n : dec_value 0 (print_dec n) = Z.of_N n.
Proof.
  unfold print_dec, pretty, pretty_N. case_decide as Hn; [by subst|]. by rewrite pretty_go_value.
Qed.

Lemma ParseInt_print n : (Z.of_N n ≤ max_int64)%Z → ParseInt_digits (print_dec n) = Ok (Z.of_N n).
Proof. intros Hn. unfold ParseInt_digits. by rewrite dec_value_print, (proj2 (Z.leb_le _ _) Hn). Qed.

Lemma print_dec_nonempty n : print_dec n ≠ "".
Proof.
  intros Hd. pose proof (dec_value_print n) as Hv. rewrite Hd in Hv. simpl in Hv.
  assert (n = 0%N) as -> by lia. done.
Qed.
