(* ===== verification/Messages.v ===== *)
(** The messages the components exchange: digests and the fields of the Remote
    Execution API messages the sources read or write, and the interfaces to the
    libraries that produce them ([anypb], grpc [status], the SDK's [digest]).
    Those libraries are not part of the repository; each is a class whose laws
    are the documented behaviour the sources rely on. *)

From S2P Require Import Prelude GoStrings.

(** The conversion [int32(n)]. *)
Definition int32 (z : Z) : Z := ((z + 2 ^ 31) mod 2 ^ 32 - 2 ^ 31)%Z.

(** [repb.Digest], the wire form, and [digest.Digest] ([storage.Digest]). *)
Record PbDigest := mkPbDigest { pb_Hash : string; pb_SizeBytes : Z }.
Record Digest := mkDigest { Hash : string; Size : Z }.

#[global] Instance PbDigest_eq_dec : EqDecision PbDigest.
Proof. solve_decision. Defined.
#[global] Instance Digest_eq_dec : EqDecision Digest.
Proof. solve_decision. Defined.

Inductive Stage := STAGE_QUEUED | STAGE_EXECUTING | STAGE_COMPLETED.

Record ExecuteOperationMetadata := mkMetadata {
  md_Stage : Stage;
  md_ActionDigest : PbDigest;
}.

Record OutputFile := mkOutputFile {
  of_Path : string; of_Digest : PbDigest; of_IsExecutable : bool }.
Record OutputDirectory := mkOutputDirectory {
  od_Path : string; od_TreeDigest : PbDigest; od_RootDirectoryDigest : PbDigest }.

Record ActionResult := mkActionResult {
  ar_OutputFiles : list OutputFile;
  ar_OutputDirectories : list OutputDirectory;
  ar_ExitCode : Z;
  ar_StdoutDigest : option PbDigest;
  ar_StderrDigest : option PbDigest;
}.

Record ExecuteResponse := mkExecuteResponse {
  er_Result : ActionResult;
  er_CachedResult : bool;
}.

#[global] Instance Stage_eq_dec : EqDecision Stage.
Proof. solve_decision. Defined.
#[global] Instance Metadata_eq_dec : EqDecision ExecuteOperationMetadata.
Proof. solve_decision. Defined.
#[global] Instance OutputFile_eq_dec : EqDecision OutputFile.
Proof. solve_decision. Defined.
#[global] Instance OutputDirectory_eq_dec : EqDecision OutputDirectory.
Proof. solve_decision. Defined.
#[global] Instance ActionResult_eq_dec : EqDecision ActionResult.
Proof. solve_decision. Defined.
#[global] Instance ExecuteResponse_eq_dec : EqDecision ExecuteResponse.
Proof. solve_decision. Defined.

(** [google.rpc.Status], as [status.Convert(err).Proto()] gives it. *)
Record RpcStatus := mkRpcStatus { st_code : code; st_msg : string }.

(** grpc's [status.Convert]: a status error keeps its code and message. *)
Class GrpcStatus := {
  status_Convert : error → RpcStatus;
  status_Convert_status c m : status_Convert (StatusErr c m) = mkRpcStatus c m;
}.

(** [status.Code(err)] for a non-nil error. *)
Definition status_Code `{GrpcStatus} (e : error) : code := st_code (status_Convert e).

(** [os.IsNotExist(err)] does not look through [fmt.Errorf] wrapping. *)
Definition os_IsNotExist (e : error) : bool :=
  match e with ErrNotExist => true | _ => false end.

(** [anypb.New] packs a message into an [Any]; it fails when the message cannot
    be marshalled (for example a string that is not UTF-8). *)
Class AnyPb := {
  Any : Type;
  any_New_metadata : ExecuteOperationMetadata → result Any;
  any_New_response : ExecuteResponse → result Any;
}.

(** [digest.NewFromProto] of the SDK validates a wire digest; a digest it
    returns has the same hash and size, and its hash has 64 hex digits. *)
Class DigestSdk := {
  NewFromProto : PbDigest → result Digest;
  NewFromProto_fields p d :
    NewFromProto p = Ok d → Hash d = pb_Hash p ∧ Size d = pb_SizeBytes p;
  NewFromProto_valid p d :
    NewFromProto p = Ok d →
    String.length (Hash d) = 64 ∧ str_all is_hex (Hash d) = true;
}.

(** [Digest.ToProto] of the SDK. *)
Definition ToProto (d : Digest) : PbDigest := mkPbDigest (Hash d) (Size d).

(** The levels of package slog. *)
Inductive Level := LevelDebug | LevelInfo | LevelWarn | LevelError.

(** Instances that show the laws can be met; witnesses evaluate with them. *)
Module Concrete.
#[export] Instance grpc_status : GrpcStatus := {|
  status_Convert e :=
    match e with StatusErr c m => mkRpcStatus c m | _ => mkRpcStatus Unknown "" end;
  status_Convert_status c m := eq_refl;
|}.

#[export] Instance any_pb : AnyPb := {|
  Any := ExecuteOperationMetadata + ExecuteResponse;
  any_New_metadata m := Ok (inl m);
  any_New_response r := Ok (inr r);
|}.

Definition new_from_proto (p : PbDigest) : result Digest :=
  if (String.length (pb_Hash p) =? 64) && str_all is_hex (pb_Hash p)
  then Ok (mkDigest (pb_Hash p) (pb_SizeBytes p))
  else Err (Errorf "invalid digest").

#[export] Program Instance digest_sdk : DigestSdk := {| NewFromProto := new_from_proto |}.
Next Obligation. intros p d. unfold new_from_proto. crush. Qed.
Next Obligation.
  intros p d. unfold new_from_proto. destruct (_ && _) eqn:E; [|done].
  intros [= <-]. simpl. apply andb_true_iff in E as [E ?]. by apply Nat.eqb_eq in E.
Qed.
End Concrete.
