(* ===== verification/Scheduler.v ===== *)
(** The scheduler (src/pkg/scheduler/scheduler.go): the table of operations, the
    bounded task queue, the subscriptions and the count of executing operations.

    Every method holds the scheduler's mutex for its whole body, or performs a
    single channel operation, so a method is one step of the model.  The
    operation objects are shared: the table, the subscribers' channels and the
    streaming handlers all hold pointers to them.  The model keeps the objects
    in [heap] and passes addresses around, so an update made through one pointer
    is seen through all of them, and an object removed from the table lives on.
    The clock and the generated UUIDs are arguments. *)

From S2P Require Import Prelude GoStrings Messages.

Module Scheduler.

Inductive OperationState := StateQueued | StateExecuting | StateCompleted.

#[global] Instance OperationState_eq_dec : EqDecision OperationState.
Proof. solve_decision. Defined.

Record Task := mkTask {
  OperationID : string;
  ActionDigest : PbDigest;
  SkipCache : bool;
  QueuedAt : Z;
}.

Record OperationStatus := mkOp {
  Name : string;
  State : OperationState;
  Metadata : ExecuteOperationMetadata;
  Result : option ExecuteResponse;
  Error : option error;
  CreatedAt : Z;
  UpdatedAt : Z;
}.

(** A subscriber's channel: addresses of operation objects, at most
    [chan_cap] of them; [closed] is set by [close]. *)
Record Chan := mkChan { buf : list nat; closed : bool }.
Definition chan_cap : nat := 10.

Record Scheduler := mkSched {
  heap : gmap nat OperationStatus;
  operations : gmap string nat;
  subscribers : gmap string (list nat);
  chans : gmap nat Chan;
  taskQueue : list Task;
  queueSize : nat;
  retention : Z;
  nodeID : string;
  executingCount : Z;
  nextAddr : nat;
}.

Definition minute : Z := 60 * 1000000000.

Definition NewScheduler (queueSize : nat) (nodeID : string) : Scheduler := {|
  heap := ∅; operations := ∅; subscribers := ∅; chans := ∅;
  taskQueue := []; queueSize := queueSize; retention := 10 * minute;
  nodeID := nodeID; executingCount := 0; nextAddr := 0;
|}.

(** *** Field updates *)

Definition set_heap h s := mkSched h (operations s) (subscribers s) (chans s)
  (taskQueue s) (queueSize s) (retention s) (nodeID s) (executingCount s) (nextAddr s).
Definition set_chans c s := mkSched (heap s) (operations s) (subscribers s) c
  (taskQueue s) (queueSize s) (retention s) (nodeID s) (executingCount s) (nextAddr s).
Definition set_queue q s := mkSched (heap s) (operations s) (subscribers s) (chans s)
  q (queueSize s) (retention s) (nodeID s) (executingCount s) (nextAddr s).
Definition set_count n s := mkSched (heap s) (operations s) (subscribers s) (chans s)
  (taskQueue s) (queueSize s) (retention s) (nodeID s) n (nextAddr s).
Definition set_operations o s := mkSched (heap s) o (subscribers s) (chans s)
  (taskQueue s) (queueSize s) (retention s) (nodeID s) (executingCount s) (nextAddr s).
Definition set_subscribers b s := mkSched (heap s) (operations s) b (chans s)
  (taskQueue s) (queueSize s) (retention s) (nodeID s) (executingCount s) (nextAddr s).
Definition set_next n s := mkSched (heap s) (operations s) (subscribers s) (chans s)
  (taskQueue s) (queueSize s) (retention s) (nodeID s) (executingCount s) n.

(** *** Conversion to the wire form *)

(** The result of a finished operation: an error status or a response. *)
Inductive OpResult `{AnyPb} :=
  | Operation_Error (st : RpcStatus)
  | Operation_Response (a : Any).

Record Operation `{AnyPb} := mkOperation {
  op_Name : string;
  op_Metadata : Any;
  op_Done : bool;
  op_Result : option OpResult;
}.

Section methods.
Context `{GrpcStatus, AnyPb}.

Definition toProto (op : OperationStatus) : result Operation :=
  match any_New_metadata (Metadata op) with
  | Err e => Err (Wrapped "failed to marshal metadata" e)
  | Ok metadataAny =>
      let done := bool_decide (State op = StateCompleted) in
      if done then
        match Error op with
        | Some e =>
            Ok (mkOperation _ (Name op) metadataAny done
                  (Some (Operation_Error (status_Convert e))))
        | None =>
            match Result op with
            | Some r =>
                match any_New_response r with
                | Err e => Err (Wrapped "failed to marshal result" e)
                | Ok resultAny =>
                    Ok (mkOperation _ (Name op) metadataAny done
                          (Some (Operation_Response resultAny)))
                end
            | None => Ok (mkOperation _ (Name op) metadataAny done None)
            end
        end
      else Ok (mkOperation _ (Name op) metadataAny done None)
  end.

(** *** Naming *)

Definition opName (operationID : string) : string := "operations/" +:+ operationID.

(** The ID [Enqueue] gives an operation: [prefix:uuid], the override taking
    precedence over the scheduler's node ID, or the bare UUID. *)
Definition newOperationID (s : Scheduler) (uuid nodeIDOverride : string) : string :=
  let prefix := if (nodeIDOverride =? "")%string then nodeID s else nodeIDOverride in
  if (prefix =? "")%string then uuid else prefix +:+ ":" +:+ uuid.

(** *** Queue *)

Definition Enqueue (uuid : string) (now : Z) (actionDigest : PbDigest) (skipCache : bool)
    (nodeIDOverride : string) (s : Scheduler) : result Operation * Scheduler :=
  let operationID := newOperationID s uuid nodeIDOverride in
  let name := opName operationID in
  let metadata := mkMetadata STAGE_QUEUED actionDigest in
  let task := mkTask operationID actionDigest skipCache now in
  let opStatus := mkOp name StateQueued metadata None None now now in
  if (List.length (taskQueue s) <? queueSize s)%nat then
    let l := nextAddr s in
    (toProto opStatus,
     mkSched (<[l := opStatus]> (heap s)) (<[name := l]> (operations s)) (subscribers s)
       (chans s) (taskQueue s ++ [task]) (queueSize s) (retention s) (nodeID s)
       (executingCount s) (S l))
  else (Err (StatusErr ResourceExhausted "execution queue is full"), s).

(** A receive from the queue; [None] while it is empty (the caller blocks). *)
Definition Dequeue (s : Scheduler) : option (Task * Scheduler) :=
  match taskQueue s with
  | task :: q => Some (task, set_queue q s)
  | [] => None
  end.

(** *** Notification *)

(** A non-blocking send of [l] on every channel of [chs]: a full channel is
    skipped, a send on a closed channel panics. *)
Fixpoint notify (l : nat) (chs : list nat) (cs : gmap nat Chan) : option (gmap nat Chan) :=
  match chs with
  | [] => Some cs
  | c :: chs =>
      match cs !! c with
      | None => notify l chs cs
      | Some ch =>
          if closed ch then None
          else if (List.length (buf ch) <? chan_cap)%nat
          then notify l chs (<[c := mkChan (buf ch ++ [l]) false]> cs)
          else notify l chs cs
      end
  end.

Definition notifySubscribersLocked (name : string) (l : nat) (s : Scheduler)
    : option Scheduler :=
  cs ← notify l (default [] (subscribers s !! name)) (chans s);
  Some (set_chans cs s).

(** *** State changes *)

(** [UpdateState]; [None] is a panic. *)
Definition UpdateState (name : string) (state : OperationState)
    (metadata : ExecuteOperationMetadata) (now : Z) (s : Scheduler) : option Scheduler :=
  match operations s !! name with
  | None => Some s
  | Some l =>
      op ← heap s !! l;
      let s :=
        if bool_decide (State op ≠ StateExecuting) && bool_decide (state = StateExecuting)
        then set_count (executingCount s + 1) s
        else if bool_decide (State op = StateExecuting) && bool_decide (state ≠ StateExecuting)
        then set_count (executingCount s - 1) s
        else s in
      let op := mkOp (Name op) state metadata (Result op) (Error op) (CreatedAt op) now in
      notifySubscribersLocked name l (set_heap (<[l := op]> (heap s)) s)
  end.

Definition completed_metadata (m : ExecuteOperationMetadata) : ExecuteOperationMetadata :=
  mkMetadata STAGE_COMPLETED (md_ActionDigest m).

Definition Complete (name : string) (res : ExecuteResponse) (now : Z) (s : Scheduler)
    : option Scheduler :=
  match operations s !! name with
  | None => Some s
  | Some l =>
      op ← heap s !! l;
      let s := if bool_decide (State op = StateExecuting)
               then set_count (executingCount s - 1) s else s in
      let op := mkOp (Name op) StateCompleted (completed_metadata (Metadata op))
                  (Some res) (Error op) (CreatedAt op) now in
      notifySubscribersLocked name l (set_heap (<[l := op]> (heap s)) s)
  end.

Definition FailOp (name : string) (err : error) (now : Z) (s : Scheduler)
    : option Scheduler :=
  match operations s !! name with
  | None => Some s
  | Some l =>
      op ← heap s !! l;
      let s := if bool_decide (State op = StateExecuting)
               then set_count (executingCount s - 1) s else s in
      let op := mkOp (Name op) StateCompleted (completed_metadata (Metadata op))
                  (Result op) (Some err) (CreatedAt op) now in
      notifySubscribersLocked name l (set_heap (<[l := op]> (heap s)) s)
  end.

(** *** Queries *)

Definition lookup_op (s : Scheduler) (name : string) : option OperationStatus :=
  l ← operations s !! name; heap s !! l.

Definition GetOperation (name : string) (s : Scheduler) : result Operation :=
  match lookup_op s name with
  | None => Err (StatusErr NotFound "operation not found")
  | Some op => toProto op
  end.

(** The operations that can be converted, in the map's iteration order. *)
Definition ListOperations (s : Scheduler) : list Operation :=
  omap (λ nl, op ← heap s !! nl.2;
              match toProto op with Ok o => Some o | Err _ => None end)
    (map_to_list (operations s)).

Definition GetPendingTaskCount (s : Scheduler) : Z :=
  Z.of_nat (List.length (taskQueue s)) + executingCount s.

(** *** Cancel, delete *)

Definition cancelled : error := StatusErr Canceled "operation cancelled".

Definition CancelOperation (name : string) (now : Z) (s : Scheduler)
    : option (result unit * Scheduler) :=
  match operations s !! name with
  | None => Some (Err (StatusErr NotFound "operation not found"), s)
  | Some l =>
      op ← heap s !! l;
      if bool_decide (State op ≠ StateQueued)
      then Some (Err (StatusErr FailedPrecondition "can only cancel queued operations"), s)
      else
        let op := mkOp (Name op) StateCompleted (completed_metadata (Metadata op))
                    (Result op) (Some cancelled) (CreatedAt op) now in
        s ← notifySubscribersLocked name l (set_heap (<[l := op]> (heap s)) s);
        Some (Ok tt, s)
  end.

Definition DeleteOperation (name : string) (s : Scheduler) : result unit * Scheduler :=
  match operations s !! name with
  | None => (Err (StatusErr NotFound "operation not found"), s)
  | Some _ => (Ok tt, set_operations (delete name (operations s)) s)
  end.

(** *** Subscriptions *)

(** A new channel with the current object already in it; returns its ID. *)
Definition Subscribe (name : string) (s : Scheduler) : nat * Scheduler :=
  let c := nextAddr s in
  let current := match operations s !! name with Some l => [l] | None => [] end in
  (c, mkSched (heap s) (operations s)
        (<[name := default [] (subscribers s !! name) ++ [c]]> (subscribers s))
        (<[c := mkChan current false]> (chans s))
        (taskQueue s) (queueSize s) (retention s) (nodeID s) (executingCount s) (S c)).

(** Removes the first occurrence of the channel; [None] if it is not there. *)
Fixpoint remove_sub (c : nat) (subs : list nat) : option (list nat) :=
  match subs with
  | [] => None
  | x :: subs => if bool_decide (x = c) then Some subs
                 else match remove_sub c subs with
                      | Some r => Some (x :: r)
                      | None => None
                      end
  end.

(** The closure [Subscribe] returns; closing a closed channel panics. *)
Definition unsubscribe (name : string) (c : nat) (s : Scheduler) : option Scheduler :=
  match remove_sub c (default [] (subscribers s !! name)) with
  | None => Some s
  | Some subs =>
      match chans s !! c with
      | None => Some (set_subscribers (<[name := subs]> (subscribers s)) s)
      | Some ch =>
          if closed ch then None
          else Some (set_chans (<[c := mkChan (buf ch) true]> (chans s))
                       (set_subscribers (<[name := subs]> (subscribers s)) s))
      end
  end.

(** A receive from a subscriber's channel: the address at its head.  [None]
    while the channel is empty. *)
Definition recv (c : nat) (s : Scheduler) : option (nat * Scheduler) :=
  ch ← chans s !! c;
  match buf ch with
  | [] => None
  | l :: ls => Some (l, set_chans (<[c := mkChan ls (closed ch)]> (chans s)) s)
  end.

(** *** Cleanup *)

Definition expired (s : Scheduler) (now : Z) (l : nat) : bool :=
  let cutoff := (now - retention s)%Z in
  match heap s !! l with
  | Some op => bool_decide (State op = StateCompleted) && (UpdatedAt op <? cutoff)%Z
  | None => false
  end.

Definition CleanupExpired (now : Z) (s : Scheduler) : Scheduler :=
  foldr (λ nl s', if expired s now nl.2
                  then set_subscribers (delete nl.1 (subscribers s'))
                         (set_operations (delete nl.1 (operations s')) s')
                  else s')
    s (map_to_list (operations s)).

(** [Run]: a cleanup for every tick, until the context ends. *)
Inductive wakeup := Tick (now : Z) | CtxDone (err : error).
Fixpoint Run (ws : list wakeup) (s : Scheduler) : option error * Scheduler :=
  match ws with
  | [] => (None, s)
  | Tick now :: ws => Run ws (CleanupExpired now s)
  | CtxDone err :: _ => (Some err, s)
  end.

Definition NodeID (s : Scheduler) : string := nodeID s.

(** *** Node IDs in operation names *)

Definition ParseOperationNodeID (operationName : string) : string * string :=
  let name :=
    if (11 <? String.length operationName)%nat
       && (str_take 11 operationName =? "operations/")%string
    then str_drop 11 operationName else operationName in
  match cut_byte ":" name with
  | Some (nodeID, operationID) => (nodeID, operationID)
  | None => ("", name)
  end.
End methods.

(** ** Runs

    What clients, handlers and workers do to a scheduler, in the order in which
    they get the lock.  [EDequeue] and [ERecv] on an empty channel block: the
    event then leaves the state as it is. *)

Inductive event :=
  | EEnqueue (uuid : string) (now : Z) (d : PbDigest) (skip : bool) (override : string)
  | EDequeue
  | EUpdate (name : string) (st : OperationState) (md : ExecuteOperationMetadata) (now : Z)
  | EComplete (name : string) (res : ExecuteResponse) (now : Z)
  | EFail (name : string) (err : error) (now : Z)
  | ECancel (name : string) (now : Z)
  | EDelete (name : string)
  | ESubscribe (name : string)
  | EUnsubscribe (name : string) (c : nat)
  | ERecv (c : nat)
  | ECleanup (now : Z).

Section runs.
Context `{GrpcStatus, AnyPb}.

(** One event; [None] is a panic. *)
Definition step (s : Scheduler) (e : event) : option Scheduler :=
  match e with
  | EEnqueue uuid now d skip override => Some (Enqueue uuid now d skip override s).2
  | EDequeue => Some (default s (snd <$> Dequeue s))
  | EUpdate name st md now => UpdateState name st md now s
  | EComplete name res now => Complete name res now s
  | EFail name err now => FailOp name err now s
  | ECancel name now => snd <$> CancelOperation name now s
  | EDelete name => Some (DeleteOperation name s).2
  | ESubscribe name => Some (Subscribe name s).2
  | EUnsubscribe name c => unsubscribe name c s
  | ERecv c => Some (default s (snd <$> recv c s))
  | ECleanup now => Some (CleanupExpired now s)
  end.

Fixpoint run (s : Scheduler) (es : list event) : option Scheduler :=
  match es with
  | [] => Some s
  | e :: es => s' ← step s e; run s' es
  end.

(** Tasks a run accepts into the queue, and tasks it hands to workers. *)
Definition accepted_by (s : Scheduler) (e : event) : list Task :=
  match e with
  | EEnqueue uuid now d skip override =>
      if (List.length (taskQueue s) <? queueSize s)%nat
      then [mkTask (newOperationID s uuid override) d skip now] else []
  | _ => []
  end.
Definition handed_by (s : Scheduler) (e : event) : list Task :=
  match e with EDequeue => option_list (fst <$> Dequeue s) | _ => [] end.

Fixpoint over_run (f : Scheduler → event → list Task) (s : Scheduler) (es : list event)
    : list Task :=
  match es with
  | [] => []
  | e :: es => f s e ++ match step s e with Some s' => over_run f s' es | None => [] end
  end.
End runs.

(** ** The invariant *)

Definition executing (op : OperationStatus) : Prop := State op = StateExecuting.
#[global] Instance executing_dec op : Decision (executing op).
Proof. unfold executing. apply _. Defined.
#[global] Typeclasses Opaque executing.

Definition subs_of (s : Scheduler) (name : string) : list nat :=
  default [] (subscribers s !! name).

Record wf (s : Scheduler) : Prop := {
  (** the table points to live objects that carry the entry's own name *)
  wf_ops n l : operations s !! n = Some l → ∃ op, heap s !! l = Some op ∧ Name op = n;
  (** addresses not yet handed out are unused *)
  wf_heap_next l : is_Some (heap s !! l) → l < nextAddr s;
  wf_chan_next c : is_Some (chans s !! c) → c < nextAddr s;
  (** subscribed channels exist and are open, once each and under one name *)
  wf_subs n c : c ∈ subs_of s n → ∃ ch, chans s !! c = Some ch ∧ closed ch = false;
  wf_subs_nodup n : NoDup (subs_of s n);
  wf_subs_name n1 n2 c : c ∈ subs_of s n1 → c ∈ subs_of s n2 → n1 = n2;
  (** channel and queue bounds *)
  wf_buf c ch : chans s !! c = Some ch → List.length (buf ch) ≤ chan_cap;
  wf_buf_heap c ch l : chans s !! c = Some ch → l ∈ buf ch → is_Some (heap s !! l);
  wf_queue : List.length (taskQueue s) ≤ queueSize s;
  (** the counter counts the objects in state Executing, listed or not *)
  wf_count : executingCount s = Z.of_nat (count_if executing (heap s));
}.

Lemma wf_new qs node : wf (NewScheduler qs node).
Proof.
  split; unfold subs_of; simpl; intros *; rewrite ?lookup_empty; simpl;
    try done; try lia; try set_solver; try by intros [].
  - apply NoDup_nil_2.
Qed.

(** [notify] extends the buffers of some channels of the list by [l]. *)
Definition notified (l : nat) (ch ch' : Chan) : Prop :=
  closed ch' = closed ch ∧
  (buf ch' = buf ch ∨ (buf ch' = buf ch ++ [l] ∧ List.length (buf ch) < chan_cap)).

Lemma notified_refl l ch : notified l ch ch.
Proof. split; auto. Qed.
#[local] Hint Resolve notified_refl : gorego.

Lemma notify_ok l chs cs :
  NoDup chs →
  (∀ c, c ∈ chs → ∃ ch, cs !! c = Some ch ∧ closed ch = false) →
  ∃ cs', notify l chs cs = Some cs' ∧
    (∀ c, c ∉ chs → cs' !! c = cs !! c) ∧
    (∀ c ch, c ∈ chs → cs !! c = Some ch →
       ∃ ch', cs' !! c = Some ch' ∧ closed ch' = closed ch ∧
         buf ch' = if (List.length (buf ch) <? chan_cap)%nat then buf ch ++ [l] else buf ch).
Proof.
  revert cs. induction chs as [|c chs IH]; intros cs Hnd Hopen.
  { exists cs. set_solver. }
  apply NoDup_cons in Hnd as [Hc Hnd].
  destruct (Hopen c) as (ch & Hch & Hcl); [by left|].
  simpl. rewrite Hch, Hcl.
  set (cs1 := if (List.length (buf ch) <? chan_cap)%nat
              then <[c:=mkChan (buf ch ++ [l]) false]> cs else cs).
  assert (∀ c', c' ≠ c → cs1 !! c' = cs !! c') as Hcs1
    by (intros; unfold cs1; destruct (_ <? _)%nat; by rewrite ?lookup_insert_ne).
  assert (∃ ch1, cs1 !! c = Some ch1 ∧ closed ch1 = false ∧
    buf ch1 = if (List.length (buf ch) <? chan_cap)%nat then buf ch ++ [l] else buf ch)
    as (ch1 & Hch1 & Hcl1 & Hb1).
  { unfold cs1. destruct (_ <? _)%nat; [rewrite lookup_insert_eq|]; eauto. }
  destruct (IH cs1) as (cs' & Hn & Hout & Hin); [done| |].
  { intros c' Hc'. rewrite Hcs1 by set_solver. apply Hopen. by right. }
  exists cs'. split; [by rewrite <- Hn; unfold cs1; destruct (_ <? _)%nat|]. split.
  - intros c' Hc'. rewrite Hout by set_solver. apply Hcs1. set_solver.
  - intros c' ch' [->|Hc']%elem_of_cons Hl; simplify_eq.
    + rewrite Hout by done. naive_solver.
    + rewrite <- Hcs1 in Hl by set_solver. eauto.
Qed.

(** *** Writing an object and notifying its subscribers

    All state changes of an operation have this form: the object at [l] becomes
    [op'], the counter becomes [cnt], and the subscribers' channels become [cs]. *)

Definition with_op (l : nat) (op' : OperationStatus) (cnt : Z) (cs : gmap nat Chan)
    (s : Scheduler) : Scheduler :=
  set_chans cs (set_heap (<[l := op']> (heap s)) (set_count cnt s)).

(** The channels after a notification of [l] to the subscribers of [name]. *)
Definition delivered (s : Scheduler) (name : string) (l : nat) (cs : gmap nat Chan) : Prop :=
  (∀ c, c ∉ subs_of s name → cs !! c = chans s !! c) ∧
  (∀ c ch, c ∈ subs_of s name → chans s !! c = Some ch →
     ∃ ch', cs !! c = Some ch' ∧ closed ch' = closed ch ∧
       buf ch' = if (List.length (buf ch) <? chan_cap)%nat then buf ch ++ [l] else buf ch).

Lemma delivered_inv s name l cs c ch' :
  delivered s name l cs → wf s → cs !! c = Some ch' →
  ∃ ch, chans s !! c = Some ch ∧ notified l ch ch'.
Proof.
  intros [Hout Hin] Hwf Hc. destruct (decide (c ∈ subs_of s name)) as [Hs|Hs].
  - destruct (wf_subs s Hwf _ _ Hs) as (ch & Hch & _). exists ch. split; [done|].
    destruct (Hin c ch Hs Hch) as (ch'' & ? & Hcl & Hb). simplify_eq.
    split; [done|]. destruct (_ <? _)%nat eqn:E; to_prop; auto.
  - rewrite Hout in Hc by done. eauto with gorego.
Qed.

Lemma count_step op op' (h : gmap nat OperationStatus) l :
  h !! l = Some op →
  Z.of_nat (count_if executing (<[l := op']> h))
  = (Z.of_nat (count_if executing h)
     + Z.of_nat (indicator (bool_decide (executing op')))
     - Z.of_nat (indicator (bool_decide (executing op))))%Z.
Proof. intros Hl. pose proof (count_if_insert executing h l op op' Hl). lia. Qed.

Lemma wf_with_op s name l op op' cnt cs :
  wf s → operations s !! name = Some l → heap s !! l = Some op → Name op' = Name op →
  cnt = (executingCount s + Z.of_nat (indicator (bool_decide (executing op')))
         - Z.of_nat (indicator (bool_decide (executing op))))%Z →
  delivered s name l cs → wf (with_op l op' cnt cs s).
Proof.
  intros Hwf Hn Hl Hname -> Hd. pose proof Hd as [Hout Hin].
  split; unfold subs_of in *; simpl; intros *.
  - intros Ho. destruct (wf_ops s Hwf _ _ Ho) as (o & Ho1 & Ho2).
    destruct (decide (l = l0)) as [->|Hne]; simplify_eq.
    + exists op'. rewrite lookup_insert_eq. naive_solver.
    + rewrite lookup_insert_ne by done. eauto.
  - rewrite lookup_insert_is_Some. intros [->|[_ ?]]; eauto using wf_heap_next.
  - intros [ch' Hch']. destruct (delivered_inv _ _ _ _ _ _ Hd Hwf Hch') as (ch & ? & _).
    eapply wf_chan_next; eauto.
  - intros Hc. destruct (wf_subs s Hwf _ _ Hc) as (ch & Hch & Hcl).
    destruct (decide (c ∈ subs_of s name)) as [Hs|Hs].
    + destruct (Hin c ch Hs Hch) as (ch' & ? & ? & _). exists ch'. naive_solver.
    + exists ch. by rewrite Hout.
  - apply (wf_subs_nodup s Hwf).
  - apply (wf_subs_name s Hwf).
  - intros Hch'. destruct (delivered_inv _ _ _ _ _ _ Hd Hwf Hch') as (ch0 & Hch & _ & Hb).
    pose proof (wf_buf s Hwf _ _ Hch). destruct Hb as [->|[-> ?]]; [done|].
    rewrite length_app. simpl. lia.
  - intros Hch' Hb. apply lookup_insert_is_Some.
    destruct (decide (l = l0)) as [->|Hne]; [by left|right; split; [done|]].
    destruct (delivered_inv _ _ _ _ _ _ Hd Hwf Hch') as (ch0 & Hch & _ & [Hb'|[Hb' _]]);
      rewrite Hb' in Hb; [eauto using wf_buf_heap|].
    apply elem_of_app in Hb as [Hb| ->%list_elem_of_singleton]; eauto using wf_buf_heap.
  - apply (wf_queue s Hwf).
  - rewrite (wf_count s Hwf). rewrite (count_step op) by done. lia.
Qed.

Lemma notify_with_op s name l op' cnt :
  wf s →
  ∃ cs, notifySubscribersLocked name l (set_heap (<[l := op']> (heap s)) (set_count cnt s))
        = Some (with_op l op' cnt cs s) ∧ delivered s name l cs.
Proof.
  intros Hwf. unfold notifySubscribersLocked. simpl. fold (subs_of s name).
  destruct (notify_ok l (subs_of s name) (chans s)) as (cs & Hn & Hd).
  { apply wf_subs_nodup, Hwf. }
  { apply (wf_subs s Hwf). }
  exists cs. rewrite Hn. split; [done|]. exact Hd.
Qed.

Lemma set_count_id s : set_count (executingCount s) s = s.
Proof. by destruct s. Qed.

(** The counter change of a transition from [op] to a state [st]. *)
Definition count_after (s : Scheduler) (op : OperationStatus) (st : OperationState) : Z :=
  (executingCount s + Z.of_nat (indicator (bool_decide (st = StateExecuting)))
   - Z.of_nat (indicator (bool_decide (State op = StateExecuting))))%Z.

Lemma count_update s op st :
  (if bool_decide (State op ≠ StateExecuting) && bool_decide (st = StateExecuting)
   then set_count (executingCount s + 1) s
   else if bool_decide (State op = StateExecuting) && bool_decide (st ≠ StateExecuting)
   then set_count (executingCount s - 1) s
   else s) = set_count (count_after s op st) s.
Proof.
  unfold count_after. destruct (State op), st; simpl; destruct s; simpl;
    unfold set_count; simpl; f_equal; lia.
Qed.

Lemma count_complete s op :
  (if bool_decide (State op = StateExecuting) then set_count (executingCount s - 1) s else s)
  = set_count (count_after s op StateCompleted) s.
Proof.
  unfold count_after. destruct (State op); simpl; destruct s; simpl;
    unfold set_count; simpl; f_equal; lia.
Qed.

(** Specification of the state changes on a listed operation: none of them
    panics, each is a [with_op]. *)
Section changes.
Context (s : Scheduler) (name : string) (l : nat) (op : OperationStatus).
Context (Hwf : wf s) (Hn : operations s !! name = Some l) (Hl : heap s !! l = Some op).

Lemma UpdateState_spec st md now :
  ∃ cs, delivered s name l cs ∧
    UpdateState name st md now s
    = Some (with_op l (mkOp (Name op) st md (Result op) (Error op) (CreatedAt op) now)
              (count_after s op st) cs s).
Proof using All.
  unfold UpdateState. rewrite Hn. simpl. rewrite Hl. simpl.
  rewrite !count_update. set (op' := mkOp _ _ _ _ _ _ _).
  destruct (notify_with_op s name l op' (count_after s op st) Hwf) as (cs & ? & ?). eauto.
Qed.

Lemma Complete_spec res now :
  ∃ cs, delivered s name l cs ∧
    Complete name res now s
    = Some (with_op l (mkOp (Name op) StateCompleted (completed_metadata (Metadata op))
                         (Some res) (Error op) (CreatedAt op) now)
              (count_after s op StateCompleted) cs s).
Proof using All.
  unfold Complete. rewrite Hn. simpl. rewrite Hl. simpl.
  rewrite !count_complete. set (op' := mkOp _ _ _ _ _ _ _).
  destruct (notify_with_op s name l op' (count_after s op StateCompleted) Hwf)
    as (cs & ? & ?). eauto.
Qed.

Lemma FailOp_spec err now :
  ∃ cs, delivered s name l cs ∧
    FailOp name err now s
    = Some (with_op l (mkOp (Name op) StateCompleted (completed_metadata (Metadata op))
                         (Result op) (Some err) (CreatedAt op) now)
              (count_after s op StateCompleted) cs s).
Proof using All.
  unfold FailOp. rewrite Hn. simpl. rewrite Hl. simpl.
  rewrite !count_complete. set (op' := mkOp _ _ _ _ _ _ _).
  destruct (notify_with_op s name l op' (count_after s op StateCompleted) Hwf)
    as (cs & ? & ?). eauto.
Qed.

Lemma CancelOperation_spec now :
  State op = StateQueued →
  ∃ cs, delivered s name l cs ∧
    CancelOperation name now s
    = Some (Ok tt,
            with_op l (mkOp (Name op) StateCompleted (completed_metadata (Metadata op))
                         (Result op) (Some cancelled) (CreatedAt op) now)
              (executingCount s) cs s).
Proof using All.
  intros Hq. unfold CancelOperation. rewrite Hn. simpl. rewrite Hl. simpl.
  rewrite bool_decide_eq_false_2 by (rewrite Hq; auto).
  set (op' := mkOp _ _ _ _ _ _ _).
  edestruct (notify_with_op s name l op' (executingCount s) Hwf) as (cs & Hnot & Hd).
  exists cs. split; [done|]. rewrite set_count_id in Hnot. by rewrite Hnot.
Qed.

Lemma wf_change op' cs st :
  Name op' = Name op → State op' = st → delivered s name l cs →
  wf (with_op l op' (count_after s op st) cs s).
Proof using All.
  intros ? <- ?. eapply wf_with_op; eauto.
Qed.
End changes.

(** *** Every step preserves the invariant *)

Lemma Enqueue_wf `{GrpcStatus, AnyPb} uuid now d skip override s :
  wf s → wf (Enqueue uuid now d skip override s).2.
Proof.
  intros Hwf. unfold Enqueue. destruct (_ <? _)%nat eqn:Hlen; [|done]. to_prop.
  assert (heap s !! nextAddr s = None) as Hfresh.
  { apply eq_None_not_Some. intros ?%(wf_heap_next s Hwf). lia. }
  set (op := mkOp _ _ _ _ _ _ _).
  split; unfold subs_of; simpl; intros *.
  - destruct (decide (n = Name op)) as [->|Hne].
    + rewrite lookup_insert_eq. intros [= <-]. exists op. by rewrite lookup_insert_eq.
    + rewrite lookup_insert_ne by done. intros Ho.
      destruct (wf_ops s Hwf _ _ Ho) as (o & Ho1 & ?). exists o.
      rewrite lookup_insert_ne by naive_solver. done.
  - rewrite lookup_insert_is_Some. intros [<-|[_ ?%(wf_heap_next s Hwf)]]; lia.
  - intros ?%(wf_chan_next s Hwf). lia.
  - apply (wf_subs s Hwf).
  - apply (wf_subs_nodup s Hwf).
  - apply (wf_subs_name s Hwf).
  - apply (wf_buf s Hwf).
  - intros Hc Hl. apply lookup_insert_is_Some'. right. by eapply wf_buf_heap.
  - rewrite length_app. simpl. lia.
  - rewrite count_if_insert_new by done. simpl. apply (wf_count s Hwf).
Qed.

Lemma Dequeue_wf s t s' : wf s → Dequeue s = Some (t, s') → wf s'.
Proof.
  intros Hwf. unfold Dequeue. destruct (taskQueue s) as [|t' q] eqn:Hq; [done|].
  intros [= <- <-]. pose proof (wf_queue s Hwf) as Hb. rewrite Hq in Hb. simpl in Hb.
  destruct Hwf. split; simpl; auto. lia.
Qed.

Lemma DeleteOperation_wf name s : wf s → wf (DeleteOperation name s).2.
Proof.
  intros Hwf. unfold DeleteOperation. destruct (operations s !! name) as [l0|]; [|done].
  destruct Hwf. split; simpl; auto. intros n l' [_ ?]%lookup_delete_Some. eauto.
Qed.

Lemma subs_of_insert s n n' subs :
  default [] (<[n := subs]> (subscribers s) !! n') = if decide (n' = n) then subs else subs_of s n'.
Proof.
  destruct (decide (n' = n)) as [->|]; [by rewrite lookup_insert_eq|].
  by rewrite lookup_insert_ne.
Qed.

Lemma wf_subs_next s n c : wf s → c ∈ subs_of s n → c < nextAddr s.
Proof.
  intros Hwf Hc. destruct (wf_subs s Hwf _ _ Hc) as (ch & Hch & _). eapply wf_chan_next; eauto.
Qed.

Lemma Subscribe_wf name s : wf s → wf (Subscribe name s).2.
Proof.
  intros Hwf.
  assert (∀ n, subs_of (Subscribe name s).2 n
    = if decide (n = name) then subs_of s name ++ [nextAddr s] else subs_of s n) as Hsubs.
  { intros n. unfold subs_of at 1. simpl. by rewrite subs_of_insert. }
  assert (chans s !! nextAddr s = None) as Hfresh.
  { apply eq_None_not_Some. intros ?%(wf_chan_next s Hwf). lia. }
  assert (∀ n, nextAddr s ∉ subs_of s n) as Hnew.
  { intros n Hc%(wf_subs_next _ _ _ Hwf). lia. }
  split; intros *; rewrite ?Hsubs; simpl.
  - apply (wf_ops s Hwf).
  - intros ?%(wf_heap_next s Hwf). lia.
  - rewrite lookup_insert_is_Some. intros [<-|[_ ?%(wf_chan_next s Hwf)]]; lia.
  - destruct (decide (c = nextAddr s)) as [->|Hne]; [rewrite lookup_insert_eq; eauto|].
    rewrite lookup_insert_ne by done. intros Hc.
    assert (c ∈ subs_of s n); [|by eapply wf_subs].
    destruct (decide _) as [->|]; [|done].
    apply elem_of_app in Hc as [|Hc%list_elem_of_singleton]; done.
  - destruct (decide _); [|apply (wf_subs_nodup s Hwf)].
    apply NoDup_app. split_and!; [apply (wf_subs_nodup s Hwf)| |apply NoDup_singleton].
    intros x Hx ->%list_elem_of_singleton. by apply Hnew in Hx.
  - destruct (decide _), (decide _); subst; try done; intros H1 H2.
    + apply elem_of_app in H1 as [H1| ->%list_elem_of_singleton]; [by eapply wf_subs_name|].
      by apply Hnew in H2.
    + apply elem_of_app in H2 as [H2| ->%list_elem_of_singleton]; [by eapply wf_subs_name|].
      by apply Hnew in H1.
    + by eapply wf_subs_name.
  - intros [[<- <-]|[_ ?]]%lookup_insert_Some; [|by eapply wf_buf].
    destruct (operations s !! name); unfold chan_cap; simpl; lia.
  - intros [[<- <-]|[_ ?]]%lookup_insert_Some Hl; [|by eapply wf_buf_heap].
    simpl in Hl. destruct (operations s !! name) eqn:Ho; [|set_solver].
    apply list_elem_of_singleton in Hl as ->. destruct (wf_ops s Hwf _ _ Ho) as (? & ? & _). eauto.
  - apply (wf_queue s Hwf).
  - apply (wf_count s Hwf).
Qed.

Lemma remove_sub_Some c subs r :
  remove_sub c subs = Some r → NoDup subs →
  (c ∈ subs) ∧ (c ∉ r) ∧ NoDup r ∧ (∀ x, x ∈ r → x ∈ subs).
Proof.
  revert r. induction subs as [|x subs IH]; simpl; [done|].
  intros r Hr [Hx Hnd]%NoDup_cons. case_bool_decide as Hxc.
  - simplify_eq. split_and!; [by left|done|done|by right].
  - destruct (remove_sub c subs) as [r'|] eqn:E; [|done]. simplify_eq.
    destruct (IH r') as (? & ? & ? & Hsub); [done..|].
    setoid_rewrite elem_of_cons. rewrite NoDup_cons. naive_solver.
Qed.

Lemma unsubscribe_wf name c s :
  wf s → ∃ s', unsubscribe name c s = Some s' ∧ wf s'.
Proof.
  intros Hwf. unfold unsubscribe. fold (subs_of s name).
  destruct (remove_sub c (subs_of s name)) as [r|] eqn:Hr; [|eauto].
  destruct (remove_sub_Some _ _ _ Hr (wf_subs_nodup s Hwf name)) as (Hc & Hcr & Hndr & Hsub).
  destruct (wf_subs s Hwf _ _ Hc) as (ch & Hch & Hcl). rewrite Hch, Hcl.
  set (s' := set_chans _ _).
  assert (∀ n, subs_of s' n = if decide (n = name) then r else subs_of s n) as Hsubs.
  { intros n. unfold subs_of at 1, s'. simpl. by rewrite subs_of_insert. }
  exists s'. split; [done|]. split; intros *; rewrite ?Hsubs; simpl.
  - apply (wf_ops s Hwf).
  - apply (wf_heap_next s Hwf).
  - rewrite lookup_insert_is_Some. intros [<-|[_ ?]]; eapply wf_chan_next; eauto.
  - intros Hc0.
    assert (c0 ≠ c ∧ c0 ∈ subs_of s n) as [Hne Hin].
    { destruct (decide _) as [->|Hn]; [split; [by intros ->|auto]|].
      split; [|done]. intros ->. apply Hn. by eapply wf_subs_name. }
    rewrite lookup_insert_ne by done. by eapply wf_subs.
  - destruct (decide _); [done|apply (wf_subs_nodup s Hwf)].
  - destruct (decide _), (decide _); subst; try done; intros H1 H2;
      apply (wf_subs_name s Hwf _ _ c0); auto.
  - intros [[<- <-]|[_ ?]]%lookup_insert_Some; [|by eapply wf_buf]. by eapply (wf_buf s Hwf c ch).
  - intros [[<- <-]|[_ ?]]%lookup_insert_Some Hl; eapply wf_buf_heap; eauto.
  - apply (wf_queue s Hwf).
  - apply (wf_count s Hwf).
Qed.

Lemma recv_wf c s l s' : wf s → recv c s = Some (l, s') → wf s'.
Proof.
  intros Hwf. unfold recv. destruct (chans s !! c) as [ch|] eqn:Hch; simpl; [|done].
  destruct (buf ch) as [|l' ls] eqn:Hb; [done|]. intros [= <- <-].
  pose proof (wf_buf s Hwf _ _ Hch) as Hlen. rewrite Hb in Hlen. simpl in Hlen.
  split; unfold subs_of; simpl; intros *.
  - apply (wf_ops s Hwf).
  - apply (wf_heap_next s Hwf).
  - rewrite lookup_insert_is_Some. intros [<-|[_ ?]]; eapply wf_chan_next; eauto.
  - intros Hc. destruct (wf_subs s Hwf _ _ Hc) as (ch0 & ? & ?).
    destruct (decide (c = c0)) as [->|]; simplify_eq; rewrite ?lookup_insert_eq; eauto.
    rewrite lookup_insert_ne by done. eauto.
  - apply (wf_subs_nodup s Hwf).
  - apply (wf_subs_name s Hwf).
  - intros [[<- <-]|[_ ?]]%lookup_insert_Some; [simpl; lia|by eapply wf_buf].
  - intros [[<- <-]|[_ ?]]%lookup_insert_Some Hl; [|by eapply wf_buf_heap].
    eapply (wf_buf_heap s Hwf); eauto. rewrite Hb. by right.
  - apply (wf_queue s Hwf).
  - apply (wf_count s Hwf).
Qed.

(** *** Cleanup deletes exactly the expired entries *)

Definition delete_expired {A} (s : Scheduler) (now : Z) (L : list (string * nat))
    (m : gmap string A) : gmap string A :=
  foldr (λ nl m, if expired s now nl.2 then delete nl.1 m else m) m L.

Lemma CleanupExpired_eq now s :
  CleanupExpired now s
  = set_subscribers (delete_expired s now (map_to_list (operations s)) (subscribers s))
      (set_operations (delete_expired s now (map_to_list (operations s)) (operations s)) s).
Proof.
  unfold CleanupExpired, delete_expired.
  induction (map_to_list (operations s)) as [|[n l] L IH]; simpl; [by destruct s|].
  rewrite IH. by destruct (expired s now l).
Qed.

Lemma delete_expired_lookup {A} s now L (m : gmap string A) n :
  NoDup L.*1 →
  delete_expired s now L m !! n
  = match list_to_map (M := gmap string nat) L !! n with
    | Some l => if expired s now l then None else m !! n
    | None => m !! n
    end.
Proof.
  unfold delete_expired. induction L as [|[n' l] L IH]; simpl; [done|].
  intros [Hn' Hnd]%NoDup_cons.
  destruct (decide (n' = n)) as [->|Hne].
  - rewrite lookup_insert_eq. destruct (expired s now l); [apply lookup_delete_eq|].
    rewrite IH by done. rewrite not_elem_of_list_to_map_1; done.
  - rewrite lookup_insert_ne by done.
    destruct (expired s now l); [rewrite lookup_delete_ne by done|]; by apply IH.
Qed.

Lemma cleanup_lookup {A} now s (m : gmap string A) n :
  delete_expired s now (map_to_list (operations s)) m !! n
  = match operations s !! n with
    | Some l => if expired s now l then None else m !! n
    | None => m !! n
    end.
Proof.
  rewrite delete_expired_lookup by apply NoDup_fst_map_to_list.
  by rewrite list_to_map_to_list.
Qed.

Lemma cleanup_subs_of now s n :
  subs_of (CleanupExpired now s) n = subs_of s n ∨ subs_of (CleanupExpired now s) n = [].
Proof.
  rewrite CleanupExpired_eq. unfold subs_of. simpl. rewrite cleanup_lookup. crush.
Qed.

Lemma CleanupExpired_wf now s : wf s → wf (CleanupExpired now s).
Proof.
  intros Hwf. pose proof (cleanup_subs_of now s) as Hsubs.
  assert (∀ n c, c ∈ subs_of (CleanupExpired now s) n → c ∈ subs_of s n) as Hin.
  { intros n c. destruct (Hsubs n) as [->| ->]; set_solver. }
  split; rewrite ?CleanupExpired_eq; simpl; rewrite <- ?CleanupExpired_eq.
  - intros n l. rewrite cleanup_lookup.
    destruct (operations s !! n) as [l'|] eqn:Ho; [|done].
    destruct (expired s now l'); [done|]. intros [= ->]. by apply (wf_ops s Hwf).
  - apply (wf_heap_next s Hwf).
  - apply (wf_chan_next s Hwf).
  - intros n c Hc%Hin. by eapply wf_subs.
  - intros n. destruct (Hsubs n) as [->| ->]; [apply (wf_subs_nodup s Hwf)|apply NoDup_nil_2].
  - intros n1 n2 c ?%Hin ?%Hin. by eapply wf_subs_name.
  - apply (wf_buf s Hwf).
  - apply (wf_buf_heap s Hwf).
  - apply (wf_queue s Hwf).
  - apply (wf_count s Hwf).
Qed.

(** Case on whether [name] is listed; [f] does nothing when it is not. *)
Ltac listed s name Hwf f :=
  let l := fresh "l" in let op := fresh "op" in
  let Ho := fresh "Ho" in let Hl := fresh "Hl" in
  destruct (operations s !! name) as [l|] eqn:Ho;
  [destruct (wf_ops s Hwf _ _ Ho) as (op & Hl & _)
  |unfold f; rewrite Ho; simpl; eauto].

Section theorems.
Context `{GrpcStatus, AnyPb}.
Implicit Types (s : Scheduler) (e : event) (es : list event).

Lemma CancelOperation_rejected s name l op now :
  operations s !! name = Some l → heap s !! l = Some op → State op ≠ StateQueued →
  CancelOperation name now s
  = Some (Err (StatusErr FailedPrecondition "can only cancel queued operations"), s).
Proof using Type.
  intros Ho Hl Hq. unfold CancelOperation. rewrite Ho. simpl. rewrite Hl. simpl.
  by rewrite bool_decide_eq_true_2.
Qed.

Lemma step_wf s e : wf s → ∃ s', step s e = Some s' ∧ wf s'.
Proof using Type.
  intros Hwf. destruct e; simpl.
  - eauto using Enqueue_wf.
  - destruct (Dequeue s) as [[t s']|] eqn:E; simpl; eauto using Dequeue_wf.
  - listed s name Hwf UpdateState. edestruct UpdateState_spec as (cs & Hd & ->); eauto.
    eexists. split; [done|]. eapply wf_change; eauto.
  - listed s name Hwf Complete. edestruct Complete_spec as (cs & Hd & ->); eauto.
    eexists. split; [done|]. eapply wf_change; eauto.
  - listed s name Hwf FailOp. edestruct FailOp_spec as (cs & Hd & ->); eauto.
    eexists. split; [done|]. eapply wf_change; eauto.
  - listed s name Hwf CancelOperation.
    destruct (decide (State op = StateQueued)) as [Hq|Hq];
      [|erewrite CancelOperation_rejected by eauto; eauto].
    edestruct CancelOperation_spec as (cs & Hd & ->); eauto. eexists. split; [done|].
    eapply wf_with_op; eauto.
    rewrite !bool_decide_eq_false_2 by (unfold executing; simpl; congruence). simpl. lia.
  - eauto using DeleteOperation_wf.
  - eexists. split; [done|]. apply (Subscribe_wf name s Hwf).
  - apply unsubscribe_wf, Hwf.
  - destruct (recv c s) as [[l s']|] eqn:E; simpl; eauto using recv_wf.
  - eauto using CleanupExpired_wf.
Qed.

Lemma run_wf s es : wf s → ∃ s', run s es = Some s' ∧ wf s'.
Proof using Type.
  revert s. induction es as [|e es IH]; intros s Hwf; simpl; [eauto|].
  destruct (step_wf s e Hwf) as (s1 & -> & ?). simpl. auto.
Qed.

(** The background loop does nothing but cleanups. *)
Fixpoint ticks (ws : list wakeup) : list event :=
  match ws with Tick now :: ws => ECleanup now :: ticks ws | _ => [] end.
Lemma Run_cleanups ws s : run s (ticks ws) = Some (Run ws s).2.
Proof using Type. revert s. induction ws as [|[now|e] ws IH]; intros s; simpl; [done|apply IH|done]. Qed.

(** *** Objects that left the table *)

(** No entry of the table points to [l] any more. *)
Definition unlisted s (l : nat) : Prop := ∀ n, operations s !! n ≠ Some l.

Lemma with_op_unlisted s name l l' op op' cnt cs :
  wf s → unlisted s l → operations s !! name = Some l' → heap s !! l = Some op →
  let s' := with_op l' op' cnt cs s in unlisted s' l ∧ heap s' !! l = Some op.
Proof using Type.
  intros Hwf Hun Ho Hl. simpl. split; [done|].
  rewrite lookup_insert_ne; [done|]. intros ->. by apply (Hun name).
Qed.

(** An object outside the table is never written again. *)
Lemma unlisted_step s e s' l op :
  wf s → unlisted s l → heap s !! l = Some op → step s e = Some s' →
  unlisted s' l ∧ heap s' !! l = Some op.
Proof using Type.
  intros Hwf Hun Hl. destruct e; simpl; intros Hs.
  - injection Hs as <-. unfold Enqueue. destruct (_ <? _)%nat; [|done]. simpl.
    assert (l < nextAddr s) by (eapply wf_heap_next; eauto). split.
    + intros n. simpl. destruct (decide (n = opName (newOperationID s uuid override))) as [->|].
      * rewrite lookup_insert_eq. naive_solver lia.
      * rewrite lookup_insert_ne by done. apply Hun.
    + rewrite lookup_insert_ne by lia. done.
  - injection Hs as <-. unfold Dequeue. by destruct (taskQueue s).
  - revert Hs. listed s name Hwf UpdateState; [|naive_solver].
    edestruct UpdateState_spec as (cs & _ & ->); eauto. intros [= <-].
    by eapply with_op_unlisted.
  - revert Hs. listed s name Hwf Complete; [|naive_solver].
    edestruct Complete_spec as (cs & _ & ->); eauto. intros [= <-].
    by eapply with_op_unlisted.
  - revert Hs. listed s name Hwf FailOp; [|naive_solver].
    edestruct FailOp_spec as (cs & _ & ->); eauto. intros [= <-].
    by eapply with_op_unlisted.
  - revert Hs. listed s name Hwf CancelOperation; [|naive_solver].
    destruct (decide (State op0 = StateQueued)) as [Hq|Hq];
      [|erewrite CancelOperation_rejected by eauto; naive_solver].
    edestruct CancelOperation_spec as (cs & _ & ->); eauto. intros [= <-].
    by eapply with_op_unlisted.
  - injection Hs as <-. unfold DeleteOperation. destruct (operations s !! name) as [l0|]; [|done].
    split; [|done]. intros n. simpl. intros [_ Hn]%lookup_delete_Some. by apply (Hun n).
  - by injection Hs as <-.
  - revert Hs. unfold unsubscribe. crush.
  - injection Hs as <-. unfold recv. destruct (chans s !! c) as [ch|]; simpl; [|done].
    by destruct (buf ch).
  - injection Hs as <-. rewrite CleanupExpired_eq. simpl. split; [|done].
    intros n. simpl. rewrite cleanup_lookup. pose proof (Hun n). crush.
Qed.

Lemma unlisted_run s es s' l op :
  wf s → unlisted s l → heap s !! l = Some op → run s es = Some s' →
  wf s' ∧ heap s' !! l = Some op.
Proof using Type.
  revert s. induction es as [|e es IH]; intros s Hwf Hun Hl; simpl; [naive_solver|].
  destruct (step_wf s e Hwf) as (s1 & Hs & ?). rewrite Hs. simpl.
  destruct (unlisted_step s e s1 l op) as [? ?]; [done..|]. by apply IH.
Qed.

Lemma delete_unlisted s name l :
  wf s → operations s !! name = Some l → unlisted (DeleteOperation name s).2 l.
Proof using Type.
  intros Hwf Ho n. unfold DeleteOperation. rewrite Ho. simpl.
  intros [Hne Hn]%lookup_delete_Some.
  destruct (wf_ops s Hwf _ _ Ho) as (? & ? & ?), (wf_ops s Hwf _ _ Hn) as (? & ? & ?).
  naive_solver.
Qed.

(** *** The properties *)

(** C1: whatever sequence of calls clients, handlers and workers make on a new
    scheduler, in whatever order they get the lock, no call panics (no send on
    or close of a closed channel, no dangling pointer) and the invariant holds:
    table and objects agree, every subscriber channel is open and holds at most
    ten updates, the queue never exceeds its capacity, and [executingCount] is
    the number of operation objects in state Executing. *)
Theorem scheduler_safe (qs : nat) (node : string) (es : list event) :
  ∃ s, run (NewScheduler qs node) es = Some s ∧ wf s.
Proof using Type. apply run_wf, wf_new. Qed.

Lemma step_queue s e s' :
  wf s → step s e = Some s' →
  taskQueue s ++ accepted_by s e = handed_by s e ++ taskQueue s'.
Proof using Type.
  intros Hwf. destruct e; simpl; rewrite ?app_nil_r; intros Hs.
  - injection Hs as <-. unfold Enqueue. by destruct (_ <? _)%nat; simpl; rewrite ?app_nil_r.
  - injection Hs as <-. unfold Dequeue. by destruct (taskQueue s) eqn:E.
  - revert Hs. listed s name Hwf UpdateState; [|naive_solver].
    edestruct UpdateState_spec as (cs & _ & ->); eauto. by intros [= <-].
  - revert Hs. listed s name Hwf Complete; [|naive_solver].
    edestruct Complete_spec as (cs & _ & ->); eauto. by intros [= <-].
  - revert Hs. listed s name Hwf FailOp; [|naive_solver].
    edestruct FailOp_spec as (cs & _ & ->); eauto. by intros [= <-].
  - revert Hs. listed s name Hwf CancelOperation; [|naive_solver].
    destruct (decide (State op = StateQueued)) as [Hq|Hq];
      [|erewrite CancelOperation_rejected by eauto; naive_solver].
    edestruct CancelOperation_spec as (cs & _ & ->); eauto. by intros [= <-].
  - injection Hs as <-. unfold DeleteOperation. by destruct (operations s !! name).
  - by injection Hs as <-.
  - revert Hs. unfold unsubscribe. crush.
  - injection Hs as <-. unfold recv. destruct (chans s !! c) as [ch|]; simpl; [|done].
    by destruct (buf ch).
  - injection Hs as <-. by rewrite CleanupExpired_eq.
Qed.

Lemma run_queue s es s' :
  wf s → run s es = Some s' →
  taskQueue s ++ over_run accepted_by s es = over_run handed_by s es ++ taskQueue s'.
Proof using Type.
  revert s. induction es as [|e es IH]; intros s Hwf; simpl.
  { intros [= ->]. by rewrite app_nil_r. }
  destruct (step_wf s e Hwf) as (s1 & Hs & Hwf1). rewrite Hs. simpl. intros Hr.
  rewrite (assoc_L (++)), (step_queue s e s1) by done.
  rewrite <- !(assoc_L (++)). f_equal. by apply IH.
Qed.

(** C4: the task queue refines an unbounded FIFO of the accepted tasks: over any
    run, the tasks handed to workers followed by those still queued are exactly
    the accepted tasks, in order; none is lost, repeated or overtaken. *)
Theorem queue_refines_fifo (qs : nat) (node : string) (es : list event) :
  ∃ s, run (NewScheduler qs node) es = Some s ∧
    over_run accepted_by (NewScheduler qs node) es
    = over_run handed_by (NewScheduler qs node) es ++ taskQueue s.
Proof using Type.
  destruct (run_wf (NewScheduler qs node) es (wf_new _ _)) as (s & Hr & _).
  exists s. split; [done|]. apply (run_queue _ _ _ (wf_new _ _) Hr).
Qed.

(** Deleting an operation while it executes leaves the load counter raised
    for ever: the worker's later [Complete] or [Fail] finds no entry, so after
    any further calls the reported pending count is at least one. *)
Theorem delete_executing_leaks s name l op es s' :
  wf s → operations s !! name = Some l → heap s !! l = Some op →
  State op = StateExecuting →
  run (DeleteOperation name s).2 es = Some s' →
  (1 ≤ GetPendingTaskCount s')%Z.
Proof using Type.
  intros Hwf Ho Hl Hex Hr.
  destruct (unlisted_run (DeleteOperation name s).2 es s' l op) as [Hwf' Hl'].
  - by apply DeleteOperation_wf.
  - by apply delete_unlisted.
  - unfold DeleteOperation. by rewrite Ho.
  - done.
  - unfold GetPendingTaskCount. rewrite (wf_count s' Hwf').
    pose proof (count_if_pos executing (heap s') l op Hl' Hex). lia.
Qed.

(** [CancelOperation] completes a queued operation with a Canceled error
    but leaves its task in the queue; when a worker then takes it, the
    operation goes back to Executing, and when the action has run the client
    is still told it was cancelled, not its result. *)
Theorem cancelled_operation_still_runs s name l op now md t1 res t2 :
  wf s → operations s !! name = Some l → heap s !! l = Some op →
  State op = StateQueued →
  ∃ s1 s2 s3,
    CancelOperation name now s = Some (Ok tt, s1) ∧ taskQueue s1 = taskQueue s ∧
    UpdateState name StateExecuting md t1 s1 = Some s2 ∧
    executingCount s2 = (executingCount s + 1)%Z ∧
    Complete name res t2 s2 = Some s3 ∧
    ∃ op3, lookup_op s3 name = Some op3 ∧ State op3 = StateCompleted ∧
      Result op3 = Some res ∧
      ∀ o, GetOperation name s3 = Ok o →
        op_Result o = Some (Operation_Error (mkRpcStatus Canceled "operation cancelled")).
Proof using Type.
  intros Hwf Ho Hl Hq.
  destruct (CancelOperation_spec s name l op Hwf Ho Hl now Hq) as (cs1 & Hd1 & Hc).
  set (s1 := with_op _ _ _ _ _) in Hc.
  assert (wf s1) as Hwf1.
  { eapply wf_with_op; eauto.
    rewrite !bool_decide_eq_false_2 by (unfold executing; simpl; congruence). simpl. lia. }
  set (op1 := mkOp (Name op) StateCompleted (completed_metadata (Metadata op)) (Result op)
                (Some cancelled) (CreatedAt op) now) in *.
  assert (heap s1 !! l = Some op1) as Hl1 by apply lookup_insert_eq.
  destruct (UpdateState_spec s1 name l op1 Hwf1 Ho Hl1 StateExecuting md t1)
    as (cs2 & Hd2 & Hu).
  set (s2 := with_op _ _ _ _ s1) in Hu.
  assert (wf s2) as Hwf2 by (eapply (wf_change s1); eauto).
  eassert (heap s2 !! l = Some _) as Hl2 by apply lookup_insert_eq.
  destruct (Complete_spec s2 name l _ Hwf2 Ho Hl2 res t2) as (cs3 & Hd3 & Hcm).
  eexists s1, s2, _. split_and!; [done|done|done| |done|].
  - unfold s2, with_op, count_after. simpl. lia.
  - eexists. unfold GetOperation, lookup_op. simpl. rewrite Ho. simpl.
    rewrite lookup_insert_eq. split_and!; [done..|]. intros o. unfold toProto. simpl.
    destruct (any_New_metadata _); [|done]. intros [= <-]. simpl.
    unfold cancelled. by rewrite status_Convert_status.
Qed.

(** [Complete] on a listed operation without an error: every open
    subscriber channel with room ends with a pointer through which the
    operation now reads as Completed, and [GetOperation] returns it as done
    with the packed response. *)
Theorem complete_observed s name l op res now :
  wf s → operations s !! name = Some l → heap s !! l = Some op → Error op = None →
  ∃ s', Complete name res now s = Some s' ∧ wf s' ∧
    (∀ c ch, c ∈ subs_of s name → chans s !! c = Some ch →
       List.length (buf ch) < chan_cap →
       ∃ ch', chans s' !! c = Some ch' ∧ buf ch' = buf ch ++ [l]) ∧
    (∃ op', heap s' !! l = Some op' ∧ State op' = StateCompleted) ∧
    (∀ m r, any_New_metadata (completed_metadata (Metadata op)) = Ok m →
       any_New_response res = Ok r →
       GetOperation name s' = Ok (mkOperation _ name m true (Some (Operation_Response r)))).
Proof using Type.
  intros Hwf Ho Hl Herr.
  destruct (Complete_spec s name l op Hwf Ho Hl res now) as (cs & Hd & ->).
  eexists. split; [done|]. split; [eapply wf_change; eauto|]. split_and!.
  - intros c ch Hc Hch Hlen. destruct Hd as [_ Hin].
    destruct (Hin c ch Hc Hch) as (ch' & ? & _ & Hb). exists ch'. split; [done|].
    rewrite Hb. by rewrite (proj2 (Nat.ltb_lt _ _) Hlen).
  - eexists. simpl. by rewrite lookup_insert_eq.
  - intros m r Hm Hr. unfold GetOperation, lookup_op. simpl. rewrite Ho. simpl.
    rewrite lookup_insert_eq. unfold toProto. simpl. rewrite Hm, Herr, Hr. simpl.
    destruct (wf_ops s Hwf _ _ Ho) as (? & ? & ?). naive_solver.
Qed.

(** [Enqueue] on a full queue returns ResourceExhausted and changes
    nothing; otherwise it appends the task, lists a queued operation under the
    task's name, and the reported pending count grows by exactly one. *)
Theorem enqueue_spec s uuid now d skip override :
  let id := newOperationID s uuid override in
  let '(r, s') := Enqueue uuid now d skip override s in
  (queueSize s ≤ List.length (taskQueue s) →
     r = Err (StatusErr ResourceExhausted "execution queue is full") ∧ s' = s) ∧
  (List.length (taskQueue s) < queueSize s →
     taskQueue s' = taskQueue s ++ [mkTask id d skip now] ∧
     (∃ op, lookup_op s' (opName id) = Some op ∧ State op = StateQueued ∧
        md_Stage (Metadata op) = STAGE_QUEUED ∧ r = toProto op) ∧
     GetPendingTaskCount s' = (GetPendingTaskCount s + 1)%Z).
Proof using Type.
  simpl. unfold Enqueue. destruct (_ <? _)%nat eqn:E; to_prop.
  - split; [lia|]. intros _. simpl. split; [done|]. split.
    + eexists. unfold lookup_op. simpl. rewrite lookup_insert_eq. simpl.
      by rewrite lookup_insert_eq.
    + unfold GetPendingTaskCount. simpl. rewrite length_app. simpl. lia.
  - split; [done|lia].
Qed.

(** A prefixed operation name, read back. *)
Lemma parse_opName prefix uuid :
  contains_byte ":" prefix = false → contains_byte ":" uuid = false → uuid ≠ "" →
  ParseOperationNodeID
    (opName (if (prefix =? "")%string then uuid else prefix +:+ ":" +:+ uuid)) = (prefix, uuid).
Proof using Type.
  intros Hp Hu Hne. unfold ParseOperationNodeID.
  assert (∀ t, t ≠ "" → (11 <? String.length (opName t))%nat = true) as Hlen.
  { intros t Ht. destruct t; [done|]. by apply Nat.ltb_lt; simpl; lia. }
  destruct (prefix =? "")%string eqn:Ep; to_prop.
  - rewrite Hlen by done. simpl. rewrite cut_byte_none by done. by rewrite Ep.
  - rewrite Hlen by (by destruct prefix). simpl. by rewrite cut_byte_app.
Qed.

(** The node ID of a freshly named operation can be read back from its
    name: for a node ID without a colon and a UUID, [ParseOperationNodeID]
    returns the prefix [Enqueue] used (empty for an unprefixed name). *)
Theorem parse_operation_name s uuid override :
  let prefix := if (override =? "")%string then nodeID s else override in
  contains_byte ":" prefix = false → contains_byte ":" uuid = false → uuid ≠ "" →
  ParseOperationNodeID (opName (newOperationID s uuid override)) = (prefix, uuid).
Proof using Type. apply parse_opName. Qed.

(** [CleanupExpired] removes exactly the completed operations last updated
    before [now - retention], with their subscriptions; every other entry,
    queued and executing ones of any age included, is untouched. *)
Theorem cleanup_removes_expired s now n :
  operations (CleanupExpired now s) !! n
  = match operations s !! n with
    | Some l => match heap s !! l with
                | Some op => if decide (State op = StateCompleted
                                        ∧ (UpdatedAt op < now - retention s)%Z)
                             then None else Some l
                | None => Some l
                end
    | None => None
    end ∧
  (lookup_op (CleanupExpired now s) n = None → lookup_op s n ≠ None →
     subs_of (CleanupExpired now s) n = []).
Proof using Type.
  assert (operations (CleanupExpired now s) !! n
    = match operations s !! n with
      | Some l => if expired s now l then None else Some l
      | None => None
      end) as Hops.
  { rewrite CleanupExpired_eq. simpl. rewrite cleanup_lookup.
    by destruct (operations s !! n). }
  split.
  - rewrite Hops. destruct (operations s !! n) as [l|] eqn:Ho; [|done].
    unfold expired. destruct (heap s !! l) as [op|] eqn:Hl; [|done].
    destruct (decide _) as [[Hst Hup]|Hno].
    + rewrite bool_decide_eq_true_2 by done. simpl. by rewrite (proj2 (Z.ltb_lt _ _) Hup).
    + destruct (_ && _) eqn:E; [|done]. to_prop. naive_solver.
  - unfold lookup_op. rewrite Hops. destruct (operations s !! n) as [l|] eqn:Ho; [|done].
    simpl. destruct (expired s now l) eqn:Ee.
    + intros _ _. rewrite CleanupExpired_eq. unfold subs_of. simpl.
      by rewrite cleanup_lookup, Ho, Ee.
    + simpl. rewrite CleanupExpired_eq. simpl. congruence.
Qed.
End theorems.

Lemma run_wf_eq `{GrpcStatus, AnyPb} qs node es s :
  run (NewScheduler qs node) es = Some s → wf s.
Proof.
  intros Hr. destruct (run_wf (NewScheduler qs node) es (wf_new _ _)) as (s' & ? & ?).
  by simplify_eq.
Qed.

(** ** Witnesses: the theorems at a concrete scheduler *)

Module Demo.
Import Messages.Concrete.

Definition d : PbDigest := mkPbDigest "ab" 2.
Definition name : string := "operations/n1:u1".
Definition res : ExecuteResponse := mkExecuteResponse (mkActionResult [] [] 0 None None) false.
Definition md : ExecuteOperationMetadata := mkMetadata STAGE_EXECUTING d.

(** one operation enqueued with a subscriber, [n1:u1], at address 0 *)
Definition queued_run : list event := [EEnqueue "u1" 0 d false ""; ESubscribe name].
Definition queued : Scheduler := default (NewScheduler 0 "") (run (NewScheduler 4 "n1") queued_run).
Definition queued_op : OperationStatus :=
  mkOp name StateQueued (mkMetadata STAGE_QUEUED d) None None 0 0.

(** the same operation taken by a worker *)
Definition executing_run : list event :=
  queued_run ++ [EDequeue; EUpdate name StateExecuting md 1].
Definition running : Scheduler :=
  default (NewScheduler 0 "") (run (NewScheduler 4 "n1") executing_run).
Definition running_op : OperationStatus := mkOp name StateExecuting md None None 0 1.

Definition after_delete : Scheduler :=
  default (NewScheduler 0 "") (run (DeleteOperation name running).2 [EComplete name res 2]).

Lemma wf_queued : wf queued.
Proof. apply (run_wf_eq 4 "n1" queued_run). vm_compute. reflexivity. Qed.
Lemma wf_running : wf running.
Proof. apply (run_wf_eq 4 "n1" executing_run). vm_compute. reflexivity. Qed.

Lemma delete_executing_leaks_witness : (1 ≤ GetPendingTaskCount after_delete)%Z.
Proof.
  apply (delete_executing_leaks running name 0 running_op [EComplete name res 2]).
  - exact wf_running.
  - vm_compute. reflexivity.
  - vm_compute. reflexivity.
  - reflexivity.
  - vm_compute. reflexivity.
Defined.

Lemma cancelled_operation_still_runs_witness :
  ∃ s1 s2 s3,
    CancelOperation name 1 queued = Some (Ok tt, s1) ∧ taskQueue s1 = taskQueue queued ∧
    UpdateState name StateExecuting md 2 s1 = Some s2 ∧
    executingCount s2 = (executingCount queued + 1)%Z ∧
    Complete name res 3 s2 = Some s3 ∧
    ∃ op3, lookup_op s3 name = Some op3 ∧ State op3 = StateCompleted ∧
      Result op3 = Some res ∧
      ∀ o, GetOperation name s3 = Ok o →
        op_Result o = Some (Operation_Error (mkRpcStatus Canceled "operation cancelled")).
Proof.
  apply (cancelled_operation_still_runs queued name 0 queued_op 1 md 2 res 3).
  - exact wf_queued.
  - vm_compute. reflexivity.
  - vm_compute. reflexivity.
  - reflexivity.
Defined.

Lemma complete_observed_witness :
  ∃ s', Complete name res 5 running = Some s' ∧ wf s' ∧
    (∀ c ch, c ∈ subs_of running name → chans running !! c = Some ch →
       List.length (buf ch) < chan_cap →
       ∃ ch', chans s' !! c = Some ch' ∧ buf ch' = buf ch ++ [0]) ∧
    (∃ op', heap s' !! 0 = Some op' ∧ State op' = StateCompleted) ∧
    (∀ m r, any_New_metadata (completed_metadata md) = Ok m →
       any_New_response res = Ok r →
       GetOperation name s' = Ok (mkOperation _ name m true (Some (Operation_Response r)))).
Proof.
  apply (complete_observed running name 0 running_op res 5).
  - exact wf_running.
  - vm_compute. reflexivity.
  - vm_compute. reflexivity.
  - reflexivity.
Defined.

Lemma parse_operation_name_witness :
  ParseOperationNodeID (opName (newOperationID queued "u2" "node-b")) = ("node-b", "u2").
Proof. apply (parse_operation_name queued "u2" "node-b"); reflexivity || discriminate. Defined.
End Demo.

End Scheduler.
