(* ===== verification/Float64.v ===== *)
(** Go's [float64] for the one use the sources make of it: converting integers,
    dividing them and comparing the quotients (load ratios in
    src/pkg/cluster/cluster.go).  A finite value is [m * 2^e] with an integer
    [m]; results are rounded to 53 bits, ties to even, as IEEE 754 prescribes.
    Quotients of 64-bit integers stay far from the limits of the exponent, so
    overflow and subnormal numbers do not occur. *)

From S2P Require Import Prelude.
Local Open Scope Z_scope.

Inductive f64 := NaN | Inf (neg : bool) | Fin (m e : Z).

(** [n / d] rounded to the nearest integer, ties to even ([0 <= n], [0 < d]). *)
Definition div_rne (n d : Z) : Z :=
  let q := n / d in
  let r := n mod d in
  if 2 * r <? d then q
  else if d <? 2 * r then q + 1
  else if Z.even q then q else q + 1.

(** [p * 2^-e] and [q] over a common denominator, for either sign of [e]. *)
Definition pw (e : Z) : Z := 2 ^ Z.max 0 e.
Definition num (p e : Z) : Z := p * pw (- e).
Definition den (q e : Z) : Z := q * pw e.

(** The exponent for which [p / q] has a 53-bit significand. *)
Definition exp53 (p q : Z) : Z :=
  let e := Z.log2 p - Z.log2 q - 52 in
  if num p e <? 2 ^ 52 * den q e then e - 1 else e.

(** [p / q] as a float64, for [0 <= p] and [0 < q]. *)
Definition rnd (p q : Z) : f64 :=
  if p =? 0 then Fin 0 0
  else let e := exp53 p q in Fin (div_rne (num p e) (den q e)) e.

Definition f64_opp (x : f64) : f64 :=
  match x with NaN => NaN | Inf b => Inf (negb b) | Fin m e => Fin (- m) e end.

(** [float64(z)]. *)
Definition f64_of_int (z : Z) : f64 :=
  if z <? 0 then f64_opp (rnd (- z) 1) else rnd z 1.

(** [x / y] for values converted from integers (no infinite operands). *)
Definition f64_div (x y : f64) : f64 :=
  match x, y with
  | Fin m1 e1, Fin m2 e2 =>
      if m2 =? 0 then (if m1 =? 0 then NaN else Inf (m1 <? 0))
      else
        let p := Z.abs m1 * pw (e1 - e2) in
        let q := Z.abs m2 * pw (e2 - e1) in
        if xorb (m1 <? 0) (m2 <? 0) then f64_opp (rnd p q) else rnd p q
  | _, _ => NaN
  end.

(** [x < y]. *)
Definition f64_lt (x y : f64) : bool :=
  match x, y with
  | NaN, _ | _, NaN => false
  | Inf b1, Inf b2 => b1 && negb b2
  | Inf b, Fin _ _ => b
  | Fin _ _, Inf b => negb b
  | Fin m1 e1, Fin m2 e2 => m1 * pw (e1 - e2) <? m2 * pw (e2 - e1)
  end.

(** ** Powers of two *)

Lemma pw_pos e : 0 < pw e.
Proof. unfold pw. apply Z.pow_pos_nonneg; lia. Qed.
#[local] Hint Resolve pw_pos : core.

(** [pw e / pw (-e)] is [2^e]: the quotient rule, without fractions. *)
Lemma pw_shift e k : 0 ≤ k → pw (e + k) * pw (- e) = 2 ^ k * (pw (- (e + k)) * pw e).
Proof.
  intros Hk. unfold pw. rewrite <- !Z.pow_add_r by lia. f_equal. lia.
Qed.

(** Comparing [m1 * 2^e1] with [m2 * 2^e2] over any common exponent. *)
Lemma lt_scale m1 e1 m2 e2 k :
  k ≤ e1 → k ≤ e2 →
  m1 * pw (e1 - e2) < m2 * pw (e2 - e1) ↔ m1 * 2 ^ (e1 - k) < m2 * 2 ^ (e2 - k).
Proof.
  intros H1 H2. unfold pw.
  destruct (Z.le_gt_cases e1 e2).
  - rewrite Z.max_l, Z.max_r, Z.pow_0_r by lia.
    replace (e2 - k) with ((e2 - e1) + (e1 - k)) by lia. rewrite Z.pow_add_r by lia.
    pose proof (Z.pow_pos_nonneg 2 (e1 - k)). nia.
  - rewrite Z.max_r, Z.max_l, Z.pow_0_r by lia.
    replace (e1 - k) with ((e1 - e2) + (e2 - k)) by lia. rewrite Z.pow_add_r by lia.
    pose proof (Z.pow_pos_nonneg 2 (e2 - k)). nia.
Qed.

Lemma f64_lt_trans x y z : f64_lt x y = true → f64_lt y z = true → f64_lt x z = true.
Proof.
  destruct x as [|[]|m1 e1], y as [|[]|m2 e2], z as [|[]|m3 e3]; simpl; try done.
  rewrite !Z.ltb_lt. set (k := Z.min e1 (Z.min e2 e3)).
  rewrite (lt_scale m1 e1 m2 e2 k), (lt_scale m2 e2 m3 e3 k), (lt_scale m1 e1 m3 e3 k)
    by (unfold k; lia). lia.
Qed.

Lemma f64_lt_irrefl x : f64_lt x x = false.
Proof. destruct x as [|[]|m e]; simpl; try done. apply Z.ltb_ge. lia. Qed.

(** ** Rounding *)

Lemma div_rne_mono n1 d1 n2 d2 :
  0 < d1 → 0 < d2 → n1 * d2 ≤ n2 * d1 → div_rne n1 d1 ≤ div_rne n2 d2.
Proof.
  intros Hd1 Hd2 Hle. unfold div_rne.
  pose proof (Z.div_mod n1 d1 ltac:(lia)) as E1. pose proof (Z.div_mod n2 d2 ltac:(lia)) as E2.
  pose proof (Z.mod_pos_bound n1 d1 Hd1) as B1. pose proof (Z.mod_pos_bound n2 d2 Hd2) as B2.
  assert (n1 / d1 ≤ n2 / d2) as Hqle.
  { apply Z.div_le_lower_bound; [done|].
    assert (d1 * (d2 * (n1 / d1)) ≤ d1 * n2) by nia. nia. }
  set (q1 := n1 / d1) in *. set (q2 := n2 / d2) in *.
  set (r1 := n1 mod d1) in *. set (r2 := n2 mod d2) in *.
  destruct (Z.eq_dec q1 q2) as [Hq|Hq].
  - rewrite <- Hq in *. assert (r1 * d2 ≤ r2 * d1) as Hr by nia. clear E1 E2 Hle.
    clearbody q1 r1 r2.
    destruct (Z.ltb_spec (2 * r1) d1), (Z.ltb_spec (2 * r2) d2),
      (Z.ltb_spec d1 (2 * r1)), (Z.ltb_spec d2 (2 * r2)), (Z.even q1); nia.
  - destruct (2 * r1 <? d1), (2 * r2 <? d2), (d1 <? 2 * r1), (d2 <? 2 * r2),
      (Z.even q1), (Z.even q2); lia.
Qed.

Lemma div_rne_exact n d : 0 < d → div_rne (n * d) d = n.
Proof.
  intros Hd. unfold div_rne. rewrite Z.div_mul, Z.mod_mul by lia.
  destruct (Z.ltb_spec (2 * 0) d); lia.
Qed.

(** Half a unit in the last place bounds the error. *)
Lemma div_rne_error n d : 0 < d → 2 * Z.abs (div_rne n d * d - n) ≤ d.
Proof.
  intros Hd. unfold div_rne.
  pose proof (Z.div_mod n d ltac:(lia)). pose proof (Z.mod_pos_bound n d Hd).
  set (q := n / d) in *. set (r := n mod d) in *.
  destruct (Z.ltb_spec (2 * r) d), (Z.ltb_spec d (2 * r)), (Z.even q); nia.
Qed.

Lemma exp53_spec p q :
  0 < p → 0 < q →
  2 ^ 52 * den q (exp53 p q) ≤ num p (exp53 p q) < 2 ^ 53 * den q (exp53 p q).
Proof.
  intros Hp Hq. unfold exp53.
  pose proof (Z.log2_spec p Hp) as [Hp1 Hp2]. pose proof (Z.log2_spec q Hq) as [Hq1 Hq2].
  pose proof (Z.log2_nonneg p). pose proof (Z.log2_nonneg q).
  rewrite Z.pow_succ_r in Hp2, Hq2 by lia.
  set (e := Z.log2 p - Z.log2 q - 52).
  assert (2 ^ 52 * (2 ^ Z.log2 q * pw e) = 2 ^ Z.log2 p * pw (- e)) as Heq.
  { unfold pw. rewrite <- !Z.pow_add_r by lia. f_equal. unfold e. lia. }
  assert (2 ^ 51 * den q e < num p e < 2 ^ 53 * den q e) as [Hlo Hhi].
  { unfold num, den. pose proof (pw_pos e). pose proof (pw_pos (- e)).
    change (2 ^ 53) with (2 * 2 ^ 52). change (2 ^ 52) with (2 * 2 ^ 51) in Heq |- *.
    split; nia. }
  destruct (Z.ltb_spec (num p e) (2 ^ 52 * den q e)) as [Hlt|Hge]; [|lia].
  pose proof (pw_shift (e - 1) 1 ltac:(lia)) as Hs.
  replace (e - 1 + 1) with e in Hs by lia. change (2 ^ 1) with 2 in Hs.
  unfold num, den in *. pose proof (pw_pos e). pose proof (pw_pos (- e)).
  pose proof (pw_pos (e - 1)). pose proof (pw_pos (- (e - 1))).
  change (2 ^ 53) with (4 * 2 ^ 51) in *. change (2 ^ 52) with (2 * 2 ^ 51) in *.
  set (K := 2 ^ 51) in *. assert (0 < K) by (unfold K; lia).
  clearbody K. clear Heq Hp1 Hp2 Hq1 Hq2. clearbody e.
  split; nia.
Qed.

(** ** Order of rounded quotients *)

(** The significand of a non-zero quotient. *)
Definition sig (p q : Z) : Z := div_rne (num p (exp53 p q)) (den q (exp53 p q)).

Lemma rnd_pos p q : 0 < p → rnd p q = Fin (sig p q) (exp53 p q).
Proof. intros Hp. unfold rnd. destruct (Z.eqb_spec p 0); [lia|done]. Qed.

Lemma den_pos q e : 0 < q → 0 < den q e.
Proof. intros. unfold den. pose proof (pw_pos e). nia. Qed.

Lemma sig_bounds p q : 0 < p → 0 < q → 2 ^ 52 ≤ sig p q ≤ 2 ^ 53.
Proof.
  intros Hp Hq. pose proof (exp53_spec p q Hp Hq) as [Hlo Hhi]. unfold sig.
  set (e := exp53 p q) in *. pose proof (den_pos q e Hq) as Hd. split.
  - rewrite <- (div_rne_exact (2 ^ 52) (den q e)) by done. apply div_rne_mono; nia.
  - rewrite <- (div_rne_exact (2 ^ 53) (den q e)) by done. apply div_rne_mono; nia.
Qed.

(** A larger exponent means a larger quotient. *)
Lemma exp53_mono p1 q1 p2 q2 :
  0 < p1 → 0 < q1 → 0 < p2 → 0 < q2 → p1 * q2 ≤ p2 * q1 → exp53 p1 q1 ≤ exp53 p2 q2.
Proof.
  intros Hp1 Hq1 Hp2 Hq2 Hle. apply Z.le_ngt. intros Hlt.
  pose proof (exp53_spec p1 q1 Hp1 Hq1) as [Hlo _].
  pose proof (exp53_spec p2 q2 Hp2 Hq2) as [_ Hhi].
  set (e1 := exp53 p1 q1) in *. set (e2 := exp53 p2 q2) in *.
  pose proof (pw_shift e2 (e1 - e2) ltac:(lia)) as Hs.
  replace (e2 + (e1 - e2)) with e1 in Hs by lia.
  assert (2 ≤ 2 ^ (e1 - e2)) as H2.
  { change 2 with (2 ^ 1) at 1. apply Z.pow_le_mono_r; lia. }
  unfold num, den in *. set (k := 2 ^ (e1 - e2)) in *.
  pose proof (pw_pos e1). pose proof (pw_pos e2).
  pose proof (pw_pos (- e1)). pose proof (pw_pos (- e2)).
  change (2 ^ 53) with (2 * 2 ^ 52) in *. set (K := 2 ^ 52) in *.
  assert (0 < K) by (unfold K; lia). clearbody K k e1 e2.
  set (a := pw e1) in *. set (b := pw (- e1)) in *.
  set (c := pw e2) in *. set (d := pw (- e2)) in *. clearbody a b c d.
  (* K*q1*a <= p1*b, p2*d < 2*K*q2*c, a*d = k*(b*c), p1*q2 <= p2*q1 *)
  assert (K * (q1 * a) * (q2 * d) ≤ p1 * b * (q2 * d)) by nia.
  assert (p1 * q2 * (b * d) ≤ p2 * q1 * (b * d)) by nia.
  assert (p2 * d * (q1 * b) < 2 * K * (q2 * c) * (q1 * b)) by nia.
  assert (K * q1 * q2 * (a * d) < 2 * K * q1 * q2 * (b * c)) by nia.
  rewrite Hs in *.
  assert (0 < K * q1 * q2 * (b * c)) by nia.
  nia.
Qed.

Lemma rnd_mono p1 q1 p2 q2 :
  0 ≤ p1 → 0 < q1 → 0 ≤ p2 → 0 < q2 → p1 * q2 ≤ p2 * q1 →
  f64_lt (rnd p2 q2) (rnd p1 q1) = false.
Proof.
  intros Hp1 Hq1 Hp2 Hq2 Hle.
  destruct (Z.eq_dec p1 0) as [->|Hn1].
  { unfold rnd at 2. simpl. destruct (Z.eq_dec p2 0) as [->|Hn2]; [done|].
    rewrite rnd_pos by lia. simpl. apply Z.ltb_ge.
    pose proof (sig_bounds p2 q2 ltac:(lia) Hq2). pose proof (pw_pos (exp53 p2 q2 - 0)). nia. }
  assert (0 < p2) by nia. rewrite !rnd_pos by lia. simpl. apply Z.ltb_ge.
  pose proof (exp53_mono p1 q1 p2 q2 ltac:(lia) Hq1 ltac:(lia) Hq2 Hle) as He.
  destruct (Z.eq_dec (exp53 p1 q1) (exp53 p2 q2)) as [Heq|Hne].
  - rewrite Heq, !Z.sub_diag. enough (sig p1 q1 ≤ sig p2 q2) by (change (pw 0) with 1; lia).
    unfold sig. rewrite Heq. apply div_rne_mono; try (by apply den_pos).
    unfold num, den. pose proof (pw_pos (exp53 p2 q2)).
    pose proof (pw_pos (- exp53 p2 q2)).
    set (a := pw (exp53 p2 q2)) in *. set (b := pw (- exp53 p2 q2)) in *. clearbody a b.
    assert (p1 * q2 * (b * a) ≤ p2 * q1 * (b * a)) by (apply Z.mul_le_mono_nonneg_r; nia). lia.
  - pose proof (sig_bounds p1 q1 ltac:(lia) Hq1). pose proof (sig_bounds p2 q2 ltac:(lia) Hq2).
    assert (pw (exp53 p1 q1 - exp53 p2 q2) = 1) as ->
      by (unfold pw; rewrite Z.max_l by lia; done).
    assert (2 ≤ pw (exp53 p2 q2 - exp53 p1 q1)).
    { unfold pw. change 2 with (2 ^ 1) at 1. apply Z.pow_le_mono_r; lia. }
    change (2 ^ 53) with (2 * 2 ^ 52) in *. set (K := 2 ^ 52) in *.
    assert (0 < K) by (unfold K; lia). nia.
Qed.

(** Quotients of numbers whose cross products stay below [2^52] are separated
    by more than the rounding error: first when both have the same exponent
    ([a = pw e], [b = pw (-e)]), then when they straddle a power of two. *)
Lemma separated_same p1 q1 p2 q2 a b m1 m2 :
  0 < q1 → 0 < q2 → 0 < a → 0 < b →
  p1 * q2 < p2 * q1 → p2 * q1 < 2 ^ 52 → 2 ^ 52 * (q2 * a) ≤ p2 * b →
  2 * Z.abs (m1 * (q1 * a) - p1 * b) ≤ q1 * a →
  2 * Z.abs (m2 * (q2 * a) - p2 * b) ≤ q2 * a → m1 < m2.
Proof.
  intros Hq1 Hq2 Ha Hb Hlt Hsmall Hlo E1 E2. apply Z.lt_nge. intros Hge.
  set (K := 2 ^ 52) in *. assert (0 < K) by (unfold K; lia). clearbody K.
  assert (p2 * b * q1 ≤ m2 * (q2 * a) * q1 + q2 * a * q1 - p2 * b * q1 + m2 * (q2 * a) * q1) by nia.
  assert (m1 * (q1 * a) * q2 + m1 * (q1 * a) * q2 - q1 * a * q2 ≤ p1 * b * q2 + p1 * b * q2) by nia.
  assert (m2 * (q1 * q2 * a) ≤ m1 * (q1 * q2 * a)) by (apply Z.mul_le_mono_nonneg_r; nia).
  assert (q1 * (p2 * b) - q2 * (p1 * b) ≤ q1 * q2 * a) by lia.
  assert (b ≤ q1 * (p2 * b) - q2 * (p1 * b)) by nia.
  assert (K * (q1 * q2 * a) ≤ q1 * p2 * b) by nia.
  assert (K * b ≤ q1 * p2 * b) by nia. nia.
Qed.

Lemma separated_adjacent p1 q1 p2 q2 a1 b1 a2 b2 :
  0 < q1 → 0 < q2 → 0 < a1 → 0 < b1 → 0 < a2 → 0 < b2 →
  a2 * b1 = 2 * (b2 * a1) →
  p1 * q2 < p2 * q1 → p2 * q1 < 2 ^ 52 → 2 ^ 52 * (q2 * a2) ≤ p2 * b2 →
  2 * Z.abs (2 ^ 53 * (q1 * a1) - p1 * b1) ≤ q1 * a1 →
  2 * Z.abs (2 ^ 52 * (q2 * a2) - p2 * b2) ≤ q2 * a2 → False.
Proof.
  intros Hq1 Hq2 Ha1 Hb1 Ha2 Hb2 Hs Hlt Hsmall Hlo E1 E2.
  change (2 ^ 53) with (2 * 2 ^ 52) in *.
  set (K := 2 ^ 52) in *. assert (2 < K) by (unfold K; lia). clearbody K.
  set (u := q1 * q2 * a1) in *. assert (0 < u) by (unfold u; nia).
  (* everything over the common factor b1 * b2 *)
  assert (q2 * a2 * (q1 * b1) = 2 * (u * b2)) as Hu by (unfold u; nia).
  assert (2 * (p2 * b2 * (q1 * b1)) ≤ (2 * K + 1) * (q2 * a2 * (q1 * b1))) as H1 by nia.
  assert ((4 * K - 1) * (u * b2) ≤ 2 * (p1 * b1 * (q2 * b2))) as H2 by (unfold u; nia).
  assert (b1 * b2 ≤ p2 * b2 * (q1 * b1) - p1 * b1 * (q2 * b2)) as H3 by nia.
  rewrite Hu in H1. assert (2 * b1 * b2 ≤ 3 * u * b2) by nia.
  assert (2 * b1 ≤ 3 * u) as Hbu by nia.
  assert (K * (2 * (u * b2)) ≤ p2 * b2 * (q1 * b1)) as H5 by (rewrite <- Hu; nia).
  assert (2 * K * u ≤ p2 * q1 * b1) as H6 by nia. nia.
Qed.

Lemma rnd_strict p1 q1 p2 q2 :
  0 ≤ p1 → 0 < q1 → 0 ≤ p2 → 0 < q2 → p1 * q2 < p2 * q1 → p2 * q1 < 2 ^ 52 →
  f64_lt (rnd p1 q1) (rnd p2 q2) = true.
Proof.
  intros Hp1 Hq1 Hp2 Hq2 Hlt Hsmall. assert (0 < p2) by nia.
  rewrite (rnd_pos p2) by lia.
  pose proof (sig_bounds p2 q2 ltac:(lia) Hq2) as B2.
  destruct (Z.eq_dec p1 0) as [->|Hn1].
  { simpl. apply Z.ltb_lt. pose proof (pw_pos (exp53 p2 q2 - 0)). nia. }
  rewrite rnd_pos by lia. simpl. apply Z.ltb_lt.
  pose proof (sig_bounds p1 q1 ltac:(lia) Hq1) as B1.
  pose proof (exp53_mono p1 q1 p2 q2 ltac:(lia) Hq1 ltac:(lia) Hq2 ltac:(lia)) as He.
  pose proof (exp53_spec p2 q2 ltac:(lia) Hq2) as [Hlo2 _].
  pose proof (div_rne_error (num p1 (exp53 p1 q1)) _ (den_pos q1 (exp53 p1 q1) Hq1)) as E1.
  pose proof (div_rne_error (num p2 (exp53 p2 q2)) _ (den_pos q2 (exp53 p2 q2) Hq2)) as E2.
  fold (sig p1 q1) in E1. fold (sig p2 q2) in E2. unfold num, den in E1, E2, Hlo2.
  destruct (Z.eq_dec (exp53 p1 q1) (exp53 p2 q2)) as [Heq|Hne].
  - rewrite Heq, !Z.sub_diag in *. enough (sig p1 q1 < sig p2 q2) by (change (pw 0) with 1; lia).
    eapply (separated_same p1 q1 p2 q2); try apply E1; try apply E2; auto.
  - assert (pw (exp53 p1 q1 - exp53 p2 q2) = 1) as ->
      by (unfold pw; rewrite Z.max_l by lia; done).
    apply Z.lt_nge. intros Hge.
    assert (pw (exp53 p2 q2 - exp53 p1 q1) = 2 ^ (exp53 p2 q2 - exp53 p1 q1)) as Hpw
      by (unfold pw; f_equal; lia).
    assert (2 ^ 1 ≤ 2 ^ (exp53 p2 q2 - exp53 p1 q1)) as H2 by (apply Z.pow_le_mono_r; lia).
    change (2 ^ 53) with (2 * 2 ^ 52) in B1.
    assert (sig p1 q1 = 2 ^ 53 ∧ sig p2 q2 = 2 ^ 52 ∧ pw (exp53 p2 q2 - exp53 p1 q1) = 2)
      as (S1 & S2 & S3).
    { change (2 ^ 53) with (2 * 2 ^ 52). set (K := 2 ^ 52) in *.
      assert (0 < K) by (unfold K; lia). clearbody K. rewrite Hpw in *. nia. }
    rewrite S1 in E1. rewrite S2 in E2.
    pose proof (pw_shift (exp53 p1 q1) (exp53 p2 q2 - exp53 p1 q1) ltac:(lia)) as Hs.
    rewrite <- Hpw, S3 in Hs.
    replace (exp53 p1 q1 + (exp53 p2 q2 - exp53 p1 q1)) with (exp53 p2 q2) in Hs by lia.
    eapply (separated_adjacent p1 q1 p2 q2); try apply E1; try apply E2; auto.
Qed.

(** ** Quotients of integers *)

(** Rounding depends on the quotient only, not on the fraction that denotes it. *)
Lemma rnd_ratio p q a b :
  0 ≤ p → 0 < q → 0 ≤ a → 0 < b → p * b = a * q → rnd p q = rnd a b.
Proof.
  intros Hp Hq Ha Hb Heq.
  destruct (Z.eq_dec p 0) as [->|Hnp].
  { assert (a = 0) as -> by (apply (Z.mul_reg_r _ _ q); lia). done. }
  assert (0 < a) by nia. rewrite !rnd_pos by lia.
  assert (exp53 p q = exp53 a b) as He.
  { apply Z.le_antisymm; apply exp53_mono; lia. }
  rewrite He. f_equal. unfold sig. rewrite He.
  pose proof (pw_pos (exp53 a b)). pose proof (pw_pos (- exp53 a b)).
  apply Z.le_antisymm; apply div_rne_mono; try (by apply den_pos); unfold num, den;
    set (x := pw (exp53 a b)) in *; set (y := pw (- exp53 a b)) in *; clearbody x y; nia.
Qed.

Lemma f64_of_int_exact a :
  0 < a < 2 ^ 53 → ∃ e, 0 ≤ e ∧ f64_of_int a = Fin (a * 2 ^ e) (- e).
Proof.
  intros Ha. unfold f64_of_int. destruct (Z.ltb_spec a 0); [lia|]. rewrite rnd_pos by lia.
  pose proof (exp53_spec a 1 ltac:(lia) ltac:(lia)) as [Hlo _].
  assert (exp53 a 1 ≤ 0) as He.
  { apply Z.le_ngt. intros Hpos. unfold num, den, pw in Hlo.
    rewrite (Z.max_r 0 (exp53 a 1)), (Z.max_l 0 (- exp53 a 1)) in Hlo by lia.
    assert (2 ^ 1 ≤ 2 ^ exp53 a 1) by (apply Z.pow_le_mono_r; lia). lia. }
  exists (- exp53 a 1). split; [lia|]. rewrite Z.opp_involutive. f_equal.
  unfold sig, num, den. replace (1 * pw (exp53 a 1)) with 1
    by (unfold pw; rewrite Z.max_l by lia; done).
  rewrite <- (Z.mul_1_r (a * pw _)) at 1. rewrite div_rne_exact by lia.
  unfold pw. rewrite Z.max_r by lia. done.
Qed.

Lemma f64_of_int_0 : f64_of_int 0 = Fin 0 0.
Proof. done. Qed.

(** [float64(a) / float64(b)] for the integers that occur as loads and
    capacities: the rounded exact quotient. *)
Lemma f64_div_int a b :
  0 ≤ a < 2 ^ 53 → 0 < b < 2 ^ 53 → f64_div (f64_of_int a) (f64_of_int b) = rnd a b.
Proof.
  intros Ha Hb. destruct (f64_of_int_exact b Hb) as (eb & Heb & ->).
  pose proof (Z.pow_pos_nonneg 2 eb ltac:(lia) Heb) as Hpb.
  assert (∃ ma ea, f64_of_int a = Fin ma (- ea) ∧ 0 ≤ ea ∧ ma = a * 2 ^ ea)
    as (ma & ea & -> & Hea & ->).
  { destruct (Z.eq_dec a 0) as [->|Hn].
    - exists 0, 0. rewrite f64_of_int_0. split_and!; done || lia.
    - destruct (f64_of_int_exact a) as (e & ? & ?); [lia|]. eauto. }
  pose proof (Z.pow_pos_nonneg 2 ea ltac:(lia) Hea) as Hpa. unfold f64_div.
  destruct (Z.eqb_spec (b * 2 ^ eb) 0); [nia|].
  destruct (Z.ltb_spec (a * 2 ^ ea) 0); [nia|].
  destruct (Z.ltb_spec (b * 2 ^ eb) 0); [nia|]. simpl.
  rewrite !Z.abs_eq by nia.
  pose proof (pw_pos (- ea - - eb)) as Hpw1. pose proof (pw_pos (- eb - - ea)) as Hpw2.
  assert (2 ^ ea * pw (- ea - - eb) = 2 ^ eb * pw (- eb - - ea)) as Hs.
  { unfold pw. rewrite <- !Z.pow_add_r by lia. f_equal. lia. }
  apply rnd_ratio; nia.
Qed.

Example ratio_third : f64_div (f64_of_int 1) (f64_of_int 3) = Fin 6004799503160661 (-54).
Proof. vm_compute. reflexivity. Qed.
Example ratio_half_lt : f64_lt (f64_div (f64_of_int 1) (f64_of_int 2))
                               (f64_div (f64_of_int 3) (f64_of_int 4)) = true.
Proof. vm_compute. reflexivity. Qed.

(** ** Sums and truncation

    [time.Duration.Seconds] adds two non-negative finite floats, and [int(x)]
    truncates one. *)

Definition f64_add (x y : f64) : f64 :=
  match x, y with
  | Fin m1 e1, Fin m2 e2 =>
      let k := Z.min e1 e2 in
      rnd ((m1 * pw (e1 - e2) + m2 * pw (e2 - e1)) * pw k) (pw (- k))
  | _, _ => NaN
  end.

(** [int(x)] for a finite [x]. *)
Definition f64_to_int (x : f64) : Z :=
  match x with Fin m e => Z.quot (m * pw e) (pw (- e)) | _ => 0 end.

Definition f64_nonneg (x : f64) : Prop := match x with Fin m _ => 0 ≤ m | _ => False end.

Lemma rnd_nonneg p q : 0 ≤ p → 0 < q → f64_nonneg (rnd p q).
Proof.
  intros Hp Hq. destruct (Z.eq_dec p 0) as [->|]; [done|]. rewrite rnd_pos by lia.
  pose proof (sig_bounds p q ltac:(lia) Hq). simpl. lia.
Qed.

Lemma div_le_cross a b c d : 0 < b → 0 < d → a * d ≤ c * b → a / b ≤ c / d.
Proof.
  intros Hb Hd Hle. rewrite <- (Z.div_mul_cancel_r a b d), <- (Z.div_mul_cancel_r c d b) by lia.
  rewrite (Z.mul_comm d b). apply Z.div_le_mono; nia.
Qed.

(** The factors of two floats over a common exponent. *)
Lemma pw_cross e1 e2 : pw (e1 - e2) * (pw (- e1) * pw e2) = pw (e2 - e1) * (pw e1 * pw (- e2)).
Proof. unfold pw. rewrite <- !Z.pow_add_r by lia. f_equal. lia. Qed.

Lemma f64_to_int_mono x y :
  f64_nonneg x → f64_nonneg y → f64_lt y x = false → f64_to_int x ≤ f64_to_int y.
Proof.
  destruct x as [| |m1 e1], y as [| |m2 e2]; simpl; try done. intros H1 H2 Hle.
  apply Z.ltb_ge in Hle. pose proof (pw_cross e1 e2) as Hc.
  pose proof (pw_pos e1). pose proof (pw_pos (- e1)). pose proof (pw_pos e2). pose proof (pw_pos (- e2)).
  pose proof (pw_pos (e1 - e2)). pose proof (pw_pos (e2 - e1)).
  rewrite !Z.quot_div_nonneg by nia. apply div_le_cross; [done|done|].
  set (a := pw (e1 - e2)) in *. set (b := pw (e2 - e1)) in *.
  set (c := pw e1) in *. set (d := pw (- e1)) in *. set (f := pw e2) in *. set (g := pw (- e2)) in *.
  clearbody a b c d f g.
  assert (m1 * a * (c * g) ≤ m2 * b * (c * g)) as Hm by (apply Z.mul_le_mono_nonneg_r; nia).
  assert (m2 * b * (c * g) = m2 * a * (d * f)) as Heq by (rewrite <- !Z.mul_assoc, <- Hc; ring).
  rewrite Heq in Hm. apply (Z.mul_le_mono_pos_l _ _ a); [done|]. nia.
Qed.

(** Fractions of 53 bits over a power of two are exact. *)
Lemma rnd_dyadic p k :
  0 < p < 2 ^ 53 → 0 ≤ k → ∃ j, 0 ≤ j ∧ rnd p (2 ^ k) = Fin (p * 2 ^ j) (- (k + j)).
Proof.
  intros Hp Hk. rewrite rnd_pos by lia. pose proof (Z.pow_pos_nonneg 2 k ltac:(lia) Hk) as Hpk.
  pose proof (exp53_spec p (2 ^ k) ltac:(lia) Hpk) as [Hlo _]. set (e := exp53 p (2 ^ k)) in *.
  assert (e ≤ - k) as He.
  { apply Z.le_ngt. intros Hgt. unfold num, den in Hlo.
    assert (2 * pw (- e) ≤ 2 ^ k * pw e) as H2.
    { unfold pw. change 2 with (2 ^ 1) at 1. rewrite <- !Z.pow_add_r by lia.
      apply Z.pow_le_mono_r; lia. }
    pose proof (pw_pos (- e)). change (2 ^ 53) with (2 * 2 ^ 52) in Hp.
    set (K := 2 ^ 52) in *. assert (0 < K) by (unfold K; lia). clearbody K. nia. }
  exists (- k - e). split; [lia|]. f_equal; [|lia]. unfold sig, num, den. fold e.
  assert (pw e = 1) as -> by (unfold pw; rewrite Z.max_l by lia; done).
  assert (pw (- e) = 2 ^ (- k - e) * 2 ^ k) as ->.
  { unfold pw. rewrite <- Z.pow_add_r by lia. f_equal. lia. }
  rewrite Z.mul_1_r, Z.mul_assoc. apply div_rne_exact. lia.
Qed.

Lemma f64_to_int_dyadic p k :
  0 ≤ p < 2 ^ 53 → 0 ≤ k → f64_to_int (rnd p (2 ^ k)) = p / 2 ^ k.
Proof.
  intros Hp Hk. destruct (Z.eq_dec p 0) as [->|].
  { rewrite Z.div_0_l by (pose proof (Z.pow_pos_nonneg 2 k); lia). done. }
  destruct (rnd_dyadic p k) as (j & Hj & ->); [lia|done|]. simpl.
  assert (pw (- (k + j)) = 1) as -> by (unfold pw; rewrite Z.max_l by lia; done).
  assert (pw (- - (k + j)) = 2 ^ k * 2 ^ j) as ->.
  { unfold pw. rewrite <- Z.pow_add_r by lia. f_equal. lia. }
  pose proof (Z.pow_pos_nonneg 2 k ltac:(lia) Hk). pose proof (Z.pow_pos_nonneg 2 j ltac:(lia) Hj).
  rewrite Z.mul_1_r, Z.quot_div_nonneg by nia. apply Z.div_mul_cancel_r; lia.
Qed.

(** *** Signs *)

Definition f64_nonpos (x : f64) : Prop := match x with Fin m _ => m ≤ 0 | _ => False end.

Lemma f64_of_int_sign z :
  ∃ m e, f64_of_int z = Fin m e ∧ (0 ≤ z → 0 ≤ m) ∧ (0 < z → 0 < m) ∧ (z < 0 → m < 0).
Proof.
  unfold f64_of_int. destruct (Z.ltb_spec z 0) as [Hz|Hz].
  - rewrite rnd_pos by lia. pose proof (sig_bounds (- z) 1). simpl. eexists _, _. split; [done|lia].
  - destruct (Z.eq_dec z 0) as [->|]; [eexists 0, 0; split; [done|lia]|].
    rewrite rnd_pos by lia. pose proof (sig_bounds z 1). eexists _, _. split; [done|lia].
Qed.

(** The sign of a quotient of integers. *)
Lemma f64_div_sign a b :
  0 ≤ a → (0 < b → f64_nonneg (f64_div (f64_of_int a) (f64_of_int b))) ∧
          (b < 0 → f64_nonpos (f64_div (f64_of_int a) (f64_of_int b))).
Proof.
  intros Ha. destruct (f64_of_int_sign a) as (m1 & e1 & -> & Ha1 & _).
  destruct (f64_of_int_sign b) as (m2 & e2 & -> & _ & Hb1 & Hb2). simpl. specialize (Ha1 Ha).
  pose proof (pw_pos (e1 - e2)). pose proof (pw_pos (e2 - e1)).
  rewrite (proj2 (Z.ltb_ge m1 0)) by lia.
  assert (m2 ≠ 0 → f64_nonneg (rnd (Z.abs m1 * pw (e1 - e2)) (Z.abs m2 * pw (e2 - e1)))) as Hr
    by (intros; apply rnd_nonneg; nia).
  split; intros Hb; (destruct (Z.eqb_spec m2 0); [lia|]); specialize (Hr ltac:(done));
    destruct (Z.ltb_spec m2 0); simpl; try lia; [done|].
  destruct (rnd _ _); simpl in *; [done..|lia].
Qed.

Lemma f64_lt_signs x y : f64_nonneg x → f64_nonpos y → f64_lt x y = false.
Proof.
  destruct x as [| |m1 e1], y as [| |m2 e2]; simpl; try done. intros H1 H2. apply Z.ltb_ge.
  pose proof (pw_pos (e1 - e2)). pose proof (pw_pos (e2 - e1)). nia.
Qed.
