(* ===== verification/Cluster.v ===== *)
(** The cluster manager (src/pkg/cluster/cluster.go): the table of peers that the
    gossip callbacks maintain, the choice of the peer to forward to, DNS
    discovery and the broadcast loop.

    hashicorp/memberlist (the gossip transport) and the protobuf codec are not
    part of the repository: the callbacks memberlist makes are the model's events,
    its member list an argument, and the codec the class [NodeStatePb].  The load
    provider is consulted once per call; its answer is the argument [load].  Go
    iterates over a map in an unspecified order: [SelectBestPeer] takes the order
    as an argument and its theorems hold for every permutation. *)

From S2P Require Import Prelude GoStrings Messages Float64.
Local Open Scope Z_scope.

Module Cluster.

(** [NodeState] of state.proto; the two numbers are int32. *)
Record NodeState := mkNodeState {
  ns_Name : string;
  GrpcAddress : string;
  PendingTasks : Z;
  MaxConcurrency : Z;
  Tag : string;
  LastUpdated : Z;
}.

Definition zero_state : NodeState := mkNodeState "" "" 0 0 "" 0.

(** The protobuf codec of [NodeState]. *)
Class NodeStatePb := {
  Marshal : NodeState → result string;
  Unmarshal : string → result NodeState;
  Unmarshal_Marshal s b : Marshal s = Ok b → Unmarshal b = Ok s;
  Unmarshal_empty : Unmarshal "" = Ok zero_state;
}.

(** [config.ClusterConfig]. *)
Record ClusterConfig := mkClusterConfig {
  Enabled : bool;
  NodeID : string;
  BindPort : N;
  AdvertiseAddr : string;
  DiscoveryMode : string;
  JoinPeers : list string;
  DNSServiceName : string;
  BroadcastPeriod : Z;
}.

(** The fields of [memberlist.Node] the callbacks read; [n_Addr] is the printed
    IP address. *)
Record Node := mkNode { n_Name : string; n_Addr : string; n_Port : N; n_Meta : string }.

Record Manager := mkManager {
  cfg : ClusterConfig;
  concurrency : Z;
  hasLoadProvider : bool;
  localState : NodeState;
  peers : gmap string NodeState;
}.

Definition set_peers p m := mkManager (cfg m) (concurrency m) (hasLoadProvider m) (localState m) p.

Definition NewManager (cfg : ClusterConfig) (grpcAddress : string) (concurrency : Z)
    (hasLoadProvider : bool) (hostname : result string) (uuid : string) (now : Z) : Manager :=
  let nodeID :=
    if (NodeID cfg =? "")%string
    then match hostname with Ok h => h | Err _ => uuid end
    else NodeID cfg in
  mkManager cfg concurrency hasLoadProvider
    (mkNodeState nodeID grpcAddress 0 (int32 concurrency) "" now) ∅.

Definition SetLoadProvider (m : Manager) : Manager :=
  mkManager (cfg m) (concurrency m) true (localState m) (peers m).

Definition GetLocalState (load now : Z) (m : Manager) : NodeState :=
  let s := localState m in
  mkNodeState (ns_Name s) (GrpcAddress s)
    (if hasLoadProvider m then int32 load else PendingTasks s)
    (MaxConcurrency s) (Tag s) now.

Definition GetPeers (m : Manager) : list NodeState := (map_to_list (peers m)).*2.

Definition GetPeerByNodeID (nodeID : string) (m : Manager) : option NodeState :=
  peers m !! nodeID.

(** *** Choosing a peer *)

Definition ratio (load capacity : Z) : f64 := f64_div (f64_of_int load) (f64_of_int capacity).

Definition peerHasCapacity (p : NodeState) : bool := PendingTasks p <? MaxConcurrency p.

(** The loop over the peers: the best peer so far, its load and capacity. *)
Fixpoint best_loop (order : list NodeState) (bestPeer : option NodeState)
    (bestLoad bestCapacity : Z) : option NodeState :=
  match order with
  | [] => bestPeer
  | peer :: order =>
      if negb (peerHasCapacity peer) then best_loop order bestPeer bestLoad bestCapacity
      else
        let peerLoadRatio := ratio (PendingTasks peer) (MaxConcurrency peer) in
        let bestLoadRatio := ratio bestLoad bestCapacity in
        if f64_lt peerLoadRatio bestLoadRatio
        then best_loop order (Some peer) (PendingTasks peer) (MaxConcurrency peer)
        else best_loop order bestPeer bestLoad bestCapacity
  end.

Definition localLoad (load : Z) (m : Manager) : Z := if hasLoadProvider m then load else 0.

Definition SelectBestPeer (order : list NodeState) (load : Z) (m : Manager) : option NodeState :=
  let localLoad := localLoad load m in
  let localCapacity := concurrency m in
  let localHasCapacity := localLoad <? localCapacity in
  let bestPeer := best_loop order None localLoad localCapacity in
  if localHasCapacity && bool_decide (bestPeer = None) then None else bestPeer.

(** *** Gossip callbacks *)

Definition is_bind_host (host : string) : bool :=
  (host =? "")%string || (host =? "0.0.0.0")%string || (host =? "::")%string.

(** A bind address (0.0.0.0, ::, or an empty host) gets [repl] as its host. *)
Definition replace_bind_host (addr repl : string) : string :=
  match SplitHostPort addr with
  | Ok (host, port) => if is_bind_host host then JoinHostPort repl port else addr
  | Err _ => addr
  end.

Definition with_address (s : NodeState) (addr : string) : NodeState :=
  mkNodeState (ns_Name s) addr (PendingTasks s) (MaxConcurrency s) (Tag s) (LastUpdated s).

Section callbacks.
Context `{NodeStatePb}.

Definition NodeMeta (limit load now : Z) (m : Manager) : option string :=
  match Marshal (GetLocalState load now m) with
  | Err _ => None
  | Ok data => if limit <? Z.of_nat (String.length data) then None else Some data
  end.

Definition NotifyMsg (msg : string) (m : Manager) : Manager :=
  if (msg =? "")%string then m
  else match Unmarshal msg with
  | Err _ => m
  | Ok state =>
      if (ns_Name state =? ns_Name (localState m))%string then m
      else
        let state :=
          match peers m !! ns_Name state with
          | Some existing =>
              match SplitHostPort (GrpcAddress state) with
              | Ok (host, port) =>
                  if is_bind_host host then
                    match SplitHostPort (GrpcAddress existing) with
                    | Ok (existingHost, _) =>
                        with_address state (JoinHostPort existingHost port)
                    | Err _ => state
                    end
                  else state
              | Err _ => state
              end
          | None => state
          end in
        set_peers (<[ns_Name state := state]> (peers m)) m
  end.

Definition MergeRemoteState (buf : string) (m : Manager) : Manager := NotifyMsg buf m.

Definition NotifyJoin (node : Node) (now : Z) (m : Manager) : Manager :=
  if (n_Name node =? ns_Name (localState m))%string then m
  else
    let state :=
      match Unmarshal (n_Meta node) with
      | Ok state => state
      | Err _ => mkNodeState (n_Name node) (n_Addr node +:+ ":" +:+ print_dec (n_Port node))
                   0 0 "" now
      end in
    let state := with_address state (replace_bind_host (GrpcAddress state) (n_Addr node)) in
    set_peers (<[n_Name node := state]> (peers m)) m.

Definition NotifyLeave (node : Node) (m : Manager) : Manager :=
  if (n_Name node =? ns_Name (localState m))%string then m
  else set_peers (delete (n_Name node) (peers m)) m.

Definition NotifyUpdate (node : Node) (m : Manager) : Manager :=
  if (n_Name node =? ns_Name (localState m))%string then m
  else match Unmarshal (n_Meta node) with
  | Err _ => m
  | Ok state =>
      let state := with_address state (replace_bind_host (GrpcAddress state) (n_Addr node)) in
      set_peers (<[n_Name node := state]> (peers m)) m
  end.

(** What memberlist may call, in any order. *)
Inductive gossip :=
  | GMsg (msg : string)
  | GMerge (buf : string)
  | GJoin (node : Node) (now : Z)
  | GLeave (node : Node)
  | GUpdate (node : Node)
  | GSetLoad.

Definition gossip_step (m : Manager) (g : gossip) : Manager :=
  match g with
  | GMsg msg => NotifyMsg msg m
  | GMerge buf => MergeRemoteState buf m
  | GJoin node now => NotifyJoin node now m
  | GLeave node => NotifyLeave node m
  | GUpdate node => NotifyUpdate node m
  | GSetLoad => SetLoadProvider m
  end.

Definition gossip_run (m : Manager) (gs : list gossip) : Manager := foldl gossip_step m gs.
End callbacks.

(** *** Discovery *)

(** One attempt of the resolver: its answer, the context's error right after
    a failed lookup, and its error if it ends during the one-second wait. *)
Record attempt := mkAttempt {
  at_lookup : result (list string);
  at_ctx : option error;
  at_wait : option error;
}.

(** The retry loop: [n] attempts are left, [last] is the error of the previous one. *)
Fixpoint dns_loop (n : nat) (i : nat) (at_ : nat → attempt) (last : error)
    : result (list string) :=
  match n with
  | O => Err last
  | S n =>
      match at_lookup (at_ i) with
      | Ok ips => Ok ips
      | Err e =>
          match at_ctx (at_ i) with
          | Some c => Err c
          | None =>
              match at_wait (at_ i) with
              | Some c => Err c
              | None => dns_loop n (S i) at_ (Wrapped "DNS lookup failed after retries" e)
              end
          end
      end
  end.

(** [fmt.Sprintf("%s:%d", ip, port)]. *)
Definition dns_addr (port : N) (ip : string) : string := ip +:+ ":" +:+ print_dec port.

Definition discoverDNS (c : ClusterConfig) (at_ : nat → attempt) : result (list string) :=
  if (DNSServiceName c =? "")%string
  then Err (Errorf "dns_service_name is required for DNS discovery")
  else match dns_loop 5 0 at_ (Errorf "") with
       | Err e => Err e
       | Ok ips => Ok (dns_addr (BindPort c) <$> ips)
       end.

Definition discoverPeers (c : ClusterConfig) (at_ : nat → attempt) : result (list string) :=
  if (DiscoveryMode c =? "dns")%string then discoverDNS c at_ else Ok (JoinPeers c).

(** [members] is [m.list.Members()], or [None] before memberlist is started. *)
Definition filterKnownPeers (members : option (list Node)) (candidates : list string)
    : list string :=
  match members with
  | None => candidates
  | Some ms =>
      let known : gset string :=
        list_to_set ((λ n, JoinHostPort (n_Addr n) (print_dec (n_Port n))) <$> ms) in
      filter (λ c, c ∉ known) candidates
  end.

(** *** Broadcast loop: the reaction to a tick of the 10 ms load ticker.  Returns
    the new [lastLoad] and whether the state is broadcast. *)
Definition loadTick (load lastLoad : Z) (m : Manager) : Z * bool :=
  if hasLoadProvider m then
    if load =? lastLoad then (lastLoad, false) else (load, 0 <? load)
  else (lastLoad, false).

(** ** Choosing a peer: lemmas *)

Definition peer_ratio (p : NodeState) : f64 := ratio (PendingTasks p) (MaxConcurrency p).

(** [r] is not beaten by any candidate of [order]. *)
Definition unbeaten (order : list NodeState) (r : f64) : Prop :=
  ∀ c, c ∈ order → peerHasCapacity c = true → f64_lt (peer_ratio c) r = false.

Lemma unbeaten_cons q order r :
  (peerHasCapacity q = true → f64_lt (peer_ratio q) r = false) →
  unbeaten order r → unbeaten (q :: order) r.
Proof. intros Hq Ho c [->|Hc]%elem_of_cons; auto. Qed.

Lemma f64_lt_false_below x y z :
  f64_lt x z = false → f64_lt y z = true → f64_lt x y = false.
Proof.
  intros Hx Hy. destruct (f64_lt x y) eqn:E; [|done].
  by rewrite (f64_lt_trans _ _ _ E Hy) in Hx.
Qed.

Lemma f64_lt_asym x y : f64_lt x y = true → f64_lt y x = false.
Proof. intros Hx. by eapply f64_lt_false_below; [apply f64_lt_irrefl|]. Qed.

(** [best_loop] finds a candidate no candidate is better than, and keeps the
    initial choice exactly when no candidate beats it. *)
Lemma best_loop_spec order best bl bc :
  match best_loop order best bl bc with
  | None => best = None ∧ unbeaten order (ratio bl bc)
  | Some p =>
      (best = Some p ∧ unbeaten order (ratio bl bc)) ∨
      (p ∈ order ∧ peerHasCapacity p = true ∧ f64_lt (peer_ratio p) (ratio bl bc) = true ∧
       unbeaten order (peer_ratio p))
  end.
Proof.
  revert best bl bc. induction order as [|q order IH]; intros best bl bc; simpl.
  { destruct best; [left|]; (split; [done|]); intros c Hc; by apply not_elem_of_nil in Hc. }
  destruct (peerHasCapacity q) eqn:Hq; simpl.
  2: { specialize (IH best bl bc). destruct (best_loop _ _ _ _) as [p|].
       - destruct IH as [[? ?]|(? & ? & ? & ?)]; [left|right].
         + split; [done|]. apply unbeaten_cons; [congruence|done].
         + split_and!; [by right|done|done|]. apply unbeaten_cons; [congruence|done].
       - destruct IH. split; [done|]. apply unbeaten_cons; [congruence|done]. }
  fold (peer_ratio q). destruct (f64_lt (peer_ratio q) (ratio bl bc)) eqn:Hlt.
  - specialize (IH (Some q) (PendingTasks q) (MaxConcurrency q)). fold (peer_ratio q) in IH.
    destruct (best_loop _ _ _ _) as [p|]; [|by destruct IH]. right.
    destruct IH as [[[= ->] Hun]|(Hp & Hcap & Hpq & Hun)].
    + split_and!; [by left|done|done|]. apply unbeaten_cons; [|done]. by rewrite f64_lt_irrefl.
    + split_and!; [by right|done|by eapply f64_lt_trans|].
      apply unbeaten_cons; [|done]. intros _. by apply f64_lt_asym.
  - specialize (IH best bl bc). destruct (best_loop _ _ _ _) as [p|].
    + destruct IH as [[? ?]|(? & ? & Hpl & ?)]; [left|right].
      * split; [done|]. by apply unbeaten_cons.
      * split_and!; [by right|done|done|]. apply unbeaten_cons; [|done].
        intros _. by eapply f64_lt_false_below.
    + destruct IH. split; [done|]. by apply unbeaten_cons.
Qed.

Lemma SelectBestPeer_loop order load m :
  SelectBestPeer order load m = best_loop order None (localLoad load m) (concurrency m).
Proof.
  unfold SelectBestPeer. destruct (best_loop _ _ _ _) as [p|]; simpl.
  - by rewrite andb_false_r.
  - by destruct (_ && _).
Qed.

Lemma elem_of_order (order : list NodeState) m p :
  order ≡ₚ GetPeers m → p ∈ order ↔ ∃ n, peers m !! n = Some p.
Proof.
  intros ->. unfold GetPeers. rewrite list_elem_of_fmap. split.
  - intros ([n q] & -> & Hn%elem_of_map_to_list). eauto.
  - intros [n Hn%elem_of_map_to_list]. by exists (n, p).
Qed.

(** Loads and capacities for which the float64 comparison is exact. *)
Definition small (load capacity : Z) : Prop := 0 ≤ load < 2 ^ 26 ∧ 0 < capacity < 2 ^ 26.

Lemma ratio_lt_exact l1 c1 l2 c2 :
  small l1 c1 → small l2 c2 →
  f64_lt (ratio l1 c1) (ratio l2 c2) = true ↔ l1 * c2 < l2 * c1.
Proof.
  intros [? ?] [? ?]. unfold ratio. rewrite !f64_div_int by lia. split.
  - intros Hlt. apply Z.lt_nge. intros Hge. rewrite rnd_mono in Hlt by lia. done.
  - intros Hlt. apply rnd_strict; try lia. nia.
Qed.

(** ** The peer table: lemmas *)

(** The properties of the manager that no callback changes or breaks. *)
Definition no_self (m : Manager) : Prop := peers m !! ns_Name (localState m) = None.

Section callback_lemmas.
Context `{NodeStatePb}.

Lemma gossip_localState m g : localState (gossip_step m g) = localState m.
Proof.
  destruct g; simpl; unfold MergeRemoteState, NotifyMsg, NotifyJoin, NotifyLeave, NotifyUpdate;
    try done; repeat (break_match; try done).
Qed.

Lemma no_self_insert m n s :
  no_self m → n ≠ ns_Name (localState m) → no_self (set_peers (<[n := s]> (peers m)) m).
Proof. intros Hm Hn. unfold no_self. simpl. by rewrite lookup_insert_ne. Qed.

Lemma NotifyMsg_name (m : Manager) state addr :
  ns_Name state ≠ ns_Name (localState m) →
  ns_Name (with_address state addr) ≠ ns_Name (localState m).
Proof. done. Qed.

Lemma NotifyMsg_no_self m msg : no_self m → no_self (NotifyMsg msg m).
Proof.
  intros Hm. unfold NotifyMsg. destruct (_ =? "")%string; [done|].
  destruct (Unmarshal msg) as [st|]; [|done].
  destruct (_ =? _)%string eqn:E; [done|]. to_prop.
  apply no_self_insert; [done|].
  repeat (break_match; try done).
Qed.

Lemma gossip_no_self m g : no_self m → no_self (gossip_step m g).
Proof.
  intros Hm. destruct g; simpl.
  - by apply NotifyMsg_no_self.
  - by apply NotifyMsg_no_self.
  - unfold NotifyJoin. destruct (_ =? _)%string eqn:E; [done|]. to_prop.
    by apply no_self_insert.
  - unfold NotifyLeave. destruct (_ =? _)%string eqn:E; [done|].
    unfold no_self. simpl. by rewrite lookup_delete_None; right.
  - unfold NotifyUpdate. destruct (_ =? _)%string eqn:E; [done|]. to_prop.
    destruct (Unmarshal _); [|done]. by apply no_self_insert.
  - done.
Qed.

Lemma gossip_run_no_self m gs :
  no_self m → no_self (gossip_run m gs) ∧ localState (gossip_run m gs) = localState m.
Proof.
  unfold gossip_run. revert m. induction gs as [|g gs IH]; intros m Hm; simpl; [done|].
  destruct (IH (gossip_step m g)) as [? Hl]; [by apply gossip_no_self|].
  by rewrite Hl, gossip_localState.
Qed.
End callback_lemmas.

(** ** Addresses *)

(** An address another node can dial: it splits, and its host is not a bind host. *)
Definition routable (addr : string) : Prop :=
  ∃ host port, SplitHostPort addr = Ok (host, port) ∧ is_bind_host host = false.

(** The printed form of an IP address a peer can have. *)
Definition peer_ip (ip : string) : Prop :=
  is_bind_host ip = false ∧ contains_byte "[" ip = false ∧ contains_byte "]" ip = false.

Lemma replace_bind_routable addr hp ip :
  SplitHostPort addr = Ok hp → peer_ip ip → routable (replace_bind_host addr ip).
Proof.
  intros Hs (Hb & Hl & Hr). unfold replace_bind_host. rewrite Hs. destruct hp as [host port].
  destruct (is_bind_host host) eqn:E; [|by exists host, port].
  apply SplitHostPort_Ok in Hs as (_ & _ & ? & ? & ?).
  exists ip, port. split; [|done]. by apply split_join_host_port.
Qed.

Definition all_routable (m : Manager) : Prop :=
  ∀ n s, peers m !! n = Some s → routable (GrpcAddress s).

Lemma all_routable_insert m n s :
  all_routable m → routable (GrpcAddress s) →
  all_routable (set_peers (<[n := s]> (peers m)) m).
Proof. intros Hm Hs n' s'. simpl. intros [[_ <-]|[_ ?]]%lookup_insert_Some; eauto. Qed.

Section routable.
Context `{NodeStatePb}.

(** What the gossip layer delivers for well-behaved nodes: states with
    addresses that split, nodes with real IP addresses, and messages only
    from peers that have joined. *)
Definition good_state (bytes : string) : Prop :=
  ∀ st, Unmarshal bytes = Ok st → ∃ hp, SplitHostPort (GrpcAddress st) = Ok hp.
Definition good_msg (m : Manager) (msg : string) : Prop :=
  good_state msg ∧
  ∀ st, Unmarshal msg = Ok st →
    ns_Name st = ns_Name (localState m) ∨ is_Some (peers m !! ns_Name st).
Definition good_node (node : Node) : Prop :=
  peer_ip (n_Addr node) ∧ good_state (n_Meta node) ∧ ∃ st, Unmarshal (n_Meta node) = Ok st.

Definition good_gossip (m : Manager) (g : gossip) : Prop :=
  match g with
  | GMsg msg | GMerge msg => good_msg m msg
  | GJoin node _ | GUpdate node => good_node node
  | GLeave _ | GSetLoad => True
  end.

Lemma NotifyMsg_routable m msg : good_msg m msg → all_routable m → all_routable (NotifyMsg msg m).
Proof using Type.
  intros [Hg Hk] Hm. unfold NotifyMsg. destruct (_ =? "")%string; [done|].
  destruct (Unmarshal msg) as [st|] eqn:Hu; [|done].
  destruct (_ =? _)%string eqn:E; [done|]. to_prop.
  destruct (Hk st eq_refl) as [?|[ex Hex]]; [done|].
  destruct (Hg st Hu) as [[host port] Hs]. rewrite Hex, Hs.
  apply all_routable_insert; [done|].
  destruct (is_bind_host host) eqn:Eb; [|by exists host, port].
  destruct (Hm _ _ Hex) as (eh & ep & He & Hebind). rewrite He. simpl.
  apply SplitHostPort_Ok in He as (? & ? & _), Hs as (_ & _ & ? & ? & ?).
  exists eh, port. split; [|done]. by apply split_join_host_port.
Qed.

Lemma gossip_routable m g : good_gossip m g → all_routable m → all_routable (gossip_step m g).
Proof using Type.
  intros Hg Hm. destruct g; simpl in *.
  - by apply NotifyMsg_routable.
  - by apply NotifyMsg_routable.
  - unfold NotifyJoin. destruct (_ =? _)%string; [done|].
    destruct Hg as (Hip & Hst & st & Hu). rewrite Hu. apply all_routable_insert; [done|].
    destruct (Hst st Hu) as [hp Hs]. by eapply replace_bind_routable.
  - unfold NotifyLeave. destruct (_ =? _)%string; [done|].
    intros n s. simpl. intros [_ ?]%lookup_delete_Some. eauto.
  - unfold NotifyUpdate. destruct (_ =? _)%string; [done|].
    destruct Hg as (Hip & Hst & st & Hu). rewrite Hu. apply all_routable_insert; [done|].
    destruct (Hst st Hu) as [hp Hs]. by eapply replace_bind_routable.
  - done.
Qed.

(** A run all of whose events are good in the state they reach. *)
Fixpoint good_run (m : Manager) (gs : list gossip) : Prop :=
  match gs with
  | [] => True
  | g :: gs => good_gossip m g ∧ good_run (gossip_step m g) gs
  end.

Lemma gossip_run_routable m gs :
  all_routable m → good_run m gs → all_routable (gossip_run m gs).
Proof using Type.
  unfold gossip_run. revert m. induction gs as [|g gs IH]; intros m Hm; simpl; [done|].
  intros [Hg Hgs]. apply IH; [|done]. by apply gossip_routable.
Qed.
End routable.

(** ** Known peers *)

Lemma dns_addr_v4 port ip :
  contains_byte ":" ip = false → dns_addr port ip = JoinHostPort ip (print_dec port).
Proof. intros Hip. unfold dns_addr, JoinHostPort. by rewrite Hip. Qed.

Lemma join_cut ip port :
  contains_byte ":" ip = false →
  cut_last_byte ":" (JoinHostPort ip (print_dec port)) = Some (ip, print_dec port).
Proof.
  intros Hip. unfold JoinHostPort. rewrite Hip.
  apply (cut_last_byte_app ":"). apply print_dec_no_colon.
Qed.

Lemma dns_cut ip port :
  cut_last_byte ":" (dns_addr port ip) = Some (ip, print_dec port).
Proof. apply (cut_last_byte_app ":"). apply print_dec_no_colon. Qed.

(** An unbracketed IPv6 address and port is never the printed form of a member. *)
Lemma dns_addr_v6_unknown port ip node :
  contains_byte ":" ip = true → contains_byte "[" ip = false →
  dns_addr port ip ≠ JoinHostPort (n_Addr node) (print_dec (n_Port node)).
Proof.
  intros Hc Hb Heq. destruct (contains_byte ":" (n_Addr node)) eqn:Ha.
  - unfold JoinHostPort in Heq. rewrite Ha in Heq. unfold dns_addr in Heq.
    destruct ip as [|a ip]; [done|]. simpl in Heq. injection Heq as -> _. done.
  - pose proof (dns_cut ip port) as Hd. rewrite Heq, join_cut in Hd by done. congruence.
Qed.

Lemma elem_of_known c ms :
  c ∈ filterKnownPeers (Some ms) [c] ↔
  ∀ n, n ∈ ms → c ≠ JoinHostPort (n_Addr n) (print_dec (n_Port n)).
Proof.
  simpl. rewrite list_elem_of_filter, elem_of_list_to_set, list_elem_of_fmap.
  rewrite list_elem_of_singleton. naive_solver.
Qed.

(** ** The properties *)

(** C12: in whatever order Go iterates over the peers, [SelectBestPeer] returns a
    listed peer with spare capacity whose load ratio is strictly below the local
    one and which no peer with spare capacity beats; it returns no peer exactly
    when no peer with spare capacity beats the local node.  Ratios are float64
    quotients, infinite and NaN ones (zero or negative capacities) included. *)
Theorem select_best_peer_minimal order load m :
  order ≡ₚ GetPeers m →
  let localRatio := ratio (localLoad load m) (concurrency m) in
  match SelectBestPeer order load m with
  | None => unbeaten order localRatio
  | Some p => (∃ n, peers m !! n = Some p) ∧ PendingTasks p < MaxConcurrency p ∧
      f64_lt (peer_ratio p) localRatio = true ∧ unbeaten order (peer_ratio p)
  end.
Proof.
  intros Ho. simpl. rewrite SelectBestPeer_loop.
  pose proof (best_loop_spec order None (localLoad load m) (concurrency m)) as Hs.
  destruct (best_loop _ _ _ _) as [p|]; [|by destruct Hs].
  destruct Hs as [[? _]|(Hp & Hcap & Hlt & Hun)]; [done|].
  split_and!; [|by apply Z.ltb_lt|done|done]. by apply (elem_of_order order).
Qed.

(** C13: for loads and capacities below 2^26 the float64 comparison decides the
    exact order of the fractions: the chosen peer has the least load fraction
    of all peers with spare capacity and one strictly below the local node's;
    no peer is chosen only if each has at least the local node's fraction. *)
Theorem select_best_peer_exact order load m :
  order ≡ₚ GetPeers m →
  small (localLoad load m) (concurrency m) →
  (∀ n p, peers m !! n = Some p → small (PendingTasks p) (MaxConcurrency p)) →
  match SelectBestPeer order load m with
  | None => ∀ n c, peers m !! n = Some c → PendingTasks c < MaxConcurrency c →
      localLoad load m * MaxConcurrency c ≤ PendingTasks c * concurrency m
  | Some p => PendingTasks p < MaxConcurrency p ∧
      PendingTasks p * concurrency m < localLoad load m * MaxConcurrency p ∧
      ∀ n c, peers m !! n = Some c → PendingTasks c < MaxConcurrency c →
        PendingTasks p * MaxConcurrency c ≤ PendingTasks c * MaxConcurrency p
  end.
Proof.
  intros Ho Hlocal Hpeers. rewrite SelectBestPeer_loop.
  assert (∀ r l c, unbeaten order r → r = ratio l c → small l c →
    ∀ n q, peers m !! n = Some q → PendingTasks q < MaxConcurrency q →
      l * MaxConcurrency q ≤ PendingTasks q * c) as Hun.
  { intros r l c Hr -> Hs n q Hq Hcap. apply Z.le_ngt. intros Hlt.
    apply (ratio_lt_exact _ _ _ _ (Hpeers n q Hq) Hs) in Hlt.
    fold (peer_ratio q) in Hlt. rewrite (Hr q) in Hlt; [done| |by apply Z.ltb_lt].
    apply (elem_of_order order m q Ho). eauto. }
  pose proof (best_loop_spec order None (localLoad load m) (concurrency m)) as Hs.
  destruct (best_loop _ _ _ _) as [p|]; [|destruct Hs; by eapply Hun].
  destruct Hs as [[? _]|(Hp & Hcap & Hlt & Hunp)]; [done|].
  apply (elem_of_order order m p Ho) in Hp as [n Hn]. split_and!.
  - by apply Z.ltb_lt.
  - by apply (ratio_lt_exact _ _ _ _ (Hpeers n p Hn) Hlocal).
  - by eapply Hun, (Hpeers n p Hn).
Qed.


(** The addresses in the peer table stay dialable: over callbacks from
    well-behaved nodes (addresses that split into host and port, real IP
    addresses, messages only from peers that joined), no entry ever has a bind
    host (empty, 0.0.0.0 or ::), although nodes advertise such addresses. *)
Theorem peer_addresses_routable `{NodeStatePb} m gs :
  all_routable m → good_run m gs →
  ∀ n s, peers (gossip_run m gs) !! n = Some s → routable (GrpcAddress s).
Proof. intros Hm Hg. by apply gossip_run_routable. Qed.

(** The load a node advertises is the load its peers compare: when the
    metadata fits the limit, the peer's entry after [NotifyUpdate] carries the
    node's pending count (an int32), capacity and name. *)
Theorem advertised_load_received `{NodeStatePb} a b load now data ip port :
  NodeMeta 512 load now a = Some data →
  ns_Name (localState a) ≠ ns_Name (localState b) →
  hasLoadProvider a = true → - 2 ^ 31 ≤ load < 2 ^ 31 →
  ∃ s, peers (NotifyUpdate (mkNode (ns_Name (localState a)) ip port data) b)
         !! ns_Name (localState a) = Some s ∧
    PendingTasks s = load ∧ MaxConcurrency s = MaxConcurrency (localState a) ∧
    ns_Name s = ns_Name (localState a) ∧
    GrpcAddress s = replace_bind_host (GrpcAddress (localState a)) ip.
Proof.
  unfold NodeMeta. destruct (Marshal _) as [data'|] eqn:Hm; [|done].
  destruct (_ <? _); [done|]. intros [= ->] Hne Hlp Hload.
  unfold NotifyUpdate. simpl. rewrite (proj2 (String.eqb_neq _ _) Hne).
  rewrite (Unmarshal_Marshal _ _ Hm). eexists. simpl. rewrite lookup_insert_eq.
  split; [done|]. simpl. rewrite Hlp. split_and!; try done.
  unfold int32. rewrite Z.mod_small by lia. lia.
Qed.

(** A state message that arrives after its sender left puts the sender
    back into the table, where it stays a candidate for forwarding until
    memberlist reports another departure. *)
Theorem late_message_revives_peer `{NodeStatePb} m node msg st :
  msg ≠ "" → Unmarshal msg = Ok st → ns_Name st = n_Name node →
  n_Name node ≠ ns_Name (localState m) →
  peers (NotifyMsg msg (NotifyLeave node m)) !! n_Name node = Some st.
Proof.
  intros Hne Hu Hn Hself. unfold NotifyLeave. rewrite (proj2 (String.eqb_neq _ _) Hself).
  unfold NotifyMsg. rewrite (proj2 (String.eqb_neq _ _) Hne), Hu. simpl.
  rewrite Hn, (proj2 (String.eqb_neq _ _) Hself), lookup_delete_eq, Hn.
  simpl. by rewrite lookup_insert_eq.
Qed.

(** The filter of known peers works for IPv4 addresses, where a candidate
    is dropped exactly when it is the address and port of a member; an IPv6
    candidate is never dropped, even when it is a member, since discovery prints
    it without the brackets [JoinHostPort] adds. *)
Theorem filter_known_peers_by_family (port : N) (ip : string) (ms : list Node) :
  let kept := dns_addr port ip ∈ filterKnownPeers (Some ms) [dns_addr port ip] in
  (contains_byte ":" ip = false →
     kept ↔ ¬ ∃ n, n ∈ ms ∧ n_Addr n = ip ∧ n_Port n = port) ∧
  (contains_byte ":" ip = true → contains_byte "[" ip = false → kept).
Proof.
  cbv zeta. rewrite elem_of_known. split.
  - intros Hip. split.
    + intros Hk (n & Hn & Ha & Hp). apply (Hk n Hn). rewrite Ha, Hp. by apply dns_addr_v4.
    + intros Hno n Hn Heq. apply Hno. exists n. split; [done|].
      destruct (contains_byte ":" (n_Addr n)) eqn:Hc.
      * rewrite dns_addr_v4 in Heq by done. unfold JoinHostPort in Heq.
        pose proof (join_cut ip port Hip) as Hj. unfold JoinHostPort in Hj.
        rewrite Hip in *. rewrite Hc in Heq. rewrite Heq in Hj.
        rewrite !str_app_assoc in Hj. rewrite <- (str_app_assoc _ "]:") in Hj.
        change ("]:" +:+ print_dec (n_Port n)) with ("]" +:+ String ":" (print_dec (n_Port n))) in Hj.
        rewrite str_app_assoc, (cut_last_byte_app ":") in Hj by apply print_dec_no_colon.
        assert (ip = ("[" +:+ n_Addr n) +:+ "]") as Hi by congruence.
        by rewrite Hi, !contains_byte_app, Hc in Hip.
      * pose proof (dns_cut ip port) as Hd. rewrite Heq, join_cut in Hd by done.
        injection Hd as ? Hp. split; [done|]. by apply print_dec_inj.
  - intros Hc Hb n _. by apply dns_addr_v6_unknown.
Qed.

(** DNS discovery makes at most five lookups and reports a list exactly when
    one of them succeeds before the context ends; the first success wins and is
    printed with the configured port. *)
Theorem discover_dns_bounded c at_ ps :
  discoverDNS c at_ = Ok ps →
  DNSServiceName c ≠ "" ∧
  ∃ i ips, (i < 5)%nat ∧ at_lookup (at_ i) = Ok ips ∧ ps = dns_addr (BindPort c) <$> ips ∧
    ∀ j, (j < i)%nat →
      at_ctx (at_ j) = None ∧ at_wait (at_ j) = None ∧ ∃ e, at_lookup (at_ j) = Err e.
Proof.
  unfold discoverDNS. destruct (_ =? "")%string eqn:E; [done|]. to_prop. intros Hd.
  split; [done|]. destruct (dns_loop 5 0 at_ (Errorf "")) as [ips|] eqn:Hl; [|done].
  injection Hd as <-.
  assert (∀ n i last, dns_loop n i at_ last = Ok ips →
    ∃ k, (i ≤ k < i + n)%nat ∧ at_lookup (at_ k) = Ok ips ∧
      ∀ j, (i ≤ j < k)%nat →
        at_ctx (at_ j) = None ∧ at_wait (at_ j) = None ∧ ∃ e, at_lookup (at_ j) = Err e) as Hloop.
  { clear Hl. intros n. induction n as [|n IH]; intros i last; simpl; [done|].
    destruct (at_lookup (at_ i)) as [x|e] eqn:Ha.
    { intros [= ->]. exists i. split_and!; [lia|lia|done|]. intros; lia. }
    destruct (at_ctx (at_ i)) eqn:Hc; [done|]. destruct (at_wait (at_ i)) eqn:Hw; [done|].
    intros Hr. destruct (IH _ _ Hr) as (k & Hk & ? & Hbefore). exists k. split_and!; [lia|lia|done|].
    intros j Hj. destruct (decide (j = i)) as [->|]; [eauto|]. apply Hbefore. lia. }
  destruct (Hloop _ _ _ Hl) as (k & Hk & ? & Hbefore). exists k, ips.
  split_and!; [lia|done|done|]. intros j Hj. apply Hbefore. lia.
Qed.

(** ** Concrete instances *)
Module Demo.
#[export] Instance NodeState_eq_dec : EqDecision NodeState.
Proof. solve_decision. Defined.

Definition st_a : NodeState := mkNodeState "a" "0.0.0.0:50051" 3 8 "" 7.
Definition st_b : NodeState := mkNodeState "b" "10.0.0.2:50051" 1 4 "" 5.

(** A codec that knows three messages and refuses every other. *)
#[export, program] Instance codec : NodeStatePb := {|
  Marshal s := if decide (s = st_a) then Ok "A" else if decide (s = zero_state) then Ok "" else
    if decide (s = st_b) then Ok "B" else Err (Errorf "proto: cannot encode");
  Unmarshal b := if (b =? "A")%string then Ok st_a else if (b =? "")%string then Ok zero_state
    else if (b =? "B")%string then Ok st_b else Err (Errorf "proto: cannot parse");
|}.
Next Obligation. intros s b. simpl. repeat case_decide; naive_solver. Qed.
Next Obligation. done. Qed.

Definition config0 : ClusterConfig := mkClusterConfig true "l" 7946 "" "list" [] "gorego" 10.
Definition m0 : Manager := mkManager config0 4 true (mkNodeState "l" ":50051" 0 4 "" 0) ∅.
Definition node_a : Node := mkNode "a" "10.0.0.1" 7946 "A".
Definition m2 : Manager := gossip_run m0 [GJoin node_a 1; GJoin (mkNode "b" "10.0.0.2" 7946 "B") 2].

Lemma select_best_peer_minimal_witness :
  SelectBestPeer (GetPeers m2) 2 m2 = Some st_b ∧ PendingTasks st_b < MaxConcurrency st_b.
Proof.
  assert (SelectBestPeer (GetPeers m2) 2 m2 = Some st_b) as E by (vm_compute; reflexivity).
  split; [exact E|]. pose proof (select_best_peer_minimal (GetPeers m2) 2 m2 (reflexivity _)) as H.
  cbv zeta in H. rewrite E in H. apply H.
Defined.

Lemma m2_peers n p : peers m2 !! n = Some p →
  p = with_address st_a "10.0.0.1:50051" ∨ p = st_b.
Proof.
  replace (peers m2) with
    (<["b" := st_b]> {["a" := with_address st_a "10.0.0.1:50051"]} : gmap string NodeState)
    by (vm_compute; reflexivity).
  intros [[_ <-]|[_ [_ <-]%lookup_singleton_Some]]%lookup_insert_Some; auto.
Qed.

Lemma select_best_peer_exact_witness :
  SelectBestPeer (GetPeers m2) 2 m2 = Some st_b ∧ 1 * 4 < 2 * 4.
Proof.
  assert (SelectBestPeer (GetPeers m2) 2 m2 = Some st_b) as E by (vm_compute; reflexivity).
  split; [exact E|]. pose proof (select_best_peer_exact (GetPeers m2) 2 m2 (reflexivity _)) as H.
  rewrite E in H. apply H.
  - unfold small. vm_compute. intuition congruence.
  - intros n p [->| ->]%m2_peers; unfold small; vm_compute; intuition congruence.
Defined.

Definition m_addr : Manager := gossip_run m0 [GJoin node_a 1; GMsg "A"].

Lemma peer_addresses_routable_witness :
  peers m_addr !! "a" = Some (with_address st_a "10.0.0.1:50051") ∧ routable "10.0.0.1:50051".
Proof.
  assert (good_state "A") as Hg.
  { intros st [= <-]. eexists. vm_compute. reflexivity. }
  assert (peers m_addr !! "a" = Some (with_address st_a "10.0.0.1:50051")) as Ha
    by (vm_compute; reflexivity).
  split; [exact Ha|].
  refine (peer_addresses_routable m0 [GJoin node_a 1; GMsg "A"] _ _ "a" _ Ha).
  - intros n s. simpl. by rewrite lookup_empty.
  - split_and!; simpl; try done; split_and!; try done; [by exists st_a|].
    split; [done|]. intros st [= <-]. right. by eexists.
Defined.

Definition sender : Manager := mkManager config0 8 true (mkNodeState "a" "0.0.0.0:50051" 0 8 "" 0) ∅.

Lemma advertised_load_received_witness :
  ∃ s, peers (NotifyUpdate (mkNode "a" "10.0.0.1" 7946 "A") m0) !! "a" = Some s ∧ PendingTasks s = 3.
Proof.
  destruct (advertised_load_received sender m0 3 7 "A" "10.0.0.1" 7946) as (s & Hs & Hp & _);
    [vm_compute; reflexivity|discriminate|reflexivity|lia|].
  exists s. split; [exact Hs|exact Hp].
Defined.

Lemma late_message_revives_peer_witness :
  peers (NotifyMsg "A" (NotifyLeave node_a m2)) !! "a" = Some st_a.
Proof.
  apply (late_message_revives_peer m2 node_a "A" st_a);
    [discriminate|reflexivity|reflexivity|vm_compute; discriminate].
Defined.

(** The first lookup fails, the second answers. *)
Definition flaky (i : nat) : attempt :=
  mkAttempt (match i with O => Err (Errorf "no such host") | _ => Ok ["10.0.0.1"] end) None None.

Lemma discover_dns_bounded_witness :
  DNSServiceName config0 ≠ "" ∧ discoverDNS config0 flaky = Ok ["10.0.0.1:7946"].
Proof.
  split; [|vm_compute; reflexivity].
  apply (discover_dns_bounded config0 flaky ["10.0.0.1:7946"]). vm_compute. reflexivity.
Defined.
End Demo.
End Cluster.
