(* ===== verification/Janitor.v ===== *)
(** The janitor (src/pkg/janitor/janitor.go): LRU eviction of the local cache and
    the debounced loop that triggers it.

    The cache directory is a finite map from paths to the metadata of the regular
    files; what [filepath.Walk] reports is a list of visits.  [sort.Slice] is not
    stable: the sorting function is the class [SliceSort], with its contract as
    laws and merge sort as an instance.  Sizes are int64, times are nanoseconds. *)

From S2P Require Import Prelude.
Local Open Scope Z_scope.

Module Janitor.

Definition int64 (z : Z) : Z := (z + 2 ^ 63) mod 2 ^ 64 - 2 ^ 63.

(** [Time.Sub]: the difference, clamped to the range of a [Duration]. *)
Definition time_Sub (t u : Z) : Z := Z.max (- 2 ^ 63) (Z.min (2 ^ 63 - 1) (t - u)).

Definition second : Z := 10 ^ 9.

(** [stdFileEntry]: the [os.FileInfo], with the access time of the [Stat_t] if
    the platform has one. *)
Record fileEntry := mkFileEntry {
  Size : Z;
  IsDir : bool;
  ModTime : Z;
  Atim : option Z;
}.

Definition AccessTime (e : fileEntry) : Z :=
  match Atim e with Some t => t | None => ModTime e end.

Record fileInfo := mkFileInfo { fi_path : string; fi_entry : fileEntry }.

Record Janitor := mkJanitor {
  rootDir : string;
  maxSize : Z;
  minAge : Z;
  debounceDur : Z;
}.

Definition NewJanitor (dir : string) (maxSizeGB : Z) : Janitor :=
  mkJanitor dir (int64 (maxSizeGB * 1024 * 1024 * 1024)) (30 * second) (5 * second).

(** ** The file system *)

Notation fsys := (gmap string fileEntry).

(** A call of the walk's callback: with an error, or with a file's metadata. *)
Inductive visit :=
  | VErr (path : string) (e : error)
  | VEntry (path : string) (info : fileEntry).

(** The callback of [Cleanup]: it collects the files and their total size. *)
Definition walk_fn (v : visit) (acc : list fileInfo * Z) : result (list fileInfo * Z) :=
  match v with
  | VErr _ e => Err e
  | VEntry path info =>
      if negb (IsDir info)
      then Ok (acc.1 ++ [mkFileInfo path info], int64 (acc.2 + Size info))
      else Ok acc
  end.

(** [filepath.Walk] stops at the first error of its callback. *)
Fixpoint Walk (visits : list visit) (acc : list fileInfo * Z) : result (list fileInfo * Z) :=
  match visits with
  | [] => Ok acc
  | v :: visits => acc ← walk_fn v acc; Walk visits acc
  end.

(** [Remove]; [fails] says which removals the operating system refuses.  The
    preceding chmod only affects permissions and its error is ignored. *)
Definition Remove (fails : string → option error) (path : string) (fs : fsys)
    : option error * fsys :=
  match fails path, fs !! path with
  | Some e, _ => (Some e, fs)
  | None, None => (Some ErrNotExist, fs)
  | None, Some _ => (None, delete path fs)
  end.

Class SliceSort := {
  sort_Slice : ∀ {A}, (A → A → bool) → list A → list A;
  sort_Slice_perm {A} (less : A → A → bool) l : sort_Slice less l ≡ₚ l;
  (** for a strict weak order no later element is less than an earlier one *)
  sort_Slice_sorted {A} (key : A → Z) l :
    StronglySorted (λ x y, key x ≤ key y) (sort_Slice (λ x y, key x <? key y) l);
}.

(** The eviction loop; returns the final [totalSize] and file system. *)
Fixpoint evict (fails : string → option error) (now : Z) (j : Janitor)
    (files : list fileInfo) (totalSize : Z) (fs : fsys) : Z * fsys :=
  match files with
  | [] => (totalSize, fs)
  | f :: files =>
      if totalSize <=? maxSize j then (totalSize, fs)
      else if time_Sub now (AccessTime (fi_entry f)) <? minAge j
      then evict fails now j files totalSize fs
      else match Remove fails (fi_path f) fs with
           | (Some _, fs) => evict fails now j files totalSize fs
           | (None, fs) => evict fails now j files (int64 (totalSize - Size (fi_entry f))) fs
           end
  end.

Definition byAccessTime (f g : fileInfo) : bool :=
  AccessTime (fi_entry f) <? AccessTime (fi_entry g).

Definition Cleanup `{SliceSort} (visits : list visit) (fails : string → option error) (now : Z)
    (j : Janitor) (fs : fsys) : result unit * fsys :=
  match Walk visits ([], 0) with
  | Err e => (Err e, fs)
  | Ok (files, totalSize) =>
      if totalSize <=? maxSize j then (Ok (), fs)
      else (Ok (), (evict fails now j (sort_Slice byAccessTime files) totalSize fs).2)
  end.

(** ** The loop of [Run]

    [notifyCh] and [debounceCh] are channels with one slot.  The timer is nil or
    the last one created, which is pending or not; a timer that expired runs its
    function in a goroutine of its own, so [flying] counts functions that have
    started and not yet reached their send: [Stop] does not stop those. *)
Record loop := mkLoop {
  notifyCh : bool;
  timer : option bool;
  flying : nat;
  debounceCh : bool;
  running : bool;
}.

Definition loop0 : loop := mkLoop false None 0 false true.

Inductive action :=
  | Notify
  | OnNotify
  | Expire
  | Fire
  | OnDebounce
  | OnDone.

#[global] Instance action_eq_dec : EqDecision action.
Proof. solve_decision. Defined.

(** [None]: the action is not enabled.  [OnDebounce] is the case that calls
    [Cleanup]. *)
Definition loop_step (a : action) (l : loop) : option loop :=
  match a with
  | Notify => Some (mkLoop true (timer l) (flying l) (debounceCh l) (running l))
  | OnNotify =>
      if running l && notifyCh l then
        let drained := match timer l with Some _ => false | None => debounceCh l end in
        Some (mkLoop false (Some true) (flying l) drained true)
      else None
  | Expire =>
      match timer l with
      | Some true => Some (mkLoop (notifyCh l) (Some false) (S (flying l)) (debounceCh l) (running l))
      | _ => None
      end
  | Fire =>
      match flying l with
      | S n => Some (mkLoop (notifyCh l) (timer l) n true (running l))
      | O => None
      end
  | OnDebounce =>
      if running l && debounceCh l
      then Some (mkLoop (notifyCh l) (timer l) (flying l) false true)
      else None
  | OnDone =>
      if running l
      then Some (mkLoop (notifyCh l)
                   (match timer l with Some _ => Some false | None => None end)
                   (flying l) (debounceCh l) false)
      else None
  end.

Fixpoint loop_run (as_ : list action) (l : loop) : option loop :=
  match as_ with
  | [] => Some l
  | a :: as_ => l ← loop_step a l; loop_run as_ l
  end.

(** ** Lemmas: sizes *)

Definition usage (fs : fsys) : Z := map_fold (λ _ e n, Size e + n) 0 fs.

Definition sizes_ok (fs : fsys) : Prop :=
  (∀ p e, fs !! p = Some e → 0 ≤ Size e) ∧ usage fs < 2 ^ 63.

Lemma int64_id z : - 2 ^ 63 ≤ z < 2 ^ 63 → int64 z = z.
Proof. intros Hz. unfold int64. rewrite Z.mod_small; lia. Qed.

Lemma usage_delete fs p e :
  fs !! p = Some e → usage fs = Size e + usage (delete p fs).
Proof.
  intros Hp. unfold usage. rewrite (map_fold_delete_L _ _ p e fs); [done| |done].
  intros. simpl. lia.
Qed.

Lemma usage_nonneg fs : (∀ p e, fs !! p = Some e → 0 ≤ Size e) → 0 ≤ usage fs.
Proof.
  induction fs as [|p e fs Hp IH] using map_ind; intros Hs.
  - unfold usage. by rewrite map_fold_empty.
  - rewrite (usage_delete _ p e) by apply lookup_insert_eq. rewrite delete_insert_id by done.
    assert (0 ≤ Size e) by (eapply (Hs p); apply lookup_insert_eq).
    assert (0 ≤ usage fs); [|lia]. apply IH. intros q x Hq. apply (Hs q).
    rewrite lookup_insert_ne; [done|]. congruence.
Qed.

Lemma sizes_ok_delete fs p : sizes_ok fs → sizes_ok (delete p fs).
Proof.
  intros [Hs Hu]. split.
  - intros q e [_ Hq]%lookup_delete_Some. eauto.
  - destruct (fs !! p) as [e|] eqn:Hp; [|by rewrite delete_id].
    apply usage_delete in Hp as Hu'. pose proof (Hs _ _ Hp). lia.
Qed.

Lemma sizes_ok_range fs : sizes_ok fs → 0 ≤ usage fs < 2 ^ 63.
Proof. intros [Hs Hu]. split; [by apply usage_nonneg|done]. Qed.

(** ** Lemmas: the walk *)

Definition regular (v : visit) : option (string * fileEntry) :=
  match v with
  | VEntry p e => if IsDir e then None else Some (p, e)
  | VErr _ _ => None
  end.

(** The walk met no error and reported each regular file once. *)
Definition sees (visits : list visit) (fs : fsys) : Prop :=
  (∀ p e, VErr p e ∉ visits) ∧ omap regular visits ≡ₚ map_to_list fs.

Definition to_info (pe : string * fileEntry) : fileInfo := mkFileInfo pe.1 pe.2.

Definition sum_sizes (l : list (string * fileEntry)) : Z :=
  foldr (λ pe n, Size pe.2 + n) 0 l.

Lemma sum_sizes_perm l k : l ≡ₚ k → sum_sizes l = sum_sizes k.
Proof. induction 1; simpl; lia. Qed.

Lemma usage_sum fs : usage fs = sum_sizes (map_to_list fs).
Proof. unfold usage, sum_sizes. rewrite map_fold_foldr. apply foldr_ext; try done. by intros []. Qed.

Lemma Walk_seen visits files total :
  (∀ p e, VErr p e ∉ visits) → 0 ≤ total →
  (∀ pe, pe ∈ omap regular visits → 0 ≤ Size pe.2) →
  total + sum_sizes (omap regular visits) < 2 ^ 63 →
  Walk visits (files, total)
  = Ok (files ++ (to_info <$> omap regular visits), total + sum_sizes (omap regular visits)).
Proof.
  revert files total. induction visits as [|v visits IH]; intros files total He Ht Hs Hsum.
  { simpl. by rewrite app_nil_r, Z.add_0_r. }
  assert (∀ p e, VErr p e ∉ visits) as He' by (intros p e Hin; apply (He p e); by right).
  destruct v as [p e|p e]; [destruct (He p e); by left|].
  simpl. destruct (IsDir e) eqn:Hd; simpl.
  { rewrite IH; simpl in *; rewrite ?Hd in *; auto. }
  simpl in Hs, Hsum. rewrite Hd in Hs, Hsum. simpl in Hsum.
  assert (0 ≤ Size e) as Hse by (apply (Hs (p, e)); by left).
  assert (0 ≤ sum_sizes (omap regular visits)) as Hn.
  { assert (∀ l, (∀ pe, pe ∈ l → 0 ≤ Size pe.2) → 0 ≤ sum_sizes l) as Hnn.
    { induction l as [|x l IHl]; intros Hl; simpl; [done|].
      pose proof (Hl x ltac:(left)). assert (0 ≤ sum_sizes l); [|lia].
      apply IHl. intros. apply Hl. by right. }
    apply Hnn. intros. apply Hs. by right. }
  change (list_omap _ _ regular visits) with (omap regular visits) in *.
  assert (- 2 ^ 63 ≤ total + Size e < 2 ^ 63) as Hr by lia.
  rewrite (int64_id _ Hr), IH; [|done|lia| |unfold sum_sizes in *; lia].
  - by rewrite <- app_assoc, Z.add_assoc.
  - intros. apply Hs. by right.
Qed.

(** ** Lemmas: eviction *)

Definition young (j : Janitor) (now : Z) (e : fileEntry) : Prop :=
  time_Sub now (AccessTime e) < minAge j.

(** What the loop needs of its list: the files are there, each once, and in the
    order of their access times. *)
Definition evictable (files : list fileInfo) (fs : fsys) : Prop :=
  NoDup (fi_path <$> files) ∧
  (∀ f, f ∈ files → fs !! fi_path f = Some (fi_entry f)) ∧
  StronglySorted (λ f g, AccessTime (fi_entry f) ≤ AccessTime (fi_entry g)) files.

Lemma evictable_tail f files fs : evictable (f :: files) fs → evictable files fs.
Proof.
  intros (Hnd & Hin & Hs). split_and!.
  - by apply NoDup_cons in Hnd as [_ ?].
  - intros g Hg. apply Hin. by right.
  - by apply StronglySorted_inv in Hs as [? _].
Qed.

Lemma evictable_delete f files fs :
  evictable (f :: files) fs → evictable files (delete (fi_path f) fs).
Proof.
  intros He. pose proof (evictable_tail _ _ _ He) as (Hnd & Hin & Hs).
  destruct He as (Hndf & _ & _). apply NoDup_cons in Hndf as [Hf _]. split_and!; [done| |done].
  intros g Hg. rewrite lookup_delete_ne; [by apply Hin|].
  intros Heq. apply Hf. rewrite Heq. by apply list_elem_of_fmap_2.
Qed.

(** [fs'] is [fs] after an LRU eviction: what was removed and why the rest stayed. *)
Record evicted (fails : string → option error) (now : Z) (j : Janitor)
    (files : list fileInfo) (fs fs' : fsys) : Prop := mkEvicted {
  ev_sub : fs' ⊆ fs;
  ev_why p e : fs !! p = Some e → fs' !! p = None →
    mkFileInfo p e ∈ files ∧ ¬ young j now e ∧ fails p = None;
  ev_fits : usage fs' ≤ maxSize j ∨
    ∀ f, f ∈ files → fs' !! fi_path f = None ∨ young j now (fi_entry f) ∨
      is_Some (fails (fi_path f));
  ev_lru f g : f ∈ files → g ∈ files → fs' !! fi_path f = None → is_Some (fs' !! fi_path g) →
    AccessTime (fi_entry f) ≤ AccessTime (fi_entry g) ∨ young j now (fi_entry g) ∨
    is_Some (fails (fi_path g));
  ev_minimal : fs' = fs ∨ ∃ p e, fs !! p = Some e ∧ fs' !! p = None ∧
    maxSize j < usage fs' + Size e;
}.

Lemma evicted_stop fails now j files fs :
  (∀ f, f ∈ files → fs !! fi_path f = Some (fi_entry f)) →
  (usage fs ≤ maxSize j ∨ files = []) → evicted fails now j files fs fs.
Proof.
  intros Hin Hfit. split; [done|congruence| |intros f g Hf|by left].
  - destruct Hfit as [?| ->]; [by left|]. right. intros f Hf. by apply not_elem_of_nil in Hf.
  - rewrite (Hin f Hf). done.
Qed.

(** A file that is young or cannot be removed is skipped. *)
Lemma evicted_skip fails now j f files fs fs' :
  (∀ g, g ∈ f :: files → fs !! fi_path g = Some (fi_entry g)) →
  NoDup (fi_path <$> f :: files) →
  young j now (fi_entry f) ∨ is_Some (fails (fi_path f)) →
  evicted fails now j files fs fs' → evicted fails now j (f :: files) fs fs'.
Proof.
  intros Hin Hnd Hf [Hsub Hwhy Hfits Hlru Hmin].
  assert (is_Some (fs' !! fi_path f)) as Hkept.
  { destruct (fs' !! fi_path f) eqn:E; [by eexists|exfalso].
    destruct (Hwhy _ _ (Hin f ltac:(left)) E) as (_ & Hy & Hnf).
    destruct Hf as [?|[? ?]]; [done|congruence]. }
  split; [done| | | |done].
  - intros p e Hp Hp'. destruct (Hwhy p e Hp Hp') as (? & ? & ?). split_and!; [by right|done|done].
  - destruct Hfits as [?|Hall]; [by left|]. right.
    intros g [->|Hg]%elem_of_cons; [by right|auto].
  - intros g h [->|Hg]%elem_of_cons Hh Hgone Hhere.
    { rewrite Hgone in Hkept. by destruct Hkept. }
    apply elem_of_cons in Hh as [->|Hh]; [by right|auto].
Qed.

(** An old file that can be removed goes, if the cache is still too big. *)
Lemma evicted_remove fails now j f files fs fs' :
  evictable (f :: files) fs → sizes_ok fs → maxSize j < usage fs →
  ¬ young j now (fi_entry f) → fails (fi_path f) = None →
  evicted fails now j files (delete (fi_path f) fs) fs' →
  evicted fails now j (f :: files) fs fs'.
Proof.
  intros (Hnd & Hin & Hs) Hok Hbig Hy Hnf [Hsub Hwhy Hfits Hlru Hmin].
  pose proof (Hin f ltac:(left)) as Hf.
  assert (fs' !! fi_path f = None) as Hgone.
  { destruct (fs' !! fi_path f) eqn:E; [|done].
    by pose proof (lookup_weaken _ _ _ _ E Hsub) as [? _]%lookup_delete_Some. }
  split.
  - etrans; [exact Hsub|]. apply delete_subseteq.
  - intros p e Hp Hp'. destruct (decide (p = fi_path f)) as [->|Hne].
    + rewrite Hf in Hp. injection Hp as <-. split_and!; [|done|done]. destruct f. by left.
    + destruct (Hwhy p e) as (? & ? & ?); [by rewrite lookup_delete_ne|done|].
      split_and!; [by right|done|done].
  - destruct Hfits as [?|Hall]; [by left|]. right.
    intros g [->|Hg]%elem_of_cons; [by left|auto].
  - intros g h Hg [->|Hh]%elem_of_cons Hgg Hhh; [rewrite Hgone in Hhh; by destruct Hhh|].
    apply elem_of_cons in Hg as [->|Hg]; [|auto]. left.
    apply StronglySorted_inv in Hs as [_ Hall]. rewrite Forall_forall in Hall. by apply Hall.
  - right. destruct Hmin as [->|(p & e & Hp & Hp' & Hlt)].
    + exists (fi_path f), (fi_entry f). split_and!; [done|apply lookup_delete_eq|].
      apply usage_delete in Hf. lia.
    + apply lookup_delete_Some in Hp as [_ Hp]. by exists p, e.
Qed.

(** The loop is an LRU eviction, and its [totalSize] is the disk usage. *)
Lemma evict_spec fails now j files fs :
  sizes_ok fs → evictable files fs →
  let r := evict fails now j files (usage fs) fs in
  evicted fails now j files fs r.2 ∧ r.1 = usage r.2.
Proof.
  revert fs. induction files as [|f files IH]; intros fs Hok He; simpl.
  { split; [|done]. apply evicted_stop; [apply He|by right]. }
  destruct (usage fs <=? maxSize j) eqn:Hfit; to_prop.
  { split; [|done]. apply evicted_stop; [apply He|by left]. }
  pose proof He as (Hnd & Hin & Hs).
  destruct (_ <? minAge j) eqn:Hy; to_prop.
  { destruct (IH fs Hok) as [Hev Ht]; [by eapply evictable_tail|].
    split; [|done]. apply evicted_skip; auto. }
  unfold Remove. rewrite (Hin f ltac:(left)).
  destruct (fails (fi_path f)) as [err|] eqn:Hf.
  { destruct (IH fs Hok) as [Hev Ht]; [by eapply evictable_tail|].
    split; [|done]. apply evicted_skip; eauto. }
  pose proof (usage_delete _ _ _ (Hin f ltac:(left))) as Hu.
  pose proof (sizes_ok_delete fs (fi_path f) Hok) as Hok'.
  pose proof (sizes_ok_range _ Hok'). pose proof (sizes_ok_range _ Hok).
  rewrite int64_id by lia.
  replace (usage fs - Size (fi_entry f)) with (usage (delete (fi_path f) fs)) by lia.
  destruct (IH (delete (fi_path f) fs) Hok') as [Hev Ht]; [by apply evictable_delete|].
  split; [|done]. apply evicted_remove; auto. unfold young. lia.
Qed.

Lemma sees_evictable `{SliceSort} visits fs :
  sees visits fs → evictable (sort_Slice byAccessTime (to_info <$> omap regular visits)) fs.
Proof.
  intros [_ Hp]. split_and!.
  - rewrite sort_Slice_perm, <- list_fmap_compose, Hp.
    apply NoDup_fst_map_to_list.
  - intros f. rewrite sort_Slice_perm, list_elem_of_fmap.
    intros ([p e] & -> & Hf). simpl. rewrite Hp in Hf. by apply elem_of_map_to_list.
  - apply (sort_Slice_sorted (λ f, AccessTime (fi_entry f))).
Qed.

Lemma Cleanup_sees `{SliceSort} visits fails now j fs :
  sees visits fs → sizes_ok fs →
  Cleanup visits fails now j fs =
    if usage fs <=? maxSize j then (Ok (), fs)
    else (Ok (), (evict fails now j (sort_Slice byAccessTime (to_info <$> omap regular visits))
                   (usage fs) fs).2).
Proof.
  intros [He Hp] [Hs Hu]. unfold Cleanup. rewrite usage_sum in *.
  rewrite <- (sum_sizes_perm _ _ Hp) in *.
  rewrite Walk_seen; [done|done|done| |simpl; lia].
  intros [p e] Hin. rewrite Hp in Hin. apply elem_of_map_to_list in Hin. eauto.
Qed.

(** Membership of the sorted list of files is membership of the file system. *)
Lemma elem_of_sorted `{SliceSort} visits fs p e :
  sees visits fs →
  mkFileInfo p e ∈ sort_Slice byAccessTime (to_info <$> omap regular visits) ↔ fs !! p = Some e.
Proof.
  intros [_ Hp]. rewrite sort_Slice_perm, list_elem_of_fmap. setoid_rewrite Hp. split.
  - intros ([p' e'] & [= -> ->] & Hin). by apply elem_of_map_to_list in Hin.
  - intros Hl. exists (p, e). split; [done|]. by apply elem_of_map_to_list.
Qed.

Lemma Cleanup_evicted `{SliceSort} visits fails now j fs :
  sees visits fs → sizes_ok fs →
  let r := Cleanup visits fails now j fs in
  r.1 = Ok () ∧
  evicted fails now j (sort_Slice byAccessTime (to_info <$> omap regular visits)) fs r.2.
Proof.
  intros Hv Hok. simpl. rewrite Cleanup_sees by done.
  pose proof (sees_evictable visits fs Hv) as He.
  destruct (usage fs <=? maxSize j) eqn:E; to_prop; (split; [done|]); simpl.
  - apply evicted_stop; [apply He|by left].
  - by apply evict_spec.
Qed.

(** ** Lemmas: the loop *)

Definition internal (a : action) : bool :=
  match a with OnNotify | Expire | Fire | OnDebounce => true | Notify | OnDone => false end.

(** A cleanup is still to come. *)
Definition pending (l : loop) : Prop :=
  notifyCh l = true ∨ timer l = Some true ∨ (0 < flying l)%nat ∨ debounceCh l = true.

Definition measure (l : loop) : nat :=
  (if notifyCh l then 4 else 0) + (if timer l is Some true then 3 else 0) + 2 * flying l +
  (if debounceCh l then 1 else 0).

(** The loop and the timer have nothing to do until the next notification. *)
Definition quiescent (l : loop) : Prop := ∀ a, internal a = true → loop_step a l = None.

Lemma loop_step_internal a l l' :
  internal a = true → loop_step a l = Some l' → running l = true →
  (measure l' < measure l)%nat ∧ running l' = true ∧ (a = OnDebounce ∨ pending l').
Proof.
  intros Ha Hs Hr. unfold measure, pending. destruct l as [n [[]|] f d r], a; simpl in *; try done;
    subst; repeat (break_match; try done); simplify_eq/=; repeat split; auto; try lia.
Qed.

Lemma pending_not_quiescent l : running l = true → pending l → ¬ quiescent l.
Proof.
  intros Hr Hp Hq. pose proof (Hq OnNotify eq_refl) as H1. pose proof (Hq Expire eq_refl) as H2.
  pose proof (Hq Fire eq_refl) as H3. pose proof (Hq OnDebounce eq_refl) as H4.
  destruct l as [n t f d r]. unfold pending in Hp. simpl in *. subst r.
  destruct Hp as [->|[->|[Hf| ->]]]; simpl in *; try done. destruct f; [lia|done].
Qed.

Lemma loop_run_internal bs l l' :
  loop_run bs l = Some l' → Forall (λ a, internal a = true) bs → running l = true →
  (List.length bs + measure l' ≤ measure l)%nat ∧ running l' = true ∧
  (pending l → OnDebounce ∉ bs → pending l').
Proof.
  revert l. induction bs as [|b bs IH]; intros l; simpl; [intros [= ->]; auto|].
  destruct (loop_step b l) as [l1|] eqn:Hs; simpl; [|done].
  intros Hrun [Hb Hbs]%Forall_cons Hr.
  destruct (loop_step_internal b l l1 Hb Hs Hr) as (Hm & Hr1 & Hp).
  destruct (IH l1 Hrun Hbs Hr1) as (Hlen & Hr' & Hpend). split_and!; [lia|done|].
  intros _ Hn. apply Hpend; [|by intros ?; apply Hn; right].
  destruct Hp as [->|?]; [|done]. destruct Hn. by left.
Qed.

Lemma loop_run_running as_ l l' :
  OnDone ∉ as_ → loop_run as_ l = Some l' → running l = true → running l' = true.
Proof.
  revert l. induction as_ as [|a as_ IH]; intros l; simpl; [by intros _ [= ->]|].
  intros [Ha Has]%not_elem_of_cons. destruct (loop_step a l) as [l1|] eqn:Hs; simpl; [|done].
  intros Hrun Hr. apply (IH l1 Has Hrun).
  destruct a; simpl in Hs; repeat (break_match; try done); by simplify_eq/=.
Qed.

Lemma loop_run_app as_ bs l : loop_run (as_ ++ bs) l = (l ← loop_run as_ l; loop_run bs l).
Proof.
  revert l. induction as_ as [|a as_ IH]; intros l; simpl; [done|].
  destruct (loop_step a l); simpl; [apply IH|done].
Qed.

(** ** The properties *)

(** C15: [Cleanup] enforces the limit as far as it may: when the walk saw the
    cache, afterwards the cache fits into [maxSize], or every file left is one
    that was accessed within the last [minAge] or that could not be removed.
    No file accessed within [minAge] is ever removed, and nothing is added or
    rewritten. *)
Theorem cleanup_enforces_limit `{SliceSort} visits fails now j fs :
  sees visits fs → sizes_ok fs →
  let fs' := (Cleanup visits fails now j fs).2 in
  fs' ⊆ fs ∧
  (∀ p e, fs !! p = Some e → young j now e → fs' !! p = Some e) ∧
  (usage fs' ≤ maxSize j ∨
   ∀ p e, fs' !! p = Some e → young j now e ∨ is_Some (fails p)).
Proof.
  intros Hv Hok. cbv zeta. pose proof (Cleanup_evicted visits fails now j fs Hv Hok) as [_ He].
  destruct He as [Hsub Hwhy Hfits _ _]. split_and!; [done| |].
  - intros p e Hp Hy. destruct ((Cleanup _ _ _ _ _).2 !! p) as [e'|] eqn:E.
    + rewrite <- Hp. symmetry. by apply (lookup_weaken _ _ _ _ E Hsub).
    + by destruct (Hwhy p e Hp E) as (_ & ? & _).
  - destruct Hfits as [?|Hall]; [by left|right]. intros p e Hp.
    destruct (Hall (mkFileInfo p e)) as [Hn|?]; [|simpl in *; congruence|done].
    apply elem_of_sorted with fs; [done|]. by eapply lookup_weaken.
Qed.

(** The eviction is least-recently-used and does not overshoot: a removed
    file was accessed no later than any file left that could have been removed,
    and if anything was removed, putting one of the removed files back would
    exceed the limit. *)
Theorem cleanup_is_lru `{SliceSort} visits fails now j fs :
  sees visits fs → sizes_ok fs →
  let fs' := (Cleanup visits fails now j fs).2 in
  (∀ p e q d, fs !! p = Some e → fs' !! p = None → fs' !! q = Some d →
     ¬ young j now d → fails q = None → AccessTime e ≤ AccessTime d) ∧
  (fs' ≠ fs → ∃ p e, fs !! p = Some e ∧ fs' !! p = None ∧ maxSize j < usage fs' + Size e).
Proof.
  intros Hv Hok. cbv zeta. pose proof (Cleanup_evicted visits fails now j fs Hv Hok) as [_ He].
  destruct He as [Hsub Hwhy _ Hlru Hmin]. split.
  - intros p e q d Hp Hgone Hq Hy Hnf.
    pose proof (lookup_weaken _ _ _ _ Hq Hsub) as Hq'.
    apply (elem_of_sorted visits) in Hp, Hq'; [|done|done].
    destruct (Hlru _ _ Hp Hq' Hgone (mk_is_Some _ _ Hq)) as [?|[?|[? Hf]]]; [done|done|].
    simpl in Hf. congruence.
  - intros Hne. by destruct Hmin.
Qed.

(** A walk that meets an error aborts the cleanup with that error and removes
    nothing, whatever it had found before. *)
Lemma cleanup_walk_error `{SliceSort} visits1 p e visits2 fails now j fs :
  (∀ q d, VErr q d ∉ visits1) →
  Cleanup (visits1 ++ VErr p e :: visits2) fails now j fs = (Err e, fs).
Proof.
  intros Hn. unfold Cleanup. generalize ([] : list fileInfo, 0) as acc.
  induction visits1 as [|v visits1 IH]; intros acc; simpl; [done|].
  destruct v as [q d|q d]; [destruct (Hn q d); by left|]. simpl.
  assert (∀ q d, VErr q d ∉ visits1) as Hn' by (intros q' d' Hin; apply (Hn q' d'); by right).
  destruct (IsDir d); simpl; by apply IH.
Qed.

(** C16: no notification is lost: after a [Notify], however the loop, timers and
    earlier notifications interleaved before it, the loop settles within a bounded
    number of its own steps, and it cannot settle without running [Cleanup] first. *)
Theorem notify_leads_to_cleanup as_ bs l l' :
  loop_run (as_ ++ [Notify]) loop0 = Some l → OnDone ∉ as_ →
  loop_run bs l = Some l' → Forall (λ a, internal a = true) bs →
  (List.length bs ≤ 8 + 2 * flying l)%nat ∧ (quiescent l' → OnDebounce ∈ bs).
Proof.
  intros Hl Hnd Hbs Hint.
  assert (running l = true) as Hr.
  { refine (loop_run_running _ _ _ _ Hl eq_refl).
    rewrite not_elem_of_app, list_elem_of_singleton. done. }
  rewrite loop_run_app in Hl. destruct (loop_run as_ loop0) as [l0|]; [|done]. simpl in Hl.
  injection Hl as Hl. assert (pending l) as Hp by (left; by subst).
  destruct (loop_run_internal bs l l' Hbs Hint Hr) as (Hlen & Hr' & Hpend). split.
  - unfold measure in Hlen. destruct (notifyCh l), (timer l) as [[]|], (debounceCh l); lia.
  - intros Hq. destruct (decide (OnDebounce ∈ bs)) as [|Hn]; [done|].
    destruct (pending_not_quiescent l' Hr' (Hpend Hp Hn) Hq).
Qed.

(** ** Concrete instances *)
Module Demo.
Definition not_after {A} (less : A → A → bool) : relation A := λ x y, less y x = false.
#[export] Instance not_after_dec {A} less : RelDecision (@not_after A less).
Proof. intros x y. unfold not_after. apply _. Defined.

#[export, program] Instance merge : SliceSort := {|
  sort_Slice A less l := merge_sort (not_after less) l;
|}.
Next Obligation. intros. apply merge_sort_Permutation. Qed.
Next Obligation.
  intros A key l. simpl. set (R := not_after (λ x y : A, key x <? key y)).
  assert (∀ x y, R x y ↔ key x ≤ key y) as HR.
  { intros x y. apply Z.ltb_ge. }
  assert (Transitive R) by (intros x y z; rewrite !HR; lia).
  assert (Total R) by (intros x y; rewrite !HR; lia).
  pose proof (StronglySorted_merge_sort R l) as Hs.
  induction Hs as [|x k Hs IH Hall]; constructor; [exact IH|].
  eapply Forall_impl; [exact Hall|]. intros y. apply HR.
Qed.

Definition old_file : fileEntry := mkFileEntry 60 false 0 (Some (10 * second)).
Definition newer_file : fileEntry := mkFileEntry 70 false 0 (Some (20 * second)).
Definition fresh_file : fileEntry := mkFileEntry 50 false 0 (Some (90 * second)).
Definition cache : fsys :=
  {["cas/a" := newer_file; "cas/b" := old_file; "cas/c" := fresh_file]}.
Definition tree : list visit :=
  VEntry "cas" (mkFileEntry 4096 true 0 None) :: ((λ '(p, e), VEntry p e) <$> map_to_list cache).
Definition j : Janitor := mkJanitor "cas" 125 (30 * second) (5 * second).
Definition no_fail : string → option error := λ _, None.

Example cleanup_runs :
  (Cleanup tree no_fail (100 * second) j cache).2 = {["cas/a" := newer_file; "cas/c" := fresh_file]}.
Proof. vm_compute. reflexivity. Qed.

Lemma tree_seen : sees tree cache.
Proof.
  split; [|by vm_compute]. intros p e. unfold tree. rewrite elem_of_cons, list_elem_of_fmap.
  by intros [?|([] & ? & _)].
Qed.

Lemma cache_sizes : sizes_ok cache.
Proof.
  split; [|by vm_compute]. apply (map_Forall_lookup (λ _ e, 0 ≤ Size e) cache).
  by apply (bool_decide_unpack _); vm_compute.
Qed.

Lemma cleanup_enforces_limit_witness :
  (Cleanup tree no_fail (100 * second) j cache).2 ⊆ cache.
Proof. apply (cleanup_enforces_limit tree no_fail (100 * second) j cache tree_seen cache_sizes). Defined.

Lemma cleanup_is_lru_witness :
  AccessTime old_file ≤ AccessTime newer_file.
Proof.
  apply (proj1 (cleanup_is_lru tree no_fail (100 * second) j cache tree_seen cache_sizes)
    "cas/b" old_file "cas/a" newer_file); vm_compute; try reflexivity. discriminate.
Defined.

(** A second notification arrives while the first timer's function is in flight. *)
Lemma notify_leads_to_cleanup_witness :
  (4 ≤ 8 + 2 * 1)%nat ∧
  loop_run ([Notify; OnNotify; Expire] ++ [Notify]) loop0 = Some (mkLoop true (Some false) 1 false true).
Proof.
  split; [|reflexivity].
  apply (notify_leads_to_cleanup [Notify; OnNotify; Expire] [OnNotify; Fire; OnDebounce; Expire]
    (mkLoop true (Some false) 1 false true) (mkLoop false (Some false) 1 false true));
    [reflexivity| |reflexivity|by repeat constructor].
  intros Hin. repeat (apply elem_of_cons in Hin as [Hin|Hin]; [discriminate|]).
  by apply not_elem_of_nil in Hin.
Defined.
End Demo.
End Janitor.
