(* ===== verification/Fs.v ===== *)
(** The operating system as the stores see it: paths, a file system with hard
    links, system calls that may fail, readers.

    A path is the list of the components of a cleaned absolute path.  A regular
    file is a link to an inode, so that [os.Link] aliases two names.  Every
    system call may fail: the class [OS] is an arbitrary schedule of failures,
    clock readings and temporary names.  A computation of type [M A] maps a
    [World] to an outcome ([None] is a panic) and a new world; the world keeps
    the history of the file system states that another process could have
    observed in between. *)

From S2P Require Import Prelude GoStrings Messages.

(** ** Paths *)

Notation path := (list string).

(** One component of [filepath.Clean]. *)
Definition clean_step (p : path) (c : string) : path :=
  if (c =? "")%string || (c =? ".")%string then p
  else if (c =? "..")%string then removelast p
  else p ++ [c].

(** [filepath.Join(p, elems...)] for a cleaned absolute [p]. *)
Definition Join (p : path) (elems : list string) : path :=
  foldl clean_step p (elems ≫= split_byte "/").

(** [filepath.Dir]. *)
Definition Dir (p : path) : path := removelast p.

(** A component that [Join] appends as it is. *)
Definition plain (c : string) : bool :=
  negb (contains_byte "/" c) && negb (c =? "")%string && negb (c =? ".")%string &&
  negb (c =? "..")%string.

Lemma Join_plain p elems : Forall (λ c, plain c = true) elems → Join p elems = p ++ elems.
Proof.
  unfold Join. revert p. induction elems as [|c elems IH]; intros p Hf.
  { by rewrite app_nil_r. }
  apply Forall_cons in Hf as [Hc Hf]. unfold plain in Hc. to_prop.
  simpl. rewrite (split_byte_no_sep "/" c) by done. simpl. unfold clean_step at 2.
  rewrite (proj2 (String.eqb_neq c "")), (proj2 (String.eqb_neq c ".")),
    (proj2 (String.eqb_neq c "..")) by done. simpl.
  change (list_bind _ _ (split_byte "/") elems) with (elems ≫= split_byte "/").
  rewrite IH by done. by rewrite <- app_assoc.
Qed.

Lemma Dir_snoc p c : Dir (p ++ [c]) = p.
Proof. apply removelast_last. Qed.

(** ** File systems *)

Record inode := mkInode { content : string; mode : Z; atime : Z }.

Inductive node := NDir | NFile (ino : nat).

Record fsys := mkFsys { tree : gmap path node; inodes : gmap nat inode }.

(** The regular file at a path, if there is one. *)
Definition file_at (p : path) (f : fsys) : option inode :=
  match tree f !! p with Some (NFile i) => inodes f !! i | _ => None end.

Definition bytes_at (p : path) (f : fsys) : option string := content <$> file_at p f.

Definition set_tree (t : gmap path node) (f : fsys) : fsys := mkFsys t (inodes f).
Definition set_inode (i : nat) (x : inode) (f : fsys) : fsys :=
  mkFsys (tree f) (<[i := x]> (inodes f)).

(** [stat], and the access through a symbolic handle: the inode number. *)
Definition fs_stat (p : path) (f : fsys) : result (node * fsys) :=
  match tree f !! p with Some n => Ok (n, f) | None => Err ErrNotExist end.

Definition not_dir : error := ErrIO "not a directory".
Definition is_dir : error := ErrIO "is a directory".
Definition exists_ : error := ErrIO "file exists".

(** The prefixes of a path, shortest first, the root excluded. *)
Definition ancestors (p : path) : list path := (λ n, take n p) <$> seq 1 (List.length p).

Fixpoint mkdirs (ps : list path) (t : gmap path node) : result (gmap path node) :=
  match ps with
  | [] => Ok t
  | p :: ps =>
      match t !! p with
      | Some NDir => mkdirs ps t
      | Some (NFile _) => Err not_dir
      | None => mkdirs ps (<[p := NDir]> t)
      end
  end.

Definition fs_mkdirs (ps : list path) (f : fsys) : result (unit * fsys) :=
  t ← mkdirs ps (tree f); Ok ((), set_tree t f).

(** A name can be created in an existing directory. *)
Definition has_parent (p : path) (f : fsys) : bool :=
  match tree f !! Dir p with Some NDir => true | _ => false end.

Definition new_ino (f : fsys) : nat := fresh (dom (inodes f)).

(** [open(O_CREAT|O_EXCL)] *)
Definition fs_create_excl (p : path) (mode : Z) (f : fsys) : result (nat * fsys) :=
  match tree f !! p with
  | Some _ => Err exists_
  | None =>
      if has_parent p f then
        let i := new_ino f in
        Ok (i, mkFsys (<[p := NFile i]> (tree f)) (<[i := mkInode "" mode 0]> (inodes f)))
      else Err ErrNotExist
  end.

(** [os.Create]: an existing file is truncated and keeps its inode. *)
Definition fs_create (p : path) (f : fsys) : result (nat * fsys) :=
  match tree f !! p with
  | Some NDir => Err is_dir
  | Some (NFile i) =>
      match inodes f !! i with
      | Some x => Ok (i, set_inode i (mkInode "" (mode x) (atime x)) f)
      | None => Err ErrNotExist
      end
  | None => fs_create_excl p 420 f
  end.

Definition fs_append (i : nat) (s : string) (f : fsys) : fsys :=
  match inodes f !! i with
  | Some x => set_inode i (mkInode (content x +:+ s) (mode x) (atime x)) f
  | None => f
  end.

(** [rename(2)]: two links to the same file are left as they are. *)
Definition fs_rename (old new : path) (f : fsys) : result (unit * fsys) :=
  match tree f !! old with
  | Some (NFile i) =>
      match tree f !! new with
      | Some NDir => Err is_dir
      | Some (NFile k) =>
          if (k =? i)%nat then Ok ((), f)
          else Ok ((), set_tree (<[new := NFile i]> (delete old (tree f))) f)
      | None =>
          if has_parent new f
          then Ok ((), set_tree (<[new := NFile i]> (delete old (tree f))) f)
          else Err ErrNotExist
      end
  | Some NDir => Err is_dir
  | None => Err ErrNotExist
  end.

Definition fs_link (old new : path) (f : fsys) : result (unit * fsys) :=
  match tree f !! old with
  | Some (NFile i) =>
      match tree f !! new with
      | Some _ => Err exists_
      | None => if has_parent new f then Ok ((), set_tree (<[new := NFile i]> (tree f)) f)
                else Err ErrNotExist
      end
  | Some NDir => Err is_dir
  | None => Err ErrNotExist
  end.

(** [unlink]; the inode lives on for those who have it open. *)
Definition fs_remove (p : path) (f : fsys) : result (unit * fsys) :=
  match tree f !! p with
  | Some (NFile _) => Ok ((), set_tree (delete p (tree f)) f)
  | Some NDir => Err is_dir
  | None => Err ErrNotExist
  end.

Definition fs_update (p : path) (g : inode → inode) (f : fsys) : result (unit * fsys) :=
  match tree f !! p with
  | Some (NFile i) =>
      match inodes f !! i with
      | Some x => Ok ((), set_inode i (g x) f)
      | None => Err ErrNotExist
      end
  | Some NDir => Ok ((), f)
  | None => Err ErrNotExist
  end.

Definition fs_chmod (p : path) (m : Z) : fsys → result (unit * fsys) :=
  fs_update p (λ x, mkInode (content x) m (atime x)).
Definition fs_chtimes (p : path) (t : Z) : fsys → result (unit * fsys) :=
  fs_update p (λ x, mkInode (content x) (mode x) t).

(** [open] for reading; a handle on a directory opens but does not read. *)
Inductive handle := HFile (ino : nat) | HDir.

Definition fs_open (p : path) (f : fsys) : result (handle * fsys) :=
  match tree f !! p with
  | Some (NFile i) => Ok (HFile i, f)
  | Some NDir => Ok (HDir, f)
  | None => Err ErrNotExist
  end.

Definition fs_read (h : handle) (f : fsys) : result (string * fsys) :=
  match h with
  | HFile i => match inodes f !! i with Some x => Ok (content x, f) | None => Err ErrNotExist end
  | HDir => Err is_dir
  end.

(** ** Worlds *)

(** What is left to read of an [io.Reader]: the chunks its [Read] calls return
    and the error after them ([None] is the end of file). *)
Record reader := mkReader { rd_chunks : list string; rd_err : option error }.

Definition rd_all (r : reader) : string := foldr String.append "" (rd_chunks r).

Record World := mkWorld {
  fs : fsys;
  src : reader;
  tick : nat;
  hist : list fsys;
  notified : nat;
}.

(** The schedule: which system call fails, and how; for a write, how many bytes
    still reach the file.  "Not exist" is decided by the file system. *)
Class OS := {
  fault : nat → option (error * nat);
  fault_exists k e n : fault k = Some (e, n) → os_IsNotExist e = false;
  clock : nat → Z;
  tmp_name : fsys → path → string → string;
  tmp_name_fresh f d pre : tree f !! (d ++ [pre +:+ tmp_name f d pre]) = None;
}.

Definition M (A : Type) := World → option (result A) * World.

#[global] Instance M_ret : MRet M := λ A a w, (Some (Ok a), w).
#[global] Instance M_bind : MBind M := λ A B k m w,
  match m w with
  | (Some (Ok a), w) => k a w
  | (Some (Err e), w) => (Some (Err e), w)
  | (None, w) => (None, w)
  end.

Definition throw {A} (e : error) : M A := λ w, (Some (Err e), w).
Definition panic {A} : M A := λ w, (None, w).

(** The error of a call as a value. *)
Definition try {A} (m : M A) : M (result A) := λ w,
  match m w with
  | (Some r, w) => (Some (Ok r), w)
  | (None, w) => (None, w)
  end.

(** Errors a caller discards: [_ = f()]. *)
Definition ignore {A} (m : M A) : M unit := r ← try m; mret ().

(** [fmt.Errorf("msg: %w", err)] on the error path. *)
Definition wrap {A} (msg : string) (m : M A) : M A := λ w,
  match m w with
  | (Some (Err e), w) => (Some (Err (Wrapped msg e)), w)
  | r => r
  end.

(** [defer d()], which runs on every way out. *)
Definition finally {A} (m : M A) (d : M unit) : M A := λ w,
  let '(r, w) := m w in (r, (d w).2).

Definition or_panic {A} (o : option A) : M A :=
  match o with Some a => mret a | None => panic end.

Definition advance (w : World) : World :=
  mkWorld (fs w) (src w) (S (tick w)) (hist w) (notified w).
Definition observe (f : fsys) (w : World) : World :=
  mkWorld f (src w) (S (tick w)) (f :: hist w) (notified w).
Definition set_src (r : reader) (w : World) : World :=
  mkWorld (fs w) r (tick w) (hist w) (notified w).
Definition notify (w : World) : World :=
  mkWorld (fs w) (src w) (tick w) (hist w) (S (notified w)).

Section calls.
Context `{OS}.

Definition sys {A} (op : fsys → result (A * fsys)) : M A := λ w,
  match fault (tick w) with
  | Some (e, _) => (Some (Err e), advance w)
  | None =>
      match op (fs w) with
      | Ok (a, f) => (Some (Ok a), observe f w)
      | Err e => (Some (Err e), advance w)
      end
  end.

(** A write that fails may have written a part of the data. *)
Definition sys_write (i : nat) (s : string) : M Z := λ w,
  match fault (tick w) with
  | Some (e, n) => (Some (Err e), observe (fs_append i (str_take n s) (fs w)) w)
  | None => (Some (Ok (Z.of_nat (String.length s))), observe (fs_append i s (fs w)) w)
  end.

(** [os.MkdirAll]: when it fails it may have created some of the directories. *)
Definition os_MkdirAll (p : path) : M unit := λ w,
  match fault (tick w) with
  | Some (e, n) =>
      (Some (Err e),
       match fs_mkdirs (take n (ancestors p)) (fs w) with
       | Ok (_, f) => observe f w
       | Err _ => advance w
       end)
  | None => sys (fs_mkdirs (ancestors p)) w
  end.

Definition now : M Z := λ w, (Some (Ok (clock (tick w))), w).

Definition os_Stat (p : path) : M node := sys (fs_stat p).
Definition os_Rename (old new : path) : M unit := sys (fs_rename old new).
Definition os_Link (old new : path) : M unit := sys (fs_link old new).
Definition os_Remove (p : path) : M unit := sys (fs_remove p).
Definition os_Chmod (p : path) (m : Z) : M unit := sys (fs_chmod p m).
Definition os_Chtimes (p : path) (t : Z) : M unit := sys (fs_chtimes p t).
Definition os_Open (p : path) : M handle := sys (fs_open p).
Definition os_Create (p : path) : M nat := sys (fs_create p).
Definition os_Close : M unit := sys (λ f, Ok ((), f)).
Definition os_ReadFile (p : path) : M string := h ← os_Open p; sys (fs_read h).

(** [os.CreateTemp(dir, pre + "*")]: the name and the open file. *)
Definition os_CreateTemp (dir : path) (pre : string) : M (path * nat) := λ w,
  let p := dir ++ [pre +:+ tmp_name (fs w) dir pre] in
  (i ← sys (fs_create_excl p 384); mret (p, i)) w.

(** [io.Copy(file, reader)]: writes the chunks as they are read. *)
Fixpoint copy_loop (i : nat) (chunks : list string) (err : option error) (n : Z) : M Z :=
  match chunks with
  | [] => match err with Some e => throw e | None => mret n end
  | c :: cs => λ w, (k ← sys_write i c; copy_loop i cs err (n + k)%Z) (set_src (mkReader cs err) w)
  end.
Definition io_Copy (i : nat) : M Z := λ w,
  copy_loop i (rd_chunks (src w)) (rd_err (src w)) 0 w.

(** [io.Copy(io.Discard, reader)]. *)
Definition drain : M unit := λ w,
  (Some (match rd_err (src w) with Some e => Err e | None => Ok () end),
   set_src (mkReader [] (rd_err (src w))) w).
End calls.

(** ** Reasoning about calls

    [wp I m Q w]: run from [w], [m] passes only through file systems that
    satisfy [I] and ends with an outcome and a world that satisfy [Q]. *)

Definition wp {A} (I : fsys → Prop) (m : M A) (Q : option (result A) → World → Prop)
    (w : World) : Prop :=
  (∃ new, hist (m w).2 = new ++ hist w ∧ Forall I new) ∧ Q (m w).1 (m w).2.

Definition is_err {A} (r : result A) : Prop := ∃ e, r = Err e.

Section wp_rules.
Context `{OS} (I : fsys → Prop).

Lemma wp_mono {A} (m : M A) (Q R : _ → _ → Prop) w :
  (∀ r w', Q r w' → R r w') → wp I m Q w → wp I m R w.
Proof using Type. intros HQR [Hh HQ]. split; auto. Qed.

Lemma wp_ret {A} (a : A) Q w : Q (Some (Ok a)) w → wp I (mret a) Q w.
Proof using Type. intros HQ. split; [by exists []|done]. Qed.

Lemma wp_throw {A} e Q w : Q (Some (Err e)) w → wp I (throw (A := A) e) Q w.
Proof using Type. intros HQ. split; [by exists []|done]. Qed.

Lemma wp_bind {A B} (m : M A) (k : A → M B) Q w :
  wp I m (λ r w', match r with
                  | Some (Ok a) => wp I (k a) Q w'
                  | Some (Err e) => Q (Some (Err e)) w'
                  | None => Q None w'
                  end) w →
  wp I (m ≫= k) Q w.
Proof using Type.
  unfold wp at 1 3, mbind, M_bind. destruct (m w) as [[[a|e]|] w'] eqn:E; simpl.
  - intros [(new & Hh & Hn) [(new' & Hh' & Hn') HQ]]. split; [|done].
    exists (new' ++ new). rewrite Hh', Hh, app_assoc. split; [done|]. by apply Forall_app.
  - by intros [Hh HQ].
  - by intros [Hh HQ].
Qed.

Lemma wp_try {A} (m : M A) Q w :
  wp I m (λ r w', match r with Some r => Q (Some (Ok r)) w' | None => Q None w' end) w →
  wp I (try m) Q w.
Proof using Type.
  unfold wp, try. destruct (m w) as [[r|] w'] eqn:E; simpl; auto.
Qed.

Lemma wp_ignore {A} (m : M A) Q w :
  wp I m (λ r w', match r with Some _ => Q (Some (Ok ())) w' | None => Q None w' end) w →
  wp I (ignore m) Q w.
Proof using Type.
  intros Hm. unfold ignore. apply wp_bind, wp_try. eapply wp_mono; [|exact Hm].
  intros [r|] w'; simpl; [|done]. apply wp_ret.
Qed.

Lemma wp_wrap {A} msg (m : M A) Q w :
  wp I m (λ r w', match r with
                  | Some (Err e) => Q (Some (Err (Wrapped msg e))) w'
                  | r => Q r w'
                  end) w →
  wp I (wrap msg m) Q w.
Proof using Type. unfold wp, wrap. by destruct (m w) as [[[a|e]|] w'] eqn:E. Qed.

Lemma wp_finally {A} (m : M A) (d : M unit) Q w :
  wp I m (λ r w', wp I d (λ _ w'', Q r w'') w') w → wp I (finally m d) Q w.
Proof using Type.
  unfold wp, finally. destruct (m w) as [r w'] eqn:E; simpl.
  intros [(new & Hh & Hn) [(new' & Hh' & Hn') HQ]]. split; [|done].
  exists (new' ++ new). rewrite Hh', Hh, app_assoc. split; [done|]. by apply Forall_app.
Qed.

(** A system call fails without effect, or does its work. *)
Lemma wp_sys {A} (op : fsys → result (A * fsys)) Q w :
  (∀ e, is_Some (fault (tick w)) ∨ is_err (op (fs w)) → Q (Some (Err e)) (advance w)) →
  (∀ a f, op (fs w) = Ok (a, f) → fault (tick w) = None → I f ∧ Q (Some (Ok a)) (observe f w)) →
  wp I (sys op) Q w.
Proof using Type.
  intros He Ho. unfold wp, sys. destruct (fault (tick w)) as [[e n]|] eqn:Hf.
  { split; [by exists []|apply He; eauto]. }
  destruct (op (fs w)) as [[a f]|e] eqn:E; simpl;
    [|split; [by exists []|apply He; right; by eexists]].
  destruct (Ho a f eq_refl eq_refl). split; [|done]. exists [f]. by rewrite Forall_singleton.
Qed.

(** The same, when the cause of a failure matters. *)
Lemma wp_sys_fault {A} (op : fsys → result (A * fsys)) Q w :
  (∀ e n, fault (tick w) = Some (e, n) → Q (Some (Err e)) (advance w)) →
  (∀ e, op (fs w) = Err e → fault (tick w) = None → Q (Some (Err e)) (advance w)) →
  (∀ a f, op (fs w) = Ok (a, f) → fault (tick w) = None → I f ∧ Q (Some (Ok a)) (observe f w)) →
  wp I (sys op) Q w.
Proof using Type.
  intros Hft He Ho. unfold wp, sys. destruct (fault (tick w)) as [[e n]|] eqn:Hf.
  { split; [by exists []|by eapply Hft]. }
  destruct (op (fs w)) as [[a f]|e] eqn:E; simpl; [|split; [by exists []|by apply He]].
  destruct (Ho a f eq_refl eq_refl). split; [|done]. exists [f]. by rewrite Forall_singleton.
Qed.

Lemma wp_sys_write i s Q w :
  (∀ e n, fault (tick w) = Some (e, n) →
     let f := fs_append i (str_take n s) (fs w) in I f ∧ Q (Some (Err e)) (observe f w)) →
  (let f := fs_append i s (fs w) in
   I f ∧ Q (Some (Ok (Z.of_nat (String.length s)))) (observe f w)) →
  wp I (sys_write i s) Q w.
Proof using Type.
  intros He Ho. unfold wp, sys_write. destruct (fault (tick w)) as [[e n]|] eqn:Hf; simpl.
  - destruct (He e n eq_refl). split; [|done]. eexists [_]. by rewrite Forall_singleton.
  - destruct Ho. split; [|done]. eexists [_]. by rewrite Forall_singleton.
Qed.

Lemma wp_mkdirall p Q w :
  (∀ e, is_Some (fault (tick w)) ∨ is_err (fs_mkdirs (ancestors p) (fs w)) →
     Q (Some (Err e)) (advance w)) →
  (∀ e n f, is_Some (fault (tick w)) → fs_mkdirs (take n (ancestors p)) (fs w) = Ok ((), f) →
     I f ∧ Q (Some (Err e)) (observe f w)) →
  (∀ f, fs_mkdirs (ancestors p) (fs w) = Ok ((), f) → I f ∧ Q (Some (Ok ())) (observe f w)) →
  wp I (os_MkdirAll p) Q w.
Proof using Type.
  intros He Hp Ho. unfold wp, os_MkdirAll. destruct (fault (tick w)) as [[e n]|] eqn:Hf; simpl.
  - destruct (fs_mkdirs (take n (ancestors p)) (fs w)) as [[[] f]|e'] eqn:E; simpl;
      [|split; [by exists []|apply He; eauto]].
    destruct (Hp e n f (mk_is_Some _ _ eq_refl) E). split; [|done].
    exists [f]. by rewrite Forall_singleton.
  - unfold sys. rewrite Hf. destruct (fs_mkdirs (ancestors p) (fs w)) as [[[] f]|e'] eqn:E; simpl;
      [|split; [by exists []|apply He; right; by eexists]].
    destruct (Ho f eq_refl). split; [|done]. exists [f]. by rewrite Forall_singleton.
Qed.
End wp_rules.

(** ** Concrete schedules *)
Module Schedules.
Fixpoint zeros (n : nat) : string := match n with O => "" | S n => String "0" (zeros n) end.

Lemma zeros_length n : String.length (zeros n) = n.
Proof. induction n as [|n IH]; simpl; congruence. Qed.

Definition name_length (p : path) : nat := String.length (List.last p "").
Definition longest (f : fsys) : nat :=
  foldr Nat.max 0 (name_length <$> (map_to_list (tree f)).*1).

(** A name longer than every name in use. *)
Definition long_name (f : fsys) (d : path) (pre : string) : string := zeros (S (longest f)).

Lemma long_name_fresh f d pre : tree f !! (d ++ [pre +:+ long_name f d pre]) = None.
Proof.
  destruct (tree f !! _) as [n|] eqn:E; [exfalso|done]. apply elem_of_map_to_list in E.
  assert (∀ l : list path, ∀ p, p ∈ l → name_length p ≤ foldr Nat.max 0 (name_length <$> l)) as Hmax.
  { induction l as [|q l IH]; intros p; [by intros ?%not_elem_of_nil|].
    rewrite fmap_cons. cbn [foldr]. intros [->|Hp]%elem_of_cons; [lia|]. apply IH in Hp. lia. }
  apply (list_elem_of_fmap_2 fst), Hmax in E.
  change (name_length (d ++ [pre +:+ zeros (S (longest f))]) ≤ longest f) in E.
  unfold name_length in E. rewrite last_last, str_length_app, zeros_length in E. lia.
Qed.

(** The calls of [bad] fail with [e]. *)
Definition schedule (bad : nat → bool) (e : error) (He : os_IsNotExist e = false) : OS.
Proof.
  refine {| fault k := if bad k then Some (e, 0) else None; clock := Z.of_nat;
            tmp_name := long_name; tmp_name_fresh := long_name_fresh |}.
  intros k e' n. destruct (bad k); [|done]. by intros [= <- _].
Defined.

Definition calm : OS := schedule (λ _, false) (ErrIO "") eq_refl.
End Schedules.
