(* ===== verification/Storage.v ===== *)
(** The stores (src/pkg/storage): [LocalStore] on the file system (local.go) and
    the [NullStore] that stands in for a missing backing cache (null.go).  The
    protobuf codec of [ActionResult] is the class [ActionResultPb]. *)

From S2P Require Import Prelude GoStrings Messages Fs.
Local Open Scope Z_scope.

Module Storage.

Class ActionResultPb := {
  ar_Marshal : ActionResult → result string;
  ar_Unmarshal : string → result ActionResult;
  ar_Unmarshal_Marshal r b : ar_Marshal r = Ok b → ar_Unmarshal b = Ok r;
}.

(** [FromProto]. *)
Definition FromProto `{DigestSdk} (d : PbDigest) : result Digest := NewFromProto d.

Record LocalStore := mkLocalStore {
  rootDir : path;
  forceUpdateATime : bool;
  onPutCallback : bool;
}.

Section LocalStore.
Context `{OS, ActionResultPb}.
Implicit Types (s : LocalStore) (digest : Digest).

Definition NewLocalStore (rootDir : path) (forceUpdateATime : bool) : M LocalStore :=
  _ ← os_MkdirAll (Join rootDir ["cas"]);
  _ ← os_MkdirAll (Join rootDir ["ac"]);
  mret (mkLocalStore rootDir forceUpdateATime false).

Definition SetOnPutCallback s : LocalStore := mkLocalStore (rootDir s) (forceUpdateATime s) true.

(** [digest.Hash[0:2]] and [digest.Hash[2:4]] panic on a shorter hash. *)
Definition hash_path (root : path) (ns hash : string) : option path :=
  if (String.length hash <? 4)%nat then None
  else Some (Join root [ns; str_take 2 hash; str_take 2 (str_drop 2 hash); hash]).

Definition BlobPath s digest : option path := hash_path (rootDir s) "cas" (Hash digest).

Definition touch s (p : path) : M unit :=
  if forceUpdateATime s then t ← now; ignore (os_Chtimes p t) else mret ().

Definition Has s digest : M bool :=
  p ← or_panic (BlobPath s digest);
  r ← try (os_Stat p);
  match r with
  | Err e => if os_IsNotExist e then mret false else throw e
  | Ok _ => _ ← touch s p; mret true
  end.

Definition Get s digest : M handle :=
  p ← or_panic (BlobPath s digest);
  f ← os_Open p;
  _ ← touch s p;
  mret f.

Definition getActionPath s digest : option path := hash_path (rootDir s) "ac" (Hash digest).

Definition GetActionResult s digest : M ActionResult :=
  p ← or_panic (getActionPath s digest);
  data ← os_ReadFile p;
  match ar_Unmarshal data with Ok r => mret r | Err e => throw e end.

Definition callback s : M unit :=
  if onPutCallback s then λ w, (Some (Ok ()), notify w) else mret ().

(** [defer func() { f.Close(); os.Remove(tmpPath) }()] *)
Definition cleanup_tmp (tmpPath : path) : M unit :=
  _ ← ignore os_Close; ignore (os_Remove tmpPath).

Definition UpdateActionResult s digest (r : ActionResult) : M unit :=
  match ar_Marshal r with
  | Err e => throw e
  | Ok data =>
      p ← or_panic (getActionPath s digest);
      _ ← os_MkdirAll (Dir p);
      '(tmpPath, f) ← os_CreateTemp (Dir p) "ac-tmp-";
      finally
        (_ ← sys_write f data;
         _ ← os_Close;
         _ ← os_Rename tmpPath p;
         callback s)
        (cleanup_tmp tmpPath)
  end.

Definition Put s digest : M unit :=
  p ← or_panic (BlobPath s digest);
  _ ← wrap "failed to create directory" (os_MkdirAll (Dir p));
  '(tmpPath, f) ← wrap "failed to create temp file" (os_CreateTemp (Dir p) "cas-tmp-");
  finally
    (n ← wrap "failed to write data" (io_Copy f);
     if negb (n =? Size digest) then throw (Errorf "digest size mismatch") else
     _ ← wrap "failed to close temp file" os_Close;
     _ ← wrap "failed to rename temp file" (os_Rename tmpPath p);
     _ ← wrap "failed to make file read-only" (os_Chmod p 292);
     callback s)
    (cleanup_tmp tmpPath).

(** [fmt.Sprintf("cas-tmp-putfile-%d-%s", time.Now().UnixNano(), digest.Hash)] *)
Definition print_int (t : Z) : string := (if t <? 0 then "-" else "") +:+ print_dec (Z.abs_N t).
Definition putfile_name (t : Z) digest : string :=
  "cas-tmp-putfile-" +:+ (print_int t +:+ "-" +:+ Hash digest).

(** The fallback when linking fails. *)
Definition copy_file (sourcePath tmpPath : path) : M unit :=
  h ← os_Open sourcePath;
  dst ← os_Create tmpPath;
  data ← sys (fs_read h);
  _ ← sys_write dst data;
  _ ← os_Close;
  wrap "failed to set read-only permissions on copied file" (os_Chmod tmpPath 292).

Definition PutFile s digest (sourcePath : path) : M unit :=
  p ← or_panic (BlobPath s digest);
  r ← try (os_Stat p);
  match r with
  | Ok _ => touch s p
  | Err _ =>
      _ ← wrap "failed to create directory" (os_MkdirAll (Dir p));
      t ← now;
      let tmpPath := Join (Dir p) [putfile_name t digest] in
      finally
        (linkErr ← try (os_Link sourcePath tmpPath);
         _ ← match linkErr with
             | Ok _ => wrap "failed to set read-only permissions on hardlinked file"
                         (os_Chmod tmpPath 292)
             | Err _ => copy_file sourcePath tmpPath
             end;
         _ ← wrap "failed to rename temp file to final path" (os_Rename tmpPath p);
         callback s)
        (statErr ← try (os_Stat tmpPath);
         match statErr with Ok _ => ignore (os_Remove tmpPath) | Err _ => mret () end)
  end.
End LocalStore.

(** ** [NullStore] *)

Module NullStore.
Definition Has (digest : Digest) : result bool := Ok false.
Definition Get (digest : Digest) : result string := Err ErrNotExist.
Definition Put (digest : Digest) : M unit := drain.
Definition GetActionResult (digest : Digest) : result ActionResult :=
  Err (StatusErr NotFound "not found").
Definition UpdateActionResult (digest : Digest) (r : ActionResult) : result unit := Ok ().
End NullStore.

(** ** File system lemmas *)

(** Every link has its inode. *)
Definition wf (f : fsys) : Prop := ∀ p i, tree f !! p = Some (NFile i) → is_Some (inodes f !! i).

(** [f'] has the files of [f], outside [X]. *)
Definition same_files (X : path → Prop) (f f' : fsys) : Prop :=
  ∀ p, ¬ X p → file_at p f' = file_at p f.

Lemma same_files_trans X f g h : same_files X f g → same_files X g h → same_files X f h.
Proof. intros Hfg Hgh p Hp. by rewrite Hgh, Hfg. Qed.

Lemma mkdirs_lookup ps t t' p :
  mkdirs ps t = Ok t' →
  t' !! p = t !! p ∨ (t !! p = None ∧ t' !! p = Some NDir ∧ p ∈ ps).
Proof.
  revert t. induction ps as [|q ps IH]; intros t; simpl; [intros [= ->]; by left|].
  destruct (t !! q) as [[|i]|] eqn:Hq; [|done|]; intros Hm.
  { destruct (IH _ Hm) as [?|(? & ? & ?)]; [by left|]. right. split_and!; [done|done|by right]. }
  destruct (IH _ Hm) as [->|(Hn & -> & Hin)].
  - destruct (decide (p = q)) as [->|].
    + right. rewrite lookup_insert_eq. split_and!; [done|done|by left].
    + left. by rewrite lookup_insert_ne.
  - destruct (decide (p = q)) as [->|]; [by rewrite lookup_insert_eq in Hn|].
    rewrite lookup_insert_ne in Hn by done. right. split_and!; [done|done|by right].
Qed.

Lemma mkdirs_err ps t e :
  mkdirs ps t = Err e → ∃ p i, p ∈ ps ∧ t !! p = Some (NFile i).
Proof.
  revert t. induction ps as [|q ps IH]; intros t; simpl; [done|].
  destruct (t !! q) as [[|i]|] eqn:Hq.
  - intros (p & i & ? & ?)%IH. exists p, i. split; [by right|done].
  - intros _. exists q, i. split; [by left|done].
  - intros (p & i & ? & Hp)%IH. exists p, i. split; [by right|].
    by apply lookup_insert_Some in Hp as [[_ ?]|[_ ?]].
Qed.

Lemma mkdirs_dirs ps t t' p : mkdirs ps t = Ok t' → p ∈ ps → t' !! p = Some NDir.
Proof.
  revert t. induction ps as [|q ps IH]; intros t; simpl; [by intros _ ?%not_elem_of_nil|].
  intros Hm [->|Hp]%elem_of_cons.
  - destruct (t !! q) as [[|i]|] eqn:Hq; [|done|];
      destruct (mkdirs_lookup _ _ _ q Hm) as [->|(_ & ? & _)]; try done. by rewrite lookup_insert_eq.
  - destruct (t !! q) as [[|i]|] eqn:Hq; [by eapply IH|done|by eapply IH].
Qed.

Lemma fs_mkdirs_same ps f f' :
  fs_mkdirs ps f = Ok ((), f') → wf f →
  wf f' ∧ (∀ p, file_at p f' = file_at p f) ∧
  (∀ p, p ∉ ps → tree f' !! p = tree f !! p) ∧
  (∀ p, p ∈ ps → tree f' !! p = Some NDir).
Proof.
  unfold fs_mkdirs. destruct (mkdirs ps (tree f)) as [t|] eqn:E; simpl; [|done].
  intros [= <-] Hwf. split_and!.
  - intros p i Hp. simpl in Hp.
    destruct (mkdirs_lookup _ _ _ p E) as [Heq|(_ & Heq & _)]; rewrite Heq in Hp; [eauto|done].
  - intros p. unfold file_at. simpl.
    destruct (mkdirs_lookup _ _ _ p E) as [->|(-> & -> & _)]; done.
  - intros p Hp. simpl. by destruct (mkdirs_lookup _ _ _ p E) as [?|(_ & _ & ?)].
  - intros p Hp. by eapply mkdirs_dirs.
Qed.

Lemma elem_of_ancestors p : p ≠ [] → p ∈ ancestors p.
Proof.
  intros Hp. unfold ancestors. apply list_elem_of_fmap. exists (List.length p).
  rewrite firstn_all. split; [done|]. apply elem_of_seq. destruct p; [done|simpl; lia].
Qed.

Lemma not_elem_of_ancestors p c : p ++ [c] ∉ ancestors p.
Proof.
  unfold ancestors. rewrite list_elem_of_fmap. intros (n & Heq & _).
  apply (f_equal List.length) in Heq. rewrite length_app, length_take in Heq. simpl in Heq. lia.
Qed.

(** The file at [q] is private: a new inode that no other path links to.  The
    other files are those of [f0]. *)
Record private (f0 : fsys) (q : path) (i : nat) (f : fsys) : Prop := mkPrivate {
  pr_wf : wf f;
  pr_link : tree f !! q = Some (NFile i);
  pr_only p : tree f !! p = Some (NFile i) → p = q;
  pr_others p : p ≠ q → file_at p f = file_at p f0;
  pr_dir p : p ≠ q → tree f !! p = Some NDir ↔ tree f0 !! p = Some NDir;
}.

Lemma create_private p m f i f' :
  wf f → fs_create_excl p m f = Ok (i, f') →
  private f p i f' ∧ file_at p f' = Some (mkInode "" m 0) ∧ tree f !! p = None.
Proof.
  intros Hwf. unfold fs_create_excl. destruct (tree f !! p) eqn:Hp; [done|].
  destruct (has_parent p f); [|done]. intros [= Hi <-].
  assert (∀ q, tree f !! q ≠ Some (NFile (new_ino f))) as Hnew.
  { intros q Hq. apply Hwf in Hq as [x Hx]. apply (is_fresh (dom (inodes f))).
    by apply elem_of_dom_2 in Hx. }
  rewrite Hi in *.
  split_and!; [|by unfold file_at; simpl; rewrite !lookup_insert_eq|done].
  split; simpl.
  - intros q j. simpl. intros [[<- [= <-]]|[_ Hq]]%lookup_insert_Some.
    + by rewrite lookup_insert_eq.
    + apply Hwf in Hq. by apply lookup_insert_is_Some'; right.
  - apply lookup_insert_eq.
  - intros q. simpl. intros [[<- _]|[_ Hq]]%lookup_insert_Some; [done|]. by destruct (Hnew q).
  - intros q Hq. unfold file_at. simpl. rewrite lookup_insert_ne by done.
    destruct (tree f !! q) as [[|j]|] eqn:E; try done.
    rewrite lookup_insert_ne; [done|]. intros ->. by destruct (Hnew q).
  - intros q Hq. by rewrite lookup_insert_ne.
Qed.

(** Changing the private inode. *)
Lemma set_inode_private f0 q i f x :
  private f0 q i f → private f0 q i (set_inode i x f) ∧ file_at q (set_inode i x f) = Some x.
Proof.
  intros [Hwf Hl Ho Hot Hd]. split; [split; simpl; [|done|done| |done]|].
  - intros p j Hp. simpl in *. apply lookup_insert_is_Some'. right. eauto.
  - intros p Hp. rewrite <- Hot by done. unfold file_at. simpl.
    destruct (tree f !! p) as [[|j]|] eqn:E; try done.
    rewrite lookup_insert_ne; [done|]. intros ->. by destruct Hp; apply Ho.
  - unfold file_at. simpl. by rewrite Hl, lookup_insert_eq.
Qed.

Lemma append_private f0 q i f s x :
  private f0 q i f → file_at q f = Some x →
  private f0 q i (fs_append i s f) ∧
  file_at q (fs_append i s f) = Some (mkInode (content x +:+ s) (mode x) (atime x)).
Proof.
  intros Hp Hx. unfold fs_append. unfold file_at in Hx. rewrite (pr_link _ _ _ _ Hp) in Hx.
  rewrite Hx. by apply set_inode_private.
Qed.

Lemma update_private f0 q i f g f' x :
  private f0 q i f → file_at q f = Some x → fs_update q g f = Ok ((), f') →
  private f0 q i f' ∧ file_at q f' = Some (g x).
Proof.
  intros Hp Hx. unfold fs_update. unfold file_at in Hx. rewrite (pr_link _ _ _ _ Hp) in *.
  rewrite Hx. intros [= <-]. by apply set_inode_private.
Qed.

(** What can keep a private file from being renamed to [q']. *)
Lemma rename_err f0 q q' i f :
  private f0 q i f → q ≠ q' → tree f !! Dir q' = Some NDir →
  is_err (fs_rename q q' f) → tree f0 !! q' = Some NDir.
Proof.
  intros [Hwf Hl Ho Hot Hd] Hne Hdir [e He]. unfold fs_rename, has_parent in He. rewrite Hl, Hdir in He.
  destruct (tree f !! q') as [[|k]|] eqn:E; [|by destruct (k =? i)%nat|done].
  by apply Hd in E; [|apply not_eq_sym].
Qed.

(** Renaming moves the privacy; the old name is gone and the file that was at
    the new name is no longer reachable there. *)
Lemma rename_private f0 q q' i f f' :
  q ≠ q' → private f0 q i f → fs_rename q q' f = Ok ((), f') →
  wf f' ∧ tree f' !! q = None ∧ tree f' !! q' = Some (NFile i) ∧
  (∀ p, tree f' !! p = Some (NFile i) → p = q') ∧
  file_at q' f' = file_at q f ∧ (∀ p, p ≠ q → p ≠ q' → file_at p f' = file_at p f0).
Proof.
  intros Hne [Hwf Hl Ho Hot Hd]. unfold fs_rename. rewrite Hl. intros Hr.
  assert (f' = set_tree (<[q' := NFile i]> (delete q (tree f))) f) as ->.
  { destruct (tree f !! q') as [[|k]|] eqn:E; [done| |].
    - destruct (k =? i)%nat eqn:Hk; [|by injection Hr as <-].
      apply Nat.eqb_eq in Hk as ->. apply Ho in E. congruence.
    - destruct (has_parent q' f); [by injection Hr as <-|done]. }
  split_and!; simpl.
  - intros p j. simpl. intros [[_ [= <-]]|[_ [_ ?]%lookup_delete_Some]]%lookup_insert_Some; eauto.
  - rewrite lookup_insert_ne by done. apply lookup_delete_eq.
  - apply lookup_insert_eq.
  - intros p [[<- _]|[_ [? Hp]%lookup_delete_Some]]%lookup_insert_Some; [done|].
    apply Ho in Hp. congruence.
  - unfold file_at. simpl. by rewrite lookup_insert_eq, Hl.
  - intros p Hp Hp'. rewrite <- Hot by done. unfold file_at. simpl.
    by rewrite lookup_insert_ne, lookup_delete_ne.
Qed.

Lemma remove_same p f f' :
  fs_remove p f = Ok ((), f') →
  tree f' !! p = None ∧ (∀ q, q ≠ p → file_at q f' = file_at q f) ∧ (wf f → wf f').
Proof.
  unfold fs_remove. destruct (tree f !! p) as [[|i]|]; try done. intros [= <-]. split_and!.
  - apply lookup_delete_eq.
  - intros q Hq. unfold file_at. simpl. by rewrite lookup_delete_ne.
  - intros Hwf q j. simpl. intros [_ ?]%lookup_delete_Some. eauto.
Qed.

(** ** Names of blobs *)

Definition hex_hash (h : string) : Prop := (4 ≤ String.length h)%nat ∧ str_all is_hex h = true.

Lemma str_all_take p n s : str_all p s = true → str_all p (str_take n s) = true.
Proof.
  revert s. induction n as [|n IH]; intros [|a s]; simpl; try done.
  intros [? ?]%andb_true_iff. apply andb_true_iff. auto.
Qed.

Lemma str_all_drop p n s : str_all p s = true → str_all p (str_drop n s) = true.
Proof.
  revert s. induction n as [|n IH]; intros [|a s]; simpl; try done.
  intros [? ?]%andb_true_iff. auto.
Qed.

Lemma hex_plain s : s ≠ "" → str_all is_hex s = true → plain s = true.
Proof.
  intros Hne Hs. unfold plain. rewrite !andb_true_iff, !negb_true_iff, !String.eqb_neq.
  split_and!; [|done|by intros ->|by intros ->].
  clear Hne. induction s as [|a s IH]; [done|]. simpl in *. apply andb_true_iff in Hs as [Ha Hs].
  rewrite IH by done. rewrite orb_false_r. apply Ascii.eqb_neq. by intros ->.
Qed.

Lemma hash_path_hex root ns h :
  plain ns = true → hex_hash h →
  hash_path root ns h =
    Some (root ++ [ns; str_take 2 h; str_take 2 (str_drop 2 h)] ++ [h]).
Proof.
  intros Hns [Hl Hh]. unfold hash_path. rewrite (proj2 (Nat.ltb_ge _ _) Hl). f_equal.
  rewrite Join_plain; [done|]. destruct h as [|a [|b [|c [|d h]]]]; simpl in Hl; try lia.
  rewrite !Forall_cons. split_and!; [done| | | |done]; apply hex_plain; try done.
  - by apply (str_all_take is_hex 2).
  - by apply (str_all_take is_hex 2), (str_all_drop is_hex 2).
Qed.

(** The directory of a blob. *)
Definition hash_dir (root : path) (ns h : string) : path :=
  root ++ [ns; str_take 2 h; str_take 2 (str_drop 2 h)].

Lemma hash_path_dir root ns h :
  plain ns = true → hex_hash h → hash_path root ns h = Some (hash_dir root ns h ++ [h]).
Proof. intros. rewrite hash_path_hex by done. unfold hash_dir. by rewrite <- app_assoc. Qed.

Lemma hash_path_short root ns h : (String.length h < 4)%nat → hash_path root ns h = None.
Proof. intros Hl. unfold hash_path. by rewrite (proj2 (Nat.ltb_lt _ _) Hl). Qed.

(** A temporary name in directory [dir]. *)
Definition is_tmp (dir : path) (pre : string) (p : path) : Prop := ∃ x, p = dir ++ [pre +:+ x].

Lemma tmp_not_dir dir pre q : is_tmp dir pre q → q ≠ dir.
Proof.
  intros [x ->] Heq. apply (f_equal List.length) in Heq. rewrite length_app in Heq.
  simpl in Heq. lia.
Qed.

Lemma tmp_not_blob dir dir' pre x h :
  str_all is_hex h = true → str_all is_hex pre = false → dir ++ [pre +:+ x] ≠ dir' ++ [h].
Proof.
  intros Hh Hpre [_ [= Heq]]%app_inj_2; [|done]. rewrite <- Heq in Hh. clear Heq.
  induction pre as [|a pre IH]; simpl in *; [done|].
  destruct (is_hex a); simpl in *; [auto|done].
Qed.

(** ** Publishing a file: temporary name, write, rename *)

(** What others may see while a file [p] with contents [data] is published from
    a temporary name [pre...] in [dir]: the other files of [f0]; at [p] what [f0]
    has there or, if the data is [complete], all of it. *)
Definition visible (f0 : fsys) (dir : path) (pre : string) (p : path) (complete : Prop)
    (data : string) (f : fsys) : Prop :=
  (∀ q, q ≠ p → ¬ is_tmp dir pre q → file_at q f = file_at q f0) ∧
  (bytes_at p f = bytes_at p f0 ∨ (complete ∧ bytes_at p f = Some data)).

(** The file has arrived at [p]. *)
Record landed (f0 : fsys) (tmp p : path) (x : inode) (f : fsys) : Prop := mkLanded {
  ld_ino : nat;
  ld_private : private f p ld_ino f;
  ld_tmp : tree f !! tmp = None;
  ld_file : file_at p f = Some x;
  ld_others q : q ≠ tmp → q ≠ p → file_at q f = file_at q f0;
}.

Lemma landed_update_ok f0 tmp p x f g e : landed f0 tmp p x f → fs_update p g f ≠ Err e.
Proof.
  intros [i Hpr _ Hx _]. unfold fs_update, file_at in *. rewrite (pr_link _ _ _ _ Hpr) in *.
  by rewrite Hx.
Qed.

Section publish.
Context `{OS}.
Context (f0 : fsys) (dir : path) (pre : string) (p : path) (complete : Prop) (data : string).
Context (Hp : ∀ q, is_tmp dir pre q → q ≠ p).

Notation vis := (visible f0 dir pre p complete data).

Lemma visible_same f : (∀ q, file_at q f = file_at q f0) → vis f.
Proof using Type. intros Hs. split; [auto|]. left. unfold bytes_at. by rewrite Hs. Qed.

Lemma visible_private f1 tmp i f :
  (∀ q, file_at q f1 = file_at q f0) → is_tmp dir pre tmp → private f1 tmp i f → vis f.
Proof using Hp.
  intros Hs Ht Hpr. split.
  - intros q Hq Hnt. rewrite (pr_others _ _ _ _ Hpr), Hs; [done|]. by intros ->.
  - left. unfold bytes_at. rewrite (pr_others _ _ _ _ Hpr), Hs; [done|].
    apply not_eq_sym. by apply Hp.
Qed.

Lemma visible_landed tmp x f :
  is_tmp dir pre tmp → complete → content x = data → landed f0 tmp p x f → vis f.
Proof using Type.
  intros Ht Hc <- Hl. split.
  - intros q Hq Hnt. apply (ld_others _ _ _ _ _ Hl); [|done]. by intros ->.
  - right. split; [done|]. unfold bytes_at. by rewrite (ld_file _ _ _ _ _ Hl).
Qed.

(** Undoing changes at temporary names keeps the invariant. *)
Lemma visible_tmp tmp f f' :
  is_tmp dir pre tmp → (∀ q, q ≠ tmp → file_at q f' = file_at q f) → vis f → vis f'.
Proof using Hp.
  intros Ht Hs [Ho Hb]. split.
  - intros q Hq Hnt. rewrite Hs; [auto|]. by intros ->.
  - unfold bytes_at in *. rewrite Hs; [done|]. apply not_eq_sym. auto.
Qed.

Lemma rename_landed f1 tmp i f f' x :
  (∀ q, file_at q f1 = file_at q f0) → is_tmp dir pre tmp →
  private f1 tmp i f → file_at tmp f = Some x → fs_rename tmp p f = Ok ((), f') →
  landed f0 tmp p x f'.
Proof using Hp.
  intros Hs Ht Hpr Hx Hr. apply Hp in Ht as Hne.
  destruct (rename_private _ _ _ _ _ _ Hne Hpr Hr) as (Hwf & Hgone & Hl & Ho & Hf & Hot).
  exists i; [|done|congruence|].
  - by split; auto.
  - intros q Hq Hq'. rewrite <- Hs. auto.
Qed.

Lemma chmod_landed tmp x m f f' :
  is_tmp dir pre tmp → landed f0 tmp p x f → fs_chmod p m f = Ok ((), f') →
  landed f0 tmp p (mkInode (content x) m (atime x)) f'.
Proof using Hp.
  intros Ht [i Hpr Hgone Hx Hot] Hc.
  destruct (update_private _ _ _ _ _ _ _ Hpr Hx Hc) as [Hpr' Hx'].
  assert (tree f' = tree f) as Htree.
  { unfold fs_chmod, fs_update in Hc. repeat (break_match; try done); by simplify_eq/=. }
  exists i; [|by rewrite Htree|done|].
  - destruct Hpr' as [? ? ? ? ?]. by split; auto.
  - intros q Hq Hq'. rewrite (pr_others _ _ _ _ Hpr') by done. auto.
Qed.

(** The deferred cleanup: nothing else changes, and the temporary file is
    gone unless the removal itself, the last call, failed. *)
Lemma wp_cleanup_tmp tmp w (Q : option (result unit) → World → Prop) :
  is_tmp dir pre tmp → wf (fs w) → vis (fs w) → tree (fs w) !! tmp ≠ Some NDir →
  (∀ r w', wf (fs w') → vis (fs w') → notified w' = notified w →
     (∀ q, q ≠ tmp → file_at q (fs w') = file_at q (fs w)) →
     file_at tmp (fs w') = None ∨ is_Some (fault (pred (tick w'))) → Q r w') →
  wp vis (cleanup_tmp tmp) Q w.
Proof using Hp.
  intros Ht Hwf Hv Hnd HQ. unfold cleanup_tmp.
  assert (∀ w1, fs w1 = fs w → notified w1 = notified w →
    wp vis (ignore (os_Remove tmp)) Q w1) as Hrm.
  { intros w1 Hfs Hno. apply wp_ignore, wp_sys_fault; rewrite ?Hfs.
    - intros e n He. apply HQ; simpl; rewrite ?Hfs; eauto.
    - intros e He _. apply HQ; simpl; rewrite ?Hfs; auto. left. unfold file_at.
      unfold fs_remove in He. destruct (tree (fs w) !! tmp) as [[|]|]; done.
    - intros [] f Hr _. destruct (remove_same _ _ _ Hr) as (Hgone & Hs & Hw).
      assert (vis f) by (by eapply visible_tmp). split; [done|].
      apply HQ; simpl; auto. left. unfold file_at. by rewrite Hgone. }
  apply wp_bind, wp_ignore, wp_sys.
  - intros e _. by apply Hrm.
  - intros [] f [= <-] _. split; [done|]. by apply Hrm.
Qed.
End publish.

(** Writing the chunks of a reader to a private file. *)
Lemma wp_copy_loop `{OS} I f1 q i cs err n x w (Q : option (result Z) → World → Prop) :
  (∀ f, private f1 q i f → I f) →
  private f1 q i (fs w) → file_at q (fs w) = Some x →
  (∀ e w', private f1 q i (fs w') → notified w' = notified w →
     is_Some err ∨ (∃ k, is_Some (fault k)) → Q (Some (Err e)) w') →
  (∀ w', err = None → private f1 q i (fs w') → notified w' = notified w →
     let all := foldr String.append "" cs in
     file_at q (fs w') = Some (mkInode (content x +:+ all) (mode x) (atime x)) →
     Q (Some (Ok (n + Z.of_nat (String.length all)))) w') →
  wp I (copy_loop i cs err n) Q w.
Proof.
  intros HI. revert n x w. induction cs as [|c cs IH]; intros n x w Hpr Hx HE HO; simpl.
  { destruct err as [e|]; [apply wp_throw, HE; eauto|]. apply wp_ret. rewrite <- (Z.add_0_r n).
    apply HO; auto. simpl. rewrite str_app_nil_r. by destruct x. }
  change (wp I (k ← sys_write i c; copy_loop i cs err (n + k)) Q (set_src (mkReader cs err) w)).
  apply wp_bind, wp_sys_write.
  - intros e k Hk f. subst f. simpl.
    destruct (append_private _ _ _ _ (str_take k c) _ Hpr Hx) as [Hpr' _].
    split; [by apply HI|]. apply HE; eauto.
  - intros f. subst f. simpl. destruct (append_private _ _ _ _ c _ Hpr Hx) as [Hpr' Hx'].
    split; [by apply HI|]. eapply IH; [done|exact Hx'|auto|].
    intros w' He Hpr'' Hno all Hall. simpl in Hno, Hall. subst all.
    rewrite <- str_app_assoc in Hall.
    specialize (HO w' He Hpr'' Hno Hall). simpl in HO. rewrite str_length_app in HO.
    by replace (n + Z.of_nat (String.length c) +
      Z.of_nat (String.length (foldr String.append "" cs))) with
      (n + Z.of_nat (String.length c + String.length (foldr String.append "" cs))) by lia.
Qed.

Lemma wp_io_Copy `{OS} I i w (Q : option (result Z) → World → Prop) :
  wp I (copy_loop i (rd_chunks (src w)) (rd_err (src w)) 0) Q w → wp I (io_Copy i) Q w.
Proof. done. Qed.

(** ** [Put] *)

(** How a publication ended: [res] for its caller, [w'] for everybody else. *)
Record published `{OS} (cb : bool) (w : World) (dir : path) (pre : string) (p : path)
    (complete : Prop) (data : string) (good : inode → Prop) (why : Prop)
    (res : result unit) (w' : World)
    : Prop := mkPublished {
  pu_wf : wf (fs w');
  pu_visible : visible (fs w) dir pre p complete data (fs w');
  (** no other file changes; a temporary file stays only if its removal, the
      last system call, failed *)
  pu_others q : q ≠ p →
    file_at q (fs w') = file_at q (fs w) ∨
    (is_tmp dir pre q ∧ is_Some (fault (pred (tick w'))));
  pu_result : match res with
    | Ok _ => complete ∧ (∃ x, file_at p (fs w') = Some x ∧ content x = data ∧ good x) ∧
        notified w' = (if cb then S (notified w) else notified w)
    | Err _ => notified w' = notified w ∧ why
    end;
}.

Section publish_rules.
Context `{OS}.
Context (w : World) (dir : path) (pre : string) (p : path) (complete : Prop) (data : string).
Context (good : inode → Prop) (why : Prop) (cb : bool).
Context (Hp : ∀ q, is_tmp dir pre q → q ≠ p).

Notation vis := (visible (fs w) dir pre p complete data).
Notation post := (λ r w', ∃ res, r = Some res ∧
  published cb w dir pre p complete data good why res w').

(** An error before the temporary file exists. *)
Lemma published_early e w' :
  wf (fs w') → (∀ q, file_at q (fs w') = file_at q (fs w)) → notified w' = notified w →
  why → post (Some (Err e)) w'.
Proof using Type.
  intros Hwf Hs Hn Hwhy. exists (Err e). split; [done|]. split; [done|by apply visible_same| |done].
  intros q _. by left.
Qed.

(** The deferred cleanup after a failure that left the private temporary file. *)
Lemma wp_cleanup_private f1 tmp i e w1 :
  (∀ q, file_at q f1 = file_at q (fs w)) → is_tmp dir pre tmp → file_at tmp (fs w) = None →
  private f1 tmp i (fs w1) → notified w1 = notified w → why →
  wp vis (cleanup_tmp tmp) (λ _ w', post (Some (Err e)) w') w1.
Proof using Hp.
  intros Hs Ht Hnone Hpr Hn Hwhy. apply wp_cleanup_tmp; auto.
  - apply Hpr.
  - by eapply visible_private.
  - rewrite (pr_link _ _ _ _ Hpr). done.
  - intros r w' Hwf Hv Hno Hsame Hgone. exists (Err e). split; [done|].
    split; [done|done| |split; [congruence|done]]. intros q Hq. destruct (decide (q = tmp)) as [->|Hne].
    + destruct Hgone as [->|?]; [left; by rewrite Hnone|by right].
    + left. rewrite Hsame, (pr_others _ _ _ _ Hpr), Hs; done.
Qed.

(** The deferred cleanup after the rename. *)
Lemma wp_cleanup_landed tmp x (res : result unit) w1 :
  is_tmp dir pre tmp → file_at tmp (fs w) = None → complete → content x = data →
  landed (fs w) tmp p x (fs w1) →
  match res with
  | Ok _ => good x ∧ notified w1 = (if cb then S (notified w) else notified w)
  | Err _ => notified w1 = notified w ∧ why
  end →
  wp vis (cleanup_tmp tmp) (λ _ w', post (Some res) w') w1.
Proof using Hp.
  intros Ht Hnone Hc Hx Hl Hres. apply wp_cleanup_tmp; auto.
  - by destruct Hl as [? [? ? ? ? ?] ? ? ?].
  - by eapply visible_landed.
  - rewrite (ld_tmp _ _ _ _ _ Hl). done.
  - intros r w' Hwf Hv Hno Hsame Hgone. exists res. split; [done|]. split; [done|done| |].
    + intros q Hq. destruct (decide (q = tmp)) as [->|Hne].
      * destruct Hgone as [->|?]; [left; by rewrite Hnone|by right].
      * left. rewrite Hsame by done. by apply (ld_others _ _ _ _ _ Hl).
    + rewrite Hno. destruct res; [|done]. destruct Hres as [Hg Hcb]. split_and!; [done| |done].
      exists x. rewrite Hsame by (apply not_eq_sym; auto).
      split; [by apply (ld_file _ _ _ _ _ Hl)|done].
Qed.

(** Creating the directory and the temporary file. *)
Lemma wp_mkdir_same (Q : option (result unit) → World → Prop) :
  wf (fs w) →
  (∀ e w1, wf (fs w1) → (∀ q, file_at q (fs w1) = file_at q (fs w)) →
     notified w1 = notified w →
     (∃ k, is_Some (fault k)) ∨ (∃ a i, a ∈ ancestors dir ∧ tree (fs w) !! a = Some (NFile i)) →
     Q (Some (Err e)) w1) →
  (∀ w1, wf (fs w1) → (∀ q, file_at q (fs w1) = file_at q (fs w)) → src w1 = src w →
     notified w1 = notified w → (∀ a, a ∈ ancestors dir → tree (fs w1) !! a = Some NDir) →
     (∀ a, a ∉ ancestors dir → tree (fs w1) !! a = tree (fs w) !! a) →
     Q (Some (Ok ())) w1) →
  wp vis (os_MkdirAll dir) Q w.
Proof using Type.
  intros Hwf HE HO. apply wp_mkdirall.
  - intros e Hwhy. apply HE; auto. destruct Hwhy as [?|[e' He]]; [eauto|right].
    unfold fs_mkdirs in He. destruct (mkdirs _ _) eqn:E; [done|]. by eapply mkdirs_err.
  - intros e n f Hft Hm. destruct (fs_mkdirs_same _ _ _ Hm Hwf) as (Hwf1 & Hs & _).
    split; [by apply visible_same|]. apply HE; eauto.
  - intros f Hm. destruct (fs_mkdirs_same _ _ _ Hm Hwf) as (Hwf1 & Hs & Ho & Hd).
    split; [by apply visible_same|]. by apply HO.
Qed.

Lemma wp_create_tmp w1 (Q : option (result (path * nat)) → World → Prop) :
  wf (fs w1) → (∀ q, file_at q (fs w1) = file_at q (fs w)) → tree (fs w1) !! dir = Some NDir →
  (∀ e, is_Some (fault (tick w1)) → Q (Some (Err e)) (advance w1)) →
  (∀ tmp i w2, is_tmp dir pre tmp → file_at tmp (fs w) = None →
     private (fs w1) tmp i (fs w2) → file_at tmp (fs w2) = Some (mkInode "" 384 0) →
     src w2 = src w1 → notified w2 = notified w1 → Q (Some (Ok (tmp, i))) w2) →
  wp vis (os_CreateTemp dir pre) Q w1.
Proof using Hp.
  intros Hwf Hs Hdir HE HO.
  set (tmp := dir ++ [pre +:+ tmp_name (fs w1) dir pre]).
  assert (is_tmp dir pre tmp) as Ht by (by eexists).
  change (wp vis (i ← sys (fs_create_excl tmp 384); mret (tmp, i)) Q w1).
  apply wp_bind, wp_sys.
  { intros e [Hft|[e' He]]; [by apply HE|]. unfold fs_create_excl, has_parent in He.
    unfold tmp in He. by rewrite tmp_name_fresh, Dir_snoc, Hdir in He. }
  intros i f Hc _.
  destruct (create_private _ _ _ _ _ Hwf Hc) as (Hpr & Hx & Hnone).
  split; [by eapply visible_private|]. apply wp_ret. apply HO; auto.
  rewrite <- Hs. unfold file_at. by rewrite Hnone.
Qed.
End publish_rules.

Definition blob_path (s : LocalStore) (d : Digest) : path :=
  hash_dir (rootDir s) "cas" (Hash d) ++ [Hash d].
Definition action_path (s : LocalStore) (d : Digest) : path :=
  hash_dir (rootDir s) "ac" (Hash d) ++ [Hash d].

Lemma BlobPath_hex s d : hex_hash (Hash d) → BlobPath s d = Some (blob_path s d).
Proof. intros. by apply hash_path_dir. Qed.
Lemma getActionPath_hex s d : hex_hash (Hash d) → getActionPath s d = Some (action_path s d).
Proof. intros. by apply hash_path_dir. Qed.

Lemma Dir_blob_path s d : Dir (blob_path s d) = hash_dir (rootDir s) "cas" (Hash d).
Proof. apply Dir_snoc. Qed.
Lemma Dir_action_path s d : Dir (action_path s d) = hash_dir (rootDir s) "ac" (Hash d).
Proof. apply Dir_snoc. Qed.

Definition put_complete (d : Digest) (w : World) : Prop :=
  rd_err (src w) = None ∧ Size d = Z.of_nat (String.length (rd_all (src w))).

(** Why a publication can fail: a system call failed, or something other than a
    directory is in the way of a directory, or a directory in the way of the file. *)
Definition obstructed (f : fsys) (dir p : path) : Prop :=
  (∃ a i, a ∈ ancestors dir ∧ tree f !! a = Some (NFile i)) ∨ tree f !! p = Some NDir.

Definition trouble `{OS} (f : fsys) (dir p : path) : Prop :=
  (∃ k, is_Some (fault k)) ∨ obstructed f dir p.

Lemma Put_wp `{OS} s d w :
  hex_hash (Hash d) → wf (fs w) →
  let dir := hash_dir (rootDir s) "cas" (Hash d) in
  wp (visible (fs w) dir "cas-tmp-" (blob_path s d) (put_complete d w) (rd_all (src w)))
    (Put s d)
    (λ r w', ∃ res, r = Some res ∧
       published (onPutCallback s) w dir "cas-tmp-" (blob_path s d) (put_complete d w)
         (rd_all (src w)) (λ x, mode x = 292)
         (trouble (fs w) dir (blob_path s d) ∨ ¬ put_complete d w) res w') w.
Proof.
  intros Hh Hwf dir. unfold Put. rewrite BlobPath_hex by done.
  assert (∀ q, is_tmp dir "cas-tmp-" q → q ≠ blob_path s d) as Hp.
  { intros q [x ->]. apply tmp_not_blob; [apply Hh|done]. }
  apply wp_bind, wp_ret. rewrite Dir_blob_path. fold dir.
  apply wp_bind, wp_wrap, wp_mkdir_same; [done| |].
  { intros e w1 ? ? ? [?|?]; apply published_early; auto; left; [by left|right; by left]. }
  intros w1 Hwf1 Hs1 Hsrc1 Hn1 Hdirs1 Htree1.
  assert (tree (fs w1) !! dir = Some NDir) as Hdir1.
  { apply Hdirs1, elem_of_ancestors. unfold dir, hash_dir. by destruct (rootDir s). }
  apply wp_bind, wp_wrap, wp_create_tmp; [done|done|done|done| |].
  { intros e ?. apply published_early; auto. left; left; eauto. }
  intros tmp i w2 Ht Hnone Hpr2 Hx2 Hsrc2 Hn2. apply wp_finally, wp_bind, wp_wrap.
  apply wp_io_Copy. rewrite Hsrc2, Hsrc1.
  eapply (wp_copy_loop _ (fs w1) tmp); [|done|done| |].
  { intros f Hf. by eapply visible_private. }
  { intros e w3 Hpr3 Hn3 Hwhy. eapply wp_cleanup_private; eauto; [congruence|].
    destruct Hwhy as [[? Hr]|?]; [right; intros [? _]; congruence|left; by left]. }
  intros w3 Herr Hpr3 Hn3 all Hx3. simpl in Hx3.
  destruct (_ =? Size d) eqn:Hsz; simpl; to_prop.
  2: { apply wp_throw. eapply wp_cleanup_private; eauto; [congruence|].
       right. intros [_ ?]. by destruct Hsz. }
  assert (put_complete d w) as Hcomp by (split; [done|by rewrite <- Hsz]).
  apply wp_bind, wp_wrap, wp_sys.
  { intros e [?|[? ?]]; [|done].
    eapply wp_cleanup_private; eauto; [simpl; congruence|left; left; eauto]. }
  intros [] f4 [= <-] _. split; [by eapply visible_private|].
  apply wp_bind, wp_wrap, wp_sys.
  { intros e Hwhy. eapply wp_cleanup_private; eauto; [simpl; congruence|]. left.
    destruct Hwhy as [?|Herr']; [left; eauto|right; right].
    rewrite <- Htree1 by apply not_elem_of_ancestors.
    eapply rename_err; [exact Hpr3|by apply Hp| |exact Herr'].
    rewrite Dir_blob_path. apply (pr_dir _ _ _ _ Hpr3); [|done].
    apply not_eq_sym. by eapply tmp_not_dir. }
  intros [] f5 Hren _. simpl in Hren.
  pose proof (rename_landed _ _ _ _ Hp _ _ _ _ _ _ Hs1 Ht Hpr3 Hx3 Hren) as Hl5.
  split; [by refine (visible_landed _ _ _ _ _ _ _ _ _ Ht Hcomp _ Hl5)|].
  apply wp_bind, wp_wrap, wp_sys.
  { intros e Hwhy. eapply wp_cleanup_landed; [exact Hp|exact Ht|exact Hnone|exact Hcomp| |exact Hl5|];
      [done|split; [simpl; congruence|]]. left; left.
    destruct Hwhy as [?|[e' He]]; [eauto|]. by apply (landed_update_ok _ _ _ _ _ _ _ Hl5) in He. }
  intros [] f6 Hch _. simpl in Hch.
  pose proof (chmod_landed _ _ _ _ Hp _ _ _ _ _ Ht Hl5 Hch) as Hl6.
  split; [by refine (visible_landed _ _ _ _ _ _ _ _ _ Ht Hcomp _ Hl6)|]. unfold callback.
  destruct (onPutCallback s).
  - split; [by exists []|]. simpl.
    eapply wp_cleanup_landed; [exact Hp|exact Ht|exact Hnone|exact Hcomp| |exact Hl6|]; [done|].
    split; [done|]. simpl. congruence.
  - apply wp_ret.
    eapply wp_cleanup_landed; [exact Hp|exact Ht|exact Hnone|exact Hcomp| |exact Hl6|]; [done|].
    split; [done|]. simpl. congruence.
Qed.

(** ** [UpdateActionResult] *)

Lemma UpdateActionResult_wp `{OS, ActionResultPb} s d r data w :
  hex_hash (Hash d) → wf (fs w) → ar_Marshal r = Ok data →
  let dir := hash_dir (rootDir s) "ac" (Hash d) in
  wp (visible (fs w) dir "ac-tmp-" (action_path s d) True data)
    (UpdateActionResult s d r)
    (λ o w', ∃ res, o = Some res ∧
       published (onPutCallback s) w dir "ac-tmp-" (action_path s d) True data (λ _, True)
         (trouble (fs w) dir (action_path s d)) res w') w.
Proof.
  intros Hh Hwf Hm dir. unfold UpdateActionResult. rewrite Hm, getActionPath_hex by done.
  assert (∀ q, is_tmp dir "ac-tmp-" q → q ≠ action_path s d) as Hp.
  { intros q [x ->]. apply tmp_not_blob; [apply Hh|done]. }
  apply wp_bind, wp_ret. rewrite Dir_action_path. fold dir.
  apply wp_bind, wp_mkdir_same; [done| |].
  { intros e w1 ? ? ? [?|?]; apply published_early; auto; [by left|right; by left]. }
  intros w1 Hwf1 Hs1 Hsrc1 Hn1 Hdirs1 Htree1.
  assert (tree (fs w1) !! dir = Some NDir) as Hdir1.
  { apply Hdirs1, elem_of_ancestors. unfold dir, hash_dir. by destruct (rootDir s). }
  apply wp_bind, wp_create_tmp; [done|done|done|done| |].
  { intros e ?. apply published_early; auto. left; eauto. }
  intros tmp i w2 Ht Hnone Hpr2 Hx2 Hsrc2 Hn2. apply wp_finally, wp_bind, wp_sys_write.
  { intros e n Hft f. destruct (append_private _ _ _ _ (str_take n data) _ Hpr2 Hx2) as [Hpr _].
    split; [by eapply visible_private|].
    eapply wp_cleanup_private; eauto; [simpl; congruence|left; eauto]. }
  intros f. destruct (append_private _ _ _ _ data _ Hpr2 Hx2) as [Hpr3 Hx3]. fold f in Hpr3, Hx3.
  simpl in Hx3. split; [by eapply visible_private|]. apply wp_bind, wp_sys.
  { intros e [?|[? ?]]; [|done].
    eapply wp_cleanup_private; eauto; [simpl; congruence|left; eauto]. }
  intros [] f4 [= <-] _. split; [by eapply visible_private|].
  apply wp_bind, wp_sys.
  { intros e Hwhy. eapply wp_cleanup_private; eauto; [simpl; congruence|].
    destruct Hwhy as [?|Herr']; [left; eauto|right; right].
    rewrite <- Htree1 by apply not_elem_of_ancestors.
    eapply rename_err; [exact Hpr3|by apply Hp| |exact Herr'].
    rewrite Dir_action_path. apply (pr_dir _ _ _ _ Hpr3); [|done].
    apply not_eq_sym. by eapply tmp_not_dir. }
  intros [] f5 Hren _. simpl in Hren.
  pose proof (rename_landed _ _ _ _ Hp _ _ _ _ _ _ Hs1 Ht Hpr3 Hx3 Hren) as Hl5.
  split; [by refine (visible_landed _ _ _ _ _ _ _ _ _ Ht Logic.I _ Hl5)|]. unfold callback.
  destruct (onPutCallback s).
  - split; [by exists []|]. simpl.
    eapply wp_cleanup_landed; [exact Hp|exact Ht|exact Hnone|exact Logic.I| |exact Hl5|]; [done|].
    split; [done|]. simpl. congruence.
  - apply wp_ret.
    eapply wp_cleanup_landed; [exact Hp|exact Ht|exact Hnone|exact Logic.I| |exact Hl5|]; [done|].
    split; [done|]. simpl. congruence.
Qed.

(** ** Reading *)

Lemma touch_same `{OS} s p w :
  (∀ q, bytes_at q (fs (touch s p w).2) = bytes_at q (fs w)) ∧
  (∀ i x, inodes (fs w) !! i = Some x →
     content <$> inodes (fs (touch s p w).2) !! i = Some (content x)) ∧
  (touch s p w).1 = Some (Ok ()).
Proof.
  unfold touch. destruct (forceUpdateATime s).
  2: { simpl. split_and!; [done|by intros i x ->|done]. }
  unfold ignore, mbind, M_bind, now, try, os_Chtimes, sys.
  destruct (fault (tick w)) as [[]|]; simpl.
  { split_and!; [done|by intros i x ->|done]. }
  unfold fs_chtimes, fs_update. destruct (tree (fs w) !! p) as [[|i]|] eqn:Hp; simpl.
  1, 3: split_and!; [done|by intros i x ->|done].
  destruct (inodes (fs w) !! i) as [x|] eqn:Hi; simpl.
  2: { split_and!; [done|by intros j y ->|done]. }
  split_and!; [|intros j y Hj|done].
  - intros q. unfold bytes_at, file_at. simpl. destruct (tree (fs w) !! q) as [[|j]|]; try done.
    destruct (decide (i = j)) as [<-|]; [by rewrite lookup_insert_eq, Hi|by rewrite lookup_insert_ne].
  - destruct (decide (i = j)) as [<-|].
    + rewrite lookup_insert_eq. simpl. congruence.
    + by rewrite lookup_insert_ne, Hj.
Qed.

(** What reading a handle gives. *)
Definition handle_bytes (h : handle) (f : fsys) : option string :=
  match h with HFile i => content <$> inodes f !! i | HDir => None end.

Lemma Get_bytes `{OS} s d w data :
  hex_hash (Hash d) → bytes_at (blob_path s d) (fs w) = Some data →
  match (Get s d w).1 with
  | Some (Ok h) => handle_bytes h (fs (Get s d w).2) = Some data
  | Some (Err _) => is_Some (fault (tick w))
  | None => False
  end.
Proof.
  intros Hh Hb. unfold Get. rewrite BlobPath_hex by done.
  unfold mbind, M_bind, or_panic, mret, M_ret. unfold os_Open, sys.
  destruct (fault (tick w)) as [[e n]|] eqn:Hf; simpl; [by eexists|].
  unfold bytes_at, file_at in Hb. unfold fs_open.
  destruct (tree (fs w) !! blob_path s d) as [[|i]|] eqn:Ht; try done.
  destruct (inodes (fs w) !! i) as [x|] eqn:Hi; [|done]. simpl in Hb.
  destruct (touch_same s (blob_path s d) (observe (fs w) w)) as (_ & Hino & Ht1).
  destruct (touch _ _ _) as [r w'] eqn:E. simpl in *. subst r. simpl.
  rewrite (Hino i x Hi). congruence.
Qed.

Lemma Has_spec `{OS} s d w :
  hex_hash (Hash d) →
  (Has s d w).1 = Some (Ok (bool_decide (is_Some (tree (fs w) !! blob_path s d)))) ∨
  (is_Some (fault (tick w)) ∧ ∃ e, (Has s d w).1 = Some (Err e)).
Proof.
  intros Hh. unfold Has. rewrite BlobPath_hex by done.
  unfold mbind, M_bind, or_panic, mret, M_ret, try, os_Stat, sys.
  destruct (fault (tick w)) as [[e n]|] eqn:Hf.
  { right. split; [by eexists|]. rewrite (fault_exists _ _ _ Hf). by eexists. }
  left. unfold fs_stat. destruct (tree (fs w) !! blob_path s d) as [x|] eqn:Ht; [|done].
  destruct (touch_same s (blob_path s d) (observe (fs w) w)) as (_ & _ & Ht1).
  destruct (touch _ _ _) as [r w'] eqn:E. simpl in *. by subst r.
Qed.

Lemma GetActionResult_bytes `{OS, ActionResultPb} s d w data r :
  hex_hash (Hash d) → bytes_at (action_path s d) (fs w) = Some data → ar_Unmarshal data = Ok r →
  (GetActionResult s d w).1 = Some (Ok r) ∨
  (is_Some (fault (tick w)) ∨ is_Some (fault (S (tick w)))) ∧
  ∃ e, (GetActionResult s d w).1 = Some (Err e).
Proof.
  intros Hh Hb Hu. unfold GetActionResult. rewrite getActionPath_hex by done.
  unfold mbind, M_bind, or_panic, mret, M_ret, os_ReadFile, mbind, M_bind, os_Open, sys.
  destruct (fault (tick w)) as [[e n]|] eqn:Hf; [right; split; eauto|].
  unfold bytes_at, file_at in Hb. unfold fs_open.
  destruct (tree (fs w) !! action_path s d) as [[|i]|] eqn:Ht; try done.
  destruct (inodes (fs w) !! i) as [x|] eqn:Hi; [|done]. simpl in Hb. simpl.
  destruct (fault (S (tick w))) as [[e n]|] eqn:Hf'; [right; split; eauto|].
  rewrite Hi. left. by injection Hb as ->; rewrite Hu.
Qed.

(** ** [PutFile] *)

(** While [PutFile] publishes the file [from] at [p], other files keep their
    contents, and [p] shows what it had or the contents of the source. *)
Definition linking (f0 : fsys) (tmp p : path) (from : option string) (f : fsys) : Prop :=
  wf f ∧ (∀ q, q ≠ p → q ≠ tmp → bytes_at q f = bytes_at q f0) ∧
  (bytes_at p f = bytes_at p f0 ∨ bytes_at p f = from).

Lemma bytes_same f f' q : file_at q f' = file_at q f → bytes_at q f' = bytes_at q f.
Proof. unfold bytes_at. by intros ->. Qed.

(** Metadata updates change no contents. *)
Lemma update_bytes p g f f' :
  (∀ x, content (g x) = content x) → fs_update p g f = Ok ((), f') → wf f →
  wf f' ∧ tree f' = tree f ∧ ∀ q, bytes_at q f' = bytes_at q f.
Proof.
  intros Hg. unfold fs_update. destruct (tree f !! p) as [[|i]|]; try done; [by intros [= <-]|].
  destruct (inodes f !! i) as [x|] eqn:Hi; [|done]. intros [= <-] Hwf. split_and!; [|done|].
  - intros q j Hq. apply lookup_insert_is_Some'. right. by eapply Hwf.
  - intros q. unfold bytes_at, file_at. simpl. destruct (tree f !! q) as [[|j]|]; try done.
    destruct (decide (i = j)) as [<-|]; [|by rewrite lookup_insert_ne].
    rewrite lookup_insert_eq, Hi. simpl. by rewrite Hg.
Qed.

Lemma rename_bytes q q' f f' :
  q ≠ q' → fs_rename q q' f = Ok ((), f') → wf f →
  wf f' ∧ (∀ p, p ≠ q → p ≠ q' → bytes_at p f' = bytes_at p f) ∧ bytes_at q' f' = bytes_at q f.
Proof.
  intros Hne Hr Hwf. unfold fs_rename in Hr. destruct (tree f !! q) as [[|i]|] eqn:Hq; try done.
  assert (f' = f ∧ tree f !! q' = Some (NFile i) ∨
          f' = set_tree (<[q' := NFile i]> (delete q (tree f))) f) as [[-> Hq']| ->].
  { destruct (tree f !! q') as [[|k]|] eqn:E; [done| |].
    - destruct (k =? i)%nat eqn:Hk; injection Hr as <-; [left|by right].
      apply Nat.eqb_eq in Hk as ->. done.
    - destruct (has_parent q' f); [right; by injection Hr as <-|done]. }
  - split_and!; [done|done|]. unfold bytes_at, file_at. by rewrite Hq, Hq'.
  - split_and!.
    + intros p j. simpl. intros [[_ [= <-]]|[_ [_ ?]%lookup_delete_Some]]%lookup_insert_Some; eauto.
    + intros p Hp Hp'. unfold bytes_at, file_at. simpl. by rewrite lookup_insert_ne, lookup_delete_ne.
    + unfold bytes_at, file_at. simpl. by rewrite lookup_insert_eq, Hq.
Qed.

Lemma link_bytes p q f f' :
  fs_link p q f = Ok ((), f') → wf f →
  wf f' ∧ (∀ r, r ≠ q → bytes_at r f' = bytes_at r f) ∧ bytes_at q f' = bytes_at p f ∧
  (∃ i, tree f !! p = Some (NFile i) ∧ tree f' !! q = Some (NFile i)).
Proof.
  unfold fs_link. destruct (tree f !! p) as [[|i]|] eqn:Hp; try done.
  destruct (tree f !! q) eqn:Hq; [done|]. destruct (has_parent q f); [|done].
  intros [= <-] Hwf. split_and!.
  - intros r j. simpl. intros [[_ [= <-]]|[_ ?]]%lookup_insert_Some; eauto.
  - intros r Hr. unfold bytes_at, file_at. simpl. by rewrite lookup_insert_ne.
  - unfold bytes_at, file_at. simpl. by rewrite lookup_insert_eq, Hp.
  - exists i. simpl. by rewrite lookup_insert_eq.
Qed.

Section linking.
Context `{OS} (f0 : fsys) (tmp p : path) (from : option string) (Htp : tmp ≠ p).
Notation lk := (linking f0 tmp p from).

Lemma linking_step f f' :
  lk f → wf f' → (∀ q, q ≠ tmp → bytes_at q f' = bytes_at q f) → lk f'.
Proof using Htp.
  intros (_ & Ho & Hb) Hwf Hs. split_and!; [done| |by rewrite Hs].
  intros q Hq Hq'. rewrite Hs by done. auto.
Qed.

Lemma linking_private f1 i f :
  lk f1 → private f1 tmp i f → lk f.
Proof using Htp.
  intros Hl Hpr. eapply linking_step; [done|apply Hpr|].
  intros q Hq. by apply bytes_same, (pr_others _ _ _ _ Hpr).
Qed.

(** The deferred removal of the temporary name. *)
Lemma wp_putfile_defer w (Q : option (result unit) → World → Prop) :
  lk (fs w) →
  (∀ r w', lk (fs w') → bytes_at p (fs w') = bytes_at p (fs w) → Q r w') →
  wp lk (statErr ← try (os_Stat tmp);
         match statErr with Ok _ => ignore (os_Remove tmp) | Err _ => mret () end) Q w.
Proof using Htp.
  intros Hl HQ. apply wp_bind, wp_try, wp_sys.
  { intros e _. apply wp_ret. by apply HQ. }
  intros n f Hs _. assert (f = fs w) as ->.
  { unfold fs_stat in Hs. destruct (tree (fs w) !! tmp); by simplify_eq. }
  split; [done|]. apply wp_ignore, wp_sys.
  { intros e _. by apply HQ. }
  intros [] f Hr _. destruct (remove_same _ _ _ Hr) as (_ & Hs' & Hw).
  assert (lk f).
  { eapply linking_step; [exact Hl|apply Hw, Hl|]. intros q Hq. by apply bytes_same, Hs'. }
  split; [done|]. apply HQ; [done|]. by apply bytes_same, Hs'.
Qed.

(** The fallback copy ends with a private file with the contents of the source. *)
Lemma wp_copy_file source w (Q : option (result unit) → World → Prop) :
  lk (fs w) → tree (fs w) !! tmp = None → from = bytes_at source (fs w) →
  (∀ e w', lk (fs w') → Q (Some (Err e)) w') →
  (∀ w', lk (fs w') → bytes_at tmp (fs w') = from → Q (Some (Ok ())) w') →
  wp lk (copy_file source tmp) Q w.
Proof using Htp.
  intros Hl Hnone Hfrom HE HO. unfold copy_file. apply wp_bind, wp_sys; [by intros; apply HE|].
  intros h f Hop _. assert (f = fs w) as ->.
  { unfold fs_open in Hop. destruct (tree (fs w) !! source) as [[|]|]; by simplify_eq. }
  split; [done|]. apply wp_bind, wp_sys; [by intros; apply HE|].
  intros i f1 Hc _. simpl in Hc. unfold fs_create in Hc. rewrite Hnone in Hc.
  destruct (create_private _ _ _ _ _ (proj1 Hl) Hc) as (Hpr & Hx & _).
  pose proof (linking_private _ _ _ Hl Hpr) as Hl1.
  split; [done|]. apply wp_bind, wp_sys; [by intros; apply HE|].
  intros data f2 Hrd _. simpl in Hrd. assert (f2 = f1 ∧ from = Some data) as [-> Hdata].
  { unfold fs_open in Hop. destruct (tree (fs w) !! source) as [[|k]|] eqn:Hsrc; [| |done];
      injection Hop as <-; [done|]. simpl in Hrd.
    destruct (inodes f1 !! k) as [x|] eqn:Hk; [|done]. injection Hrd as <- <-. split; [done|].
    assert (source ≠ tmp) as Hne by congruence.
    pose proof (pr_others _ _ _ _ Hpr source Hne) as Hsame. unfold fs_create_excl in Hc.
    rewrite Hnone in Hc. destruct (has_parent tmp (fs w)); [|done]. injection Hc as <- <-.
    simpl in Hk. rewrite Hfrom. unfold bytes_at. rewrite <- Hsame. unfold file_at. simpl.
    by rewrite lookup_insert_ne, Hsrc, Hk by done. }
  split; [done|]. apply wp_bind, wp_sys_write.
  { intros e n _ f. destruct (append_private _ _ _ _ (str_take n data) _ Hpr Hx) as [Hpr' _].
    pose proof (linking_private _ _ _ Hl Hpr'). split; [done|by apply HE]. }
  intros f. destruct (append_private _ _ _ _ data _ Hpr Hx) as [Hpr3 Hx3]. fold f in Hpr3, Hx3.
  pose proof (linking_private _ _ _ Hl Hpr3). split; [done|].
  apply wp_bind, wp_sys; [by intros; apply HE|]. intros [] f4 [= <-] _. split; [done|].
  apply wp_wrap, wp_sys; [by intros; apply HE|]. intros [] f5 Hch _. simpl in Hch.
  destruct (update_private _ _ _ _ _ _ _ Hpr3 Hx3 Hch) as [Hpr5 Hx5].
  pose proof (linking_private _ _ _ Hl Hpr5). split; [done|].
  apply HO; [done|]. simpl. unfold bytes_at. by rewrite Hx5, Hdata.
Qed.
Definition putfile_defer : M unit :=
  statErr ← try (os_Stat tmp);
  match statErr with Ok _ => ignore (os_Remove tmp) | Err _ => mret () end.

(** The outcome for the caller. *)
Definition putfile_post (r : option (result unit)) (w' : World) : Prop :=
  ∃ res, r = Some res ∧ lk (fs w') ∧
    (res = Ok () → bytes_at p (fs w') = from ∨
       (is_Some (tree f0 !! p) ∧ bytes_at p (fs w') = bytes_at p f0)).

Lemma putfile_error e w : lk (fs w) → putfile_post (Some (Err e)) w.
Proof using Type. intros Hl. by exists (Err e). Qed.

Lemma wp_defer_error e w :
  lk (fs w) → wp lk putfile_defer (λ _ w', putfile_post (Some (Err e)) w') w.
Proof using Htp. intros Hl. apply wp_putfile_defer; [done|]. intros. by apply putfile_error. Qed.

Lemma wp_putfile_tail s w :
  lk (fs w) → bytes_at tmp (fs w) = from →
  wp lk (_ ← wrap "failed to rename temp file to final path" (os_Rename tmp p); callback s)
    (λ r w1, wp lk putfile_defer (λ _ w', putfile_post r w') w1) w.
Proof using Htp.
  intros Hl Hb. apply wp_bind, wp_wrap, wp_sys; [intros; by apply wp_defer_error|].
  intros [] f Hr _. destruct (rename_bytes _ _ _ _ Htp Hr (proj1 Hl)) as (Hwf & Ho & Hp).
  assert (lk f) as Hlf.
  { destruct Hl as (_ & Ho' & _). split_and!; [done| |right; congruence].
    intros q Hq Hq'. rewrite Ho by done. auto. }
  split; [done|].
  assert (∀ w1, fs w1 = f →
    wp lk putfile_defer (λ _ w', putfile_post (Some (Ok ())) w') w1) as Hd.
  { intros w1 Hw1. apply wp_putfile_defer; rewrite Hw1; [done|]. intros _ w' Hl' Hb'.
    exists (Ok ()). split_and!; [done|done|]. left. congruence. }
  unfold callback. destruct (onPutCallback s); [|by apply wp_ret, Hd].
  split; [by exists []|by apply Hd].
Qed.

Lemma wp_touch s q w (Q : option (result unit) → World → Prop) :
  lk (fs w) → (∀ w', lk (fs w') → bytes_at p (fs w') = bytes_at p (fs w) → Q (Some (Ok ())) w') →
  wp lk (touch s q) Q w.
Proof using Htp.
  intros Hl HQ. unfold touch. destruct (forceUpdateATime s); [|by apply wp_ret, HQ].
  apply wp_bind. split; [by exists []|]. simpl. apply wp_ignore, wp_sys; [intros; by apply HQ|].
  intros [] f Hu _. apply update_bytes in Hu as (Hwf & _ & Hb); [|done|apply Hl].
  assert (lk f) by (eapply linking_step; eauto). split; [done|]. by apply HQ.
Qed.
End linking.

Definition putfile_tmp `{OS} (s : LocalStore) (d : Digest) (w : World) : path :=
  hash_dir (rootDir s) "cas" (Hash d) ++ [putfile_name (clock (S (S (tick w)))) d].

Lemma contains_byte_hex c s : is_hex c = false → str_all is_hex s = true → contains_byte c s = false.
Proof.
  intros Hc. induction s as [|a s IH]; [done|]. simpl. intros [Ha Hs]%andb_true_iff.
  rewrite IH by done. rewrite orb_false_r. apply Ascii.eqb_neq. intros ->. congruence.
Qed.

Lemma putfile_name_plain t d : hex_hash (Hash d) → plain (putfile_name t d) = true.
Proof.
  intros [_ Hh]. unfold plain, putfile_name. rewrite !andb_true_iff, !negb_true_iff.
  rewrite !contains_byte_app, (contains_byte_hex "/" (Hash d)) by done.
  split_and!; [|done|done|done]. unfold print_int. rewrite contains_byte_app.
  rewrite (digits_no_byte "/" (print_dec _)) by (done || apply print_dec_digits). by destruct (t <? 0).
Qed.

Lemma PutFile_wp `{OS} s d source w :
  hex_hash (Hash d) → wf (fs w) → tree (fs w) !! putfile_tmp s d w = None →
  let p := blob_path s d in
  let tmp := putfile_tmp s d w in
  let from := bytes_at source (fs w) in
  wp (linking (fs w) tmp p from) (PutFile s d source) (putfile_post (fs w) tmp p from) w.
Proof.
  intros Hh Hwf Hnone p tmp from. fold tmp in Hnone.
  assert (tmp ≠ p) as Htp.
  { apply (tmp_not_blob _ _ "cas-tmp-putfile-"); [apply Hh|done]. }
  set (lk := linking (fs w) tmp p from).
  assert (lk (fs w)) as Hl0 by (split_and!; [done|done|by left]).
  unfold PutFile. rewrite BlobPath_hex by done. fold p. apply wp_bind, wp_ret, wp_bind, wp_try.
  apply wp_sys.
  2: { intros n f Hs _. unfold fs_stat in Hs. destruct (tree (fs w) !! p) eqn:Hp; [|done].
       injection Hs as <- <-. split; [done|]. apply wp_touch; [done..|].
       intros w' Hl' Hb'. exists (Ok ()). split_and!; [done|done|]. right. split; [by eexists|done]. }
  intros e _. apply wp_bind, wp_wrap, wp_mkdirall.
  { intros e' _. by apply putfile_error. }
  { intros e' n f _ Hm. destruct (fs_mkdirs_same _ _ _ Hm Hwf) as (Hwf1 & Hs & _).
    assert (lk f) by (eapply linking_step; eauto using bytes_same). split; [done|].
    by apply putfile_error. }
  intros f1 Hm. destruct (fs_mkdirs_same _ _ _ Hm Hwf) as (Hwf1 & Hs1 & Htree1 & _).
  assert (lk f1) as Hl1 by (eapply linking_step; eauto using bytes_same). split; [done|].
  apply wp_bind. split; [by exists []|]. simpl.
  rewrite Join_plain by (rewrite Forall_singleton; by apply putfile_name_plain).
  assert (Dir p = hash_dir (rootDir s) "cas" (Hash d)) as Hdir by apply Dir_blob_path.
  rewrite Hdir in *. change (hash_dir _ _ _ ++ [putfile_name _ d]) with tmp.
  assert (tree f1 !! tmp = None) as Hnone1.
  { rewrite Htree1; [done|]. apply not_elem_of_ancestors. }
  assert (bytes_at source f1 = from) as Hfrom1 by (by apply bytes_same).
  apply wp_finally, wp_bind, wp_try, wp_sys.
  - intros e' _. apply wp_bind, wp_copy_file; [done|done|done|done| |].
    + intros. by apply wp_defer_error.
    + intros w2 Hl2 Hb2. by apply wp_putfile_tail.
  - intros [] f2 Hlink _. simpl in Hlink.
    destruct (link_bytes _ _ _ _ Hlink Hwf1) as (Hwf2 & Ho2 & Hb2 & _).
    assert (lk f2) as Hl2 by (by eapply linking_step). split; [done|].
    apply wp_bind, wp_wrap, wp_sys; [intros; by apply wp_defer_error|].
    intros [] f3 Hch _. apply update_bytes in Hch as (Hwf3 & _ & Hb3); [|done|done].
    assert (lk f3) as Hl3 by (eapply linking_step; eauto). split; [done|].
    apply wp_putfile_tail; [done|done|]. simpl. rewrite Hb3. simpl. congruence.
Qed.

(** ** The properties *)

(** C5: [Put] is atomic.  Whatever system calls fail, it does not panic on a
    hexadecimal hash; every file system state another process can observe has the
    old contents or all of the data at the blob's path (the latter only if the
    reader ended without error and with exactly [digest.Size] bytes) and the
    other files unchanged.  It returns success only with the blob in place,
    read-only, and the callback called; it fails only for a cause; and it leaves
    no temporary file behind unless removing it failed. *)
Theorem put_atomic `{OS} s d w :
  hex_hash (Hash d) → wf (fs w) →
  let dir := hash_dir (rootDir s) "cas" (Hash d) in
  let p := blob_path s d in
  let data := rd_all (src w) in
  let w' := (Put s d w).2 in
  ∃ res new, (Put s d w).1 = Some res ∧ hist w' = new ++ hist w ∧
    Forall (visible (fs w) dir "cas-tmp-" p (put_complete d w) data) new ∧
    published (onPutCallback s) w dir "cas-tmp-" p (put_complete d w) data
      (λ x, mode x = 292) (trouble (fs w) dir p ∨ ¬ put_complete d w) res w'.
Proof.
  intros Hh Hwf. cbv zeta.
  destruct (Put_wp s d w Hh Hwf) as [(new & Hhist & Hnew) (res & Hres & Hpub)].
  by exists res, new.
Qed.

(** C6: a blob that was put is the blob that is read: after a successful [Put],
    [Has] and [Get] can only fail because a system call fails; [Has] reports the
    blob and [Get] opens exactly the bytes of the reader, [digest.Size] of them. *)
Theorem put_get_roundtrip `{OS} s d w w' :
  hex_hash (Hash d) → wf (fs w) → Put s d w = (Some (Ok ()), w') →
  ((Has s d w').1 = Some (Ok true) ∨ is_Some (fault (tick w'))) ∧
  match (Get s d w').1 with
  | Some (Ok h) => ∃ data, handle_bytes h (fs (Get s d w').2) = Some data ∧
      data = rd_all (src w) ∧ Z.of_nat (String.length data) = Size d
  | Some (Err _) => is_Some (fault (tick w'))
  | None => False
  end.
Proof.
  intros Hh Hwf Hput. destruct (Put_wp s d w Hh Hwf) as [_ (res & Hres & Hpub)].
  rewrite Hput in Hres, Hpub. injection Hres as <-.
  destruct (pu_result _ _ _ _ _ _ _ _ _ _ _ Hpub) as ([_ Hsz] & (x & Hx & Hc & _) & _).
  simpl in Hx. assert (bytes_at (blob_path s d) (fs w') = Some (rd_all (src w))) as Hb.
  { unfold bytes_at. rewrite Hx. simpl. by rewrite Hc. }
  split.
  - destruct (Has_spec s d w' Hh) as [Hhas|[? _]]; [left|by right]. rewrite Hhas.
    unfold file_at in Hx. destruct (tree (fs w') !! blob_path s d); [|done].
    by rewrite bool_decide_eq_true_2.
  - pose proof (Get_bytes s d w' _ Hh Hb) as Hget. destruct (Get s d w').1 as [[h|]|]; [|done|done].
    exists (rd_all (src w)). split_and!; [done|done|lia].
Qed.

(** The action cache is as reliable: an [UpdateActionResult] is atomic and
    fails only for a cause, and after a successful one [GetActionResult] returns
    the same result, unless one of its two system calls fails. *)
Theorem action_result_roundtrip `{OS, ActionResultPb} s d r data w :
  hex_hash (Hash d) → wf (fs w) → ar_Marshal r = Ok data →
  let dir := hash_dir (rootDir s) "ac" (Hash d) in
  let p := action_path s d in
  let w' := (UpdateActionResult s d r w).2 in
  ∃ res new, (UpdateActionResult s d r w).1 = Some res ∧ hist w' = new ++ hist w ∧
    Forall (visible (fs w) dir "ac-tmp-" p True data) new ∧
    published (onPutCallback s) w dir "ac-tmp-" p True data (λ _, True)
      (trouble (fs w) dir p) res w' ∧
    (res = Ok () → (GetActionResult s d w').1 = Some (Ok r) ∨
       is_Some (fault (tick w')) ∨ is_Some (fault (S (tick w')))).
Proof.
  intros Hh Hwf Hm. cbv zeta.
  destruct (UpdateActionResult_wp s d r data w Hh Hwf Hm) as [(new & Hhist & Hnew) (res & Hres & Hpub)].
  exists res, new. split_and!; [done|done|done|done|]. intros ->.
  destruct (pu_result _ _ _ _ _ _ _ _ _ _ _ Hpub) as (_ & (x & Hx & Hc & _) & _).
  destruct (GetActionResult_bytes s d (UpdateActionResult s d r w).2 data r Hh) as [?|[? _]]; auto.
  - unfold bytes_at. rewrite Hx. simpl. by rewrite Hc.
  - by apply ar_Unmarshal_Marshal.
Qed.

(** [PutFile] never shows a partial blob: in every observable state the
    blob's path has its old contents or exactly those of the source, other files
    keep theirs, and success means the source's contents are there or the blob
    existed before.  The time-stamped temporary name must be unused. *)
Theorem put_file_atomic `{OS} s d source w :
  hex_hash (Hash d) → wf (fs w) → tree (fs w) !! putfile_tmp s d w = None →
  let p := blob_path s d in
  let lk := linking (fs w) (putfile_tmp s d w) p (bytes_at source (fs w)) in
  let w' := (PutFile s d source w).2 in
  ∃ res new, (PutFile s d source w).1 = Some res ∧ hist w' = new ++ hist w ∧ Forall lk new ∧
    lk (fs w') ∧
    (res = Ok () → bytes_at p (fs w') = bytes_at source (fs w) ∨
       (is_Some (tree (fs w) !! p) ∧ bytes_at p (fs w') = bytes_at p (fs w))).
Proof.
  intros Hh Hwf Hn. cbv zeta.
  destruct (PutFile_wp s d source w Hh Hwf Hn) as [(new & Hhist & Hnew) (res & Hres & Hl & Hok)].
  by exists res, new.
Qed.

(** The three system calls that publish a file by linking it. *)
Lemma link_chmod_rename source tmp p dir i x f :
  wf f → tmp ≠ p → tmp ≠ dir → Dir tmp = dir → Dir p = dir →
  tree f !! source = Some (NFile i) → inodes f !! i = Some x →
  tree f !! tmp = None → tree f !! p = None → tree f !! dir = Some NDir →
  ∃ f2 f3 f4, fs_link source tmp f = Ok ((), f2) ∧ fs_chmod tmp 292 f2 = Ok ((), f3) ∧
    fs_rename tmp p f3 = Ok ((), f4) ∧ wf f4 ∧ tree f4 !! tmp = None ∧
    tree f4 !! p = Some (NFile i) ∧ tree f4 !! source = Some (NFile i) ∧
    inodes f4 !! i = Some (mkInode (content x) 292 (atime x)).
Proof.
  intros Hwf Htp Htd Hdt Hdp Hsrc Hx Htmp Hp Hdir.
  assert (tmp ≠ source ∧ p ≠ source) as [Hts Hps] by (split; congruence).
  unfold fs_link, has_parent. rewrite Hsrc, Htmp, Hdt, Hdir.
  do 3 eexists. split_and!; [done| | |..].
  - unfold fs_chmod, fs_update. simpl. by rewrite lookup_insert_eq, Hx.
  - unfold fs_rename, has_parent. simpl.
    by rewrite lookup_insert_eq, lookup_insert_ne, Hp, Hdp, lookup_insert_ne, Hdir.
  - intros q j. simpl. intros Hq. apply lookup_insert_is_Some'. right.
    apply lookup_insert_Some in Hq as [[_ [= <-]]|[_ [Hq Hq']%lookup_delete_Some]]; [eauto|].
    apply lookup_insert_Some in Hq' as [[? _]|[_ Hq']]; [done|]. by eapply Hwf in Hq'.
  - simpl. rewrite lookup_insert_ne by done. apply lookup_delete_eq.
  - apply lookup_insert_eq.
  - simpl. by rewrite lookup_insert_ne, lookup_delete_ne, lookup_insert_ne.
  - apply lookup_insert_eq.
Qed.

(** A call that cannot fail, when no system call does. *)
Lemma wp_sys_calm `{OS} {A} (op : fsys → result (A * fsys)) (a : A) f Q w :
  (∀ k, fault k = None) → op (fs w) = Ok (a, f) → Q (Some (Ok a)) (observe f w) →
  wp (λ _, True) (sys op) Q w.
Proof.
  intros Hnf Hop HQ. apply wp_sys; rewrite Hop, ?Hnf.
  - intros e [[? ?]|[? ?]]; done.
  - by intros ? ? [= <- <-].
Qed.

(** What [PutFile] leaves when it links inode [i]. *)
Definition linked (p source : path) (i : nat) (x : inode) (f : fsys) : Prop :=
  wf f ∧ tree f !! p = Some (NFile i) ∧ tree f !! source = Some (NFile i) ∧
  inodes f !! i = Some (mkInode (content x) 292 (atime x)).

(** The hypotheses under which it does. *)
Record linkable `{OS} (s : LocalStore) (d : Digest) (source : path) (i : nat) (w : World)
    : Prop := mkLinkable {
  lb_calm k : fault k = None;
  lb_hex : hex_hash (Hash d);
  lb_wf : wf (fs w);
  lb_tmp : tree (fs w) !! putfile_tmp s d w = None;
  lb_new : tree (fs w) !! blob_path s d = None;
  lb_dirs a j : a ∈ ancestors (hash_dir (rootDir s) "cas" (Hash d)) →
    tree (fs w) !! a ≠ Some (NFile j);
  lb_source : tree (fs w) !! source = Some (NFile i);
}.

Lemma PutFile_link `{OS} s d source i x w :
  linkable s d source i w → inodes (fs w) !! i = Some x →
  wp (λ _, True) (PutFile s d source)
    (λ r w', r = Some (Ok ()) ∧ linked (blob_path s d) source i x (fs w')) w.
Proof.
  intros [Hnf Hh Hwf Htmp Hblob Hanc Hsrc] Hx. set (tmp := putfile_tmp s d w) in *.
  set (p := blob_path s d) in *. set (dir := hash_dir (rootDir s) "cas" (Hash d)) in *.
  assert (tmp ≠ p) as Htp by (apply (tmp_not_blob _ _ "cas-tmp-putfile-"); [apply Hh|done]).
  unfold PutFile. rewrite BlobPath_hex by done. fold p. apply wp_bind, wp_ret, wp_bind, wp_try.
  apply wp_sys; [|intros n f Hs; unfold fs_stat in Hs; by rewrite Hblob in Hs].
  intros e _. assert (Dir p = dir) as Hdir by apply Dir_blob_path.
  rewrite Hdir. apply wp_bind, wp_wrap, wp_mkdirall.
  { intros e' [[? Hk]|[e'' He]]; [by rewrite Hnf in Hk|].
    unfold fs_mkdirs in He. destruct (mkdirs _ _) eqn:E; [done|].
    apply mkdirs_err in E as (a & j & Ha & Hj). by destruct (Hanc a j). }
  { intros e' n f [? Hk]. by rewrite Hnf in Hk. }
  intros f1 Hm. destruct (fs_mkdirs_same _ _ _ Hm Hwf) as (Hwf1 & Hs1 & Htree1 & Hdirs1).
  assert (inodes f1 = inodes (fs w)) as Hino1.
  { unfold fs_mkdirs in Hm. destruct (mkdirs _ _); [|done]. by injection Hm as <-. }
  split; [done|]. apply wp_bind. split; [by exists []|]. simpl.
  rewrite Join_plain by (rewrite Forall_singleton; by apply putfile_name_plain).
  change (dir ++ [putfile_name _ d]) with tmp.
  destruct (link_chmod_rename source tmp p dir i x f1) as
    (f2 & f3 & f4 & H2 & H3 & H4 & Hwf4 & Ht4 & Hlinked); auto.
  { by apply (tmp_not_dir _ "cas-tmp-putfile-"); eexists. }
  { apply Dir_snoc. }
  { rewrite Htree1; [done|]. intros Ha. by destruct (Hanc source i Ha). }
  { congruence. }
  { rewrite Htree1; [done|apply not_elem_of_ancestors]. }
  { rewrite Htree1; [done|apply not_elem_of_ancestors]. }
  { apply Hdirs1, elem_of_ancestors. unfold dir, hash_dir. by destruct (rootDir s). }
  apply wp_finally, wp_bind, wp_try. eapply wp_sys_calm; [done|exact H2|].
  apply wp_bind, wp_wrap. eapply wp_sys_calm; [done|exact H3|].
  apply wp_bind, wp_wrap. eapply wp_sys_calm; [done|exact H4|].
  assert (∀ w4, fs w4 = f4 → wp (λ _, True) (putfile_defer tmp)
    (λ _ w', Some (Ok ()) = Some (Ok ()) ∧ linked p source i x (fs w')) w4) as Hend.
  { intros w4 Hw4. apply wp_bind, wp_try, wp_sys; unfold fs_stat; rewrite Hw4, Ht4; [|done].
    intros _ _. apply wp_ret. simpl. by rewrite Hw4. }
  unfold callback. destruct (onPutCallback s); [|by apply wp_ret, Hend].
  split; [by exists []|by apply Hend].
Qed.

(** When [PutFile] can link, the cached blob and the source are one file: it
    returns success whatever the size in the digest, makes the source read-only
    too, and a later write to the source's open file changes the cached blob. *)
Theorem put_file_shares_source `{OS} s d source i x w :
  linkable s d source i w → inodes (fs w) !! i = Some x →
  ∃ w', PutFile s d source w = (Some (Ok ()), w') ∧
    file_at (blob_path s d) (fs w') = Some (mkInode (content x) 292 (atime x)) ∧
    file_at source (fs w') = Some (mkInode (content x) 292 (atime x)) ∧
    ∀ more, bytes_at (blob_path s d) (fs_append i more (fs w')) = Some (content x +:+ more).
Proof.
  intros Hl Hx. destruct (PutFile_link s d source i x w Hl Hx) as [_ [Hr (_ & Hp & Hs & Hi)]].
  exists (PutFile s d source w).2. split_and!.
  - rewrite <- Hr. by destruct (PutFile s d source w).
  - unfold file_at. by rewrite Hp.
  - unfold file_at. by rewrite Hs.
  - intros more. unfold fs_append. rewrite Hi. unfold bytes_at, file_at. simpl.
    by rewrite Hp, lookup_insert_eq.
Qed.

(** ** Concrete instances *)
Module Demo.
Import Schedules.

Definition ar0 : ActionResult := mkActionResult [] [] 0 None None.

(** A codec that knows one result. *)
#[export, program] Instance ar_codec : ActionResultPb := {|
  ar_Marshal r := if decide (r = ar0) then Ok "AR" else Err (Errorf "proto: cannot encode");
  ar_Unmarshal b := if (b =? "AR")%string then Ok ar0 else Err (Errorf "proto: cannot parse");
|}.
Next Obligation. intros r b. simpl. case_decide; naive_solver. Qed.

Definition store : LocalStore := mkLocalStore ["cache"] false true.
Definition digest : Digest := mkDigest "abcdef0123" 5.
Definition built : path := ["build"; "out.o"].
Definition disk : fsys :=
  mkFsys {[ ["cache"] := NDir; ["build"] := NDir; built := NFile 7 ]} {[ 7%nat := mkInode "hello" 420 3 ]}.
Definition world : World := mkWorld disk (mkReader ["he"; "llo"] None) 0 [] 0.

Lemma digest_hex : hex_hash (Hash digest).
Proof. split; [vm_compute; lia|reflexivity]. Qed.

Lemma disk_wf : wf disk.
Proof.
  intros p i. unfold disk. simpl. intros Hp.
  repeat apply lookup_insert_Some in Hp as [[_ [=]]|[_ Hp]].
  apply lookup_singleton_Some in Hp as [_ [= <-]]. by eexists.
Qed.

(** [Put] with every call succeeding, and with the rename failing. *)
Example put_runs :
  let r := Put (H := calm) store digest world in
  r.1 = Some (Ok ()) ∧ bytes_at (blob_path store digest) (fs r.2) = Some "hello" ∧
  notified r.2 = 1%nat.
Proof. vm_compute. auto. Qed.

Definition rename_fails : OS := schedule (Nat.eqb 5) (ErrIO "no space left") eq_refl.

Example put_rename_fails :
  let r := Put (H := rename_fails) store digest world in
  r.1 = Some (Err (Wrapped "failed to rename temp file" (ErrIO "no space left"))) ∧
  bytes_at (blob_path store digest) (fs r.2) = None.
Proof. vm_compute. auto. Qed.

Lemma put_atomic_witness :
  ∃ res, (Put (H := rename_fails) store digest world).1 = Some res.
Proof.
  destruct (put_atomic (H := rename_fails) store digest world digest_hex disk_wf)
    as (res & _ & Hres & _). exists res. exact Hres.
Defined.

Lemma put_get_roundtrip_witness :
  (Has (H := calm) store digest (Put (H := calm) store digest world).2).1 = Some (Ok true).
Proof.
  destruct (put_get_roundtrip (H := calm) store digest world
    (Put (H := calm) store digest world).2 digest_hex disk_wf) as [[Hhas|[? Hf]] _].
  - vm_compute. reflexivity.
  - exact Hhas.
  - discriminate Hf.
Defined.

Lemma action_result_roundtrip_witness :
  (GetActionResult (H := calm) store digest
    (UpdateActionResult (H := calm) store digest ar0 world).2).1 = Some (Ok ar0).
Proof.
  destruct (action_result_roundtrip (H := calm) (H0 := ar_codec) store digest ar0 "AR" world
    digest_hex disk_wf eq_refl) as (res & new & Hres & _ & _ & _ & Hget).
  destruct Hget as [Hget|[[? Hf]|[? Hf]]]; [|exact Hget|discriminate Hf|discriminate Hf].
  enough (Some res = Some (Ok ())) as [= ->]; [reflexivity|].
  rewrite <- Hres. vm_compute. reflexivity.
Defined.

Lemma put_file_atomic_witness :
  ∃ res, (PutFile (H := rename_fails) store digest built world).1 = Some res.
Proof.
  destruct (put_file_atomic (H := rename_fails) store digest built world digest_hex disk_wf)
    as (res & _ & Hres & _); [vm_compute; reflexivity|]. exists res. exact Hres.
Defined.

Lemma built_linkable : linkable (H := calm) store digest built 7 world.
Proof.
  split; try (vm_compute; reflexivity); [apply digest_hex|apply disk_wf|].
  intros a j Ha Hj.
  assert (a ∈ [["cache"]; ["cache"; "cas"]; ["cache"; "cas"; "ab"]; ["cache"; "cas"; "ab"; "cd"]])
    as Ha' by exact Ha.
  repeat (apply elem_of_cons in Ha' as [->|Ha']; [vm_compute in Hj; discriminate|]).
  by apply not_elem_of_nil in Ha'.
Qed.

Lemma put_file_shares_source_witness :
  ∃ w', PutFile (H := calm) store digest built world = (Some (Ok ()), w') ∧
    bytes_at (blob_path store digest) (fs_append 7 "!" (fs w')) = Some "hello!".
Proof.
  destruct (put_file_shares_source (H := calm) store digest built 7 (mkInode "hello" 420 3) world
    built_linkable) as (w' & Hput & _ & _ & Hmore); [vm_compute; reflexivity|].
  exists w'. split; [exact Hput|]. apply Hmore.
Defined.
End Demo.
End Storage.
