(* ===== verification/Proxy.v ===== *)
(** The proxy (src/pkg/proxy/proxy.go): the local store in front of a remote one,
    read-through and write-through.

    The remote is an interface ([storage.BlobStore], often with
    [storage.ActionCache]); here it is a table of the blobs and action results it
    holds together with an arbitrary schedule of its answers, the class [Remote].
    In [putImpl] the data is teed into an [io.Pipe] that the remote reads: what
    the pipe does to both sides is modelled by [tee_reader].  The methods here run
    alone; callers that share a flight of singleflight are in [Flight]. *)

From S2P Require Import Prelude GoStrings Messages Fs Storage.
Local Open Scope Z_scope.

Module Proxy.
Import Storage.

(** How one call of the remote's [Put] treats its reader. *)
Inductive behaviour :=
  (** it returns [res] after [k] chunks and [m] bytes of the next one, without
      waiting for the end *)
  | Stops (k m : nat) (res : result unit)
  (** it reads to the end; the answer depends on the data and the final error *)
  | Drains (res : string → option error → result unit).

Record remote := mkRemote {
  r_blobs : gmap string string;
  r_actions : gmap string ActionResult;
  r_calls : nat;
}.

Class Remote := {
  (** a [Put]: the schedule by call number *)
  r_put : nat → behaviour;
  (** an upload whose reader ended in an error is not committed *)
  r_put_drains n f data e : r_put n = Drains f → f data (Some e) ≠ Ok ();
  (** a lookup may fail *)
  r_has : nat → option error;
  (** a download may fail, or break off; one that ends well is the blob *)
  r_get : nat → string → result reader;
  r_get_complete n data rd : r_get n data = Ok rd → rd_err rd = None → rd_all rd = data;
  (** whether the remote implements [storage.ActionCache], and its failures *)
  r_isActionCache : bool;
  r_action : nat → option error;
}.

Record ProxyStore := mkProxyStore { local : LocalStore; putRetryCount : nat }.

Definition NewProxyStore (local : LocalStore) (retries : Z) : ProxyStore :=
  mkProxyStore local (Z.to_nat (if retries <? 1 then 1 else retries)).

(** The local world and the remote. *)
Record PWorld := mkPWorld { pw_local : World; pw_remote : remote }.

Definition PM (A : Type) := PWorld → option (result A) * PWorld.

#[global] Instance PM_ret : MRet PM := λ A a w, (Some (Ok a), w).
#[global] Instance PM_bind : MBind PM := λ A B k m w,
  match m w with
  | (Some (Ok a), w) => k a w
  | (Some (Err e), w) => (Some (Err e), w)
  | (None, w) => (None, w)
  end.
Definition pthrow {A} (e : error) : PM A := λ w, (Some (Err e), w).
Definition ptry {A} (m : PM A) : PM (result A) := λ w,
  match m w with
  | (Some r, w) => (Some (Ok r), w)
  | (None, w) => (None, w)
  end.

(** A call of the local store. *)
Definition on_local {A} (m : M A) : PM A := λ w,
  let '(r, l) := m (pw_local w) in (r, mkPWorld l (pw_remote w)).

Definition next_call (r : remote) : remote := mkRemote (r_blobs r) (r_actions r) (S (r_calls r)).
Definition commit (h data : string) (r : remote) : remote :=
  mkRemote (<[h := data]> (r_blobs r)) (r_actions r) (r_calls r).
Definition commit_action (h : string) (a : ActionResult) (r : remote) : remote :=
  mkRemote (r_blobs r) (<[h := a]> (r_actions r)) (r_calls r).

(** *** The pipe *)

(** [pr.CloseWithError(err)] makes writes fail with [err], or with
    [io.ErrClosedPipe] when [err] is nil. *)
Definition close_error (res : result unit) : error :=
  match res with Err e => e | Ok _ => ErrClosedPipe end.

(** What [io.TeeReader(data, pw)] delivers: as long as the remote reads, the
    data; once it has stopped, the write of the next chunk fails after the bytes
    the remote still took.  A remote that failed with [io.EOF] (a stream the
    server has closed) makes this look like the end of the data. *)
Definition tee_reader (b : behaviour) (data : reader) : reader :=
  match b with
  | Drains _ => data
  | Stops k m res =>
      match drop k (rd_chunks data) with
      | [] => data
      | c :: _ => mkReader (take k (rd_chunks data) ++ [str_take m c])
                    (match close_error res with EOF => None | e => Some e end)
      end
  end.

(** The remote's answer: [seen] is what the local side read, [err] the error the
    writer was closed with. *)
Definition remote_result (b : behaviour) (seen : string) (err : option error) : result unit :=
  match b with Stops _ _ res => res | Drains f => f seen err end.

(** A remote that read to the end and reports success has stored what it read. *)
Definition remote_effect (b : behaviour) (h seen : string) (res : result unit) (r : remote) : remote :=
  match b, res with
  | Drains _, Ok _ => commit h seen (next_call r)
  | _, _ => next_call r
  end.

Section ProxyStore.
Context `{OS, Remote, ActionResultPb}.
Implicit Types (p : ProxyStore) (digest : Digest).

Definition BlobPath p digest : option path := Storage.BlobPath (local p) digest.

(** [p.remote.Put(ctx, digest, reader)] of a reader that needs no tee. *)
Definition remote_Put digest (data : reader) : PM unit := λ w,
  let b := r_put (r_calls (pw_remote w)) in
  let res := remote_result b (rd_all data) (rd_err data) in
  (Some res, mkPWorld (pw_local w) (remote_effect b (Hash digest) (rd_all data) res (pw_remote w))).

(** [io.Copy(io.Discard, data)], its error ignored. *)
Definition discard : PM unit := on_local (ignore drain).

Definition putImpl p digest : PM unit := λ w,
  let data := src (pw_local w) in
  let b := r_put (r_calls (pw_remote w)) in
  let '(localRes, l) := Put (local p) digest (set_src (tee_reader b data) (pw_local w)) in
  match localRes with
  | None => (None, mkPWorld l (pw_remote w))
  | Some localRes =>
      (* the pipe gave the remote what the local side took from the tee *)
      let taken := (List.length (rd_chunks (tee_reader b data)) - List.length (rd_chunks (src l)))%nat in
      let seen := foldr String.append "" (take taken (rd_chunks data)) in
      let closed := match localRes with Err e => Some e | Ok _ => None end in
      let remoteRes := remote_result b seen closed in
      let r := remote_effect b (Hash digest) seen remoteRes (pw_remote w) in
      (Some (match localRes with Err e => Err e | Ok _ => remoteRes end), mkPWorld l r)
  end.

Definition Put p digest : PM unit :=
  ok ← ptry (on_local (Has (local p) digest));
  match ok with
  | Ok true => _ ← discard; mret ()
  | _ => putImpl p digest
  end.

(** Opening the source again for each attempt. *)
Fixpoint put_attempts (ctx : nat → option error) digest (source : path) (attempt n : nat)
    (lastErr : result unit) : PM unit :=
  match n with
  | O => λ w, (Some lastErr, w)
  | S n =>
      h ← on_local (os_Open source);
      data ← on_local (λ w, (Some (Ok (match fs_read h (fs w) with
                                       | Ok (s, _) => mkReader [s] None
                                       | Err e => mkReader [] (Some e)
                                       end)), w));
      res ← ptry (remote_Put digest data);
      match res with
      | Ok _ => mret ()
      | Err e =>
          match ctx attempt with
          | Some c => pthrow c
          | None => put_attempts ctx digest source (S attempt) n (Err e)
          end
      end
  end.

Definition PutFile p ctx digest (source : path) : PM unit :=
  _ ← on_local (Storage.PutFile (local p) digest source);
  put_attempts ctx digest source 1 (putRetryCount p) (Ok ()).

Definition remote_Has digest : PM bool := λ w,
  let r := pw_remote w in
  (Some (match r_has (r_calls r) with
         | Some e => Err e
         | None => Ok (bool_decide (is_Some (r_blobs r !! Hash digest)))
         end), mkPWorld (pw_local w) (next_call r)).

Definition Has p digest : PM bool :=
  ok ← on_local (Storage.Has (local p) digest);
  if ok : bool then mret true else remote_Has digest.

Definition remote_Get digest : PM reader := λ w,
  let r := pw_remote w in
  (Some (match r_blobs r !! Hash digest with
         | None => Err (StatusErr NotFound "not found")
         | Some data => r_get (r_calls r) data
         end), mkPWorld (pw_local w) (next_call r)).

Definition Get p digest : PM handle :=
  ok ← ptry (on_local (Storage.Has (local p) digest));
  match ok with
  | Ok true => on_local (Storage.Get (local p) digest)
  | _ =>
      rc ← remote_Get digest;
      _ ← on_local (λ w, Storage.Put (local p) digest (set_src rc w));
      on_local (Storage.Get (local p) digest)
  end.

Definition remote_GetActionResult digest : PM ActionResult := λ w,
  let r := pw_remote w in
  (Some (match r_action (r_calls r), r_actions r !! Hash digest with
         | Some e, _ => Err e
         | None, None => Err (StatusErr NotFound "not found")
         | None, Some a => Ok a
         end), mkPWorld (pw_local w) (next_call r)).

Definition remote_UpdateActionResult digest (a : ActionResult) : PM unit := λ w,
  let r := pw_remote w in
  match r_action (r_calls r) with
  | Some e => (Some (Err e), mkPWorld (pw_local w) (next_call r))
  | None => (Some (Ok ()), mkPWorld (pw_local w) (commit_action (Hash digest) a (next_call r)))
  end.

Definition GetActionResult p digest : PM ActionResult :=
  res ← ptry (on_local (Storage.GetActionResult (local p) digest));
  match res with
  | Ok r => mret r
  | Err _ =>
      if r_isActionCache then
        r ← remote_GetActionResult digest;
        _ ← on_local (ignore (Storage.UpdateActionResult (local p) digest r));
        mret r
      else pthrow (StatusErr Unimplemented "remote does not support ActionCache")
  end.

Definition UpdateActionResult p digest (a : ActionResult) : PM unit :=
  _ ← (if r_isActionCache then remote_UpdateActionResult digest a else mret ());
  on_local (Storage.UpdateActionResult (local p) digest a).
End ProxyStore.

(** ** Lemmas *)

(** [sys] never touches the reader. *)
Lemma sys_src `{OS} {A} (op : fsys → result (A * fsys)) w : src (sys op w).2 = src w.
Proof. unfold sys. repeat break_match; done. Qed.

Lemma sys_write_src `{OS} i s w : src (sys_write i s w).2 = src w.
Proof. unfold sys_write. repeat break_match; done. Qed.

(** A computation that leaves the reader alone. *)
Definition keeps_src {A} (m : M A) : Prop := ∀ w, src (m w).2 = src w.

Lemma keeps_ret {A} (a : A) : keeps_src (mret a : M A).
Proof. done. Qed.
Lemma keeps_throw {A} e : keeps_src (throw (A := A) e).
Proof. done. Qed.
Lemma keeps_bind {A B} (m : M A) (k : A → M B) :
  keeps_src m → (∀ a, keeps_src (k a)) → keeps_src (m ≫= k).
Proof.
  intros Hm Hk w. specialize (Hm w). unfold mbind, M_bind.
  destruct (m w) as [[[a|e]|] w1]; simpl in *; [|done|done]. by rewrite Hk.
Qed.
Lemma keeps_try {A} (m : M A) : keeps_src m → keeps_src (try m).
Proof. intros Hm w. specialize (Hm w). unfold try. by destruct (m w) as [[r|] w1]. Qed.
Lemma keeps_ignore {A} (m : M A) : keeps_src m → keeps_src (ignore m).
Proof. intros Hm. apply keeps_bind; [by apply keeps_try|intros; apply keeps_ret]. Qed.
Lemma keeps_wrap {A} msg (m : M A) : keeps_src m → keeps_src (wrap msg m).
Proof. intros Hm w. specialize (Hm w). unfold wrap. by destruct (m w) as [[[a|e]|] w1]. Qed.
Lemma keeps_sys `{OS} {A} (op : fsys → result (A * fsys)) : keeps_src (sys op).
Proof. intros w. apply sys_src. Qed.
Lemma keeps_mkdirall `{OS} p : keeps_src (os_MkdirAll p).
Proof. intros w. unfold os_MkdirAll. repeat break_match; try done. apply sys_src. Qed.
Lemma keeps_create_tmp `{OS} d pre : keeps_src (os_CreateTemp d pre).
Proof. intros w. apply (keeps_bind _ _ (keeps_sys _) (λ _, keeps_ret _)). Qed.
Lemma keeps_callback s : keeps_src (callback s).
Proof. intros w. unfold callback. by destruct (onPutCallback s). Qed.
Lemma keeps_cleanup_tmp `{OS} tmp : keeps_src (cleanup_tmp tmp).
Proof. apply keeps_bind; [|intros]; apply keeps_ignore, keeps_sys. Qed.

#[export] Hint Resolve keeps_ret keeps_throw keeps_bind keeps_try keeps_ignore keeps_wrap keeps_sys
  keeps_mkdirall keeps_create_tmp keeps_callback keeps_cleanup_tmp : gorego.

(** A copy that succeeds has read everything. *)
Lemma copy_loop_drained `{OS} i cs err n w r :
  rd_chunks (src w) = cs → (copy_loop i cs err n w).1 = Some (Ok r) →
  rd_chunks (src (copy_loop i cs err n w).2) = [].
Proof.
  revert n w. induction cs as [|c cs IH]; intros n w Hc; simpl; [by destruct err|].
  unfold mbind, M_bind. pose proof (sys_write_src i c (set_src (mkReader cs err) w)) as Hs.
  destruct (sys_write _ _ _) as [[[k|e]|] w1]; simpl in *; try done. apply IH. by rewrite Hs.
Qed.

Lemma bind_Ok {A B} (m : M A) (k : A → M B) w b w' :
  (m ≫= k) w = (Some (Ok b), w') → ∃ a w1, m w = (Some (Ok a), w1) ∧ k a w1 = (Some (Ok b), w').
Proof. unfold mbind, M_bind. destruct (m w) as [[[a|e]|] w1]; naive_solver. Qed.

Lemma wrap_Ok {A} msg (m : M A) w a w' : wrap msg m w = (Some (Ok a), w') → m w = (Some (Ok a), w').
Proof. unfold wrap. by destruct (m w) as [[[?|?]|] ?]. Qed.

Lemma finally_inv {A} (m : M A) d w r w' :
  finally m d w = (r, w') → ∃ w1, m w = (r, w1) ∧ w' = (d w1).2.
Proof. unfold finally. destruct (m w) as [r1 w1]. intros [= <- <-]. eauto. Qed.

Lemma keeps_eq {A} (m : M A) w r w' : keeps_src m → m w = (r, w') → src w' = src w.
Proof. intros Hm Hw. specialize (Hm w). by rewrite Hw in Hm. Qed.

Lemma Put_drained `{OS} s d w w' :
  Storage.Put s d w = (Some (Ok ()), w') → rd_chunks (src w') = [].
Proof.
  unfold Storage.Put. intros (p & w1 & H1 & H2)%bind_Ok.
  apply bind_Ok in H2 as ([] & w2 & _ & H3). apply bind_Ok in H3 as ([tmp i] & w3 & _ & H4).
  apply finally_inv in H4 as (w5 & H5 & ->). rewrite (keeps_cleanup_tmp tmp). apply bind_Ok in H5 as (n & w4 & Hcopy%wrap_Ok & Hrest).
  pose proof (copy_loop_drained i _ (rd_err (src w3)) 0 w3 n eq_refl) as Hd.
  change (copy_loop i _ _ 0 w3) with (io_Copy i w3) in Hd. rewrite Hcopy in Hd. simpl in Hd.
  rewrite <- Hd by done. f_equal. eapply keeps_eq; [|exact Hrest].
  destruct (negb _); eauto 20 with gorego.
Qed.

(** [Put] of the local store behind the tee. *)
Lemma tee_complete b data :
  rd_err (tee_reader b data) = None →
  (∃ k m, b = Stops k m (Err EOF)) ∨
  tee_reader b data = data ∧
  ∀ k m res, b = Stops k m res → (List.length (rd_chunks data) ≤ k)%nat.
Proof.
  unfold tee_reader. destruct b as [k m res|f]; [|by right].
  destruct (drop k (rd_chunks data)) as [|c cs] eqn:Hd.
  - intros _. right. split; [done|]. intros ? ? ? [= <- <- <-].
    apply (f_equal List.length) in Hd. rewrite length_drop in Hd. simpl in Hd. lia.
  - destruct res as [|[]]; try done. intros _. left. by eexists _, _.
Qed.

Section proxy_lemmas.
Context `{OS, Remote, ActionResultPb}.

(** The early check of [Put] and [Get]. *)
Definition cached p d (w : PWorld) : Prop :=
  (Storage.Has (local p) d (pw_local w)).1 = Some (Ok true).

Lemma Has_no_panic s d w : hex_hash (Hash d) → (Storage.Has s d w).1 ≠ None.
Proof using Type.
  intros Hh. destruct (Has_spec s d w Hh) as [->|[_ [e ->]]]; done.
Qed.

Lemma Has_same s d w :
  hex_hash (Hash d) → (Storage.Has s d w).1 ≠ Some (Ok true) →
  fs (Storage.Has s d w).2 = fs w ∧ src (Storage.Has s d w).2 = src w.
Proof using Type.
  intros Hh. unfold Storage.Has. rewrite BlobPath_hex by done.
  unfold mbind, M_bind, or_panic, mret, M_ret, try, os_Stat, sys.
  destruct (fault (tick w)) as [[e n]|] eqn:Hf.
  { by rewrite (fault_exists _ _ _ Hf). }
  unfold fs_stat. destruct (tree (fs w) !! blob_path s d) as [x|] eqn:Ht; [|done].
  destruct (touch_same s (blob_path s d) (observe (fs w) w)) as (_ & _ & Ht1).
  destruct (touch _ _ _) as [r w'] eqn:E. simpl in *. by subst r.
Qed.

(** An uncached [Put] is [putImpl] on the same files, reader and remote. *)
Lemma Put_uncached p d w :
  hex_hash (Hash d) → ¬ cached p d w →
  ∃ l, fs l = fs (pw_local w) ∧ src l = src (pw_local w) ∧
    Put p d w = putImpl p d (mkPWorld l (pw_remote w)).
Proof using Type.
  intros Hh Hc. exists (Storage.Has (local p) d (pw_local w)).2.
  destruct (Has_same (local p) d (pw_local w) Hh Hc) as [-> ->]. split_and!; [done..|].
  pose proof (Has_no_panic (local p) d (pw_local w) Hh) as Hn. unfold cached in Hc.
  unfold Put, ptry, on_local, mbind, PM_bind.
  destruct (Storage.Has _ _ _) as [[[[]|e]|] l]; simpl in *; done.
Qed.

Lemma Put_cached p d w :
  cached p d w → ∃ l, Put p d w = (Some (Ok ()), mkPWorld l (pw_remote w)).
Proof using Type.
  intros Hc. unfold cached in Hc. unfold Put, ptry, on_local, mbind, PM_bind.
  destruct (Storage.Has _ _ _) as [r l]; simpl in *. subst r. simpl. by eexists.
Qed.

(** What [putImpl] does, in terms of the local [Put]. *)
Lemma putImpl_spec p d w :
  hex_hash (Hash d) → wf (fs (pw_local w)) →
  let data := src (pw_local w) in
  let b := r_put (r_calls (pw_remote w)) in
  let l0 := set_src (tee_reader b data) (pw_local w) in
  ∃ localRes l, Storage.Put (local p) d l0 = (Some localRes, l) ∧
    match localRes with
    | Err e => ∃ seen, putImpl p d w =
        (Some (Err e), mkPWorld l (remote_effect b (Hash d) seen (remote_result b seen (Some e))
                                     (pw_remote w)))
    | Ok _ => ∃ seen, ((∃ k m, b = Stops k m (Err EOF)) ∨
                       tee_reader b data = data ∧ seen = rd_all data) ∧
        putImpl p d w =
        (Some (remote_result b seen None),
         mkPWorld l (remote_effect b (Hash d) seen (remote_result b seen None) (pw_remote w)))
    end.
Proof using Type.
  intros Hh Hwf data b l0. destruct (Put_wp (local p) d l0 Hh Hwf) as [_ (res & Hres & Hpub)].
  exists res, (Storage.Put (local p) d l0).2.
  assert (Storage.Put (local p) d l0 = (Some res, (Storage.Put (local p) d l0).2)) as Hput.
  { rewrite <- Hres. by destruct (Storage.Put (local p) d l0). }
  split; [done|]. unfold putImpl. fold data b. fold l0. rewrite Hput.
  destruct res as [[]|e]; [|by eexists].
  destruct (pu_result _ _ _ _ _ _ _ _ _ _ _ Hpub) as ([Herr _] & _ & _). simpl in Herr.
  eexists. split; [|done]. destruct (tee_complete b data Herr) as [?|[Htee _]]; [by left|right].
  split; [done|]. apply Put_drained in Hput as Hd. rewrite Htee, Hd. simpl.
  by rewrite Nat.sub_0_r, firstn_all.
Qed.

(** The two together: an uncached [Put] in terms of what the local [Put] of the
    teed reader did. *)
Lemma Put_through p d w :
  hex_hash (Hash d) → wf (fs (pw_local w)) → ¬ cached p d w →
  let data := src (pw_local w) in
  let b := r_put (r_calls (pw_remote w)) in
  let dir := hash_dir (rootDir (local p)) "cas" (Hash d) in
  let bp := blob_path (local p) d in
  ∃ l0 res l, fs l0 = fs (pw_local w) ∧ src l0 = tee_reader b data ∧
    published (onPutCallback (local p)) l0 dir "cas-tmp-" bp (put_complete d l0)
      (rd_all (src l0)) (λ x, mode x = 292) (trouble (fs l0) dir bp ∨ ¬ put_complete d l0) res l ∧
    match res with
    | Err e => ∃ seen, Put p d w =
        (Some (Err e), mkPWorld l (remote_effect b (Hash d) seen (remote_result b seen (Some e))
                                     (pw_remote w)))
    | Ok _ => ∃ seen, ((∃ k m, b = Stops k m (Err EOF)) ∨
                       tee_reader b data = data ∧ seen = rd_all data) ∧
        Put p d w =
        (Some (remote_result b seen None),
         mkPWorld l (remote_effect b (Hash d) seen (remote_result b seen None) (pw_remote w)))
    end.
Proof using Type.
  intros Hh Hwf Hc data b dir bp.
  destruct (Put_uncached p d w Hh Hc) as (l1 & Hfs & Hsrc & Heq).
  destruct (putImpl_spec p d (mkPWorld l1 (pw_remote w)) Hh) as (res & l & Hl & Himpl);
    [simpl; by rewrite Hfs|]. simpl in Hl, Himpl. rewrite Hsrc in Hl, Himpl.
  fold data b in Hl, Himpl. set (l0 := set_src (tee_reader b data) l1) in *.
  assert (wf (fs l0)) as Hwf' by (simpl; by rewrite Hfs).
  destruct (Put_wp (local p) d l0 Hh Hwf') as [_ (res' & Hres & Hpub)]. rewrite Hl in Hres, Hpub.
  injection Hres as <-. exists l0, res, l. rewrite Heq. by split_and!.
Qed.
End proxy_lemmas.

Section proxy_lemmas2.
Context `{OS, Remote}.

(** An uncached [Get] fetches, stores and opens. *)
Lemma Get_uncached p d w :
  hex_hash (Hash d) → ¬ cached p d w →
  ∃ l, fs l = fs (pw_local w) ∧
    Get p d w =
    match r_blobs (pw_remote w) !! Hash d with
    | None => (Some (Err (StatusErr NotFound "not found")), mkPWorld l (next_call (pw_remote w)))
    | Some data =>
        match r_get (r_calls (pw_remote w)) data with
        | Err e => (Some (Err e), mkPWorld l (next_call (pw_remote w)))
        | Ok rd =>
            match Storage.Put (local p) d (set_src rd l) with
            | (Some (Ok _), l') =>
                let '(r, l'') := Storage.Get (local p) d l' in
                (r, mkPWorld l'' (next_call (pw_remote w)))
            | (Some (Err e), l') => (Some (Err e), mkPWorld l' (next_call (pw_remote w)))
            | (None, l') => (None, mkPWorld l' (next_call (pw_remote w)))
            end
        end
    end.
Proof using Type.
  intros Hh Hc. exists (Storage.Has (local p) d (pw_local w)).2.
  destruct (Has_same (local p) d (pw_local w) Hh Hc) as [-> _]. split; [done|].
  pose proof (Has_no_panic (local p) d (pw_local w) Hh) as Hn. unfold cached in Hc.
  unfold Get, ptry, on_local, remote_Get, mbind, PM_bind.
  destruct (Storage.Has _ _ _) as [[[[]|e]|] l]; simpl in *; try done;
    (destruct (r_blobs _ !! _) as [data|]; [|done]); (destruct (r_get _ _) as [rd|]; [|done]);
    by destruct (Storage.Put _ _ _) as [[[]|] l'].
Qed.

(** Opening a blob changes no contents. *)
Lemma Get_keeps s d w q :
  hex_hash (Hash d) → bytes_at q (fs (Storage.Get s d w).2) = bytes_at q (fs w).
Proof using Type.
  intros Hh. unfold Storage.Get. rewrite BlobPath_hex by done.
  unfold mbind, M_bind, or_panic, mret, M_ret, os_Open, sys.
  destruct (fault (tick w)) as [[e n]|]; [done|].
  destruct (fs_open _ _) as [[h f]|] eqn:Ho; [|done].
  assert (f = fs w) as ->.
  { unfold fs_open in Ho. destruct (tree (fs w) !! _) as [[|]|]; by simplify_eq. }
  destruct (touch_same s (blob_path s d) (observe (fs w) w)) as (Hb & _ & Ht1).
  destruct (touch _ _ _) as [r w'] eqn:E. simpl in *. subst r. simpl. apply Hb.
Qed.

(** The loop of [PutFile]: at most one call per attempt; success needs a call
    that succeeded, unless there was no attempt to make. *)
Lemma put_attempts_spec ctx d source n attempt lastErr w r w' :
  put_attempts ctx d source attempt n lastErr w = (r, w') →
  (r_calls (pw_remote w') ≤ r_calls (pw_remote w) + n)%nat ∧
  (r = Some (Ok ()) → (n = 0%nat ∧ lastErr = Ok ()) ∨
     (∃ k m, r_put (pred (r_calls (pw_remote w'))) = Stops k m (Ok ())) ∨
     (∃ data, bytes_at source (fs (pw_local w')) = Some data ∧
        r_blobs (pw_remote w') !! Hash d = Some data)).
Proof using Type.
  revert attempt lastErr w. induction n as [|n IH]; intros attempt lastErr w; simpl.
  { intros [= <- <-]. split; [lia|]. intros [= ->]. by left. }
  unfold mbind, PM_bind, ptry, on_local, os_Open, sys. destruct w as [l rm]. simpl.
  destruct (fault (tick l)) as [[e k]|]; simpl; [intros [= <- <-]; simpl; split; [lia|done]|].
  destruct (fs_open source (fs l)) as [[h f]|e] eqn:Ho; simpl;
    [|intros [= <- <-]; simpl; split; [lia|done]].
  assert (f = fs l) as ->.
  { unfold fs_open in Ho. destruct (tree (fs l) !! _) as [[|]|]; by simplify_eq. }
  set (data := match fs_read h (fs l) with Ok (s, _) => mkReader [s] None
               | Err e => mkReader [] (Some e) end).
  set (b := r_put (r_calls rm)). set (res := remote_result b (rd_all data) (rd_err data)).
  assert (r_calls (remote_effect b (Hash d) (rd_all data) res rm) = S (r_calls rm)) as Hcalls.
  { unfold remote_effect. by destruct b, res. }
  destruct res as [[]|e] eqn:Hres; unfold res in Hres.
  - intros [= <- <-]. simpl. rewrite Hcalls. split; [lia|]. intros _. right. simpl.
    fold b. destruct b as [k m r'|g] eqn:Hb; simpl in *; [left; subst r'; eauto|right].
    destruct (rd_err data) as [e|] eqn:Herr; [by destruct (r_put_drains _ _ _ _ Hb Hres)|].
    exists (rd_all data). rewrite lookup_insert_eq. split; [|done].
    unfold fs_open, fs_read in *. unfold bytes_at, file_at.
    destruct (tree (fs l) !! source) as [[|i]|]; simplify_eq/=.
    unfold data in *. destruct (inodes (fs l) !! i) as [x|]; simplify_eq/=.
    unfold rd_all. simpl. by rewrite str_app_nil_r.
  - destruct (ctx attempt) as [c|].
    + intros [= <- <-]. simpl. rewrite Hcalls. split; [lia|done].
    + intros Hrun. apply IH in Hrun as [Hle Hok]. simpl in Hle. rewrite Hcalls in Hle.
      split; [lia|]. intros Hr. destruct (Hok Hr) as [[_ ?]|?]; [done|by right].
Qed.
End proxy_lemmas2.

(** ** The properties *)

(** C7: write-through.  When [Put] reports success for a blob that was not found
    locally, the local store has exactly the reader's bytes, their number is the
    digest's size, and the remote has committed the same bytes, or had told on
    its own, after all chunks were sent, that it needs no more. *)
Theorem put_writes_through `{OS, Remote} p d w w' :
  hex_hash (Hash d) → wf (fs (pw_local w)) → ¬ cached p d w →
  Put p d w = (Some (Ok ()), w') →
  let data := src (pw_local w) in
  bytes_at (blob_path (local p) d) (fs (pw_local w')) = Some (rd_all data) ∧
  Size d = Z.of_nat (String.length (rd_all data)) ∧ rd_err data = None ∧
  (r_blobs (pw_remote w') !! Hash d = Some (rd_all data) ∨
   ∃ k m, r_put (r_calls (pw_remote w)) = Stops k m (Ok ()) ∧
     (List.length (rd_chunks data) ≤ k)%nat).
Proof.
  intros Hh Hwf Hc Hput data.
  destruct (Put_through p d w Hh Hwf Hc) as (l0 & res & l & Hfs & Hsrc & Hpub & Hres).
  fold data in Hsrc, Hres. set (b := r_put (r_calls (pw_remote w))) in *.
  destruct res as [[]|e]; [|destruct Hres as [seen Hres]; by rewrite Hres in Hput].
  destruct Hres as (seen & Htee & Hres). rewrite Hres in Hput. injection Hput as Hrem <-.
  destruct Htee as [(k & m & Hb)|[Htee ->]]; [by rewrite Hb in Hrem|].
  destruct (pu_result _ _ _ _ _ _ _ _ _ _ _ Hpub) as ([Herr Hsz] & (x & Hx & Hcx & _) & _).
  rewrite Hsrc in Herr, Hsz, Hcx. destruct (tee_complete b data Herr) as [(k & m & Hb)|[_ Hk]];
    [by rewrite Hb in Hrem|].
  rewrite Htee in Herr, Hsz, Hcx. split_and!; [|done|done|]; simpl.
  - unfold bytes_at. rewrite Hx. simpl. by rewrite Hcx.
  - destruct b as [k m r|f] eqn:Hb; simpl in *.
    + subst r. right. exists k, m. split; [done|]. by eapply Hk.
    + left. rewrite Hrem. simpl. apply lookup_insert_eq.
Qed.

(** The write-through promise is lost on a retry.  If the remote reads a
    whole upload and then fails it, [Put] reports the remote's error but the local
    store keeps the blob; a repeated [Put] of the same digest, with whatever
    data, then reports success without contacting the remote, which never gets
    the blob. *)
Theorem failed_remote_put_is_forgotten `{OS, Remote} p d w f e rd2 :
  (∀ k, fault k = None) → hex_hash (Hash d) → wf (fs (pw_local w)) →
  ¬ cached p d w →
  ¬ obstructed (fs (pw_local w)) (hash_dir (rootDir (local p)) "cas" (Hash d)) (blob_path (local p) d) →
  put_complete d (pw_local w) →
  r_put (r_calls (pw_remote w)) = Drains f → f (rd_all (src (pw_local w))) None = Err e →
  ∃ w1 w2, Put p d w = (Some (Err e), w1) ∧
    Put p d (mkPWorld (set_src rd2 (pw_local w1)) (pw_remote w1)) = (Some (Ok ()), w2) ∧
    r_calls (pw_remote w2) = S (r_calls (pw_remote w)) ∧
    r_blobs (pw_remote w2) = r_blobs (pw_remote w).
Proof.
  intros Hnf Hh Hwf Hc Hob Hcomp Hb He.
  destruct (Put_through p d w Hh Hwf Hc) as (l0 & res & l & Hfs & Hsrc & Hpub & Hres).
  rewrite Hb in Hsrc, Hres. simpl in Hsrc, Hres.
  assert (put_complete d l0) as Hcomp0 by (unfold put_complete; by rewrite Hsrc).
  pose proof (pu_result _ _ _ _ _ _ _ _ _ _ _ Hpub) as Hpr. destruct res as [[]|e'].
  2: { destruct Hpr as [_ [[[k Hk]|Ho]|Hnc]]; [|by rewrite Hfs in Ho|done].
       rewrite Hnf in Hk. by destruct Hk. }
  destruct Hres as (seen & [(? & ? & ?)|[_ ->]] & Hres); [done|]. rewrite He in Hres. destruct Hpr as (_ & (x & Hx & _ & _) & _).
  exists (mkPWorld l (next_call (pw_remote w))).
  assert (cached p d (mkPWorld (set_src rd2 l) (next_call (pw_remote w)))) as Hc2.
  { unfold cached. simpl. destruct (Has_spec (local p) d (set_src rd2 l) Hh) as [->|[[? Hk] _]].
    - f_equal. f_equal. apply bool_decide_eq_true_2. simpl. unfold file_at in Hx.
      destruct (tree (fs l) !! blob_path (local p) d); [by eexists|done].
    - by rewrite Hnf in Hk. }
  destruct (Put_cached p d _ Hc2) as [l2 Hput2]. eexists. split_and!; [done|exact Hput2|done|done].
Qed.

(** A remote that accepts an upload early makes the upload fail.  If the
    remote's [Put] returns success before it has read all chunks (it already
    has the blob), closing the pipe with a nil error turns the next write of the
    tee into an error: [Put] fails and the blob does not reach the local store. *)
Theorem early_remote_success_fails_put `{OS, Remote} p d w k m :
  hex_hash (Hash d) → wf (fs (pw_local w)) → ¬ cached p d w →
  r_put (r_calls (pw_remote w)) = Stops k m (Ok ()) →
  (k < List.length (rd_chunks (src (pw_local w))))%nat →
  ∃ e w', Put p d w = (Some (Err e), w') ∧
    bytes_at (blob_path (local p) d) (fs (pw_local w')) =
    bytes_at (blob_path (local p) d) (fs (pw_local w)) ∧
    r_blobs (pw_remote w') = r_blobs (pw_remote w).
Proof.
  intros Hh Hwf Hc Hb Hk.
  destruct (Put_through p d w Hh Hwf Hc) as (l0 & res & l & Hfs & Hsrc & Hpub & Hres).
  rewrite Hb in Hsrc, Hres. set (b := Stops k m (Ok ())) in *.
  assert (¬ put_complete d l0) as Hnc.
  { unfold put_complete. rewrite Hsrc. intros [Herr _].
    destruct (tee_complete b _ Herr) as [(? & ? & [=])|[_ Hle]]. specialize (Hle k m _ eq_refl). lia. }
  pose proof (pu_result _ _ _ _ _ _ _ _ _ _ _ Hpub) as Hpr.
  destruct res as [[]|e]; [by destruct Hpr|].
  destruct Hres as [seen Hres]. eexists e, _. split_and!; [done| |done]. simpl.
  destruct (pu_visible _ _ _ _ _ _ _ _ _ _ _ Hpub) as [_ [Hsame|[? _]]]; [|done].
  by rewrite Hsame, Hfs.
Qed.

(** C17: read-through.  A [Get] of a blob that is not cached returns only what the
    remote holds under the hash, all of it and of the digest's size, and leaves it
    in the local store; and it does return it when no system call fails, nothing
    is in the way, and the download ends well with the right size. *)
Theorem get_reads_through `{OS, Remote} p d w :
  hex_hash (Hash d) → wf (fs (pw_local w)) → ¬ cached p d w →
  (∀ h w', Get p d w = (Some (Ok h), w') →
     ∃ data, r_blobs (pw_remote w) !! Hash d = Some data ∧
       handle_bytes h (fs (pw_local w')) = Some data ∧
       bytes_at (blob_path (local p) d) (fs (pw_local w')) = Some data ∧
       Size d = Z.of_nat (String.length data)) ∧
  (∀ data rd, (∀ k, fault k = None) →
     ¬ obstructed (fs (pw_local w)) (hash_dir (rootDir (local p)) "cas" (Hash d))
         (blob_path (local p) d) →
     r_blobs (pw_remote w) !! Hash d = Some data → Size d = Z.of_nat (String.length data) →
     r_get (r_calls (pw_remote w)) data = Ok rd → rd_err rd = None →
     ∃ h w', Get p d w = (Some (Ok h), w')).
Proof.
  intros Hh Hwf Hc. destruct (Get_uncached p d w Hh Hc) as (l0 & Hfs & Heq). rewrite Heq. clear Heq.
  destruct (r_blobs (pw_remote w) !! Hash d) as [data|]; [|by split].
  destruct (r_get _ data) as [rd|e] eqn:Hget; [|split; [done|]; intros ? ? _ _ [= <-] _; congruence].
  assert (wf (fs (set_src rd l0))) as Hwf' by (simpl; by rewrite Hfs).
  destruct (Put_wp (local p) d _ Hh Hwf') as [_ (res & Hres & Hpub)].
  destruct (Storage.Put (local p) d (set_src rd l0)) as [r l]. simpl in Hres, Hpub. subst r.
  pose proof (pu_result _ _ _ _ _ _ _ _ _ _ _ Hpub) as Hpr. destruct res as [[]|e].
  - destruct Hpr as ([Herr Hsz] & (x & Hx & Hcx & _) & _). simpl in Herr, Hsz, Hcx.
    pose proof (r_get_complete _ _ _ Hget Herr) as Hall. rewrite Hall in *.
    assert (bytes_at (blob_path (local p) d) (fs l) = Some data) as Hb.
    { unfold bytes_at. rewrite Hx. simpl. by rewrite Hcx. }
    pose proof (Get_bytes (local p) d l data Hh Hb) as Hg.
    pose proof (Get_keeps (local p) d l (blob_path (local p) d) Hh) as Hk.
    destruct (Storage.Get (local p) d l) as [[[h|e]|] l']; simpl in *; [|split; [done|]|done].
    + split; [|by eauto]. intros h' w' [= <- <-]. exists data. simpl. split_and!; congruence.
    + intros ? ? Hnf. rewrite Hnf in Hg. by destruct Hg.
  - split; [done|]. intros data' rd' Hnf Hob [= <-] Hsz Hrd Herr.
    assert (rd' = rd) as -> by congruence.
    destruct Hpr as [_ [[[k Hk]|Ho]|Hnc]].
    + rewrite Hnf in Hk. by destruct Hk.
    + simpl in Ho. by rewrite Hfs in Ho.
    + destruct Hnc. split; [done|]. simpl. by rewrite (r_get_complete _ _ _ Hget Herr).
Qed.

(** [PutFile] makes at most as many uploads as configured, and at least one:
    however low the retry count is configured, it reports success only after an
    upload of the source's contents that the remote reported as successful. *)
Theorem put_file_needs_remote `{OS, Remote} s retries ctx d source w r w' :
  PutFile (NewProxyStore s retries) ctx d source w = (r, w') →
  Z.of_nat (r_calls (pw_remote w')) ≤ Z.of_nat (r_calls (pw_remote w)) + Z.max 1 retries ∧
  (r = Some (Ok ()) →
     (∃ k m, r_put (pred (r_calls (pw_remote w'))) = Stops k m (Ok ())) ∨
     (∃ data, bytes_at source (fs (pw_local w')) = Some data ∧
        r_blobs (pw_remote w') !! Hash d = Some data)).
Proof.
  unfold PutFile. unfold mbind at 1, PM_bind at 1. unfold on_local at 1.
  destruct (Storage.PutFile _ _ _ _) as [[[[]|e]|] l]; simpl.
  2, 3: intros [= <- <-]; simpl; split; [lia|done].
  intros Hp. destruct (put_attempts_spec ctx d source (Z.to_nat (if retries <? 1 then 1 else retries))
    1 (Ok ()) _ _ _ Hp) as [Hcalls Hok]. simpl in Hcalls.
  split; [destruct (retries <? 1) eqn:E; to_prop; lia|].
  intros Hr. destruct (Hok Hr) as [[Hz _]|Hdone]; [|done].
  destruct (retries <? 1) eqn:E; to_prop; lia.
Qed.

(** ** Concrete instances *)
Module Demo.
Import Schedules Storage.Demo.

(** A remote whose uploads behave as [b] says, and whose other calls succeed. *)
Definition scripted (b : nat → behaviour)
    (Hb : ∀ n f data e, b n = Drains f → f data (Some e) ≠ Ok ()) : Remote.
Proof.
  refine {| r_put := b; r_put_drains := Hb; r_has _ := None;
            r_get _ data := Ok (mkReader [data] None); r_isActionCache := true;
            r_action _ := None |}.
  intros n data rd [= <-] _. unfold rd_all. simpl. apply str_app_nil_r.
Defined.

(** It reads everything; upload number [bad] then fails. *)
Definition drains_but (bad : nat) : Remote.
Proof.
  refine (scripted (λ n, Drains (λ data e, match e with Some e => Err e | None =>
    if Nat.eqb n bad then Err (StatusErr Unavailable "try again") else Ok () end)) _).
  by intros n f data e [= <-].
Defined.

(** It has the blob and answers after the first chunk. *)
Definition early : Remote.
Proof. refine (scripted (λ _, Stops 1 0 (Ok ())) _). done. Defined.

Definition p : ProxyStore := NewProxyStore store 0.
Definition w0 : PWorld := mkPWorld world (mkRemote {[ "abcdef0123" := "howdy" ]} ∅ 0).

Lemma not_cached : ¬ cached (H := calm) p digest w0.
Proof. vm_compute. discriminate. Qed.

Definition put1 := Put (H := calm) (H0 := drains_but 7) p digest w0.
Lemma put1_ok : put1 = (Some (Ok ()), put1.2).
Proof. rewrite (surjective_pairing put1) at 1. f_equal; vm_compute; reflexivity. Qed.

Lemma put_writes_through_witness :
  bytes_at (blob_path store digest) (fs (pw_local put1.2)) = Some "hello".
Proof.
  exact (proj1 (put_writes_through (H := calm) (H0 := drains_but 7) p digest w0
    put1.2 digest_hex disk_wf not_cached put1_ok)).
Defined.

Lemma not_obstructed :
  ¬ obstructed disk (hash_dir ["cache"] "cas" "abcdef0123") (blob_path store digest).
Proof.
  intros [(a & i & Ha & Hi)|Hd]; [|vm_compute in Hd; discriminate].
  apply (lb_dirs (H := calm) _ _ _ _ _ built_linkable a i Ha Hi).
Qed.

Lemma failed_remote_put_is_forgotten_witness :
  ∃ w1 w2, Put (H := calm) (H0 := drains_but 0) p digest w0 =
      (Some (Err (StatusErr Unavailable "try again")), w1) ∧
    Put (H := calm) (H0 := drains_but 0) p digest
      (mkPWorld (set_src (mkReader ["hello"] None) (pw_local w1)) (pw_remote w1)) = (Some (Ok ()), w2).
Proof.
  destruct (failed_remote_put_is_forgotten (H := calm) (H0 := drains_but 0) p digest w0
    (λ data e, match e with Some e => Err e | None => Err (StatusErr Unavailable "try again") end)
    (StatusErr Unavailable "try again") (mkReader ["hello"] None))
    as (w1 & w2 & H1 & H2 & _);
    [reflexivity|apply digest_hex|apply disk_wf|apply not_cached|apply not_obstructed|
     split; vm_compute; reflexivity|reflexivity|reflexivity|].
  exists w1, w2. split; [exact H1|exact H2].
Defined.

Lemma early_remote_success_fails_put_witness :
  ∃ e w', Put (H := calm) (H0 := early) p digest w0 = (Some (Err e), w').
Proof.
  destruct (early_remote_success_fails_put (H := calm) (H0 := early) p digest w0 1 0)
    as (e & w' & Hput & _);
    [apply digest_hex|apply disk_wf|apply not_cached|reflexivity|vm_compute; lia|].
  exists e, w'. exact Hput.
Defined.

Example early_error :
  (Put (H := calm) (H0 := early) p digest w0).1 =
  Some (Err (Wrapped "failed to write data" ErrClosedPipe)).
Proof. vm_compute. reflexivity. Qed.

Lemma get_reads_through_witness :
  ∃ h w', Get (H := calm) (H0 := early) p digest w0 = (Some (Ok h), w').
Proof.
  destruct (get_reads_through (H := calm) (H0 := early) p digest w0 digest_hex disk_wf not_cached)
    as [_ Hget].
  apply (Hget "howdy" (mkReader ["howdy"] None));
    [reflexivity|apply not_obstructed|vm_compute; reflexivity..].
Defined.

(** Two retries configured, the first upload fails. *)
Definition put_file1 := PutFile (H := calm) (H0 := drains_but 0) (NewProxyStore store 3)
  (λ _, None) digest built w0.
Lemma put_file1_ok : put_file1 = (Some (Ok ()), put_file1.2).
Proof. rewrite (surjective_pairing put_file1) at 1. f_equal; vm_compute; reflexivity. Qed.

Lemma put_file_needs_remote_witness :
  Z.of_nat (r_calls (pw_remote put_file1.2)) ≤ 0 + Z.max 1 3.
Proof.
  exact (proj1 (put_file_needs_remote (H := calm) (H0 := drains_but 0) store 3 (λ _, None)
    digest built w0 _ _ put_file1_ok)).
Defined.
End Demo.
End Proxy.
