(* ===== verification/Flight.v ===== *)
(** Concurrent callers of the proxy store (src/pkg/proxy/proxy.go): the calls that
    its [singleflight.Group] merges.

    A call runs in sections: the look into the local store ([fast]), joining the
    flight of its key, the function of the flight ([fly], executed by the caller
    that opened it), and what follows [group.Do] ([land]).  singleflight is
    modelled as it is documented: at most one function in flight per key, callers
    that arrive meanwhile wait and receive its result, and [shared] says whether
    there were any.  [step] lets one caller run its next section; the theorems
    hold for every interleaving of the sections. *)

From S2P Require Import Prelude GoStrings Messages Fs Storage Proxy.
Local Open Scope Z_scope.

Module Flight.
Import Proxy.

(** The calls that go through the group, with their arguments. *)
Inductive op :=
  | OpPut (d : Digest) (data : reader)
  | OpPutFile (ctx : nat → option error) (d : Digest) (source : path)
  | OpGet (d : Digest)
  | OpGetActionResult (d : Digest)
  | OpUpdateActionResult (d : Digest) (a : ActionResult).

Definition digest_of (o : op) : Digest :=
  match o with
  | OpPut d _ | OpPutFile _ d _ | OpGet d | OpGetActionResult d | OpUpdateActionResult d _ => d
  end.

(** The key of the flight. *)
Definition key (o : op) : string :=
  match o with
  | OpPut d _ | OpPutFile _ d _ => "put:" +:+ Hash d
  | OpGet d => Hash d
  | OpGetActionResult d => "ac:" +:+ Hash d
  | OpUpdateActionResult d _ => "ac:update:" +:+ Hash d
  end.

(** The [interface{}] a flight returns, and what a call returns in the end. *)
Inductive iface := INil | IResult (a : ActionResult).
Inductive answer := ADone | AHandle (h : handle) | AResult (a : ActionResult).

Section proxy.
Context `{OS, Remote, Storage.ActionResultPb}.
Implicit Types (p : ProxyStore).

(** A computation on a reader of its own. *)
Definition with_reader {A} (data : reader) (m : PM A) : PM A := λ w,
  m (mkPWorld (set_src data (pw_local w)) (pw_remote w)).

(** Before the flight: [Some] if the call is answered locally. *)
Definition fast p (o : op) : PM (option answer) :=
  match o with
  | OpPut d data =>
      ok ← with_reader data (ptry (on_local (Storage.Has (local p) d)));
      match ok with
      | Ok true => _ ← discard; mret (Some ADone)
      | _ => mret None
      end
  | OpGet d =>
      ok ← ptry (on_local (Storage.Has (local p) d));
      match ok with
      | Ok true => h ← on_local (Storage.Get (local p) d); mret (Some (AHandle h))
      | _ => mret None
      end
  | OpGetActionResult d =>
      res ← ptry (on_local (Storage.GetActionResult (local p) d));
      mret (match res with Ok r => Some (AResult r) | Err _ => None end)
  | OpPutFile _ _ _ | OpUpdateActionResult _ _ => mret None
  end.

(** The function of the flight. *)
Definition fly p (o : op) : PM iface :=
  match o with
  | OpPut d data => _ ← with_reader data (putImpl p d); mret INil
  | OpPutFile ctx d source => _ ← PutFile p ctx d source; mret INil
  | OpGet d =>
      rc ← remote_Get d;
      _ ← on_local (λ w, Storage.Put (local p) d (set_src rc w));
      mret INil
  | OpGetActionResult d =>
      if r_isActionCache then
        r ← remote_GetActionResult d;
        _ ← on_local (ignore (Storage.UpdateActionResult (local p) d r));
        mret (IResult r)
      else pthrow (StatusErr Unimplemented "remote does not support ActionCache")
  | OpUpdateActionResult d a => _ ← UpdateActionResult p d a; mret INil
  end.

(** After the flight; the assertion that a result is an [*ActionResult] panics
    if it is not. *)
Definition land p (o : op) (r : result iface) (shared : bool) : PM answer :=
  _ ← match o with
      | OpPut _ data => if shared then with_reader data discard else mret ()
      | _ => mret ()
      end;
  match r with
  | Err e => pthrow e
  | Ok v =>
      match o, v with
      | OpPut _ _, _ | OpPutFile _ _ _, _ | OpUpdateActionResult _ _, _ => mret ADone
      | OpGet d, _ => h ← on_local (Storage.Get (local p) d); mret (AHandle h)
      | OpGetActionResult _, IResult a => mret (AResult a)
      | OpGetActionResult _, INil => λ w, (None, w)
      end
  end.

(** *** Interleavings *)

(** A reader belongs to its call: [with_reader] starts it from the beginning, also
    where what is left of it is thrown away. *)

(** Where a caller is. *)
Inductive thread :=
  | TStart (o : op)
  | TMiss (o : op)
  | TWait (o : op)
  | TLanded (o : op) (r : result iface) (shared : bool)
  | TDone (o : op) (r : result answer).

(** [flights] lists the callers of each key in flight, the one that runs the
    function first; [log] the functions that have run, with their results. *)
Record system := mkSystem {
  world : PWorld;
  flights : gmap string (list nat);
  threads : gmap nat thread;
  log : list (op * result iface);
}.

Inductive next := Crash | Blocked | Next (s : system).

Definition set_thread (t : nat) (th : thread) (w : PWorld) (s : system) : system :=
  mkSystem w (flights s) (<[t := th]> (threads s)) (log s).

(** The callers [ts] receive the result of their flight. *)
Definition landing (r : result iface) (shared : bool) (th : thread) : thread :=
  match th with TWait o => TLanded o r shared | th => th end.
Definition land_all (ts : list nat) (r : result iface) (m : gmap nat thread) : gmap nat thread :=
  map_imap (λ t th, Some (if bool_decide (t ∈ ts)
                          then landing r (1 <? List.length ts)%nat th else th)) m.

(** The next section of caller [t]. *)
Definition step p (t : nat) (s : system) : next :=
  match threads s !! t with
  | None | Some (TDone _ _) => Blocked
  | Some (TStart o) =>
      match fast p o (world s) with
      | (Some (Ok (Some a)), w) => Next (set_thread t (TDone o (Ok a)) w s)
      | (Some (Ok None), w) => Next (set_thread t (TMiss o) w s)
      | (Some (Err e), w) => Next (set_thread t (TDone o (Err e)) w s)
      | (None, _) => Crash
      end
  | Some (TMiss o) =>
      let ts := default [] (flights s !! key o) ++ [t] in
      Next (mkSystem (world s) (<[key o := ts]> (flights s)) (<[t := TWait o]> (threads s)) (log s))
  | Some (TWait o) =>
      match flights s !! key o with
      | Some (leader :: ts) =>
          if (leader =? t)%nat then
            match fly p o (world s) with
            | (Some r, w) => Next (mkSystem w (delete (key o) (flights s))
                                    (land_all (leader :: ts) r (threads s)) ((o, r) :: log s))
            | (None, _) => Crash
            end
          else Blocked
      | _ => Blocked
      end
  | Some (TLanded o r shared) =>
      match land p o r shared (world s) with
      | (Some r', w) => Next (set_thread t (TDone o r') w s)
      | (None, _) => Crash
      end
  end.

(** Calls may arrive at any time; the janitor and other users of the local store
    change its files between the sections. *)
Inductive event :=
  | ECall (t : nat) (o : op)
  | EStep (t : nat)
  | ELocal (l : World).

Definition event_step p (s : system) (e : event) : next :=
  match e with
  | ECall t o =>
      match threads s !! t with
      | None => Next (set_thread t (TStart o) (world s) s)
      | Some _ => Blocked
      end
  | EStep t => step p t s
  | ELocal l => Next (mkSystem (mkPWorld l (pw_remote (world s))) (flights s) (threads s) (log s))
  end.

(** The hashes of calls are hexadecimal: the server takes no others. *)
Definition hexed (o : op) : Prop := Storage.hex_hash (Hash (digest_of o)).
Definition admissible (e : event) : Prop := match e with ECall _ o => hexed o | _ => True end.

Inductive reachable p (w0 : PWorld) : system → Prop :=
  | reach_start : reachable p w0 (mkSystem w0 ∅ ∅ [])
  | reach_step s e s' :
      reachable p w0 s → admissible e → event_step p s e = Next s' → reachable p w0 s'.

(** The callers run in the order of [l]. *)
Fixpoint run p (l : list nat) (s : system) : option system :=
  match l with
  | [] => Some s
  | t :: l => match step p t s with Next s' => run p l s' | _ => None end
  end.

(** A call with nobody else around. *)
Definition alone p (o : op) : PM answer :=
  a ← fast p o;
  match a with
  | Some a => mret a
  | None => r ← ptry (fly p o); land p o r false
  end.
End proxy.

(** ** A caller alone *)

Section alone.
Context `{OS, Remote, Storage.ActionResultPb}.
Implicit Types (p : ProxyStore).

(** The methods of the store as calls that nobody else overlaps. *)
Definition sequential p (o : op) : PM answer :=
  match o with
  | OpPut d data => _ ← with_reader data (Put p d); mret ADone
  | OpPutFile ctx d source => _ ← PutFile p ctx d source; mret ADone
  | OpGet d => h ← Get p d; mret (AHandle h)
  | OpGetActionResult d => a ← GetActionResult p d; mret (AResult a)
  | OpUpdateActionResult d a => _ ← UpdateActionResult p d a; mret ADone
  end.

Lemma keeps_now : keeps_src now.
Proof using Type. done. Qed.

Lemma Has_keeps_src s d : keeps_src (Storage.Has s d).
Proof using Type.
  unfold Storage.Has, Storage.touch. apply keeps_bind; [by intros w; destruct (Storage.BlobPath _ _)|].
  intros q. apply keeps_bind; [unfold os_Stat; auto with gorego|].
  intros [x|e]; [|destruct (os_IsNotExist e); auto with gorego].
  apply keeps_bind; [|auto with gorego]. destruct (Storage.forceUpdateATime s); [|auto with gorego].
  apply keeps_bind; [apply keeps_now|]. intros t. unfold os_Chtimes. auto with gorego.
Qed.

Lemma set_src_id l : set_src (src l) l = l.
Proof using Type. by destruct l. Qed.

(** Without concurrent callers the flights change nothing: the sections of a
    call, run one after the other, are the method as a whole, for every method
    that uses the group, with the same result, the same files, the same remote. *)
Theorem alone_is_sequential p o w : alone p o w = sequential p o w.
Proof using Type.
  destruct w as [l r]. unfold alone, sequential.
  destruct o as [d data|ctx d source|d|d|d a].
  - unfold fast, fly, land, with_reader, Put, ptry, on_local, mbind, PM_bind. simpl.
    pose proof (Has_keeps_src (local p) d (set_src data l)) as Hs. simpl in Hs.
    destruct (Storage.Has _ _ _) as [[[[]|e]|] l1]; simpl in *; try done.
    + rewrite <- Hs, set_src_id. by destruct (putImpl _ _ _) as [[[]|] ?].
    + rewrite <- Hs, set_src_id. by destruct (putImpl _ _ _) as [[[]|] ?].
  - unfold fast, fly, land, ptry, mbind, PM_bind. simpl.
    by destruct (PutFile _ _ _ _ _) as [[[]|] ?].
  - unfold fast, fly, land, Get, ptry, on_local, mbind, PM_bind. simpl.
    destruct (Storage.Has _ _ _) as [[[[]|e]|] l1]; simpl; try done;
      [by destruct (Storage.Get _ _ _) as [[[]|] ?]| |];
      (destruct (match r_blobs r !! Hash d with Some x => _ | None => _ end) as [rc|e']; [|done]);
      (destruct (Storage.Put _ _ _) as [[[]|] l2]; simpl; try done);
      by destruct (Storage.Get _ _ _) as [[[]|] ?].
  - unfold fast, fly, land, GetActionResult, ptry, on_local, mbind, PM_bind. simpl.
    destruct (Storage.GetActionResult _ _ _) as [[[|e]|] l1]; simpl; try done.
    destruct r_isActionCache; [|done].
    repeat break_match; simplify_eq/=; try done.
  - unfold fast, fly, land, ptry, mbind, PM_bind. simpl.
    by destruct (UpdateActionResult _ _ _ _) as [[[]|] ?].
Qed.
End alone.

(** ** The remote only gains blobs *)

Section remote.
Context `{OS, Remote, Storage.ActionResultPb}.
Implicit Types (p : ProxyStore).

Definition has_remote (h : string) (w : PWorld) : Prop := is_Some (r_blobs (pw_remote w) !! h).
Definition grows {A} (m : PM A) : Prop := ∀ h w, has_remote h w → has_remote h (m w).2.

Lemma grows_ret {A} (a : A) : grows (mret a).
Proof using Type. by intros h w. Qed.
Lemma grows_throw {A} e : grows (pthrow (A := A) e).
Proof using Type. by intros h w. Qed.
Lemma grows_bind {A B} (m : PM A) (k : A → PM B) : grows m → (∀ a, grows (k a)) → grows (m ≫= k).
Proof using Type.
  intros Hm Hk h w Hw. specialize (Hm h w Hw). unfold mbind, PM_bind.
  destruct (m w) as [[[a|e]|] w1]; simpl in *; [by apply Hk|done|done].
Qed.
Lemma grows_try {A} (m : PM A) : grows m → grows (ptry m).
Proof using Type. intros Hm h w Hw. specialize (Hm h w Hw). unfold ptry. by destruct (m w) as [[r|] w1]. Qed.
Lemma grows_local {A} (m : M A) : grows (on_local m).
Proof using Type. intros h w. unfold on_local. by destruct (m (pw_local w)). Qed.
Lemma grows_reader {A} data (m : PM A) : grows m → grows (with_reader data m).
Proof using Type. intros Hm h w Hw. by apply Hm. Qed.

Lemma effect_grows b h seen res r h' :
  is_Some (r_blobs r !! h') → is_Some (r_blobs (remote_effect b h seen res r) !! h').
Proof using Type.
  intros Hh. unfold remote_effect. destruct b, res; simpl; try done. apply lookup_insert_is_Some'. by right.
Qed.

Lemma grows_remote_Put d data : grows (remote_Put d data).
Proof using Type. intros h w. apply effect_grows. Qed.
Lemma grows_remote_Get d : grows (remote_Get d).
Proof using Type. by intros h w. Qed.
Lemma grows_remote_GetActionResult d : grows (remote_GetActionResult d).
Proof using Type. by intros h w. Qed.
Lemma grows_remote_UpdateActionResult d a : grows (remote_UpdateActionResult d a).
Proof using Type. intros h w. unfold remote_UpdateActionResult. by destruct (r_action _). Qed.

Lemma grows_putImpl p d : grows (putImpl p d).
Proof using Type.
  intros h w Hw. unfold putImpl. destruct (Storage.Put _ _ _) as [[r|] l]; simpl; [|done].
  by apply effect_grows.
Qed.

Hint Resolve grows_ret grows_throw grows_bind grows_try grows_local grows_reader grows_remote_Put
  grows_remote_Get grows_remote_GetActionResult grows_remote_UpdateActionResult grows_putImpl : grows.

Lemma grows_put_attempts ctx d source n k r : grows (put_attempts ctx d source k n r).
Proof using Type.
  revert k r. induction n as [|n IH]; intros k r; simpl; [by intros h w|].
  apply grows_bind; [auto with grows|]. intros f. apply grows_bind; [auto with grows|]. intros rd.
  apply grows_bind; [auto with grows|]. intros [|e]; [auto with grows|]. destruct (ctx k); auto with grows.
Qed.
Hint Resolve grows_put_attempts : grows.

Lemma fast_grows p o : grows (fast p o).
Proof using Type.
  destruct o as [d data| |d|d|]; simpl; [|by intros h w| | |by intros h w];
    (apply grows_bind; [auto with grows|]).
  - intros [[]|e]; [|auto with grows..]. apply grows_bind; [apply grows_local|auto with grows].
  - intros [[]|e]; auto with grows.
  - intros [a|e]; auto with grows.
Qed.
Lemma fly_grows p o : grows (fly p o).
Proof using Type.
  destruct o as [d data|ctx d source|d|d|d a]; simpl; unfold PutFile, UpdateActionResult;
    [auto 10 with grows..| |].
  - destruct r_isActionCache; auto 10 with grows.
  - apply grows_bind; [|auto with grows]. apply grows_bind; [|auto with grows].
    destruct r_isActionCache; auto with grows.
Qed.
Lemma land_grows p o r shared : grows (land p o r shared).
Proof using Type.
  unfold land. apply grows_bind.
  - destruct o; auto with grows. destruct shared; auto with grows. apply grows_reader, grows_local.
  - intros _. destruct r as [v|e]; [|auto with grows].
    destruct o, v; try auto with grows; by intros h w.
Qed.

(** *** What a successful flight has done *)

(** The remote answers an upload it has not read to the end with success. *)
Definition vouches : Prop := ∃ n k m, r_put n = Stops k m (Ok ()).

Definition uploads (o : op) : Prop := match o with OpPut _ _ | OpPutFile _ _ _ => True | _ => False end.

Lemma putImpl_uploads p d w w' :
  putImpl p d w = (Some (Ok ()), w') → has_remote (Hash d) w' ∨ vouches.
Proof using Type.
  unfold putImpl. set (b := r_put (r_calls (pw_remote w))).
  destruct (Storage.Put _ _ _) as [[[[]|e]|] l]; try done. intros [= Hres <-]. unfold has_remote. simpl.
  rewrite Hres. unfold remote_effect. destruct b as [k m r|f] eqn:Hb; simpl in Hres.
  - subst r. right. eexists _, k, m. exact Hb.
  - left. simpl. rewrite lookup_insert_eq. by eexists.
Qed.

Lemma fly_uploads p o v w w' :
  (1 ≤ putRetryCount p)%nat → uploads o → fly p o w = (Some (Ok v), w') →
  has_remote (Hash (digest_of o)) w' ∨ vouches.
Proof using Type.
  intros Hn Hu. destruct o as [d data|ctx d source|d|d|d a]; try done; simpl.
  - unfold mbind, PM_bind, with_reader. destruct (putImpl _ _ _) as [[[[]|e]|] w1] eqn:Hp; try done.
    intros [= <- <-]. by eapply putImpl_uploads.
  - unfold mbind, PM_bind, PutFile. unfold mbind, PM_bind. unfold on_local at 1.
    destruct (Storage.PutFile _ _ _ _) as [[[[]|e]|] l]; try done.
    destruct (put_attempts _ _ _ _ _ _ _) as [[[[]|e]|] w1] eqn:Hp; try done. intros [= <- <-].
    destruct (put_attempts_spec _ _ _ _ _ _ _ _ _ Hp) as [_ [[? _]|[(k & m & Hv)|(x & _ & Hx)]]]; [done|lia| |].
    + right. eexists _, k, m. exact Hv.
    + left. by eexists.
Qed.

(** The value a flight returns fits the call that opened it. *)
Lemma fly_value p o v w w' :
  fly p o w = (Some (Ok v), w') →
  match o with OpGetActionResult _ => ∃ a, v = IResult a | _ => v = INil end.
Proof using Type.
  unfold fly, mbind, PM_bind, mret, PM_ret.
  destruct o; repeat break_match; intros; simplify_eq; eauto.
Qed.
End remote.

(** ** No call panics on a hexadecimal hash *)

Definition tame {A} (m : M A) : Prop := ∀ w, (m w).1 ≠ None.
Definition tamed {A} (m : PM A) : Prop := ∀ w, (m w).1 ≠ None.

Section tame.
Context `{OS, Remote, Storage.ActionResultPb}.

Lemma tame_ret {A} (a : A) : tame (mret a : M A).
Proof using Type. done. Qed.
Lemma tame_throw {A} e : tame (throw (A := A) e).
Proof using Type. done. Qed.
Lemma tame_bind {A B} (m : M A) (k : A → M B) : tame m → (∀ a, tame (k a)) → tame (m ≫= k).
Proof using Type.
  intros Hm Hk w. specialize (Hm w). unfold mbind, M_bind.
  destruct (m w) as [[[a|e]|] w1]; simpl in *; [apply Hk|done|done].
Qed.
Lemma tame_try {A} (m : M A) : tame m → tame (try m).
Proof using Type. intros Hm w. specialize (Hm w). unfold try. by destruct (m w) as [[r|] w1]. Qed.
Lemma tame_ignore {A} (m : M A) : tame m → tame (ignore m).
Proof using Type. intros Hm. apply tame_bind; [by apply tame_try|done]. Qed.
Lemma tame_wrap {A} msg (m : M A) : tame m → tame (wrap msg m).
Proof using Type. intros Hm w. specialize (Hm w). unfold wrap. by destruct (m w) as [[[a|e]|] w1]. Qed.
Lemma tame_finally {A} (m : M A) d : tame m → tame (finally m d).
Proof using Type. intros Hm w. specialize (Hm w). unfold finally. by destruct (m w). Qed.
Lemma tame_sys {A} (op : fsys → result (A * fsys)) : tame (sys op).
Proof using Type. intros w. unfold sys. by repeat break_match. Qed.
Lemma tame_write i s : tame (sys_write i s).
Proof using Type. intros w. unfold sys_write. by repeat break_match. Qed.
Lemma tame_mkdirall p : tame (os_MkdirAll p).
Proof using Type. intros w. unfold os_MkdirAll. repeat break_match; try done. apply tame_sys. Qed.
Lemma tame_create_tmp d pre : tame (os_CreateTemp d pre).
Proof using Type. intros w. apply (tame_bind _ _ (tame_sys _) (λ _, tame_ret _)). Qed.
Lemma tame_copy i : tame (io_Copy i).
Proof using Type.
  intros w. unfold io_Copy. generalize (rd_err (src w)) 0. intros e n.
  generalize (rd_chunks (src w)). intros cs. revert n w. induction cs as [|c cs IH]; intros n w; simpl; [by destruct e|].
  apply (tame_bind _ (λ k, copy_loop i cs e (n + k)) (tame_write i c)). intros k w1. apply IH.
Qed.
Lemma tame_drain : tame drain.
Proof using Type. done. Qed.
Lemma tame_callback s : tame (Storage.callback s).
Proof using Type. intros w. unfold Storage.callback. by destruct (Storage.onPutCallback s). Qed.

Hint Resolve tame_ret tame_throw tame_bind tame_try tame_ignore tame_wrap tame_finally tame_sys
  tame_write tame_mkdirall tame_create_tmp tame_copy tame_drain tame_callback : tame.

Lemma tame_path s ns h : plain ns = true → Storage.hex_hash h → tame (or_panic (Storage.hash_path s ns h)).
Proof using Type. intros Hn Hh. rewrite Storage.hash_path_hex by done. apply tame_ret. Qed.
Lemma tame_touch s p : tame (Storage.touch s p).
Proof using Type.
  unfold Storage.touch. destruct (Storage.forceUpdateATime s); [|auto with tame].
  apply tame_bind; [done|unfold os_Chtimes; auto with tame].
Qed.
Hint Resolve tame_path tame_touch : tame.

Lemma tame_Has s d : Storage.hex_hash (Hash d) → tame (Storage.Has s d).
Proof using Type.
  intros Hh. apply tame_bind; [by apply tame_path|]. intros q. unfold os_Stat.
  apply tame_bind; [auto with tame|]. intros [x|e]; [auto with tame|destruct (os_IsNotExist e); auto with tame].
Qed.
Lemma tame_Get s d : Storage.hex_hash (Hash d) → tame (Storage.Get s d).
Proof using Type. intros Hh. apply tame_bind; [by apply tame_path|]. unfold os_Open. auto with tame. Qed.
Lemma tame_GetActionResult s d : Storage.hex_hash (Hash d) → tame (Storage.GetActionResult s d).
Proof using Type.
  intros Hh. apply tame_bind; [by apply tame_path|]. intros q. unfold os_ReadFile, os_Open.
  apply tame_bind; [auto with tame|]. intros data. destruct (Storage.ar_Unmarshal data); auto with tame.
Qed.
Lemma tame_UpdateActionResult s d a : Storage.hex_hash (Hash d) → tame (Storage.UpdateActionResult s d a).
Proof using Type.
  intros Hh. unfold Storage.UpdateActionResult. destruct (Storage.ar_Marshal a); [|auto with tame].
  apply tame_bind; [by apply tame_path|]. intros q. apply tame_bind; [auto with tame|]. intros _.
  apply tame_bind; [auto with tame|]. intros [tmp f]. unfold os_Close, os_Rename. auto 10 with tame.
Qed.
Lemma tame_Put s d : Storage.hex_hash (Hash d) → tame (Storage.Put s d).
Proof using Type.
  intros Hh. apply tame_bind; [by apply tame_path|]. intros q. apply tame_bind; [auto with tame|]. intros _.
  apply tame_bind; [auto with tame|]. intros [tmp f]. apply tame_finally.
  apply tame_bind; [auto with tame|]. intros n. destruct (negb _); unfold os_Close, os_Rename, os_Chmod;
    auto 10 with tame.
Qed.
Lemma tame_PutFile s d source : Storage.hex_hash (Hash d) → tame (Storage.PutFile s d source).
Proof using Type.
  intros Hh. apply tame_bind; [by apply tame_path|]. intros q. unfold os_Stat, os_Link, os_Rename.
  apply tame_bind; [auto with tame|]. intros [x|e]; [auto with tame|].
  apply tame_bind; [auto with tame|]. intros _. apply tame_bind; [done|]. intros t. apply tame_finally.
  apply tame_bind; [auto with tame|]. intros linked. apply tame_bind; [|auto with tame].
  destruct linked; unfold Storage.copy_file, os_Chmod, os_Open, os_Create, os_Close; auto 15 with tame.
Qed.

(** The same through the proxy. *)
Lemma tamed_ret {A} (a : A) : tamed (mret a).
Proof using Type. done. Qed.
Lemma tamed_throw {A} e : tamed (pthrow (A := A) e).
Proof using Type. done. Qed.
Lemma tamed_bind {A B} (m : PM A) (k : A → PM B) : tamed m → (∀ a, tamed (k a)) → tamed (m ≫= k).
Proof using Type.
  intros Hm Hk w. specialize (Hm w). unfold mbind, PM_bind.
  destruct (m w) as [[[a|e]|] w1]; simpl in *; [apply Hk|done|done].
Qed.
Lemma tamed_try {A} (m : PM A) : tamed m → tamed (ptry m).
Proof using Type. intros Hm w. specialize (Hm w). unfold ptry. by destruct (m w) as [[r|] w1]. Qed.
Lemma tamed_local {A} (m : M A) : tame m → tamed (on_local m).
Proof using Type. intros Hm w. specialize (Hm (pw_local w)). unfold on_local. by destruct (m (pw_local w)). Qed.
Lemma tamed_reader {A} data (m : PM A) : tamed m → tamed (with_reader data m).
Proof using Type. intros Hm w. apply Hm. Qed.
Lemma tamed_remote_UpdateActionResult d a : tamed (remote_UpdateActionResult d a).
Proof using Type. intros w. unfold remote_UpdateActionResult. by destruct (r_action _). Qed.
Lemma tamed_putImpl p d : Storage.hex_hash (Hash d) → tamed (putImpl p d).
Proof using Type.
  intros Hh w. unfold putImpl. pose proof (tame_Put (local p) d Hh) as Ht.
  specialize (Ht (set_src (tee_reader (r_put (r_calls (pw_remote w))) (src (pw_local w))) (pw_local w))).
  by destruct (Storage.Put _ _ _) as [[r|] l].
Qed.
Hint Resolve tamed_ret tamed_throw tamed_bind tamed_try tamed_local tamed_reader
  tamed_remote_UpdateActionResult tamed_putImpl : tame.
Hint Resolve tame_Has tame_Get tame_GetActionResult tame_UpdateActionResult tame_Put tame_PutFile : tame.

Lemma tamed_put_attempts ctx d source n k r : tamed (put_attempts ctx d source k n r).
Proof using Type.
  revert k r. induction n as [|n IH]; intros k r; simpl; [done|].
  apply tamed_bind; [unfold os_Open; auto with tame|]. intros f.
  apply tamed_bind; [by apply tamed_local|]. intros rd. apply tamed_bind; [done|].
  intros [|e]; [done|]. by destruct (ctx k).
Qed.

Lemma tamed_fast p o : Storage.hex_hash (Hash (digest_of o)) → tamed (fast p o).
Proof using Type.
  intros Hh. destruct o as [d data| |d|d|]; simpl in *; [|done| | |done];
    (apply tamed_bind; [auto with tame|]).
  - intros [[]|e]; [|auto with tame..]. apply tamed_bind; [apply tamed_local|]; auto with tame.
  - intros [[]|e]; [|auto with tame..]. apply tamed_bind; auto with tame.
  - by intros [a|e].
Qed.

Lemma tamed_fly p o : Storage.hex_hash (Hash (digest_of o)) → tamed (fly p o).
Proof using Type.
  intros Hh. destruct o as [d data|ctx d source|d|d|d a]; simpl in *.
  - auto with tame.
  - apply tamed_bind; [|done]. apply tamed_bind; [auto with tame|]. intros _. apply tamed_put_attempts.
  - apply tamed_bind; [done|]. intros rc. apply tamed_bind; [|done]. apply tamed_local.
    intros w. by apply tame_Put.
  - destruct r_isActionCache; [|done]. apply tamed_bind; [done|]. intros r. apply tamed_bind; auto with tame.
  - apply tamed_bind; [|done]. apply tamed_bind; [destruct r_isActionCache; auto with tame|].
    auto with tame.
Qed.

(** After the flight only the assertion can fail. *)
Lemma tamed_land p o r shared :
  Storage.hex_hash (Hash (digest_of o)) →
  (∀ d, o = OpGetActionResult d → r ≠ Ok INil) → tamed (land p o r shared).
Proof using Type.
  intros Hh Hr. apply tamed_bind.
  - destruct o; auto with tame. destruct shared; auto with tame. apply tamed_reader, tamed_local; auto with tame.
  - intros _. destruct r as [v|e]; [|done]. destruct o, v; simpl in *; auto with tame. by edestruct Hr.
Qed.
End tame.

(** ** The systems that can be reached *)

Definition op_of (th : thread) : op :=
  match th with TStart o | TMiss o | TWait o | TLanded o _ _ | TDone o _ => o end.
(** How many sections a caller has left. *)
Definition rank (th : thread) : nat :=
  match th with TStart _ => 4 | TMiss _ => 3 | TWait _ => 2 | TLanded _ _ _ => 1 | TDone _ _ => 0 end.
Definition done (th : thread) : bool := match th with TDone _ _ => true | _ => false end.
(** In a flight, or with a result of one. *)
Definition aboard (th : thread) : bool :=
  match th with TWait _ | TLanded _ _ _ => true | _ => false end.
Definition waiting (th : thread) : bool := match th with TWait _ => true | _ => false end.

(** Keys of different kinds of calls differ. *)
Definition kind (o : op) : nat :=
  match o with OpPut _ _ | OpPutFile _ _ _ => 0 | OpGet _ => 1 | OpGetActionResult _ => 2
             | OpUpdateActionResult _ _ => 3 end.
Lemma key_inj o o' :
  hexed o → hexed o' → key o = key o' →
  kind o = kind o' ∧ Hash (digest_of o) = Hash (digest_of o').
Proof.
  intros [_ Ho] [_ Ho'] Hk. destruct o, o'; simpl in *; simplify_eq/=; try by split.
  all: match goal with
       | Hh : str_all _ ?h = true, Hk : _ = ?h |- _ => rewrite <- Hk in Hh; discriminate Hh
       | Hh : str_all _ ?h = true, Hk : ?h = _ |- _ => rewrite Hk in Hh; discriminate Hh
       end.
Qed.

Section systems.
Context `{OS, Remote, Storage.ActionResultPb} (p : ProxyStore).

(** The callers of a flight wait for it, the others do not; every result that was
    handed out is of a function that ran under the same key, and the remote has
    lost nothing since. *)
Record inv (s : system) : Prop := mkInv {
  iv_hex t th : threads s !! t = Some th → hexed (op_of th);
  iv_flight k ts : flights s !! k = Some ts →
    ts ≠ [] ∧ NoDup ts ∧ ∀ t, t ∈ ts → ∃ o, threads s !! t = Some (TWait o) ∧ key o = k;
  iv_wait t o : threads s !! t = Some (TWait o) → ∃ ts, flights s !! key o = Some ts ∧ t ∈ ts;
  iv_landed t o r shared : threads s !! t = Some (TLanded o r shared) →
    ∃ o', key o' = key o ∧ (o', r) ∈ log s;
  iv_log o r : (o, r) ∈ log s → hexed o ∧
    ∃ w w', fly p o w = (Some r, w') ∧ ∀ h, has_remote h w' → has_remote h (world s);
}.

Lemma inv_start w : inv (mkSystem w ∅ ∅ []).
Proof using Type.
  split; simpl; [by intros ? ? ?%lookup_empty_Some..|by intros ? ? ? ? ?%lookup_empty_Some|].
  by intros ? ? ?%not_elem_of_nil.
Qed.

(** A caller outside the flights moves on. *)
Lemma inv_set_thread s t th w :
  inv s → (∀ th0, threads s !! t = Some th0 → waiting th0 = false) → aboard th = false →
  hexed (op_of th) → (∀ h, has_remote h (world s) → has_remote h w) → inv (set_thread t th w s).
Proof using Type.
  intros [Hh Hf Hw Hl Hlog] Hold Hth Hx Hg. split; simpl.
  - intros t' th' [[<- <-]|[_ ?]]%lookup_insert_Some; eauto.
  - intros k ts Hk. destruct (Hf k ts Hk) as (? & ? & Hin). split_and!; [done..|].
    intros t' Ht'. destruct (Hin t' Ht') as (o & Ho & Hko). exists o. split; [|done].
    rewrite lookup_insert_ne; [done|]. intros <-. by specialize (Hold _ Ho).
  - intros t' o [[<- ->]|[_ ?]]%lookup_insert_Some; [done|eauto].
  - intros t' o r sh [[<- ->]|[_ ?]]%lookup_insert_Some; [done|eauto].
  - intros o r Ho. destruct (Hlog o r Ho) as (? & w1 & w2 & ? & ?). eauto 10.
Qed.

(** A caller joins. *)
Lemma inv_join s t o :
  inv s → threads s !! t = Some (TMiss o) →
  inv (mkSystem (world s) (<[key o := default [] (flights s !! key o) ++ [t]]> (flights s))
         (<[t := TWait o]> (threads s)) (log s)).
Proof using Type.
  intros [Hh Hf Hw Hl Hlog] Ht.
  assert (∀ ts k, flights s !! k = Some ts → t ∉ ts) as Hout.
  { intros ts k Hk Hin. destruct (Hf k ts Hk) as (_ & _ & Hts). destruct (Hts t Hin) as (? & ? & _). congruence. }
  split; simpl.
  - intros t' th' [[<- <-]|[_ ?]]%lookup_insert_Some; [apply (Hh t _ Ht)|eauto].
  - intros k ts [[<- <-]|[_ Hk]]%lookup_insert_Some.
    + split_and!; [by destruct (default _ _)| |].
      * destruct (flights s !! key o) as [ts|] eqn:Hk; simpl; [|apply NoDup_singleton].
        destruct (Hf _ _ Hk) as (_ & Hnd & _). apply NoDup_app. split_and!; [done| |apply NoDup_singleton].
        intros t' Hin ->%list_elem_of_singleton. by eapply Hout.
      * intros t' [Hin| ->%list_elem_of_singleton]%elem_of_app; [|exists o; by rewrite lookup_insert_eq].
        destruct (flights s !! key o) as [ts|] eqn:Hk; simpl in Hin; [|by apply not_elem_of_nil in Hin].
        destruct (Hf _ _ Hk) as (_ & _ & Hts). destruct (Hts t' Hin) as (o' & ? & ?). exists o'.
        split; [|done]. rewrite lookup_insert_ne; [done|]. intros <-. by eapply Hout.
    + destruct (Hf _ _ Hk) as (? & ? & Hts). split_and!; [done..|]. intros t' Hin.
      destruct (Hts t' Hin) as (o' & ? & ?). exists o'. split; [|done].
      rewrite lookup_insert_ne; [done|]. intros <-. by eapply Hout.
  - intros t' o' [[<- [= <-]]|[? Ht']]%lookup_insert_Some.
    + eexists. rewrite lookup_insert_eq. split; [done|]. apply elem_of_app. right. by left.
    + destruct (Hw t' o' Ht') as (ts & Hk & Hin). destruct (decide (key o' = key o)) as [He|].
      * rewrite He in *. eexists. rewrite lookup_insert_eq, Hk. split; [done|]. apply elem_of_app. by left.
      * exists ts. by rewrite lookup_insert_ne.
  - intros t' o' r sh [[<- [=]]|[_ ?]]%lookup_insert_Some; eauto.
  - done.
Qed.

Lemma land_all_lookup ts r m t :
  land_all ts r m !! t =
  (λ th, if bool_decide (t ∈ ts) then landing r (1 <? List.length ts)%nat th else th) <$> m !! t.
Proof using Type. unfold land_all. rewrite map_lookup_imap. by destruct (m !! t). Qed.

(** A flight ends. *)
Lemma inv_land s o ts r w :
  inv s → flights s !! key o = Some ts → hexed o → fly p o (world s) = (Some r, w) →
  inv (mkSystem w (delete (key o) (flights s)) (land_all ts r (threads s)) ((o, r) :: log s)).
Proof using Type.
  intros [Hh Hf Hw Hl Hlog] Hk Hx Hfly. destruct (Hf _ _ Hk) as (_ & _ & Hts).
  split; simpl.
  - intros t th. rewrite land_all_lookup. intros (th0 & Ht & ->)%fmap_Some.
    specialize (Hh t _ Ht). by destruct (bool_decide _), th0.
  - intros k ts' [Hne Hk']%lookup_delete_Some. destruct (Hf _ _ Hk') as (? & ? & Hts').
    split_and!; [done..|]. intros t Hin. destruct (Hts' t Hin) as (o' & Ht & Hko). exists o'. split; [|done].
    rewrite land_all_lookup, Ht. simpl. rewrite bool_decide_eq_false_2; [done|].
    intros Hin'. destruct (Hts t Hin') as (o'' & Ht' & Hko'). congruence.
  - intros t o'. rewrite land_all_lookup. intros (th0 & Ht & Heq)%fmap_Some. case_bool_decide as Hin.
    { destruct (Hts t Hin) as (o2 & Ht2 & _). rewrite Ht2 in Ht. by simplify_eq/=. }
    subst th0. destruct (Hw t o' Ht) as (ts' & Hk' & Hin'). exists ts'. split; [|done].
    rewrite lookup_delete_ne; [done|]. intros He. rewrite He in Hk. by simplify_eq.
  - intros t o' r' sh. rewrite land_all_lookup. intros (th0 & Ht & Heq)%fmap_Some. case_bool_decide as Hin.
    + destruct (Hts t Hin) as (o2 & Ht2 & Hko). rewrite Ht2 in Ht. simplify_eq/=. exists o. by split; [|left].
    + subst th0. destruct (Hl t o' r' sh Ht) as (o'' & ? & ?). exists o''. by split; [|right].
  - pose proof (λ h, fly_grows p o h (world s)) as Hg. rewrite Hfly in Hg. simpl in Hg.
    intros o' r' [[= -> ->]|Ho']%elem_of_cons; [eauto 10|].
    destruct (Hlog o' r' Ho') as (? & w1 & w2 & ? & ?). eauto 10.
Qed.

Lemma inv_local s l : inv s → inv (mkSystem (mkPWorld l (pw_remote (world s))) (flights s) (threads s) (log s)).
Proof using Type. by intros []. Qed.

Theorem reachable_inv w0 s : reachable p w0 s → inv s.
Proof using Type.
  induction 1 as [|s e s' _ IH Hadm Hstep]; [apply inv_start|].
  destruct e as [t o|t|l]; simpl in Hstep; [| |injection Hstep as <-; by apply inv_local].
  - destruct (threads s !! t) eqn:Ht; [done|]. injection Hstep as <-.
    apply inv_set_thread; auto. congruence.
  - unfold step in Hstep. destruct (threads s !! t) as [th|] eqn:Ht; [|done].
    pose proof (iv_hex s IH t th Ht) as Hx. destruct th as [o|o|o|o r sh|]; [| | | |done]; simpl in Hx.
    + pose proof (λ h, fast_grows p o h (world s)) as Hg.
      destruct (fast p o (world s)) as [[[[a|]|e]|] w]; simplify_eq;
        (apply inv_set_thread; auto; intros; by simplify_eq).
    + injection Hstep as <-. by apply inv_join.
    + destruct (flights s !! key o) as [[|leader ts]|] eqn:Hk; [done| |done].
      destruct (leader =? t)%nat; [|done]. destruct (fly p o (world s)) as [[r|] w] eqn:Hfly; [|done].
      injection Hstep as <-. by apply inv_land.
    + pose proof (λ h, land_grows p o r sh h (world s)) as Hg.
      destruct (land p o r sh (world s)) as [[r'|] w]; [|done]. injection Hstep as <-.
      apply inv_set_thread; auto. intros; by simplify_eq.
Qed.

(** What a caller is given fits its call. *)
Lemma landed_fits s t o v shared :
  inv s → threads s !! t = Some (TLanded o (Ok v) shared) →
  (∀ d, o = OpGetActionResult d → v ≠ INil) ∧
  ((1 ≤ putRetryCount p)%nat → uploads o → has_remote (Hash (digest_of o)) (world s) ∨ vouches).
Proof using Type.
  intros Hi Ht. destruct (iv_landed s Hi t o _ _ Ht) as (o' & Hk & Hlog).
  destruct (iv_log s Hi o' _ Hlog) as (Hx' & w & w' & Hfly & Hg).
  destruct (key_inj o' o Hx' (iv_hex s Hi t _ Ht) Hk) as [Hkind Hh]. split.
  - intros d -> ->. destruct o'; try done. by destruct (fly_value p _ _ _ _ Hfly).
  - intros Hn Hu. rewrite <- Hh. destruct (fly_uploads p o' v w w' Hn) as [?|?]; eauto.
    by destruct o, o'.
Qed.

Lemma landed_tame s t o r shared :
  inv s → threads s !! t = Some (TLanded o r shared) → tamed (land p o r shared).
Proof using Type.
  intros Hi Ht. apply tamed_land; [apply (iv_hex s Hi t _ Ht)|]. intros d Ho ->.
  by destruct (landed_fits s t o _ _ Hi Ht) as [Hf _]; edestruct Hf.
Qed.

(** A caller that is not finished and not behind another one takes its step. *)
Lemma step_next s t th :
  inv s → threads s !! t = Some th → done th = false →
  (∀ o, th = TWait o → ∃ ts, flights s !! key o = Some (t :: ts)) → ∃ s', step p t s = Next s'.
Proof using Type.
  intros Hi Ht Hd Hlead. pose proof (iv_hex s Hi t _ Ht) as Hx. unfold step. rewrite Ht.
  destruct th as [o|o|o|o r sh|]; simpl in Hx; [| | | |done].
  - pose proof (tamed_fast p o Hx (world s)) as Hp.
    destruct (fast p o (world s)) as [[[[a|]|e]|] w]; eauto. done.
  - eauto.
  - destruct (Hlead o eq_refl) as [ts ->]. rewrite Nat.eqb_refl.
    pose proof (tamed_fly p o Hx (world s)) as Hp. destruct (fly p o (world s)) as [[r|] w]; eauto. done.
  - pose proof (landed_tame s t o r sh Hi Ht (world s)) as Hp.
    destruct (land p o r sh (world s)) as [[r'|] w]; eauto. done.
Qed.

Lemma step_not_crash s t : inv s → step p t s ≠ Crash.
Proof using Type.
  intros Hi Hc. unfold step in Hc. destruct (threads s !! t) as [th|] eqn:Ht; [|done].
  destruct (done th) eqn:Hd; [by destruct th|].
  destruct (step_next s t th Hi Ht Hd) as [s' Hs].
  - intros o ->. destruct (flights s !! key o) as [[|t' ts]|]; [done| |done].
    destruct (t' =? t)%nat eqn:E; [|done]. apply Nat.eqb_eq in E as ->. eauto.
  - unfold step in Hs. rewrite Ht in Hs. rewrite Hs in Hc. done.
Qed.

(** A step uses up a section of its caller, and adds none to the others. *)
Lemma step_rank s t s' t' th' :
  inv s → step p t s = Next s' → threads s' !! t' = Some th' →
  ∃ th, threads s !! t' = Some th ∧ (rank th' + (if decide (t = t') then 1 else 0) ≤ rank th)%nat.
Proof using Type.
  intros Hi Hs Ht'. unfold step in Hs. destruct (threads s !! t) as [th|] eqn:Ht; [|done].
  assert (∀ th1, (rank th1 < rank th)%nat → threads s' = <[t := th1]> (threads s) →
    ∃ th, threads s !! t' = Some th ∧ (rank th' + (if decide (t = t') then 1 else 0) ≤ rank th)%nat)
    as Hset.
  { intros th1 Hr Heq. rewrite Heq in Ht'. case_decide as Hd; [subst t'|].
    - rewrite lookup_insert_eq in Ht'. simplify_eq. exists th. split; [done|lia].
    - rewrite lookup_insert_ne in Ht' by done. exists th'. split; [done|lia]. }
  destruct th as [o|o|o|o r sh|]; [| | | |done].
  - destruct (fast p o (world s)) as [[[[a|]|e]|] w]; simplify_eq; (eapply Hset; [|done]; simpl; lia).
  - injection Hs as <-. eapply Hset; [|done]. simpl. lia.
  - destruct (flights s !! key o) as [[|leader ts]|] eqn:Hk; [done| |done].
    destruct (leader =? t)%nat eqn:E; [|done]. apply Nat.eqb_eq in E as ->.
    destruct (fly p o (world s)) as [[r|] w]; [|done]. injection Hs as <-. simpl in Ht'.
    rewrite land_all_lookup in Ht'. apply fmap_Some in Ht' as (th & Hth & ->). exists th. split; [done|].
    case_decide as Hd; [subst t'; simplify_eq; rewrite bool_decide_eq_true_2 by (by left); simpl; lia|].
    case_bool_decide; [destruct th; simpl; lia|lia].
  - destruct (land p o r sh (world s)) as [[r'|] w]; [|done]. injection Hs as <-.
    eapply Hset; [|done]. simpl. lia.
Qed.

Lemma step_dom s t s' : step p t s = Next s' → dom (threads s') = dom (threads s) ∧ t ∈ dom (threads s).
Proof using Type.
  unfold step. intros Hs. destruct (threads s !! t) as [th|] eqn:Ht; [|done].
  pose proof (elem_of_dom_2 _ _ _ Ht) as Hin. split; [|done].
  assert (∀ th1 : thread, dom (<[t := th1]> (threads s)) = dom (threads s)) as Hins by (intros; set_solver).
  destruct th; repeat break_match; simplify_eq/=; try apply Hins.
  unfold land_all. apply dom_imap_L. intros i. rewrite elem_of_dom.
  split; [intros [x Hx]; exists x; by split|by intros (x & -> & _)].
Qed.

(** *** Runs *)

(** Two clients call at the same time. *)
Definition two_calls (w : PWorld) (o0 o1 : op) : system :=
  mkSystem w ∅ {[1%nat := TStart o1; 0%nat := TStart o0]} [].
Lemma reachable_two w o0 o1 : hexed o0 → hexed o1 → reachable p w (two_calls w o0 o1).
Proof using Type.
  intros H0' H1'. apply (reach_step p w (mkSystem w ∅ {[0%nat := TStart o0]} []) (ECall 1 o1)); [|done..].
  by apply (reach_step p w (mkSystem w ∅ ∅ []) (ECall 0 o0)); [constructor|..].
Qed.

Definition occurrences (t : nat) (l : list nat) : nat := List.length (filter (t =.) l).

Lemma reachable_run w0 l s s' : reachable p w0 s → run p l s = Some s' → reachable p w0 s'.
Proof using Type.
  revert s. induction l as [|t l IH]; intros s Hr; simpl; [by intros [= <-]|].
  destruct (step p t s) as [| |s1] eqn:Hs; try done. apply IH.
  apply (reach_step p w0 s (EStep t) s1 Hr I Hs).
Qed.

Lemma run_app l1 l2 s s1 : run p l1 s = Some s1 → run p (l1 ++ l2) s = run p l2 s1.
Proof using Type.
  revert s. induction l1 as [|t l1 IH]; intros s; simpl; [by intros [= ->]|].
  destruct (step p t s); try done. apply IH.
Qed.

Lemma run_dom l s s' :
  run p l s = Some s' → dom (threads s') = dom (threads s) ∧ ∀ t, t ∈ l → t ∈ dom (threads s).
Proof using Type.
  revert s. induction l as [|t l IH]; intros s; simpl.
  { intros [= <-]. split; [done|]. by intros t ?%not_elem_of_nil. }
  destruct (step p t s) as [| |s1] eqn:Hs; try done. intros Hr.
  apply step_dom in Hs as [Hd Hin]. apply IH in Hr as [Hd' Hall]. split; [congruence|].
  intros t' [->|Ht']%elem_of_cons; [done|]. rewrite <- Hd. auto.
Qed.

Lemma run_rank w0 l s s' t th' :
  reachable p w0 s → run p l s = Some s' → threads s' !! t = Some th' →
  ∃ th, threads s !! t = Some th ∧ (rank th' + occurrences t l ≤ rank th)%nat.
Proof using Type.
  revert s. induction l as [|t0 l IH]; intros s Hr; simpl.
  { intros [= <-] Ht. exists th'. split; [done|]. unfold occurrences. simpl. lia. }
  destruct (step p t0 s) as [| |s1] eqn:Hs; try done. intros Hrun Ht.
  destruct (IH s1 (reach_step p w0 s (EStep t0) s1 Hr I Hs) Hrun Ht) as (th1 & Ht1 & Hle1).
  destruct (step_rank s t0 s1 t th1 (reachable_inv _ _ Hr) Hs Ht1) as (th & Hth & Hle).
  exists th. split; [done|]. unfold occurrences in *. rewrite filter_cons.
  repeat case_decide; simplify_eq; simpl; lia.
Qed.

Lemma length_by_occurrences (X : gset nat) n l :
  (∀ t, t ∈ l → t ∈ X) → (∀ t, (occurrences t l ≤ n)%nat) → (List.length l ≤ n * size X)%nat.
Proof using Type.
  revert l. induction X as [|x X Hx IH] using set_ind_L; intros l Hin Hocc.
  { destruct l as [|t l]; [simpl; lia|]. specialize (Hin t). set_solver. }
  rewrite size_union, size_singleton by set_solver.
  assert (List.length l = occurrences x l + List.length (filter (λ y, ¬ x = y) l))%nat as Hl.
  { clear. unfold occurrences. induction l as [|y l IHl]; [done|]. rewrite !filter_cons.
    repeat case_decide; simpl; lia || done. }
  specialize (IH (filter (λ y, ¬ x = y) l)). specialize (Hocc x) as Hxn.
  assert (List.length (filter (λ y, ¬ x = y) l) ≤ n * size X)%nat; [apply IH|lia].
  - intros t [Hne Ht]%list_elem_of_filter. specialize (Hin t Ht). set_solver.
  - intros t. etrans; [|apply (Hocc t)]. unfold occurrences. clear.
    induction l as [|y l IHl]; [done|]. rewrite !filter_cons. repeat case_decide; simpl; try lia.
    all: rewrite filter_cons; repeat case_decide; simpl; lia || done.
Qed.

Lemma run_length w0 l s s' :
  reachable p w0 s → run p l s = Some s' → (List.length l ≤ 4 * size (threads s))%nat.
Proof using Type.
  intros Hr Hrun. destruct (run_dom l s s' Hrun) as [Hd Hin]. rewrite <- size_dom.
  apply length_by_occurrences; [done|]. intros t. destruct (decide (t ∈ l)) as [Ht|Ht].
  - specialize (Hin t Ht). rewrite <- Hd in Hin. apply elem_of_dom in Hin as [th' Ht'].
    destruct (run_rank w0 l s s' t th' Hr Hrun Ht') as (th & _ & Hle). destruct th; simpl in Hle; lia.
  - unfold occurrences. replace (filter _ l) with (@nil nat); [simpl; lia|]. symmetry.
    clear -Ht. induction l as [|y l IHl]; [done|]. rewrite filter_cons_False; set_solver.
Qed.

(** Somebody can go on: an unfinished caller, or the one it waits for. *)
Lemma progress s t th :
  inv s → threads s !! t = Some th → done th = false → ∃ t' s', step p t' s = Next s'.
Proof using Type.
  intros Hi Ht Hd. destruct (waiting th) eqn:Hw.
  - destruct th as [| |o| |]; try done. destruct (iv_wait s Hi t o Ht) as (ts & Hk & _).
    destruct (iv_flight s Hi _ ts Hk) as (Hne & _ & Hts). destruct ts as [|t' ts]; [done|].
    destruct (Hts t') as (o' & Ht' & Hko); [by left|]. exists t'. eapply step_next; [done|done|done|].
    intros o2 [= <-]. rewrite Hko. eauto.
  - exists t. eapply step_next; [done|done|done|]. by intros o ->.
Qed.

Lemma all_return w0 n s :
  reachable p w0 s → (∀ l s', run p l s = Some s' → (List.length l ≤ n)%nat) →
  ∃ l s', run p l s = Some s' ∧ map_Forall (λ _ th, done th = true) (threads s').
Proof using Type.
  revert s. induction n as [|n IH]; intros s Hr Hb.
  all: destruct (decide (map_Forall (λ _ th, done th = true) (threads s))) as [Hall|Hn];
    [by exists [], s|];
    apply map_not_Forall in Hn as (t & th & Ht & Hd%not_true_is_false); [|intros ??; apply _];
    destruct (progress s t th (reachable_inv _ _ Hr) Ht Hd) as (t' & s1 & Hs).
  - specialize (Hb [t'] s1). simpl in Hb. rewrite Hs in Hb. specialize (Hb eq_refl). lia.
  - destruct (IH s1) as (l & s2 & Hrun & Hall).
    + apply (reach_step p w0 s (EStep t') s1 Hr I Hs).
    + intros l s' Hrun. specialize (Hb (t' :: l) s'). simpl in Hb. rewrite Hs in Hb. specialize (Hb Hrun). lia.
    + exists (t' :: l), s2. simpl. by rewrite Hs.
Qed.
End systems.

(** ** The properties *)

Section properties.
Context `{OS, Remote, Storage.ActionResultPb}.
Implicit Types (p : ProxyStore).



(** A failure is shared as well.  When the [Put] or [PutFile] that leads a
    flight fails, because its client broke off for instance, every [Put] that has
    joined fails with the same error, after its own data has been read and thrown
    away: the remote and the local files are as the leader left them. *)
Theorem merged_put_shares_failure p w0 s o leader ts t d data e w :
  reachable p w0 s → flights s !! key o = Some (leader :: ts) → threads s !! leader = Some (TWait o) →
  t ∈ ts → threads s !! t = Some (TWait (OpPut d data)) → fly p o (world s) = (Some (Err e), w) →
  ∃ s', run p [leader; t] s = Some s' ∧
    threads s' !! t = Some (TDone (OpPut d data) (Err e)) ∧
    pw_remote (world s') = pw_remote w ∧ fs (pw_local (world s')) = fs (pw_local w) ∧
    rd_chunks (src (pw_local (world s'))) = [].
Proof using Type.
  intros Hr%reachable_inv Hk Hlead Hin Ht Hfly.
  destruct (iv_flight p s Hr _ _ Hk) as (_ & Hnd & _). apply NoDup_cons in Hnd as [Hnin _].
  destruct ts as [|t1 ts]; [by apply not_elem_of_nil in Hin|]. simpl. unfold step at 1.
  rewrite Hlead, Hk, Nat.eqb_refl, Hfly. unfold step. simpl.
  rewrite land_all_lookup, Ht. simpl. rewrite bool_decide_eq_true_2 by (by right). simpl.
  eexists. split_and!; [done|apply lookup_insert_eq|done..].
Qed.

(** A merged update is lost.  Two calls of [UpdateActionResult] for one action
    that overlap share the flight, also when their results differ: if the first
    one is stored, both report success, and whatever the second one's result is,
    the remote and the local store are as if it had not been made. *)
Theorem merged_update_is_dropped p d a b w w' :
  Storage.hex_hash (Hash d) → UpdateActionResult p d a w = (Some (Ok ()), w') →
  ∃ s, reachable p w s ∧ world s = w' ∧
    threads s !! 0%nat = Some (TDone (OpUpdateActionResult d a) (Ok ADone)) ∧
    threads s !! 1%nat = Some (TDone (OpUpdateActionResult d b) (Ok ADone)).
Proof using Type.
  intros Hh Hup. set (oa := OpUpdateActionResult d a). set (ob := OpUpdateActionResult d b).
  set (s0 := two_calls w oa ob). assert (reachable p w s0) as Hr by by apply reachable_two.
  assert (fly p oa w = (Some (Ok INil), w')) as Hfly.
  { simpl. unfold mbind, PM_bind. by rewrite Hup. }
  assert (∃ s, run p [0; 1; 0; 1; 0; 0; 1]%nat s0 = Some s ∧ world s = w' ∧
    threads s !! 0%nat = Some (TDone oa (Ok ADone)) ∧ threads s !! 1%nat = Some (TDone ob (Ok ADone)))
    as (s & Hrun & Hs); [|exists s; split; [by eapply reachable_run|done]].
  unfold run, step, s0, two_calls; simpl.
  repeat (progress (simplify_map_eq; rewrite ?land_all_lookup; simpl) || rewrite Hfly).
  eexists. split_and!; [done..| |]; simpl; by simplify_map_eq.
Qed.
End properties.

(** ** Concrete instances *)

Module Demo.
Import Schedules Storage.Demo Proxy.Demo.
#[local] Existing Instance calm.
#[local] Instance steady : Remote := drains_but 7.

(** Two uploads of one blob overlap: the client of the first breaks off. *)
Definition broken := OpPut digest (mkReader ["he"] (Some (ErrIO "broken off"))).
Definition intact := OpPut digest (mkReader ["he"; "llo"] None).
Definition both (o0 o1 : op) : system := two_calls w0 o0 o1.
Definition after (l : list nat) (s : system) : system := default s (run p l s).

Lemma after_reachable o0 o1 l :
  hexed o0 → hexed o1 → reachable p w0 (after l (both o0 o1)).
Proof.
  intros H0 H1. unfold after. destruct (run p l _) as [s|] eqn:Hrun; simpl; [|by apply reachable_two].
  eapply reachable_run; [|exact Hrun]. by apply reachable_two.
Qed.


(** The second caller stores the blob of both. *)
Definition stored := after [0; 1; 1; 0; 1]%nat (both broken intact).
Example stored_remotely : r_blobs (pw_remote (Flight.world stored)) !! "abcdef0123" = Some "hello".
Proof. vm_compute. reflexivity. Qed.

Definition waits := after [0; 1; 0; 1]%nat (both broken intact).
Definition failure : error := Wrapped "failed to write data" (ErrIO "broken off").
Lemma merged_put_shares_failure_witness :
  ∃ s', run p [0; 1]%nat waits = Some s' ∧ threads s' !! 1%nat = Some (TDone intact (Err failure)).
Proof.
  destruct (merged_put_shares_failure p w0 waits broken 0 [1%nat] 1 digest
    (mkReader ["he"; "llo"] None) failure (fly p broken (Flight.world waits)).2) as (s' & Hrun & Hs & _).
  - apply after_reachable; exact digest_hex.
  - vm_compute. reflexivity.
  - vm_compute. reflexivity.
  - left.
  - vm_compute. reflexivity.
  - rewrite (surjective_pairing (fly p broken (Flight.world waits))) at 1. f_equal; vm_compute; reflexivity.
  - exists s'. split; [exact Hrun|exact Hs].
Defined.

(** Two different results for one action; the codec of the example stores only
    the first, the second is dropped before it is looked at. *)
Definition ar1 : ActionResult := mkActionResult [] [] 1 None None.
Definition update1 := UpdateActionResult p digest ar0 w0.
Lemma merged_update_is_dropped_witness :
  ∃ s, Flight.world s = update1.2 ∧
    threads s !! 1%nat = Some (TDone (OpUpdateActionResult digest ar1) (Ok ADone)).
Proof.
  destruct (merged_update_is_dropped p digest ar0 ar1 w0 update1.2) as (s & _ & Hw & _ & Hs).
  - exact digest_hex.
  - rewrite (surjective_pairing update1) at 1. f_equal; vm_compute; reflexivity.
  - exists s. split; [exact Hw|exact Hs].
Defined.
End Demo.
End Flight.
