(* ===== verification/Blobs.v ===== *)
(** [storage.BlobStore], the interface between the stores and the services: its
    operations as a class, what its clients rely on as the laws of a second
    class, and the local and the proxy store as instances of both. *)

From S2P Require Import Prelude GoStrings Messages Fs Storage Proxy.
Local Open Scope Z_scope.

Module Blobs.
Import Storage Proxy.

(** ** The interface *)

(** [W] is the state of the world; [None] is a panic. *)
Class BlobStore (W : Type) := {
  st_Has : Digest → W → option (result bool) * W;
  st_Put : Digest → reader → W → option (result unit) * W;
}.

(** Laws for the digests of the SDK.  [holds h w]: there is a blob of hash [h];
    [sane] is the invariant the operations need and keep. *)
Class BlobStoreLaws (W : Type) `{BlobStore W} := {
  sane : W → Prop;
  holds : string → W → Prop;
  Has_law d w :
    sane w → hex_hash (Hash d) →
    ∃ r w', st_Has d w = (Some r, w') ∧ sane w' ∧
      (∀ h, hex_hash h → holds h w' ↔ holds h w) ∧
      (∀ b, r = Ok b → b = true ↔ holds (Hash d) w);
  Put_law d data w :
    sane w → hex_hash (Hash d) →
    ∃ r w', st_Put d data w = (Some r, w') ∧ sane w' ∧
      (∀ h, hex_hash h → holds h w → holds h w') ∧
      (r = Ok () → holds (Hash d) w');
}.

(** ** The local store *)

(** A computation that makes no directory outside [X]. *)
Definition no_new_dir {A} (X : path → Prop) (m : M A) : Prop :=
  ∀ w p, tree (fs (m w).2) !! p = Some NDir → X p ∨ tree (fs w) !! p = Some NDir.

Section no_new_dir.
Context (X : path → Prop).

Lemma dir_ret {A} (a : A) : no_new_dir X (mret a : M A).
Proof using Type. by right. Qed.
Lemma dir_throw {A} e : no_new_dir X (throw (A := A) e).
Proof using Type. by right. Qed.
Lemma dir_panic {A} : no_new_dir X (panic (A := A)).
Proof using Type. by right. Qed.
Lemma dir_bind {A B} (m : M A) (k : A → M B) :
  no_new_dir X m → (∀ a, no_new_dir X (k a)) → no_new_dir X (m ≫= k).
Proof using Type.
  intros Hm Hk w p. specialize (Hm w p). unfold mbind, M_bind.
  destruct (m w) as [[[a|e]|] w1]; simpl in *; [|done|done].
  intros [?|?]%Hk; [by left|auto].
Qed.
Lemma dir_try {A} (m : M A) : no_new_dir X m → no_new_dir X (try m).
Proof using Type. intros Hm w p. specialize (Hm w p). unfold try. by destruct (m w) as [[r|] w1]. Qed.
Lemma dir_ignore {A} (m : M A) : no_new_dir X m → no_new_dir X (ignore m).
Proof using Type. intros Hm. apply dir_bind; [by apply dir_try|intros; apply dir_ret]. Qed.
Lemma dir_wrap {A} msg (m : M A) : no_new_dir X m → no_new_dir X (wrap msg m).
Proof using Type.
  intros Hm w p. specialize (Hm w p). unfold wrap. by destruct (m w) as [[[a|e]|] w1].
Qed.
Lemma dir_finally {A} (m : M A) d : no_new_dir X m → no_new_dir X d → no_new_dir X (finally m d).
Proof using Type.
  intros Hm Hd w p. specialize (Hm w p). unfold finally. destruct (m w) as [r w1]. simpl in *.
  intros [?|?]%Hd; [by left|auto].
Qed.
Lemma dir_or_panic {A} (o : option A) : no_new_dir X (or_panic o).
Proof using Type. destruct o; [apply dir_ret|apply dir_panic]. Qed.

Context `{OS}.

(** System calls that leave the directories alone. *)
Lemma dir_sys {A} (op : fsys → result (A * fsys)) :
  (∀ f a f' p, op f = Ok (a, f') → tree f' !! p = Some NDir → tree f !! p = Some NDir) →
  no_new_dir X (sys op).
Proof using Type.
  intros Hop w p. unfold sys. destruct (fault (tick w)) as [[e n]|]; [by right|].
  destruct (op (fs w)) as [[a f]|e] eqn:E; [|by right]. simpl. right. by eapply Hop.
Qed.
Lemma dir_write i s : no_new_dir X (sys_write i s).
Proof using Type.
  intros w p. unfold sys_write. right.
  assert (∀ x, tree (fs_append i x (fs w)) = tree (fs w)) as Ht
    by (intros x; unfold fs_append; by destruct (inodes (fs w) !! i)).
  destruct (fault (tick w)) as [[e n]|]; simpl in *; by rewrite Ht in *.
Qed.
Lemma dir_update q g : no_new_dir X (sys (fs_update q g)).
Proof using Type.
  apply dir_sys. intros f a f' p. unfold fs_update.
  destruct (tree f !! q) as [[|i]|]; [by intros [= <- <-]| |done].
  destruct (inodes f !! i); [by intros [= <- <-]|done].
Qed.
Lemma dir_remove q : no_new_dir X (os_Remove q).
Proof using Type.
  apply dir_sys. intros f a f' p. unfold fs_remove.
  destruct (tree f !! q) as [[|i]|]; [done| |done]. intros [= <- <-]. simpl.
  by intros [_ ?]%lookup_delete_Some.
Qed.
Lemma dir_rename q q' : no_new_dir X (os_Rename q q').
Proof using Type.
  apply dir_sys. intros f a f' p. unfold fs_rename.
  destruct (tree f !! q) as [[|i]|]; [done| |done].
  assert (∀ t : gmap path node, <[q':=NFile i]> (delete q t) !! p = Some NDir → t !! p = Some NDir) as Hi.
  { intros t [[_ [=]]|[_ [_ ?]%lookup_delete_Some]]%lookup_insert_Some. done. }
  destruct (tree f !! q') as [[|k]|]; [done| |].
  - destruct (k =? i)%nat; intros [= <- <-]; [done|apply Hi].
  - destruct (has_parent q' f); intros [= <- <-]. apply Hi.
Qed.
Lemma dir_create_tmp d pre : no_new_dir X (os_CreateTemp d pre).
Proof using Type.
  intros w. apply (dir_bind (sys _)); [|intros; apply dir_ret]. apply dir_sys.
  intros f a f' p. unfold fs_create_excl.
  destruct (tree f !! _); [done|]. destruct (has_parent _ f); [|done]. intros [= <- <-]. simpl.
  by intros [[_ [=]]|[_ ?]]%lookup_insert_Some.
Qed.
Lemma dir_copy i : no_new_dir X (io_Copy i).
Proof using Type.
  intros w. unfold io_Copy. generalize (rd_chunks (src w)) at 1. intros cs.
  enough (∀ n w, no_new_dir X (copy_loop i cs (rd_err (src w)) n)) as Hc by apply Hc.
  clear w. intros n w. generalize (rd_err (src w)). intros err. clear w. revert n.
  induction cs as [|c cs IH]; intros n; simpl.
  - destruct err; [apply dir_throw|apply dir_ret].
  - intros w. exact (dir_bind (sys_write i c) _ (dir_write i c) (λ k, IH (n + k)%Z)
      (set_src (mkReader cs err) w)).
Qed.
Lemma dir_mkdirall q : (∀ p, p ∈ ancestors q → X p) → no_new_dir X (os_MkdirAll q).
Proof using Type.
  intros HX w p. unfold os_MkdirAll.
  assert (∀ ps f f' u, (∀ p, p ∈ ps → X p) → fs_mkdirs ps f = Ok (u, f') →
    tree f' !! p = Some NDir → X p ∨ tree f !! p = Some NDir) as Hm.
  { intros ps f f' u Hps. unfold fs_mkdirs, mbind, result_bind.
    destruct (mkdirs ps (tree f)) as [t|] eqn:E; [|done]. intros [= <- <-]. simpl.
    destruct (mkdirs_lookup _ _ _ p E) as [->|(_ & _ & Hin)]; [by right|left; auto]. }
  destruct (fault (tick w)) as [[e n]|] eqn:Hf; simpl.
  - destruct (fs_mkdirs (take n (ancestors q)) (fs w)) as [[u f]|e'] eqn:E; simpl; [|by right].
    eapply Hm; [|exact E]. intros p' Hp'. apply HX. eapply subseteq_take, Hp'.
  - unfold sys. rewrite Hf. destruct (fs_mkdirs (ancestors q) (fs w)) as [[u f]|e'] eqn:E; simpl;
      [|by right]. by eapply Hm.
Qed.
End no_new_dir.

#[export] Hint Resolve dir_ret dir_throw dir_panic dir_bind dir_try dir_ignore dir_wrap dir_finally
  dir_or_panic dir_write dir_update dir_remove dir_rename dir_create_tmp dir_copy dir_mkdirall
  : gorego.

Definition blob_of (s : LocalStore) (h : string) : path := hash_dir (rootDir s) "cas" h ++ [h].

(** No directory sits where a blob would be. *)
Definition local_sane (s : LocalStore) (w : World) : Prop :=
  wf (fs w) ∧ ∀ h, hex_hash h → tree (fs w) !! blob_of s h ≠ Some NDir.

Definition local_holds (s : LocalStore) (h : string) (w : World) : Prop :=
  is_Some (file_at (blob_of s h) (fs w)).

Section local.
Context `{OS} (s : LocalStore).

(** Checking a blob changes no file but for its access time. *)
Lemma touch_frame p w :
  tree (fs (touch s p w).2) = tree (fs w) ∧
  ∀ i, is_Some (inodes (fs (touch s p w).2) !! i) ↔ is_Some (inodes (fs w) !! i).
Proof using Type.
  unfold touch. destruct (forceUpdateATime s); [|done].
  unfold ignore, mbind, M_bind, now, try, os_Chtimes, sys.
  destruct (fault (tick w)) as [[]|]; simpl; [done|].
  unfold fs_chtimes, fs_update. destruct (tree (fs w) !! p) as [[|i]|]; simpl; try done.
  destruct (inodes (fs w) !! i) as [x|] eqn:Hi; simpl; [|done]. split; [done|]. intros j.
  destruct (decide (i = j)) as [<-|]; [|by rewrite lookup_insert_ne].
  rewrite lookup_insert_eq, Hi. split; by eexists.
Qed.

Lemma Has_frame d w :
  hex_hash (Hash d) →
  tree (fs (Storage.Has s d w).2) = tree (fs w) ∧
  ∀ i, is_Some (inodes (fs (Storage.Has s d w).2) !! i) ↔ is_Some (inodes (fs w) !! i).
Proof using Type.
  intros Hh. unfold Storage.Has. rewrite BlobPath_hex by done.
  unfold mbind, M_bind, or_panic, mret, M_ret, try, os_Stat, sys.
  destruct (fault (tick w)) as [[e n]|] eqn:Hf.
  { by rewrite (fault_exists _ _ _ Hf). }
  unfold fs_stat. destruct (tree (fs w) !! blob_path s d) as [x|] eqn:Ht; [|done].
  destruct (touch_same s (blob_path s d) (observe (fs w) w)) as (_ & _ & Ht1).
  pose proof (touch_frame (blob_path s d) (observe (fs w) w)) as Hfr.
  destruct (touch _ _ _) as [r w'] eqn:E. simpl in *. by subst r.
Qed.

Lemma file_at_frame (f f' : fsys) p :
  tree f' = tree f → (∀ i, is_Some (inodes f' !! i) ↔ is_Some (inodes f !! i)) →
  is_Some (file_at p f') ↔ is_Some (file_at p f).
Proof using Type.
  intros Ht Hi. unfold file_at. rewrite Ht. destruct (tree f !! p) as [[|i]|]; [done|apply Hi|done].
Qed.

Lemma frame_sane w w' :
  tree (fs w') = tree (fs w) →
  (∀ i, is_Some (inodes (fs w') !! i) ↔ is_Some (inodes (fs w) !! i)) →
  local_sane s w → local_sane s w'.
Proof using Type.
  intros Ht Hi [Hwf Hnd]. split; [|by rewrite Ht].
  intros p i. rewrite Ht. intros Hp. apply Hi. by eapply Hwf.
Qed.

(** What [Has] sees. *)
Lemma holds_present h w :
  local_sane s w → hex_hash h →
  local_holds s h w ↔ is_Some (tree (fs w) !! blob_of s h).
Proof using Type.
  intros [Hwf Hnd] Hh. unfold local_holds, file_at. specialize (Hnd h Hh).
  destruct (tree (fs w) !! blob_of s h) as [[|i]|] eqn:Ht; [done| |done].
  split; [by eexists|]. intros _. by eapply Hwf.
Qed.

Lemma local_Has d w :
  local_sane s w → hex_hash (Hash d) →
  ∃ r w', Storage.Has s d w = (Some r, w') ∧ local_sane s w' ∧
    (∀ h, hex_hash h → local_holds s h w' ↔ local_holds s h w) ∧
    (∀ b, r = Ok b → b = true ↔ local_holds s (Hash d) w).
Proof using Type.
  intros Hs Hh. destruct (Has_frame d w Hh) as [Ht Hi]. pose proof (Has_spec s d w Hh) as Hspec.
  destruct (Storage.Has s d w) as [r w']. simpl in *.
  assert (∃ r', r = Some r' ∧ ∀ b, r' = Ok b → b = true ↔ local_holds s (Hash d) w)
    as (r' & -> & Hb).
  { destruct Hspec as [->|[_ [e ->]]]; eexists; (split; [done|]); [|done].
    intros b [= <-]. rewrite bool_decide_eq_true. by rewrite (holds_present (Hash d) w). }
  exists r', w'. split_and!; [done|by eapply frame_sane| |done].
  intros h _. by apply file_at_frame.
Qed.

Lemma blob_of_not_ancestor h h' : blob_of s h' ∉ ancestors (hash_dir (rootDir s) "cas" h).
Proof using Type.
  unfold ancestors. rewrite list_elem_of_fmap. intros (n & Heq & _).
  apply (f_equal List.length) in Heq. rewrite length_take in Heq.
  unfold blob_of, hash_dir in Heq. rewrite !length_app in Heq. simpl in Heq. lia.
Qed.

Lemma blob_of_not_tmp h h' :
  hex_hash h' → ¬ is_tmp (hash_dir (rootDir s) "cas" h) "cas-tmp-" (blob_of s h').
Proof using Type. intros Hh' [x Hx]. symmetry in Hx. revert Hx. apply tmp_not_blob; [apply Hh'|done]. Qed.

Lemma Put_no_new_dir d :
  hex_hash (Hash d) →
  no_new_dir (λ p, p ∈ ancestors (hash_dir (rootDir s) "cas" (Hash d))) (Storage.Put s d).
Proof using Type.
  intros Hh. unfold Storage.Put. rewrite BlobPath_hex by done.
  assert (∀ (x : path) (k : path → M unit), (or_panic (Some x) ≫= k) = k x) as -> by done.
  rewrite Dir_blob_path.
  apply dir_bind; [by apply dir_wrap, dir_mkdirall|intros _].
  apply dir_bind; [apply dir_wrap, dir_create_tmp|intros [tmp i]].
  assert (∀ X, no_new_dir X os_Close) as Hclose by (intros X; apply dir_sys; naive_solver).
  assert (∀ X, no_new_dir X (callback s)) as Hcb
    by (intros X w p; unfold callback; destruct (onPutCallback s); by right).
  apply dir_finally; [|by apply dir_bind; eauto with gorego].
  apply dir_bind; [eauto with gorego|intros n]. destruct (negb _); [apply dir_throw|].
  repeat (apply dir_bind; [apply dir_wrap; first [apply Hclose|apply dir_rename|apply dir_update]|intros _]).
  apply Hcb.
Qed.

Lemma local_Put d data w :
  local_sane s w → hex_hash (Hash d) →
  ∃ r w', Storage.Put s d (set_src data w) = (Some r, w') ∧ local_sane s w' ∧
    (∀ h, hex_hash h → local_holds s h w → local_holds s h w') ∧
    (r = Ok () → local_holds s (Hash d) w').
Proof using Type.
  intros [Hwf Hnd] Hh. set (w0 := set_src data w).
  pose proof (Put_no_new_dir d Hh w0) as Hdir.
  destruct (Put_wp s d w0 Hh Hwf) as [_ (r & Hr & Hpub)].
  destruct (Storage.Put s d w0) as [o w']. simpl in *. subst o.
  exists r, w'. split; [done|]. destruct Hpub as [Hwf' [_ Hvis] Hoth Hres].
  change (blob_path s d) with (blob_of s (Hash d)) in *.
  split; [split; [done|]|split].
  - intros h Hhex Ht. destruct (Hdir _ Ht) as [Hin|?]; [|by apply (Hnd h)].
    by apply blob_of_not_ancestor in Hin.
  - intros h Hhex. unfold local_holds. destruct (decide (h = Hash d)) as [->|Hne].
    + intros [x Hx]. unfold bytes_at in Hvis.
      destruct (file_at (blob_of s (Hash d)) (fs w')); [by eexists|].
      unfold w0 in Hvis. simpl in Hvis. rewrite Hx in Hvis. by destruct Hvis as [?|[_ ?]].
    + destruct (Hoth (blob_of s h)) as [->|[Htmp _]]; [|done|].
      * unfold blob_of. by intros [_ [= ?]]%app_inj_2.
      * by apply blob_of_not_tmp in Htmp.
  - intros ->. destruct Hres as (_ & (x & Hx & _) & _). by exists x.
Qed.

#[export] Instance local_blobs : BlobStore World := {|
  st_Has d w := Storage.Has s d w;
  st_Put d data w := Storage.Put s d (set_src data w);
|}.

#[export] Instance local_laws : BlobStoreLaws World := {|
  sane := local_sane s;
  holds := local_holds s;
  Has_law := local_Has;
  Put_law := local_Put;
|}.
End local.

(** ** The proxy store *)

Section proxy.
Context `{OS, Remote, ActionResultPb} (p : ProxyStore).

Definition proxy_sane (w : PWorld) : Prop := local_sane (local p) (pw_local w).

(** A blob is there if it is cached or the remote has it. *)
Definition proxy_holds (h : string) (w : PWorld) : Prop :=
  local_holds (local p) h (pw_local w) ∨ is_Some (r_blobs (pw_remote w) !! h).

Lemma local_holds_fs h w w' : fs w' = fs w → local_holds (local p) h w' ↔ local_holds (local p) h w.
Proof using Type. unfold local_holds. by intros ->. Qed.

Lemma local_sane_fs w w' : fs w' = fs w → local_sane (local p) w → local_sane (local p) w'.
Proof using Type. unfold local_sane. by intros ->. Qed.

Lemma proxy_Has d w :
  proxy_sane w → hex_hash (Hash d) →
  ∃ r w', Proxy.Has p d w = (Some r, w') ∧ proxy_sane w' ∧
    (∀ h, hex_hash h → proxy_holds h w' ↔ proxy_holds h w) ∧
    (∀ b, r = Ok b → b = true ↔ proxy_holds (Hash d) w).
Proof using Type.
  intros Hs Hh. destruct (local_Has (local p) d (pw_local w) Hs Hh) as (r & l & Hr & Hs' & Hk & Hb).
  unfold Proxy.Has, mbind, PM_bind, on_local. rewrite Hr. unfold proxy_holds.
  destruct r as [[]|e]; unfold mret, PM_ret, remote_Has; simpl; eexists _, _; (split; [done|]); simpl.
  - split_and!; [done|intros h Hhex; by rewrite Hk|]. intros b [= <-]. specialize (Hb _ eq_refl). tauto.
  - split_and!; [done|intros h Hhex; by rewrite Hk|]. intros b Hr'. specialize (Hb _ eq_refl).
    destruct (r_has _); [done|]. injection Hr' as <-. rewrite bool_decide_eq_true.
    naive_solver.
  - split_and!; [done|intros h Hhex; by rewrite Hk|done].
Qed.

(** The remote only gains blobs. *)
Lemma remote_effect_mono b h seen res r k :
  is_Some (r_blobs r !! k) → is_Some (r_blobs (remote_effect b h seen res r) !! k).
Proof using Type.
  unfold remote_effect. destruct b, res; simpl; try done.
  destruct (decide (h = k)) as [->|]; [by rewrite lookup_insert_eq|by rewrite lookup_insert_ne].
Qed.

Lemma proxy_putImpl d w :
  proxy_sane w → hex_hash (Hash d) →
  ∃ r w', putImpl p d w = (Some r, w') ∧ proxy_sane w' ∧
    (∀ h, hex_hash h → proxy_holds h w → proxy_holds h w') ∧
    (r = Ok () → proxy_holds (Hash d) w').
Proof using Type.
  intros Hs Hh. pose proof Hs as [Hwf _].
  destruct (putImpl_spec p d w Hh Hwf) as (res & l & Hput & Himpl).
  destruct (local_Put (local p) d (tee_reader (r_put (r_calls (pw_remote w))) (src (pw_local w)))
    (pw_local w) Hs Hh) as (res' & l' & Hput' & Hs' & Hmono & Hok).
  rewrite Hput in Hput'. injection Hput' as <- <-. unfold proxy_holds.
  destruct res as [[]|e].
  - destruct Himpl as (seen & _ & ->). eexists _, _. split; [done|]. split; [done|]. simpl. split.
    + intros h Hhex [?|?]; [left; auto|right; by apply remote_effect_mono].
    + intros _. left. auto.
  - destruct Himpl as (seen & ->). eexists _, _. split; [done|]. split; [done|]. simpl. split; [|done].
    intros h Hhex [?|?]; [left; auto|right; by apply remote_effect_mono].
Qed.

Lemma proxy_Put d data w :
  proxy_sane w → hex_hash (Hash d) →
  ∃ r w', Proxy.Put p d (mkPWorld (set_src data (pw_local w)) (pw_remote w)) = (Some r, w') ∧
    proxy_sane w' ∧
    (∀ h, hex_hash h → proxy_holds h w → proxy_holds h w') ∧
    (r = Ok () → proxy_holds (Hash d) w').
Proof using Type.
  intros Hs Hh. set (l0 := set_src data (pw_local w)).
  assert (local_sane (local p) l0) as Hs0 by by eapply local_sane_fs.
  destruct (local_Has (local p) d l0 Hs0 Hh) as (r & l & Hr & Hs1 & Hk & Hb).
  assert (∀ h, hex_hash h → proxy_holds h w → proxy_holds h (mkPWorld l (pw_remote w))) as Hmono.
  { intros h Hhex [Hl|?]; [left|by right]. by apply Hk. }
  unfold Proxy.Put, mbind, PM_bind, ptry, on_local. simpl. fold l0. rewrite Hr. simpl.
  destruct r as [[]|e].
  2, 3: destruct (proxy_putImpl d (mkPWorld l (pw_remote w)) Hs1 Hh) as (r & w' & Hp & ? & ? & ?);
    exists r, w'; split_and!; auto.
  unfold discard, on_local, ignore, mbind, M_bind, try, drain. simpl.
  destruct (rd_err (src l)); (eexists _, _; split; [done|]);
    (split_and!; simpl; [by eapply local_sane_fs| |]).
  1, 3: intros h Hhex Hh'; by destruct (Hmono h Hhex Hh'); [left|right].
  all: intros _; left; apply (Hk _ Hh); by apply (Hb true).
Qed.

#[export] Instance proxy_blobs : BlobStore PWorld := {|
  st_Has d w := Proxy.Has p d w;
  st_Put d data w := Proxy.Put p d (mkPWorld (set_src data (pw_local w)) (pw_remote w));
|}.

#[export] Instance proxy_laws : BlobStoreLaws PWorld := {|
  sane := proxy_sane;
  holds := proxy_holds;
  Has_law := proxy_Has;
  Put_law := proxy_Put;
|}.
End proxy.

End Blobs.
