(* ===== verification/ByteStream.v ===== *)
(** The ByteStream service (src/pkg/server/bytestream.go): resource names, the
    read loop with offset and limit, and the upload handler with its pipe.

    The blob store behind the service is an interface: a [Read] gets what its
    [Get] returned, a [Write] talks to a [Put] of some [Proxy.behaviour].  zstd
    (a library) is the class [Zstd]. *)

From S2P Require Import Prelude GoStrings Messages Fs Storage Proxy.
Local Open Scope Z_scope.

Module ByteStream.
Import Storage Proxy.

Definition readBufferSize : Z := 64 * 1024.

(** ** Resource names *)

Definition slash (a b : string) : string := a +:+ String "/" b.

(** The two regular expressions, as the set of their matches: [pre] is what
    [(?:^|.*/)] skips, the groups are [T], [H] and [D]. *)
Definition boundary (pre : string) : Prop := pre = "" ∨ ∃ q, pre = slash q "".

Definition groups_ok (T H D : string) : Prop :=
  (T = "blobs" ∨ T = "compressed-blobs/zstd") ∧
  (H ≠ "" ∧ str_all is_hex H = true) ∧ (D ≠ "" ∧ str_all is_digit D = true).

Definition readResourceRegex (name T H D : string) : Prop :=
  groups_ok T H D ∧ ∃ pre, boundary pre ∧ name = pre +:+ slash T (slash H D).

Definition writeResourceRegex (name T H D : string) : Prop :=
  groups_ok T H D ∧ ∃ pre u, boundary pre ∧ u ≠ "" ∧ contains_byte "/" u = false ∧
    name = pre +:+ slash "uploads" (slash u (slash T (slash H D))).

(** A matcher: the path segments of the name, last one first. *)
Definition find_type (segs : list string) : option (string * list string) :=
  match segs with
  | t :: segs =>
      if (t =? "blobs")%string then Some ("blobs", segs)
      else match segs with
           | c :: segs => if (t =? "zstd")%string && (c =? "compressed-blobs")%string
                          then Some ("compressed-blobs/zstd", segs) else None
           | [] => None
           end
  | [] => None
  end.

Definition find_upload (segs : list string) : bool :=
  match segs with
  | u :: c :: _ => negb (u =? "")%string && (c =? "uploads")%string
  | _ => false
  end.

Definition FindStringSubmatch (isWrite : bool) (name : string) : option (string * string * string) :=
  match rev (split_byte "/" name) with
  | D :: H :: segs =>
      if negb (H =? "")%string && str_all is_hex H && negb (D =? "")%string && str_all is_digit D then
        match find_type segs with
        | Some (T, rest) => if negb isWrite || find_upload rest then Some (T, H, D) else None
        | None => None
        end
      else None
  | _ => None
  end.

Definition parseResourceName (name : string) (isWrite : bool) : result (Digest * bool) :=
  match FindStringSubmatch isWrite name with
  | None => Err (StatusErr InvalidArgument "invalid resource name")
  | Some (typeStr, hash, sizeStr) =>
      match ParseInt_digits sizeStr with
      | Err _ => Err (StatusErr InvalidArgument "invalid size in resource name")
      | Ok size => Ok (mkDigest hash size, HasPrefix typeStr "compressed-blobs")
      end
  end.

(** ** [Read] *)

Record ReadRequest := mkReadRequest { rr_ResourceName : string; ReadOffset : Z; ReadLimit : Z }.

(** zstd as a transformation of streams; its output has no error of its own. *)
Class Zstd := {
  zstd_encode : reader → reader;
  zstd_decode : string → result string;
}.

(** One [Read(buf[:n])] of a reader, [n > 0]: a chunk, or a part of it. *)
Definition read_some (n : Z) (r : reader) : (string * option error) * reader :=
  match rd_chunks r with
  | [] => (("", Some (match rd_err r with Some e => e | None => EOF end)), r)
  | c :: cs =>
      if Z.of_nat (String.length c) <=? n then ((c, None), mkReader cs (rd_err r))
      else ((str_take (Z.to_nat n) c, None),
            mkReader (str_drop (Z.to_nat n) c :: cs) (rd_err r))
  end.

(** The loop; [send k] is the error of the [k]-th [stream.Send]. *)
Fixpoint read_loop (fuel : nat) (send : nat → option error) (limit totalSent : Z) (r : reader)
    (sent : list string) : option (result unit * list string) :=
  if negb (totalSent <? limit) then Some (Ok (), sent)
  else match fuel with
  | O => None
  | S fuel =>
      let toRead := Z.min readBufferSize (limit - totalSent) in
      let '((data, err), r) := read_some toRead r in
      let n := Z.of_nat (String.length data) in
      match (if 0 <? n then send (List.length sent) else None) with
      | Some e => Some (Err e, sent)
      | None =>
          let sent := if 0 <? n then sent ++ [data] else sent in
          match err with
          | None => read_loop fuel send limit (totalSent + n) r sent
          | Some EOF => Some (Ok (), sent)
          | Some _ => Some (Err (StatusErr Internal "read error"), sent)
          end
      end
  end.

(** Enough iterations for a reader. *)
Definition read_fuel (r : reader) : nat :=
  (String.length (rd_all r) + List.length (rd_chunks r) + 1)%nat.

(** [io.CopyN(io.Discard, r, n)]: fails with [EOF] if there is less. *)
Definition skip (n : Z) (r : reader) : result reader :=
  if Z.of_nat (String.length (rd_all r)) <? n
  then Err (match rd_err r with Some e => e | None => EOF end)
  else Ok (mkReader [str_drop (Z.to_nat n) (rd_all r)] (rd_err r)).

(** [Seek(n, io.SeekStart)] on a file, which may go beyond the end. *)
Definition seek (n : Z) (r : reader) : reader :=
  mkReader [str_drop (Z.to_nat n) (rd_all r)] (rd_err r).

Definition Read `{Zstd, GrpcStatus} (seekable : bool) (get : Digest → result reader)
    (send : nat → option error) (req : ReadRequest) : option (result unit * list string) :=
  match parseResourceName (rr_ResourceName req) false with
  | Err e => Some (Err e, [])
  | Ok (dg, isCompressed) =>
      match get dg with
      | Err e =>
          if os_IsNotExist e || bool_decide (status_Code e = NotFound)
          then Some (Err (StatusErr NotFound "blob not found"), [])
          else Some (Err (StatusErr Internal "failed to get blob"), [])
      | Ok rc =>
          let reader := if isCompressed then zstd_encode rc else rc in
          let positioned :=
            if 0 <? ReadOffset req then
              if isCompressed then
                match skip (ReadOffset req) reader with
                | Err _ => Err (StatusErr Internal "failed to skip offset in compressed stream")
                | Ok r => Ok r
                end
              else if seekable then Ok (seek (ReadOffset req) reader)
              else match skip (ReadOffset req) reader with
                   | Err _ => Err (StatusErr Internal "failed to skip offset")
                   | Ok r => Ok r
                   end
            else Ok reader in
          match positioned with
          | Err e => Some (Err e, [])
          | Ok reader =>
              let limit := if 0 <? ReadLimit req then ReadLimit req else max_int64 in
              read_loop (read_fuel reader) send limit 0 reader []
          end
      end
  end.

(** ** [Write] *)

Record WriteRequest := mkWriteRequest {
  wr_ResourceName : string;
  WriteOffset : Z;
  wr_Data : string;
  FinishWrite : bool;
}.

(** What [stream.Recv] returns; the end of the list is [io.EOF]. *)
Inductive recv := Msg (r : WriteRequest) | RecvErr (e : error).

(** How the handler ends: with a committed size or an error, stuck in a write to
    a pipe that nobody reads, or with the panic of the store's [Put], which runs in
    a goroutine of its own and takes the process down. *)
Inductive outcome :=
  | Returned (r : result Z)
  | Blocked
  | Crashed.

(** The store's [Put] in its goroutine: it panics, or it treats the pipe as a
    [behaviour]. *)
Inductive putter := Panics | Puts (b : behaviour).

(** Does a [Put] of this behaviour take the [n]-th chunk written to the pipe? *)
Definition takes (b : behaviour) (n : nat) : bool :=
  match b with Stops k _ _ => (n <? k)%nat | Drains _ => true end.

(** The receive loop.  [started] is the digest and the running [Put] once the
    first message has been handled, [data] the chunks the pipe has passed on. *)
Fixpoint write_loop (put : Digest → bool → putter) (msgs : list recv)
    (started : option (Digest * bool * behaviour)) (data : list string)
    : outcome + (option (Digest * bool * behaviour) * list string) :=
  match msgs with
  | [] => inr (started, data)
  | RecvErr e :: _ => inl (Returned (Err e))
  | Msg req :: msgs =>
      let begun :=
        match started with
        | Some s => inr s
        | None =>
            if (wr_ResourceName req =? "")%string
            then inl (Returned (Err (StatusErr InvalidArgument "missing resource name in first message")))
            else if 0 <? WriteOffset req
            then inl (Returned (Err (StatusErr InvalidArgument "resumable uploads not supported")))
            else match parseResourceName (wr_ResourceName req) true with
                 | Err e => inl (Returned (Err e))
                 | Ok (dg, isCompressed) =>
                     match put dg isCompressed with
                     | Panics => inl Crashed
                     | Puts b => inr (dg, isCompressed, b)
                     end
                 end
        end in
      match begun with
      | inl o => inl o
      | inr (dg, c, b) =>
          let written :=
            if (wr_Data req =? "")%string then Some data
            else if takes b (List.length data) then Some (data ++ [wr_Data req]) else None in
          match written with
          | None => inl Blocked
          | Some data =>
              if FinishWrite req then inr (Some (dg, c, b), data)
              else write_loop put msgs (Some (dg, c, b)) data
          end
      end
  end.

(** After the loop the pipe is closed and the handler waits for the [Put]; [done]
    is the error of a context that ends first. *)
Definition Write `{Zstd} (put : Digest → bool → putter) (done : option error) (msgs : list recv)
    : outcome :=
  match write_loop put msgs None [] with
  | inl o => o
  | inr (None, _) => Returned (Err (StatusErr InvalidArgument "never received resource name"))
  | inr (Some (dg, isCompressed, b), data) =>
      match done with
      | Some e => Returned (Err e)
      | None =>
          let raw := foldr String.append "" data in
          let res :=
            if isCompressed
            then match zstd_decode raw with
                 | Ok plain => remote_result b plain None
                 | Err e => remote_result b "" (Some e)
                 end
            else remote_result b raw None in
          match res with
          | Err e => Returned (Err (StatusErr Internal "store put failed"))
          | Ok _ => Returned (Ok (Z.of_nat (String.length raw)))
          end
      end
  end.

Definition QueryWriteStatus (name : string) : result unit :=
  Err (StatusErr Unimplemented "QueryWriteStatus not implemented").

(** ** Lemmas: resource names *)

Lemma split_slash a b : split_byte "/" (slash a b) = split_byte "/" a ++ split_byte "/" b.
Proof. apply split_byte_app_sep. Qed.

Lemma no_slash_hex s : str_all is_hex s = true → contains_byte "/" s = false.
Proof. by apply contains_byte_hex. Qed.
Lemma no_slash_digits s : str_all is_digit s = true → contains_byte "/" s = false.
Proof. by apply digits_no_byte. Qed.

Lemma split_boundary pre s :
  boundary pre → ∃ before, split_byte "/" (pre +:+ s) = before ++ split_byte "/" s.
Proof.
  intros [->|[q ->]]; [by exists []|]. exists (split_byte "/" q). unfold slash.
  rewrite <- str_app_assoc. simpl. apply split_byte_app_sep.
Qed.

(** The segments before the last ones, put back together. *)
Lemma join_slash_app before s xs :
  join_byte "/" (before ++ s :: xs) = 
  match before with [] => join_byte "/" (s :: xs)
  | _ => slash (join_byte "/" before) (join_byte "/" (s :: xs)) end.
Proof.
  induction before as [|b before IH]; [done|]. destruct before as [|b' before]; [done|].
  change (join_byte "/" ((b :: b' :: before) ++ s :: xs)) with
    (b +:+ String "/" (join_byte "/" ((b' :: before) ++ s :: xs))).
  rewrite IH. unfold slash. simpl. by rewrite <- str_app_assoc.
Qed.

Lemma boundary_before before s xs :
  ∃ pre, boundary pre ∧ join_byte "/" (before ++ s :: xs) = pre +:+ join_byte "/" (s :: xs).
Proof.
  rewrite join_slash_app. destruct before as [|b before]; [by exists ""; split; [left|]|].
  exists (slash (join_byte "/" (b :: before)) ""). split; [by right; eexists|].
  unfold slash. by rewrite <- str_app_assoc.
Qed.

Lemma find_type_spec segs T rest :
  find_type segs = Some (T, rest) ↔
  (T = "blobs" ∧ segs = "blobs" :: rest) ∨
  (T = "compressed-blobs/zstd" ∧ segs = "zstd" :: "compressed-blobs" :: rest).
Proof.
  unfold find_type. split.
  - destruct segs as [|t segs]; [done|]. destruct (t =? "blobs")%string eqn:Ht.
    { apply String.eqb_eq in Ht as ->. intros [= <- <-]. by left. }
    destruct segs as [|c segs]; [done|]. destruct (_ && _) eqn:E; [|done]. to_prop. subst.
    intros [= <- <-]. by right.
  - by intros [[-> ->]|[-> ->]].
Qed.

(** The segments that the groups of a match contribute, last one first. *)
Definition type_segs (T : string) : list string :=
  if (T =? "blobs")%string then ["blobs"] else ["zstd"; "compressed-blobs"].

Lemma find_type_segs T rest :
  T = "blobs" ∨ T = "compressed-blobs/zstd" → find_type (type_segs T ++ rest) = Some (T, rest).
Proof. by intros [->| ->]. Qed.

Lemma split_type_segs T :
  T = "blobs" ∨ T = "compressed-blobs/zstd" → split_byte "/" T = rev (type_segs T).
Proof. by intros [->| ->]. Qed.

(** What the matcher accepts, as a list of segments. *)
Lemma FindStringSubmatch_segs isWrite name T H D :
  FindStringSubmatch isWrite name = Some (T, H, D) ↔
  groups_ok T H D ∧ ∃ rest, rev (split_byte "/" name) = D :: H :: type_segs T ++ rest ∧
    (isWrite = true → ∃ u rest', rest = u :: "uploads" :: rest' ∧ u ≠ "").
Proof.
  unfold FindStringSubmatch, groups_ok. split.
  - destruct (rev _) as [|D' [|H' segs]]; [done|done|]. destruct (_ && _) eqn:E; [|done]. to_prop.
    destruct (find_type segs) as [[T' rest]|] eqn:Ht; [|done].
    destruct (negb isWrite || find_upload rest) eqn:Hw; [|done]. intros [= <- <- <-].
    assert (groups_ok T' H' D' ∧ segs = type_segs T' ++ rest) as [Hg ->].
    { apply find_type_spec in Ht as [[-> ->]|[-> ->]]; split; try done; split_and!; auto. }
    split; [exact Hg|]. exists rest. split; [done|]. intros ->. simpl in Hw.
    destruct rest as [|u [|c rest]]; try done. simpl in Hw. to_prop. subst. eauto.
  - intros [(HT & (HH & HHx) & HD & HDx) (rest & -> & Hw)].
    rewrite (proj2 (String.eqb_neq H "")), (proj2 (String.eqb_neq D "")), HHx, HDx by done. simpl.
    rewrite find_type_segs by done. destruct isWrite; [|done].
    destruct (Hw eq_refl) as (u & rest' & -> & Hu). simpl.
    by rewrite (proj2 (String.eqb_neq u "")).
Qed.

Lemma rev_split name segs rest :
  rev (split_byte "/" name) = segs ++ rest →
  name = join_byte "/" (rev rest ++ rev segs).
Proof.
  intros Hr. rewrite <- (join_split_byte "/" name), <- (rev_involutive (split_byte "/" name)), Hr.
  by rewrite rev_app_distr.
Qed.

Lemma segs_of_tail T H D :
  groups_ok T H D → rev (split_byte "/" (slash T (slash H D))) = D :: H :: type_segs T.
Proof.
  intros (HT & (_ & HH) & (_ & HD)). rewrite !split_slash, (split_type_segs T HT).
  rewrite (split_byte_no_sep "/" H) by by apply no_slash_hex.
  rewrite (split_byte_no_sep "/" D) by by apply no_slash_digits.
  rewrite !rev_app_distr, rev_involutive. done.
Qed.

Lemma join_tail T H D :
  T = "blobs" ∨ T = "compressed-blobs/zstd" →
  join_byte "/" (rev (type_segs T) ++ [H; D]) = slash T (slash H D).
Proof. by intros [->| ->]. Qed.

Lemma read_regex_iff name T H D :
  FindStringSubmatch false name = Some (T, H, D) ↔ readResourceRegex name T H D.
Proof.
  rewrite FindStringSubmatch_segs. unfold readResourceRegex. split; intros [Hg Hx]; (split; [done|]).
  - destruct Hx as (rest & Hr & _). apply (rev_split name (D :: H :: type_segs T)) in Hr as ->.
    simpl. rewrite <- app_assoc, <- (join_tail T H D) by apply Hg. simpl.
    destruct (rev (type_segs T) ++ [H; D]) as [|s xs] eqn:E; [by destruct (rev (type_segs T))|].
    replace ((rev (type_segs T) ++ [H]) ++ [D]) with (s :: xs) by (rewrite <- E; by rewrite <- app_assoc).
    apply boundary_before.
  - destruct Hx as (pre & Hpre & ->). destruct (split_boundary pre (slash T (slash H D)) Hpre) as [b ->].
    exists (rev b). rewrite rev_app_distr, segs_of_tail by done. done.
Qed.

Lemma write_regex_iff name T H D :
  FindStringSubmatch true name = Some (T, H, D) ↔ writeResourceRegex name T H D.
Proof.
  rewrite FindStringSubmatch_segs. unfold writeResourceRegex. split; intros [Hg Hx]; (split; [done|]).
  - destruct Hx as (rest & Hr & Hup). destruct (Hup eq_refl) as (u & rest' & -> & Hu).
    assert (contains_byte "/" u = false) as Hns.
    { apply (split_byte_pieces "/" name), list_elem_of_In, in_rev. rewrite Hr. simpl.
      right; right. apply in_or_app. right. by left. }
    apply (rev_split name (D :: H :: type_segs T)) in Hr as ->. simpl.
    rewrite <- !app_assoc. simpl.
    destruct (boundary_before (rev rest') "uploads" (u :: rev (type_segs T) ++ [H; D])) as (pre & Hb & Hj).
    exists pre, u. split_and!; [done|done|done|]. rewrite Hj. f_equal.
    rewrite <- (join_tail T H D) by apply Hg. unfold slash. simpl.
    destruct (rev (type_segs T) ++ [H; D]) eqn:E; [by destruct (rev (type_segs T))|done].
  - destruct Hx as (pre & u & Hpre & Hu & Hns & ->).
    destruct (split_boundary pre (slash "uploads" (slash u (slash T (slash H D)))) Hpre) as [b ->].
    rewrite rev_app_distr, split_slash, rev_app_distr, split_slash, rev_app_distr.
    rewrite segs_of_tail by done. rewrite (split_byte_no_sep "/" u) by done. simpl.
    exists (u :: "uploads" :: rev b). rewrite <- !app_assoc. simpl. split; [done|]. intros _. eauto.
Qed.

(** ** Lemmas: reading *)

Lemma str_take_length n s : (n ≤ String.length s)%nat → String.length (str_take n s) = n.
Proof. revert s. induction n as [|n IH]; intros [|a s] Hs; simpl in *; try lia. f_equal. apply IH. lia. Qed.

Lemma str_drop_length n s : String.length (str_drop n s) = (String.length s - n)%nat.
Proof. revert s. induction n as [|n IH]; intros [|a s]; simpl; try lia. apply IH. Qed.

Lemma str_take_app_ge n a b :
  (String.length a ≤ n)%nat → str_take n (a +:+ b) = a +:+ str_take (n - String.length a) b.
Proof.
  revert n. induction a as [|x a IH]; intros n; simpl; [by rewrite Nat.sub_0_r|].
  destruct n as [|n]; [lia|]. intros Hn. simpl. by rewrite IH by lia.
Qed.

Lemma str_take_all n s : (String.length s ≤ n)%nat → str_take n s = s.
Proof. intros Hn. rewrite <- (str_app_nil_r s) at 1. rewrite str_take_app_ge by done.
  destruct (n - _)%nat; simpl; apply str_app_nil_r. Qed.

Definition concat_str (l : list string) : string := foldr String.append "" l.

(** One message of the right size per iteration, until the limit or the end. *)
Lemma read_loop_spec send limit fuel r total sent :
  (∀ k, send k = None) → rd_err r = None → 0 ≤ total → (read_fuel r ≤ fuel)%nat →
  ∃ out, read_loop fuel send limit total r sent = Some (Ok (), sent ++ out) ∧
    concat_str out = str_take (Z.to_nat (limit - total)) (rd_all r) ∧
    Forall (λ m, 0 < Z.of_nat (String.length m) ≤ readBufferSize) out.
Proof.
  intros Hsend. revert r total sent. induction fuel as [|fuel IH]; intros r total sent Herr Ht Hf.
  { unfold read_fuel in Hf. lia. }
  simpl. destruct (total <? limit) eqn:Hlim; simpl; to_prop.
  2: { exists []. rewrite app_nil_r. replace (Z.to_nat (limit - total)) with 0%nat by lia. done. }
  destruct r as [[|c cs] err]; simpl in Herr; subst err; unfold read_some; simpl.
  { exists []. rewrite app_nil_r. split_and!; [done| |done]. by destruct (Z.to_nat _). }
  set (toRead := Z.min readBufferSize (limit - total)).
  assert (0 < toRead ≤ readBufferSize ∧ toRead ≤ limit - total) as [Htr Htl].
  { unfold toRead, readBufferSize. lia. }
  unfold read_fuel, rd_all in Hf. simpl in Hf. rewrite str_length_app in Hf.
  fold (concat_str cs) in Hf.
  destruct (Z.of_nat (String.length c) <=? toRead) eqn:Hc; to_prop; cbn [fst snd].
  - rewrite Hsend. destruct (IH (mkReader cs None) (total + Z.of_nat (String.length c))
      (if 0 <? Z.of_nat (String.length c) then sent ++ [c] else sent)) as (out & Hl & Hcat & Hall);
      [done|lia|unfold read_fuel, rd_all; simpl; fold (concat_str cs); lia|].
    destruct (0 <? Z.of_nat (String.length c)) eqn:Hpos; to_prop.
    + exists (c :: out). rewrite Hl, <- app_assoc. split_and!; [done| |].
      * unfold rd_all. simpl. fold (concat_str out) (concat_str cs). rewrite Hcat.
        rewrite str_take_app_ge by lia. unfold rd_all. simpl. do 2 f_equal. lia.
      * apply Forall_cons. split; [lia|done].
    + exists out. split_and!; [done| |done]. rewrite Hcat. unfold rd_all. simpl.
      destruct c; [|simpl in Hpos; lia]. simpl. do 2 f_equal. lia.
  - set (n := Z.to_nat toRead). assert (String.length (str_take n c) = n) as Hlen
      by (apply str_take_length; lia).
    rewrite Hlen, Hsend. rewrite (proj2 (Z.ltb_lt 0 (Z.of_nat n))) by lia.
    destruct (IH (mkReader (str_drop n c :: cs) None) (total + Z.of_nat n) (sent ++ [str_take n c]))
      as (out & Hl & Hcat & Hall); [done|lia| |].
    { unfold read_fuel, rd_all. simpl. fold (concat_str cs).
      rewrite str_length_app, str_drop_length. lia. }
    exists (str_take n c :: out). rewrite Hl, <- app_assoc. split_and!; [done| |].
    + change (concat_str (str_take n c :: out)) with (str_take n c +:+ concat_str out).
      rewrite Hcat. change (rd_all (mkReader (str_drop n c :: cs) None)) with (str_drop n c +:+ concat_str cs).
      change (rd_all (mkReader (c :: cs) None)) with (c +:+ concat_str cs).
      replace (c +:+ concat_str cs) with (str_take n c +:+ (str_drop n c +:+ concat_str cs))
        by (by rewrite str_app_assoc, str_take_drop).
      rewrite (str_take_app_ge _ (str_take n c)) by (rewrite Hlen; lia).
      rewrite Hlen. do 2 f_equal. lia.
    + apply Forall_cons. split; [rewrite Hlen; lia|done].
Qed.

(** ** Lemmas: writing *)

(** The chunks a client's messages carry, up to the end of the upload. *)
Fixpoint upload (msgs : list WriteRequest) : list string :=
  match msgs with
  | [] => []
  | m :: msgs =>
      let d := if (wr_Data m =? "")%string then [] else [wr_Data m] in
      if FinishWrite m then d else d ++ upload msgs
  end.

(** A [Put] that reads to the end gets every chunk. *)
Lemma write_loop_drains put dg c f msgs data :
  write_loop put (Msg <$> msgs) (Some (dg, c, Drains f)) data =
  inr (Some (dg, c, Drains f), data ++ upload msgs).
Proof.
  revert data. induction msgs as [|m msgs IH]; intros data; simpl; [by rewrite app_nil_r|].
  destruct (wr_Data m =? "")%string eqn:Hd; simpl.
  - destruct (FinishWrite m); [by rewrite app_nil_r|]. apply IH.
  - destruct (FinishWrite m); [done|]. rewrite IH, <- app_assoc. done.
Qed.

(** A [Put] that stops after [k] chunks leaves the next one in the pipe. *)
Lemma write_loop_stops put dg c k m res msgs data :
  (List.length data ≤ k)%nat → (k < List.length data + List.length (upload msgs))%nat →
  write_loop put (Msg <$> msgs) (Some (dg, c, Stops k m res)) data = inl Blocked.
Proof.
  revert data. induction msgs as [|r msgs IH]; intros data Hle Hlt; simpl in *; [lia|].
  destruct (wr_Data r =? "")%string eqn:Hd; simpl in *.
  - destruct (FinishWrite r); [simpl in *; lia|]. by apply IH.
  - destruct (List.length data <? k)%nat eqn:Hk; to_prop; [|done].
    destruct (FinishWrite r); simpl in *; [lia|].
    apply IH; rewrite ?length_app; simpl; lia.
Qed.

(** The handler's first message starts the [Put]. *)
Lemma Write_first `{Zstd} put done r msgs dg b :
  parseResourceName (wr_ResourceName r) true = Ok (dg, false) → WriteOffset r ≤ 0 →
  put dg false = Puts b →
  Write put done (Msg <$> r :: msgs) =
  match write_loop put (Msg <$> r :: msgs) (Some (dg, false, b)) [] with
  | inl o => o
  | inr (_, data) =>
      match done with
      | Some e => Returned (Err e)
      | None => match remote_result b (concat_str data) None with
                | Err e => Returned (Err (StatusErr Internal "store put failed"))
                | Ok _ => Returned (Ok (Z.of_nat (String.length (concat_str data))))
                end
      end
  end.
Proof.
  intros Hp Ho Hput. unfold Write. simpl.
  assert (wr_ResourceName r ≠ "") as Hn by (intros Hn; by rewrite Hn in Hp).
  rewrite (proj2 (String.eqb_neq _ _) Hn), (proj2 (Z.ltb_ge _ _) Ho), Hp, Hput.
  assert (∀ ms data, match write_loop put (Msg <$> ms) (Some (dg, false, b)) data with
    | inl _ => True | inr (s, _) => s = Some (dg, false, b) end) as Hs.
  { induction ms as [|q ms IH]; intros data; simpl; [done|].
    destruct (wr_Data q =? "")%string; [|destruct (takes b (List.length data)); [|done]];
      (destruct (FinishWrite q); [done|apply IH]). }
  destruct (wr_Data r =? "")%string; [|destruct (takes b 0); [|done]];
    (destruct (FinishWrite r); [done|]).
  - specialize (Hs msgs []). destruct (write_loop _ _ _ _) as [|[s data]]; [done|]. by subst s.
  - specialize (Hs msgs ([] ++ [wr_Data r])). simpl in *.
    destruct (write_loop _ _ _ _) as [|[s data]]; [done|]. by subst s.
Qed.

(** ** The properties *)

(** C35: the matcher of resource names accepts exactly the strings of the two
    regular expressions, with the same groups. *)
Theorem resource_name_regex name T H D :
  (FindStringSubmatch false name = Some (T, H, D) ↔ readResourceRegex name T H D) ∧
  (FindStringSubmatch true name = Some (T, H, D) ↔ writeResourceRegex name T H D).
Proof. split; [apply read_regex_iff|apply write_regex_iff]. Qed.

(** C20: a [Read] of an uncompressed blob from a seekable store terminates and
    sends exactly the bytes from the offset on, up to the limit if one is given,
    in messages of at most 64 KiB, none of them empty. *)
Theorem read_sends_slice `{Zstd, GrpcStatus} get send req dg rc :
  parseResourceName (rr_ResourceName req) false = Ok (dg, false) →
  get dg = Ok rc → rd_err rc = None → (∀ k, send k = None) → 0 ≤ ReadOffset req →
  Z.of_nat (String.length (rd_all rc)) ≤ max_int64 →
  ∃ sent, Read true get send req = Some (Ok (), sent) ∧
    concat_str sent =
      (let rest := str_drop (Z.to_nat (ReadOffset req)) (rd_all rc) in
       if 0 <? ReadLimit req then str_take (Z.to_nat (ReadLimit req)) rest else rest) ∧
    Forall (λ m, 0 < Z.of_nat (String.length m) ≤ readBufferSize) sent.
Proof.
  intros Hp Hg He Hs Ho Hlen. unfold Read. rewrite Hp, Hg. simpl.
  set (r := if 0 <? ReadOffset req then seek (ReadOffset req) rc else rc).
  assert (rd_all r = str_drop (Z.to_nat (ReadOffset req)) (rd_all rc) ∧ rd_err r = None) as [Hall Herr].
  { unfold r, seek. destruct (0 <? ReadOffset req) eqn:E; to_prop.
    - unfold rd_all at 1. simpl. by rewrite str_app_nil_r.
    - by replace (Z.to_nat (ReadOffset req)) with 0%nat by lia. }
  set (limit := if 0 <? ReadLimit req then ReadLimit req else max_int64).
  destruct (read_loop_spec send limit (read_fuel r) r 0 [] Hs Herr) as (out & Hl & Hcat & Hf);
    [lia|lia|]. exists out. split_and!; [|..|done].
  - unfold r in *. by destruct (0 <? ReadOffset req).
  - rewrite Hcat, Hall, Z.sub_0_r. unfold limit. destruct (0 <? ReadLimit req); [done|].
    apply str_take_all. rewrite str_drop_length. lia.
Qed.

(** An upload reaches the store whole: for a [Put] that reads to the end, the
    handler's answer is that of a [Put] of the concatenation of all chunks up to
    [FinishWrite] or the end of the stream, with their length as committed size. *)
Theorem write_commits_upload `{Zstd} put r msgs dg f :
  parseResourceName (wr_ResourceName r) true = Ok (dg, false) → WriteOffset r ≤ 0 →
  put dg false = Puts (Drains f) →
  let data := concat_str (upload (r :: msgs)) in
  Write put None (Msg <$> r :: msgs) =
  match f data None with
  | Ok _ => Returned (Ok (Z.of_nat (String.length data)))
  | Err _ => Returned (Err (StatusErr Internal "store put failed"))
  end.
Proof.
  intros Hp Ho Hput. cbv zeta. rewrite (Write_first put None r msgs dg (Drains f)) by done.
  rewrite write_loop_drains. change ([] ++ ?l) with l. unfold remote_result.
  by destruct (f (concat_str (upload (r :: msgs))) None).
Qed.

(** An upload hangs when the store gives up early: if [Put] returns, with
    whatever result, before it has read all chunks, the handler blocks for ever in
    the write to the pipe, which nobody closes, even if the context ends. *)
Theorem write_blocks_on_early_put `{Zstd} put done r msgs dg k m res :
  parseResourceName (wr_ResourceName r) true = Ok (dg, false) → WriteOffset r ≤ 0 →
  put dg false = Puts (Stops k m res) → (k < List.length (upload (r :: msgs)))%nat →
  Write put done (Msg <$> r :: msgs) = Blocked.
Proof.
  intros Hp Ho Hput Hk. rewrite (Write_first put done r msgs dg (Stops k m res)) by done.
  rewrite write_loop_stops; [done|apply Nat.le_0_l|exact Hk].
Qed.

(** A short hash passes the service and brings the local store down: the
    name is accepted, and [Get] and [Put] of the digest panic. *)
Theorem short_hash_panics `{OS} h n isWrite s w :
  h ≠ "" → str_all is_hex h = true → (String.length h < 4)%nat →
  Z.of_N n ≤ max_int64 →
  let name := if isWrite : bool then slash "uploads" (slash "u" (slash "blobs" (slash h (print_dec n))))
              else slash "blobs" (slash h (print_dec n)) in
  let d := mkDigest h (Z.of_N n) in
  parseResourceName name isWrite = Ok (d, false) ∧
  (Storage.Get s d w).1 = None ∧ (Storage.Put s d w).1 = None.
Proof.
  intros Hne Hh Hl Hn name d.
  assert (groups_ok "blobs" h (print_dec n)) as Hg.
  { split_and!; [by left|done|done|apply print_dec_nonempty|apply print_dec_digits]. }
  split.
  - unfold parseResourceName.
    assert (FindStringSubmatch isWrite name = Some ("blobs", h, print_dec n)) as ->.
    { unfold name. destruct isWrite; [apply write_regex_iff|apply read_regex_iff]; (split; [done|]).
      - exists "", "u". split_and!; [by left|done|done|done].
      - exists "". split; [by left|done]. }
    by rewrite ParseInt_print.
  - unfold Storage.Get, Storage.Put, Storage.BlobPath. rewrite hash_path_short by done. done.
Qed.

(** ** Concrete instances *)
Module Demo.
Import Messages.Concrete Schedules Storage.Demo.

(** A codec that does nothing. *)
#[export] Instance zstd_id : Zstd := {| zstd_encode r := r; zstd_decode s := Ok s |}.

Definition name : string := "main/uploads/1234/blobs/abcdef0123/5".
Definition first : WriteRequest := mkWriteRequest name 0 "he" false.
Definition last : WriteRequest := mkWriteRequest "" 2 "llo" true.
Definition accepts : Digest → bool → putter := λ _ _, Puts (Drains (λ _ _, Ok ())).
Definition gives_up : Digest → bool → putter := λ _ _, Puts (Stops 1 0 (Err (ErrIO "disk full"))).

Lemma read_sends_slice_witness :
  ∃ sent, Read true (λ _, Ok (mkReader ["hello"] None)) (λ _, None)
      (mkReadRequest "blobs/abcdef0123/5" 1 3) = Some (Ok (), sent) ∧ concat_str sent = "ell".
Proof.
  destruct (read_sends_slice (λ _, Ok (mkReader ["hello"] None)) (λ _, None)
    (mkReadRequest "blobs/abcdef0123/5" 1 3) (mkDigest "abcdef0123" 5) (mkReader ["hello"] None))
    as (sent & Hr & Hc & _); [vm_compute; reflexivity|reflexivity..|vm_compute; discriminate|
      vm_compute; discriminate|].
  exists sent. split; [exact Hr|exact Hc].
Defined.

Lemma write_commits_upload_witness : Write accepts None [Msg first; Msg last] = Returned (Ok 5).
Proof.
  exact (write_commits_upload accepts first [last] (mkDigest "abcdef0123" 5) (λ _ _, Ok ())
    ltac:(vm_compute; reflexivity) ltac:(vm_compute; discriminate) eq_refl).
Defined.

Lemma write_blocks_on_early_put_witness :
  Write gives_up (Some CtxCanceled) [Msg first; Msg last] = Blocked.
Proof.
  apply (write_blocks_on_early_put gives_up (Some CtxCanceled) first [last]
    (mkDigest "abcdef0123" 5) 1 0 (Err (ErrIO "disk full")));
    [vm_compute; reflexivity|vm_compute; discriminate|reflexivity|vm_compute; lia].
Defined.

Lemma short_hash_panics_witness :
  (Storage.Put (H := calm) store (mkDigest "abc" 3) world).1 = None.
Proof.
  apply (short_hash_panics (H := calm) "abc" 3 true store world);
    [discriminate|reflexivity|vm_compute; lia|vm_compute; discriminate].
Defined.
End Demo.
End ByteStream.
