(* ===== verification/ExecServer.v ===== *)
(** The Execution service (src/pkg/server/execution.go): admission of a request
    (action cache, forwarding, queue), the stream of updates, and the routing of
    [WaitExecution] between the nodes of a cluster.

    The action cache is the answer [cached] of its [GetActionResult]; gRPC
    connections and the streams from peers are arguments.  A handler runs in
    sections between which other goroutines may use the scheduler: a request ends
    at once ([Finished]), goes to a peer ([Forward]), or leaves a subscription that
    [stream_step] serves, one received update at a time. *)

From S2P Require Import Prelude GoStrings Messages Scheduler Float64 Cluster.

Module ExecServer.
Import Scheduler.

Record ExecuteRequest := mkExecuteRequest {
  ActionDigest : PbDigest;
  SkipCacheLookup : bool;
}.

(** [ExecutionServer] and what its parts know: the connection pool holds the
    addresses with a connection. *)
Record ExecutionServer := mkServer {
  scheduler : Scheduler;
  clusterManager : option Cluster.Manager;
  conns : gset string;
}.

Definition NewExecutionServer (sched : Scheduler) (cm : option Cluster.Manager) : ExecutionServer :=
  mkServer sched cm ∅.

Definition set_scheduler (sched : Scheduler) (srv : ExecutionServer) : ExecutionServer :=
  mkServer sched (clusterManager srv) (conns srv).

(** [getOrCreateConn]; [dial] is the error of [grpc.NewClient]. *)
Definition getOrCreateConn (dial : string → option error) (addr : string) (srv : ExecutionServer)
    : result unit * ExecutionServer :=
  if bool_decide (addr ∈ conns srv) then (Ok (), srv)
  else match dial addr with
       | Some e => (Err e, srv)
       | None => (Ok (), mkServer (scheduler srv) (clusterManager srv) ({[addr]} ∪ conns srv))
       end.

Section handlers.
Context `{GrpcStatus, AnyPb, DigestSdk}.

(** Where a handler is after its first section. *)
Inductive phase :=
  | Finished (r : result unit) (sent : list Operation)
  | Forward (peer : Cluster.NodeState)
  | Streaming (name : string) (c : nat) (sent : list Operation).

(** [Enqueue], [Subscribe], the first [Send]: the common part of [Execute] and
    [executeLocally].  A failed [Send] leaves through the deferred unsubscribe. *)
Definition enqueue_and_subscribe (uuid : string) (now : Z) (send : option error)
    (req : ExecuteRequest) (originNodeID : string) (s : Scheduler) : option (phase * Scheduler) :=
  match Enqueue uuid now (ActionDigest req) (SkipCacheLookup req) originNodeID s with
  | (Err e, s) => Some (Finished (Err e) [], s)
  | (Ok op, s) =>
      let '(c, s) := Subscribe (op_Name op) s in
      match send with
      | Some e => s ← unsubscribe (op_Name op) c s; Some (Finished (Err e) [], s)
      | None => Some (Streaming (op_Name op) c [op], s)
      end
  end.

(** The answer of a request whose result is in the action cache. *)
Definition complete_cached (uuid : string) (now : Z) (send : option error) (req : ExecuteRequest)
    (r : ActionResult) (s : Scheduler) : option (phase * Scheduler) :=
  match Enqueue uuid now (ActionDigest req) true "" s with
  | (Err e, s) => Some (Finished (Err e) [], s)
  | (Ok op, s) =>
      s ← Complete (op_Name op) (mkExecuteResponse r true) now s;
      match GetOperation (op_Name op) s with
      | Err e => Some (Finished (Err e) [], s)
      | Ok finalOp =>
          Some (match send with
                | Some e => Finished (Err e) []
                | None => Finished (Ok ()) [finalOp]
                end, s)
      end
  end.

(** [Execute] up to the stream.  [forwardedFrom] is the first value of the
    [x-gorego-forwarded-from] metadata, [order] and [load] what
    [SelectBestPeer] sees. *)
Definition Execute (uuid : string) (now : Z) (send : option error)
    (cached : Digest → result ActionResult) (forwardedFrom : option string)
    (order : list Cluster.NodeState) (load : Z) (req : ExecuteRequest) (srv : ExecutionServer)
    : option (phase * ExecutionServer) :=
  let with_srv := fmap (λ ps, (ps.1, set_scheduler ps.2 srv)) in
  let hit :=
    if SkipCacheLookup req then None
    else match NewFromProto (ActionDigest req) with
         | Err _ => None
         | Ok d => match cached d with Ok r => Some r | Err _ => None end
         end in
  match hit with
  | Some r => with_srv (complete_cached uuid now send req r (scheduler srv))
  | None =>
      let isForwarded := bool_decide (is_Some forwardedFrom) in
      let originNodeID := default "" forwardedFrom in
      let peer :=
        match clusterManager srv with
        | Some m => if negb isForwarded then Cluster.SelectBestPeer order load m else None
        | None => None
        end in
      match peer with
      | Some peer => Some (Forward peer, srv)
      | None => with_srv (enqueue_and_subscribe uuid now send req originNodeID (scheduler srv))
      end
  end.

(** [executeLocally], the fallback of a forward that fails to start. *)
Definition executeLocally (uuid : string) (now : Z) (send : option error)
    (forwardedFrom : option string) (req : ExecuteRequest) (srv : ExecutionServer)
    : option (phase * ExecutionServer) :=
  (λ ps, (ps.1, set_scheduler ps.2 srv)) <$>
    enqueue_and_subscribe uuid now send req (default "" forwardedFrom) (scheduler srv).

(** Copying the peer's stream; the end of the list is [io.EOF]. *)
Fixpoint proxy_stream (send : nat → option error) (recvs : list (result Operation))
    (sent : list Operation) : result unit * list Operation :=
  match recvs with
  | [] => (Ok (), sent)
  | Err e :: _ => (Err e, sent)
  | Ok op :: recvs =>
      match send (List.length sent) with
      | Some e => (Err e, sent)
      | None => proxy_stream send recvs (sent ++ [op])
      end
  end.

(** [forwardExecute]; [call] is the peer's answer to the forwarded request, which
    carries this node's name as its origin. *)
Definition forwardExecute (uuid : string) (now : Z) (sends : nat → option error)
    (dial : string → option error) (call : option string → ExecuteRequest → result (list (result Operation)))
    (forwardedFrom : option string) (req : ExecuteRequest) (peer : Cluster.NodeState)
    (srv : ExecutionServer) : option (phase * ExecutionServer) :=
  match getOrCreateConn dial (Cluster.GrpcAddress peer) srv with
  | (Err _, srv) => executeLocally uuid now (sends 0%nat) forwardedFrom req srv
  | (Ok _, srv) =>
      let origin := (λ m, Cluster.ns_Name (Cluster.localState m)) <$> clusterManager srv in
      match call origin req with
      | Err _ => executeLocally uuid now (sends 0%nat) forwardedFrom req srv
      | Ok recvs =>
          let '(r, sent) := proxy_stream sends recvs [] in Some (Finished r sent, srv)
      end
  end.

(** One turn of the loop over the updates of channel [c]. *)
Inductive turn :=
  | Waiting
  | Panicked
  | Ended (r : result unit) (sent : list Operation) (s : Scheduler)
  | Continues (sent : list Operation) (s : Scheduler).

(** Leaving the loop runs the deferred unsubscribe. *)
Definition leave (name : string) (c : nat) (r : result unit) (sent : list Operation) (s : Scheduler)
    : turn :=
  match unsubscribe name c s with Some s => Ended r sent s | None => Panicked end.

Definition stream_step (send : option error) (name : string) (c : nat) (sent : list Operation)
    (s : Scheduler) : turn :=
  match recv c s with
  | None =>
      match chans s !! c with
      | Some ch => if closed ch then leave name c (Ok ()) sent s else Waiting
      | None => Waiting
      end
  | Some (update, s) =>
      match GetOperation name s with
      | Err _ => Continues sent s
      | Ok opProto =>
          match send with
          | Some e => leave name c (Err e) sent s
          | None =>
              let sent := sent ++ [opProto] in
              match heap s !! update with
              | Some op => if bool_decide (State op = StateCompleted)
                           then leave name c (Ok ()) sent s else Continues sent s
              | None => Panicked
              end
          end
      end
  end.

Definition WaitExecution (send : option error) (name : string) (srv : ExecutionServer)
    : phase * ExecutionServer :=
  let local :=
    match GetOperation name (scheduler srv) with
    | Err e => (Finished (Err e) [], srv)
    | Ok op =>
        if op_Done op then
          (match send with Some e => Finished (Err e) [] | None => Finished (Ok ()) [op] end, srv)
        else
          let '(c, s) := Subscribe name (scheduler srv) in
          (Streaming name c [], set_scheduler s srv)
    end in
  match clusterManager srv with
  | None => local
  | Some m =>
      let '(nodeID, _) := ParseOperationNodeID name in
      let localNodeID := Cluster.ns_Name (Cluster.localState m) in
      if negb (nodeID =? "")%string && negb (nodeID =? localNodeID)%string then
        match Cluster.GetPeerByNodeID nodeID m with
        | None => (Finished (Err (StatusErr NotFound "node not found in cluster")) [], srv)
        | Some peer => (Forward peer, srv)
        end
      else local
  end.

(** [forwardWaitExecution]. *)
Definition forwardWaitExecution (sends : nat → option error) (dial : string → option error)
    (call : string → result (list (result Operation))) (name : string) (peer : Cluster.NodeState)
    (srv : ExecutionServer) : phase * ExecutionServer :=
  match getOrCreateConn dial (Cluster.GrpcAddress peer) srv with
  | (Err _, srv) => (Finished (Err (StatusErr Unavailable "failed to connect to node")) [], srv)
  | (Ok _, srv) =>
      match call name with
      | Err e => (Finished (Err e) [], srv)
      | Ok recvs => let '(r, sent) := proxy_stream sends recvs [] in (Finished r sent, srv)
      end
  end.
End handlers.

(** ** Lemmas *)

Section lemmas.
Context `{GrpcStatus, AnyPb}.

(** Packing into an [Any] succeeds for the messages at hand. *)
Definition packs : Prop :=
  (∀ m, ∃ a, any_New_metadata m = Ok a) ∧ (∀ r, ∃ a, any_New_response r = Ok a).

Lemma toProto_packs op : packs → ∃ o, toProto op = Ok o ∧ op_Name o = Name op ∧
  op_Done o = bool_decide (State op = StateCompleted).
Proof using Type.
  intros [Hm Hr]. unfold toProto. destruct (Hm (Metadata op)) as [a ->].
  destruct (bool_decide (State op = StateCompleted)) eqn:Hs; [|by eexists].
  destruct (Error op); [by eexists|]. destruct (Result op) as [r|]; [|by eexists].
  destruct (Hr r) as [b ->]. by eexists.
Qed.

(** A deleted name stays unlisted until it is enqueued again. *)
Definition enqueues (s : Scheduler) (e : event) (name : string) : Prop :=
  match e with
  | EEnqueue uuid _ _ _ override => opName (newOperationID s uuid override) = name
  | _ => False
  end.

Lemma notifyLocked_fields name l s s' :
  notifySubscribersLocked name l s = Some s' →
  operations s' = operations s ∧ nextAddr s' = nextAddr s ∧
  notify l (default [] (subscribers s !! name)) (chans s) = Some (chans s').
Proof using Type.
  unfold notifySubscribersLocked. destruct (notify _ _ _) as [cs|]; simpl; [|done].
  by intros [= <-].
Qed.

(** A listed or unlisted name and an open channel after a change of state. *)
Lemma notify_open l chs cs cs' c ch :
  notify l chs cs = Some cs' → cs !! c = Some ch → closed ch = false →
  ∃ ch', cs' !! c = Some ch' ∧ closed ch' = false.
Proof using Type.
  revert cs ch. induction chs as [|d chs IH]; intros cs ch; simpl; [intros [= ->]; eauto|].
  destruct (cs !! d) as [dh|] eqn:Hd; [|apply IH]. destruct (closed dh) eqn:Hcl; [done|].
  destruct (_ <? _)%nat; [|apply IH]. intros Hn Hc Ho.
  destruct (decide (c = d)) as [->|Hne].
  - eapply IH; [exact Hn|by rewrite lookup_insert_eq|done].
  - eapply IH; [exact Hn|by rewrite lookup_insert_ne|done].
Qed.

(** What a stuck subscriber sees: its operation is not listed, its channel is open. *)
Definition stuck (name : string) (c : nat) (s : Scheduler) : Prop :=
  operations s !! name = None ∧ (c < nextAddr s)%nat ∧
  ∃ ch, chans s !! c = Some ch ∧ closed ch = false.

Lemma stuck_notified name c n l s s1 s' :
  operations s1 = operations s → chans s1 = chans s → nextAddr s1 = nextAddr s →
  notifySubscribersLocked n l s1 = Some s' → stuck name c s → stuck name c s'.
Proof using Type.
  intros Ho Hc Hx (Ho' & Hx' & Hn)%notifyLocked_fields (Hu & Hlt & ch & Hch & Hopen).
  rewrite Hc in Hn. destruct (notify_open _ _ _ _ _ _ Hn Hch Hopen) as (ch' & ? & ?).
  split_and!; [congruence|lia|eauto].
Qed.

Lemma stuck_step name c s e s' :
  stuck name c s → step s e = Some s' → ¬ enqueues s e name → (∀ n, e ≠ EUnsubscribe n c) →
  stuck name c s'.
Proof using Type.
  intros Hst Hstep Hne Hun. pose proof Hst as (Hu & Hlt & ch & Hch & Ho).
  destruct e as [uuid now d skip ov| |n st md now|n res now|n err now|n now|n|n|n c'|c'|now];
    simpl in Hstep, Hne.
  - injection Hstep as <-. unfold Enqueue. destruct (_ <? _)%nat; [|done]. simpl.
    split_and!; simpl; [|lia|eauto]. by rewrite lookup_insert_ne.
  - injection Hstep as <-. unfold Dequeue. by destruct (taskQueue s).
  - unfold UpdateState in Hstep. destruct (operations s !! n) as [l|]; [|by injection Hstep as <-].
    destruct (heap s !! l) as [op|]; [|done]. simpl in Hstep.
    eapply stuck_notified; [..|exact Hstep|exact Hst]; by repeat case_match.
  - unfold Complete in Hstep. destruct (operations s !! n) as [l|]; [|by injection Hstep as <-].
    destruct (heap s !! l) as [op|]; [|done]. simpl in Hstep.
    eapply stuck_notified; [..|exact Hstep|exact Hst]; by repeat case_match.
  - unfold FailOp in Hstep. destruct (operations s !! n) as [l|]; [|by injection Hstep as <-].
    destruct (heap s !! l) as [op|]; [|done]. simpl in Hstep.
    eapply stuck_notified; [..|exact Hstep|exact Hst]; by repeat case_match.
  - unfold CancelOperation in Hstep. destruct (operations s !! n) as [l|]; [|by injection Hstep as <-].
    destruct (heap s !! l) as [op|]; [|done]. simpl in Hstep.
    destruct (bool_decide _); [by injection Hstep as <-|].
    destruct (notifySubscribersLocked _ _ _) as [s1|] eqn:Hn; simpl in Hstep; [|done].
    injection Hstep as <-. by eapply stuck_notified; [..|exact Hn|exact Hst].
  - injection Hstep as <-. unfold DeleteOperation. destruct (operations s !! n); [|done]. simpl.
    split_and!; simpl; [|done|eauto]. by apply lookup_delete_None; right.
  - injection Hstep as <-. split_and!; simpl; [done|lia|]. exists ch.
    rewrite lookup_insert_ne by lia. done.
  - unfold unsubscribe in Hstep. destruct (remove_sub _ _); [|by injection Hstep as <-].
    destruct (chans s !! c') as [dh|] eqn:Hd; [|by injection Hstep as <-].
    destruct (closed dh); [done|]. injection Hstep as <-. split_and!; simpl; [done|done|].
    exists ch. rewrite lookup_insert_ne; [done|]. intros ->. by destruct (Hun n).
  - injection Hstep as <-. unfold recv. destruct (chans s !! c') as [dh|] eqn:Hd; [|done]. simpl.
    destruct (buf dh) as [|l ls]; [done|]. simpl. split_and!; simpl; [done|done|].
    destruct (decide (c = c')) as [->|]; [|exists ch; by rewrite lookup_insert_ne].
    eexists. rewrite lookup_insert_eq. split; [done|]. simpl. congruence.
  - injection Hstep as <-. rewrite CleanupExpired_eq. split_and!; simpl; [|done|eauto].
    by rewrite cleanup_lookup, Hu.
Qed.

(** Runs in which nobody reuses the name or unsubscribes the channel. *)
Fixpoint undisturbed (name : string) (c : nat) (s : Scheduler) (es : list event) : Prop :=
  match es with
  | [] => True
  | e :: es => ¬ enqueues s e name ∧ (∀ n, e ≠ EUnsubscribe n c) ∧
      match step s e with Some s' => undisturbed name c s' es | None => True end
  end.

Lemma stuck_run name c s es s' :
  stuck name c s → run s es = Some s' → undisturbed name c s es → stuck name c s'.
Proof using Type.
  revert s. induction es as [|e es IH]; intros s Hst; simpl; [by intros [= ->]|].
  destruct (step s e) as [s1|] eqn:Hs; simpl; [|done]. intros Hr (Hne & Hun & Hrest).
  eapply IH; [|exact Hr|exact Hrest]. by eapply stuck_step.
Qed.
End lemmas.

Lemma remove_sub_None c subs : remove_sub c subs = None → c ∉ subs.
Proof.
  induction subs as [|x subs IH]; simpl; [by intros _ ?%not_elem_of_nil|].
  case_bool_decide; [done|]. destruct (remove_sub c subs); [done|].
  intros _ [->|Hc]%elem_of_cons; [done|]. by apply IH.
Qed.

Lemma remove_sub_gone c subs r : NoDup subs → remove_sub c subs = Some r → c ∉ r.
Proof.
  revert r. induction subs as [|x subs IH]; intros r; simpl; [done|].
  intros [Hx Hnd]%NoDup_cons. case_bool_decide as Hxc; [subst; by intros [= <-]|].
  destruct (remove_sub c subs) as [r'|]; [|done]. intros [= <-] [->|Hc]%elem_of_cons; [done|].
  by eapply IH.
Qed.

(** ** The properties *)

Section properties.
Context `{GrpcStatus, AnyPb, DigestSdk}.

(** A request without a usable cache entry. *)
Definition cache_miss (cached : Digest → result ActionResult) (req : ExecuteRequest) : Prop :=
  SkipCacheLookup req = true ∨
  match NewFromProto (ActionDigest req) with
  | Ok d => ∃ e, cached d = Err e
  | Err _ => True
  end.

Lemma enqueue_room uuid now d skip override s :
  packs → (List.length (taskQueue s) < queueSize s)%nat →
  ∃ op s', Enqueue uuid now d skip override s = (Ok op, s') ∧
    op_Name op = opName (newOperationID s uuid override) ∧
    operations s' !! op_Name op = Some (nextAddr s) ∧
    heap s' !! nextAddr s = Some (mkOp (op_Name op) StateQueued (mkMetadata STAGE_QUEUED d) None None now now) ∧
    taskQueue s' = taskQueue s ++ [mkTask (newOperationID s uuid override) d skip now] ∧
    nextAddr s' = S (nextAddr s).
Proof using Type.
  intros Hp Hroom. unfold Enqueue. rewrite (proj2 (Nat.ltb_lt _ _) Hroom).
  destruct (toProto_packs (mkOp (opName (newOperationID s uuid override)) StateQueued
    (mkMetadata STAGE_QUEUED d) None None now now) Hp) as (op & -> & Hn & _).
  simpl in Hn. eexists op, _. split; [done|]. rewrite Hn. simpl.
  by rewrite !lookup_insert_eq.
Qed.

Lemma Execute_miss uuid now cached from order load req srv :
  cache_miss cached req → is_Some from →
  Execute uuid now None cached from order load req srv =
  (λ ps, (ps.1, set_scheduler ps.2 srv)) <$>
    enqueue_and_subscribe uuid now None req (default "" from) (scheduler srv).
Proof using Type.
  intros Hm Hf. unfold Execute.
  assert ((if SkipCacheLookup req then None else
    match NewFromProto (ActionDigest req) with
    | Err _ => None
    | Ok d => match cached d with Ok r => Some r | Err _ => None end
    end) = None) as ->.
  { destruct Hm as [->|Hm]; [done|]. destruct (SkipCacheLookup req); [done|].
    destruct (NewFromProto _); [|done]. by destruct Hm as [e ->]. }
  rewrite bool_decide_eq_true_2 by done. by destruct (clusterManager srv).
Qed.

(** C29: a forwarded operation cannot be waited for.  A node that runs a request
    forwarded by [origin] names the operation after [origin] and lists it only
    itself; [WaitExecution] of that name at [origin] finds no such operation,
    and at the executing node it is sent back to [origin], or answered with
    NotFound, although the operation is listed right there. *)
Theorem forwarded_operation_unreachable uuid now cached order load req origin executor mo me :
  packs → cache_miss cached req →
  clusterManager origin = Some mo → clusterManager executor = Some me →
  let o := Cluster.ns_Name (Cluster.localState mo) in
  o ≠ "" → o ≠ Cluster.ns_Name (Cluster.localState me) →
  contains_byte ":" o = false → contains_byte ":" uuid = false → uuid ≠ "" →
  let name := opName (o +:+ ":" +:+ uuid) in
  operations (scheduler origin) !! name = None →
  (List.length (taskQueue (scheduler executor)) < queueSize (scheduler executor))%nat →
  ∃ c op executor', Execute uuid now None cached (Some o) order load req executor
      = Some (Streaming name c [op], executor') ∧
    is_Some (lookup_op (scheduler executor') name) ∧
    WaitExecution None name origin = (Finished (Err (StatusErr NotFound "operation not found")) [], origin) ∧
    WaitExecution None name executor' =
      (match Cluster.GetPeerByNodeID o me with
       | Some peer => Forward peer
       | None => Finished (Err (StatusErr NotFound "node not found in cluster")) []
       end, executor').
Proof using Type.
  intros Hp Hm Hmo Hme o Ho Hne Hco Hcu Hu name Hun Hroom.
  rewrite Execute_miss by (done || by eexists). unfold enqueue_and_subscribe. simpl default.
  destruct (enqueue_room uuid now (ActionDigest req) (SkipCacheLookup req) o
    (scheduler executor) Hp Hroom) as (op & s' & -> & Hname & Hops & Hheap & _ & _).
  assert (newOperationID (scheduler executor) uuid o = o +:+ ":" +:+ uuid) as Hid.
  { unfold newOperationID. by rewrite (proj2 (String.eqb_neq o "")), (proj2 (String.eqb_neq o "")). }
  rewrite Hid in Hname. fold name in Hname. rewrite Hname in *. simpl.
  pose proof (parse_opName o uuid Hco Hcu Hu) as Hparse.
  rewrite (proj2 (String.eqb_neq o "")) in Hparse by done. fold name in Hparse.
  do 3 eexists. split; [done|]. split_and!.
  - unfold lookup_op. simpl. rewrite Hops. simpl. by rewrite Hheap.
  - unfold WaitExecution. rewrite Hmo, Hparse. fold o. rewrite String.eqb_refl, andb_false_r.
    unfold GetOperation, lookup_op. by rewrite Hun.
  - unfold WaitExecution. simpl. rewrite Hme, Hparse.
    rewrite (proj2 (String.eqb_neq o "")), (proj2 (String.eqb_neq _ _) Hne) by done. simpl.
    by destruct (Cluster.GetPeerByNodeID o me).
Qed.

(** A cache hit still costs an execution: the client gets the finished
    operation at once, but the task stays in the queue, with [SkipCache] set, and
    a worker that takes it reopens the finished operation; and a hit is refused
    with ResourceExhausted when the queue is full. *)
Theorem cached_execute_still_runs uuid now cached from order load req srv d r :
  packs → wf (scheduler srv) → SkipCacheLookup req = false →
  NewFromProto (ActionDigest req) = Ok d → cached d = Ok r →
  let s := scheduler srv in
  let task := mkTask (newOperationID s uuid "") (ActionDigest req) true now in
  let exec := Execute uuid now None cached from order load req srv in
  ((queueSize s ≤ List.length (taskQueue s))%nat →
     exec = Some (Finished (Err (StatusErr ResourceExhausted "execution queue is full")) [], srv)) ∧
  ((List.length (taskQueue s) < queueSize s)%nat →
     ∃ op srv', exec = Some (Finished (Ok ()) [op], srv') ∧ op_Done op = true ∧
       taskQueue (scheduler srv') = taskQueue s ++ [task] ∧
       ∀ m t, ∃ s2 o2, UpdateState (opName (OperationID task)) StateExecuting m t (scheduler srv')
           = Some s2 ∧
         lookup_op s2 (opName (OperationID task)) = Some o2 ∧ State o2 = StateExecuting).
Proof using Type.
  intros Hp Hwf Hskip Hd Hc s task exec. unfold exec, Execute. rewrite Hskip, Hd, Hc.
  fold s. unfold complete_cached. split.
  { intros Hfull. unfold Enqueue. rewrite (proj2 (Nat.ltb_ge _ _) Hfull). simpl. by destruct srv. }
  intros Hroom.
  destruct (enqueue_room uuid now (ActionDigest req) true "" s Hp Hroom)
    as (op & s1 & Henq & Hname & Hops & Hheap & Hq & _). rewrite Henq.
  assert (wf s1) as Hwf1.
  { pose proof (Enqueue_wf uuid now (ActionDigest req) true "" s Hwf) as Hw. by rewrite Henq in Hw. }
  destruct (Complete_spec s1 _ _ _ Hwf1 Hops Hheap (mkExecuteResponse r true) now) as (cs & Hdel & ->).
  simpl. unfold GetOperation, lookup_op. simpl. rewrite Hops. simpl. rewrite lookup_insert_eq.
  match goal with |- context [toProto ?o] => destruct (toProto_packs o Hp) as (fin & -> & _ & Hdone) end.
  set (s2 := with_op _ _ _ _ _) in *.
  assert (wf s2) as Hwf2 by (eapply wf_change; eauto; done).
  eexists fin, _. simpl. split_and!; [done|done|done|]. intros m t.
  change (OperationID task) with (newOperationID s uuid ""). rewrite <- Hname.
  assert (operations s2 !! op_Name op = Some (nextAddr s)) as Hops2 by exact Hops.
  eassert (heap s2 !! nextAddr s = Some _) as Hheap2 by apply lookup_insert_eq.
  destruct (UpdateState_spec s2 _ _ _ Hwf2 Hops2 Hheap2 StateExecuting m t) as (cs2 & _ & Hupd).
  change (scheduler (set_scheduler s2 srv)) with s2. rewrite Hupd.
  eexists _, _. split; [done|]. unfold lookup_op. simpl. rewrite Hops. simpl.
  by rewrite lookup_insert_eq.
Qed.

(** Once an operation is finished, the next update its subscriber receives
    ends the stream: the handler sends the finished operation, returns success,
    and its subscription is gone. *)
Theorem stream_ends_on_completion name c sent s l op ch :
  packs → wf s → operations s !! name = Some l → heap s !! l = Some op →
  State op = StateCompleted → c ∈ subs_of s name → chans s !! c = Some ch →
  head (buf ch) = Some l →
  ∃ o s', stream_step None name c sent s = Ended (Ok ()) (sent ++ [o]) s' ∧
    op_Done o = true ∧ toProto op = Ok o ∧ c ∉ subs_of s' name.
Proof using Type.
  intros Hp Hwf Hops Hheap Hst Hc Hch Hbuf. destruct (toProto_packs op Hp) as (o & Ho & _ & Hdone).
  rewrite Hst in Hdone. destruct (buf ch) as [|l' ls] eqn:Hb; [done|]. injection Hbuf as ->.
  assert (recv c s = Some (l, set_chans (<[c := mkChan ls (closed ch)]> (chans s)) s)) as Hrecv.
  { unfold recv. rewrite Hch. simpl. by rewrite Hb. }
  pose proof (recv_wf c s l _ Hwf Hrecv) as Hwf'.
  unfold stream_step. rewrite Hrecv. unfold GetOperation, lookup_op. simpl.
  rewrite Hops. simpl. rewrite Hheap, Ho, Hst. simpl. unfold leave.
  set (s1 := set_chans _ s) in *.
  destruct (wf_subs s1 Hwf' name c Hc) as (ch1 & Hch1 & Hopen).
  destruct (remove_sub c (subs_of s1 name)) as [rs|] eqn:Hrm; [|by apply remove_sub_None in Hrm].
  unfold unsubscribe. fold (subs_of s1 name). rewrite Hrm, Hch1, Hopen.
  eexists o, _. split_and!; [done|done|done|].
  unfold subs_of. simpl. rewrite lookup_insert_eq. simpl.
  by eapply remove_sub_gone; [apply (wf_subs_nodup s1 Hwf' name)|exact Hrm].
Qed.

(** Deleting a running operation strands its subscribers: after
    [DeleteOperation], whatever else happens to the scheduler (completion of the
    work included), as long as the name is not enqueued again the handler's loop
    never ends and sends nothing more. *)
Theorem deleted_operation_stream_hangs name c sent send s s1 es s' ch :
  DeleteOperation name s = (Ok (), s1) → (c < nextAddr s)%nat →
  chans s !! c = Some ch → closed ch = false →
  undisturbed name c s1 es → run s1 es = Some s' →
  stream_step send name c sent s' = Waiting ∨
  ∃ s'', stream_step send name c sent s' = Continues sent s''.
Proof using Type.
  intros Hdel Hlt Hch Hopen Hund Hrun.
  assert (stuck name c s1) as Hst.
  { unfold DeleteOperation in Hdel. destruct (operations s !! name); [|done].
    injection Hdel as <-. split_and!; simpl; [apply lookup_delete_eq|done|eauto]. }
  destruct (stuck_run name c s1 es s' Hst Hrun Hund) as (Hu & _ & ch' & Hch' & Hopen').
  unfold stream_step, recv. rewrite Hch'. simpl. destruct (buf ch') as [|l ls].
  - rewrite Hopen'. by left.
  - right. unfold GetOperation, lookup_op. simpl. rewrite Hu. simpl. by eexists.
Qed.
End properties.

(** ** Concrete instances *)
Module Demo.
Import Messages.Concrete.

Lemma concrete_packs : packs.
Proof. split; intros; by eexists. Qed.

Definition hash64 : string :=
  "e3b0c44298fc1c149afbf4c8996fb92427ae41e4649b934ca495991b7852b855".
Definition req : ExecuteRequest := mkExecuteRequest (mkPbDigest hash64 0) false.
Definition miss : Digest → result ActionResult := λ _, Err (StatusErr NotFound "not found").
Definition hit : Digest → result ActionResult := λ _, Ok (mkActionResult [] [] 0 None None).

Definition cluster_of (me other addr : string) : Cluster.Manager :=
  Cluster.set_peers {[ other := Cluster.mkNodeState other addr 0 4 "" 0 ]}
    (Cluster.mkManager (Cluster.mkClusterConfig true me 7946 "" "list" [] "" 10) 4 true
       (Cluster.mkNodeState me ":50051" 0 4 "" 0) ∅).
Definition node_a : ExecutionServer :=
  NewExecutionServer (NewScheduler 4 "a") (Some (cluster_of "a" "b" "10.0.0.2:50051")).
Definition node_b : ExecutionServer :=
  NewExecutionServer (NewScheduler 4 "b") (Some (cluster_of "b" "a" "10.0.0.1:50051")).

Lemma forwarded_operation_unreachable_witness :
  ∃ c op node_b', Execute "u1" 0 None miss (Some "a") [] 0%Z req node_b
    = Some (Streaming "operations/a:u1" c [op], node_b').
Proof.
  destruct (forwarded_operation_unreachable "u1" 0 miss [] 0%Z req node_a node_b
    (cluster_of "a" "b" "10.0.0.2:50051") (cluster_of "b" "a" "10.0.0.1:50051"))
    as (c & op & b' & Hex & _);
    [apply concrete_packs|right; by eexists|reflexivity|reflexivity|discriminate|discriminate|
     reflexivity|reflexivity|discriminate|reflexivity|simpl; lia|].
  exists c, op, b'. exact Hex.
Defined.

Lemma cached_execute_still_runs_witness :
  ∃ op srv', Execute "u1" 0 None hit None [] 0%Z req node_b = Some (Finished (Ok ()) [op], srv') ∧
    List.length (taskQueue (scheduler srv')) = 1%nat.
Proof.
  destruct (cached_execute_still_runs "u1" 0 hit None [] 0%Z req node_b (mkDigest hash64 0)
    (mkActionResult [] [] 0 None None)) as [_ Hrun];
    [apply concrete_packs|apply wf_new|reflexivity|vm_compute; reflexivity|reflexivity|].
  destruct Hrun as (op & srv' & Hex & _ & Hq & _); [simpl; lia|].
  exists op, srv'. split; [exact Hex|]. rewrite Hq. reflexivity.
Defined.

(** A subscribed operation that has just been completed. *)
Definition name1 : string := "operations/b:u1".
Definition resp : ExecuteResponse := mkExecuteResponse (mkActionResult [] [] 0 None None) false.
Definition completed_run : list event :=
  [EEnqueue "u1" 0 (mkPbDigest hash64 0) false ""; ESubscribe name1; EComplete name1 resp 5].
Definition completed : Scheduler :=
  default (NewScheduler 0 "") (run (NewScheduler 4 "b") completed_run).
Definition completed_op : OperationStatus :=
  mkOp name1 StateCompleted (mkMetadata STAGE_COMPLETED (mkPbDigest hash64 0)) (Some resp) None 0 5.

Lemma completed_wf : wf completed.
Proof. apply (run_wf_eq 4 "b" completed_run). vm_compute. reflexivity. Qed.

Lemma stream_ends_on_completion_witness :
  ∃ o s', stream_step None name1 1 [] completed = Ended (Ok ()) [o] s' ∧ op_Done o = true.
Proof.
  destruct (stream_ends_on_completion name1 1 [] completed 0 completed_op (mkChan [0%nat; 0%nat] false))
    as (o & s' & Hs & Hd & _);
    [apply concrete_packs|apply completed_wf|vm_compute; reflexivity..|
     vm_compute; left|vm_compute; reflexivity|reflexivity|].
  exists o, s'. split; [exact Hs|exact Hd].
Defined.

(** A running operation is deleted; then its work completes. *)
Definition subscribed : Scheduler :=
  default (NewScheduler 0 "") (run (NewScheduler 4 "b")
    [EEnqueue "u1" 0 (mkPbDigest hash64 0) false ""; ESubscribe name1; EDequeue; ERecv 1]).
Definition deleted : Scheduler := (DeleteOperation name1 subscribed).2.

Lemma deleted_operation_stream_hangs_witness :
  stream_step None name1 1 [] deleted = Waiting ∨
  ∃ s'', stream_step None name1 1 [] deleted = Continues [] s''.
Proof.
  apply (deleted_operation_stream_hangs name1 1 [] None subscribed deleted [EComplete name1 resp 5]
    deleted (mkChan [] false));
    [vm_compute; reflexivity|vm_compute; lia|vm_compute; reflexivity|reflexivity| |
     vm_compute; reflexivity].
  repeat split; [intros []|discriminate].
Defined.
End Demo.
End ExecServer.
