(* ===== verification/Remote.v ===== *)
(** The remote store (src/pkg/storage/remote.go): a client of another cache.

    [Put] uploads a reader over a ByteStream [Write]; the stream to the server is
    a pair of functions of the messages sent so far ([server]).  The SDK's
    resource names and zstd are classes.  The last theorems compose the client
    with the ByteStream service of a goREgo peer. *)

From S2P Require Import Prelude GoStrings Messages Fs Storage Proxy ByteStream.
Local Open Scope Z_scope.

Module Remote.
Import Storage Proxy ByteStream.

(** [client.ResourceName] and [client.ResourceNameWrite] for the empty instance
    name the store connects with: the segments joined by slashes. *)
Class Sdk := {
  ResourceName : list string → result string;
  ResourceName_join segs :
    Forall (λ s, s ≠ "") segs → ResourceName segs = Ok (join_byte "/" segs);
  (** the UUID is drawn by the SDK *)
  ResourceNameWrite (uuid hash : string) (sizeBytes : Z) : result string;
  ResourceNameWrite_name uuid hash size :
    ResourceNameWrite uuid hash size =
    ResourceName ["uploads"; uuid; "blobs"; hash; print_int size];
}.

(** zstd is lossless; the decoder of a stream that ends well ends well. *)
Class ZstdCodec `{Zstd} := {
  zstd_roundtrip r : rd_err r = None →
    rd_err (zstd_encode r) = None ∧ zstd_decode (rd_all (zstd_encode r)) = Ok (rd_all r);
  zstd_NewReader : reader → result reader;
  zstd_NewReader_decode r s : rd_err r = None → zstd_decode (rd_all r) = Ok s →
    ∃ r', zstd_NewReader r = Ok r' ∧ rd_all r' = s ∧ rd_err r' = None;
}.

Record RemoteStore := mkRemoteStore { compression : string }.

Definition zstd_on (s : RemoteStore) : bool := (compression s =? "zstd")%string.

(** [missing] is the answer of [MissingBlobs] for the one digest. *)
Definition Has (missing : result (list Digest)) : result bool :=
  m ← missing; mret (List.length m =? 0)%nat.

(** ** [Get] *)

(** The pipe between the receiving goroutine and the reader: the messages' data
    and the error of the stream ([io.EOF] closes the pipe cleanly). *)
Definition recv_reader (msgs : list string) (err : error) : reader :=
  mkReader msgs (match err with EOF => None | e => Some e end).

(** [read] is the SDK's [Read]: an error, or the messages and the final error. *)
Definition Get `{Sdk, ZstdCodec} (read : string → result (list string * error)) (s : RemoteStore)
    (d : Digest) : result reader :=
  let segment := if zstd_on s then "compressed-blobs/zstd" else "blobs" in
  resourceName ← ResourceName [segment; Hash d; print_int (Size d)];
  '(msgs, err) ← read resourceName;
  let pr := recv_reader msgs err in
  if zstd_on s then zstd_NewReader pr else mret pr.

(** ** [Put] *)

(** The server's side of a [Write] stream, after the messages so far: the error
    of sending one more, and the answer of [CloseAndRecv] (the committed size). *)
Record server := mkServer {
  Send : list WriteRequest → option error;
  CloseAndRecv : list WriteRequest → result Z;
}.

Definition isCommitSuccessful (s : RemoteStore) (committedSize : Z) (d : Digest) : bool :=
  if zstd_on s then negb (committedSize =? 0) else committedSize =? Size d.

(** After a failed [Send] the server may still have committed the blob. *)
Definition early_close (srv : server) (s : RemoteStore) (d : Digest) (sent : list WriteRequest)
    (err : error) : result unit :=
  match CloseAndRecv srv sent with
  | Ok c => if isCommitSuccessful s c d then Ok () else Err err
  | Err _ => Err err
  end.

Definition bufSize : Z := 32 * 1024.

(** The upload loop; returns the result and the messages sent. *)
Fixpoint put_loop (fuel : nat) (srv : server) (s : RemoteStore) (d : Digest)
    (resourceName : string) (offset : Z) (r : reader) (sent : list WriteRequest)
    : option (result unit * list WriteRequest) :=
  match fuel with
  | O => None
  | S fuel =>
      let '((data, readErr), r) := read_some bufSize r in
      let n := Z.of_nat (String.length data) in
      let req := mkWriteRequest (if 0 <? offset then "" else resourceName) offset data false in
      match (if 0 <? n then Send srv sent else None) with
      | Some err => Some (early_close srv s d sent err, sent)
      | None =>
          let sent := if 0 <? n then sent ++ [req] else sent in
          let offset := offset + n in
          match readErr with
          | None => put_loop fuel srv s d resourceName offset r sent
          | Some EOF =>
              let req := mkWriteRequest (if offset =? 0 then resourceName else "") offset "" true in
              match Send srv sent with
              | Some err => Some (early_close srv s d sent err, sent)
              | None =>
                  let sent := sent ++ [req] in
                  Some (match CloseAndRecv srv sent with
                        | Err err => Err err
                        | Ok c => if isCommitSuccessful s c d then Ok ()
                                  else Err (Errorf "incomplete write")
                        end, sent)
              end
          | Some err => Some (Err err, sent)
          end
      end
  end.

(** [connect] is the error of opening the stream. *)
Definition Put `{Sdk, Zstd} (connect : option error) (srv : server) (s : RemoteStore)
    (uuid : string) (d : Digest) (data : reader) : option (result unit * list WriteRequest) :=
  let name :=
    if zstd_on s
    then ResourceName ["uploads/" +:+ uuid +:+ "/compressed-blobs/zstd"; Hash d; print_int (Size d)]
    else ResourceNameWrite uuid (Hash d) (Size d) in
  match name with
  | Err e => Some (Err e, [])
  | Ok resourceName =>
      match connect with
      | Some e => Some (Err e, [])
      | None =>
          let readerToConsume := if zstd_on s then zstd_encode data else data in
          put_loop (read_fuel readerToConsume) srv s d resourceName 0 readerToConsume []
      end
  end.

(** ** The action cache *)

(** [call] is the SDK's request: the instance name, the digest, and the server's
    answer in its state. *)
Definition GetActionResult {W} (call : string → PbDigest → W → option (result ActionResult) * W)
    (digest : Digest) : W → option (result ActionResult) * W :=
  call "" (ToProto digest).

(** The result the server sends back is dropped. *)
Definition UpdateActionResult {W}
    (call : string → PbDigest → ActionResult → W → option (result ActionResult) * W)
    (digest : Digest) (res : ActionResult) (w : W) : option (result unit) * W :=
  match call "" (ToProto digest) res w with
  | (Some (Ok _), w) => (Some (Ok ()), w)
  | (Some (Err e), w) => (Some (Err e), w)
  | (None, w) => (None, w)
  end.

(** ** The server of a goREgo peer *)

(** It accepts every message and answers when the stream is closed. *)
Definition peer `{Zstd} (put : Digest → bool → putter) : server :=
  mkServer (λ _, None)
    (λ msgs, match Write put None (Msg <$> msgs) with
             | Returned r => r
             | _ => Err (StatusErr Unavailable "the handler did not return")
             end).

(** ** Lemmas *)

(** The ByteStream protocol of an upload: only the first message carries the
    resource name, offsets are consecutive, data comes in pieces of at most
    [bufSize] bytes, and only the last message, which is empty, finishes. *)
Fixpoint stream_of (name : string) (offset : Z) (msgs : list WriteRequest) : Prop :=
  match msgs with
  | [] => True
  | m :: msgs =>
      wr_ResourceName m = (if offset =? 0 then name else "") ∧ WriteOffset m = offset ∧
      Z.of_nat (String.length (wr_Data m)) ≤ bufSize ∧
      (if FinishWrite m then wr_Data m = "" ∧ msgs = [] else wr_Data m ≠ "") ∧
      stream_of name (offset + Z.of_nat (String.length (wr_Data m))) msgs
  end.

(** The upload has been finished. *)
Definition finished (msgs : list WriteRequest) : Prop := ∃ m, last msgs = Some m ∧ FinishWrite m = true.

Definition sent_data (msgs : list WriteRequest) : string := concat_str (wr_Data <$> msgs).

Lemma sent_data_cons m ms : sent_data (m :: ms) = wr_Data m +:+ sent_data ms.
Proof. done. Qed.

Lemma concat_str_app l k : concat_str (l ++ k) = concat_str l +:+ concat_str k.
Proof. induction l as [|a l IH]; simpl; [done|]. by rewrite IH, str_app_assoc. Qed.

(** The service reads the upload back from the messages. *)
Lemma stream_upload name offset msgs :
  stream_of name offset msgs → concat_str (upload msgs) = sent_data msgs.
Proof.
  revert offset. induction msgs as [|m msgs IH]; intros offset; simpl; [done|].
  intros (_ & _ & _ & Hfin & Hs). rewrite sent_data_cons.
  destruct (FinishWrite m).
  - destruct Hfin as [-> ->]. done.
  - rewrite (proj2 (String.eqb_neq _ _) Hfin). simpl. by rewrite (IH _ Hs).
Qed.

(** One read: a piece of the data, and less of it left. *)
Lemma read_some_spec n r data err r' :
  0 < n → read_some n r = ((data, err), r') →
  Z.of_nat (String.length data) ≤ n ∧ rd_all r = data +:+ rd_all r' ∧
  match err with
  | None => (read_fuel r' < read_fuel r)%nat ∧ rd_err r' = rd_err r
  | Some e => data = "" ∧ rd_all r = "" ∧ e = match rd_err r with Some e => e | None => EOF end
  end.
Proof.
  intros Hn. destruct r as [[|c cs] re]; unfold read_some; simpl.
  { intros [= <- <- <-]. split; [simpl; lia|]. split; [done|]. by split_and!. }
  destruct (Z.of_nat (String.length c) <=? n) eqn:E; to_prop; intros [= <- <- <-].
  - split_and!; [done|done| |done]. unfold read_fuel, rd_all. simpl. rewrite str_length_app. lia.
  - assert (String.length (str_take (Z.to_nat n) c) = Z.to_nat n) as Hl
      by (apply str_take_length; lia).
    split_and!; [lia| | |done].
    + unfold rd_all. simpl. by rewrite str_app_assoc, str_take_drop.
    + unfold read_fuel, rd_all. simpl. rewrite !str_length_app, str_drop_length. lia.
Qed.

Lemma early_close_ok srv s d sent err :
  early_close srv s d sent err = Ok () →
  ∃ c, CloseAndRecv srv sent = Ok c ∧ isCommitSuccessful s c d = true.
Proof.
  unfold early_close. destruct (CloseAndRecv srv sent) as [c|]; [|done].
  destruct (isCommitSuccessful s c d) eqn:E; [|done]. by exists c.
Qed.

(** What the loop has established when it returns [res], having sent [out]. *)
Record put_post (srv : server) (s : RemoteStore) (d : Digest) (name : string) (offset : Z)
    (r : reader) (sent out : list WriteRequest) (res : result unit) : Prop := {
  pp_stream : stream_of name offset out;
  pp_prefix : ∃ rest, rd_all r = sent_data out +:+ rest;
  pp_commit : res = Ok () →
    ∃ c, CloseAndRecv srv (sent ++ out) = Ok c ∧ isCommitSuccessful s c d = true;
  pp_complete : rd_err r = None → (∀ ms, Send srv ms = None) →
    finished out ∧ sent_data out = rd_all r ∧
    res = match CloseAndRecv srv (sent ++ out) with
          | Err err => Err err
          | Ok c => if isCommitSuccessful s c d then Ok () else Err (Errorf "incomplete write")
          end;
}.

(** Sending one more piece in front. *)
Lemma put_post_cons srv s d name offset r r' sent out res req :
  wr_ResourceName req = (if 0 <? offset then "" else name) → WriteOffset req = offset → 0 ≤ offset →
  Z.of_nat (String.length (wr_Data req)) ≤ bufSize → FinishWrite req = false → wr_Data req ≠ "" →
  rd_all r = wr_Data req +:+ rd_all r' → rd_err r' = rd_err r →
  put_post srv s d name (offset + Z.of_nat (String.length (wr_Data req))) r' (sent ++ [req]) out res →
  put_post srv s d name offset r sent (req :: out) res.
Proof.
  intros Hn Ho Hpos Hl Hf Hd Hall Herr [Hs [rest Hp] Hc Hcomp]. rewrite <- app_assoc in *. split.
  - simpl. rewrite Hf, Hn. split_and!; try done.
    destruct (0 <? offset) eqn:E; to_prop; [by rewrite (proj2 (Z.eqb_neq _ _)) by lia|].
    by rewrite (proj2 (Z.eqb_eq _ _)) by lia.
  - exists rest. by rewrite Hall, Hp, sent_data_cons, str_app_assoc.
  - done.
  - intros He Hsend. destruct (Hcomp (eq_trans Herr He) Hsend) as ((m & Hm & Hmf) & Hsd & Hres).
    split_and!; [|by rewrite sent_data_cons, Hsd|done].
    exists m. split; [|done]. destruct out; [done|exact Hm].
Qed.

Lemma put_loop_spec srv s d name fuel offset r sent :
  0 ≤ offset → (read_fuel r ≤ fuel)%nat →
  ∃ res out, put_loop fuel srv s d name offset r sent = Some (res, sent ++ out) ∧
    put_post srv s d name offset r sent out res.
Proof.
  revert offset r sent. induction fuel as [|fuel IH]; intros offset r sent Ho Hf.
  { unfold read_fuel in Hf. lia. }
  simpl. destruct (read_some bufSize r) as [[data err] r'] eqn:Hr.
  apply read_some_spec in Hr as (Hlen & Hall & Herr); [|done].
  set (req := mkWriteRequest (if 0 <? offset then "" else name) offset data false).
  destruct (0 <? Z.of_nat (String.length data)) eqn:Hpos; to_prop.
  - destruct err as [e|]; [destruct Herr as (-> & _ & _); simpl in Hpos; lia|].
    destruct Herr as [Hlt Hre]. destruct (Send srv sent) as [e|] eqn:Hsend.
    + exists (early_close srv s d sent e), []. rewrite app_nil_r. split; [done|]. split.
      * done.
      * by exists (rd_all r).
      * rewrite app_nil_r. apply early_close_ok.
      * intros _ Hno. by rewrite Hno in Hsend.
    + destruct (IH (offset + Z.of_nat (String.length data)) r' (sent ++ [req]))
        as (res & out & Hl & Hpost); [lia|lia|].
      exists res, (req :: out). rewrite Hl, <- app_assoc. split; [done|].
      apply (put_post_cons _ _ _ _ _ _ r'); try done. simpl. by intros ->.
  - assert (data = "") as -> by (destruct data; [done|simpl in Hpos; lia]).
    simpl in Hall. rewrite Z.add_0_r. destruct err as [e|].
    2: { destruct Herr as [Hlt Hre]. destruct (IH offset r' sent) as (res & out & Hl & [Hs Hp Hc Hcomp]);
           [done|lia|]. exists res, out. rewrite Hl. split; [done|]. split; try done.
         - by rewrite Hall.
         - rewrite Hall, <- Hre. done. }
    destruct Herr as (_ & Hempty & He).
    assert (e = EOF ∨ e ≠ EOF ∧ rd_err r = Some e) as [->|[Hne Hre]].
    { subst e. destruct (rd_err r) as [e|]; [|by left].
      destruct (decide (e = EOF)); [by left|by right]. }
    + destruct (Send srv sent) as [e|] eqn:Hsend.
      * exists (early_close srv s d sent e), []. rewrite app_nil_r. split; [done|]. split.
        -- done.
        -- by exists (rd_all r).
        -- rewrite app_nil_r. apply early_close_ok.
        -- intros _ Hno. by rewrite Hno in Hsend.
      * eexists _, [_]. split; [done|]. split.
        -- simpl. by split_and!.
        -- exists "". by rewrite Hempty.
        -- destruct (CloseAndRecv srv _) as [c|]; [|done].
           destruct (isCommitSuccessful s c d) eqn:E; [|done]. by exists c.
        -- intros _ _. split_and!; [by eexists|by rewrite Hempty|done].
    + exists (Err e), []. rewrite app_nil_r. split; [by destruct e|]. split.
      * done.
      * by exists (rd_all r).
      * done.
      * by rewrite Hre.
Qed.

(** *** A goREgo peer *)

(** [ByteStream.Write] of messages whose [Put] reads to the end. *)
Lemma Write_drains `{Zstd} put r msgs dg c f :
  parseResourceName (wr_ResourceName r) true = Ok (dg, c) → WriteOffset r ≤ 0 →
  put dg c = Puts (Drains f) →
  let raw := concat_str (upload (r :: msgs)) in
  Write put None (Msg <$> r :: msgs) =
  match (if c then match zstd_decode raw with Ok plain => f plain None | Err e => f "" (Some e) end
         else f raw None) with
  | Ok _ => Returned (Ok (Z.of_nat (String.length raw)))
  | Err _ => Returned (Err (StatusErr Internal "store put failed"))
  end.
Proof.
  intros Hp Ho Hput raw. unfold Write.
  assert (write_loop put (Msg <$> r :: msgs) None [] =
          write_loop put (Msg <$> r :: msgs) (Some (dg, c, Drains f)) []) as ->.
  { simpl. assert (wr_ResourceName r ≠ "") as Hn by (intros Hn; by rewrite Hn in Hp).
    by rewrite (proj2 (String.eqb_neq _ _) Hn), (proj2 (Z.ltb_ge _ _) Ho), Hp, Hput. }
  rewrite write_loop_drains. change ([] ++ ?l) with l. fold (concat_str (upload (r :: msgs))).
  fold raw. destruct c; simpl; [destruct (zstd_decode raw)|]; simpl; by destruct (f _ _).
Qed.

(** The names the client writes are the names the service reads. *)
Lemma parse_write_name T u h n :
  T = "blobs" ∨ T = "compressed-blobs/zstd" → u ≠ "" → contains_byte "/" u = false →
  h ≠ "" → str_all is_hex h = true → Z.of_N n ≤ max_int64 →
  parseResourceName (slash "uploads" (slash u (slash T (slash h (print_dec n))))) true =
  Ok (mkDigest h (Z.of_N n), HasPrefix T "compressed-blobs").
Proof.
  intros HT Hu Hus Hh Hhex Hn. unfold parseResourceName.
  assert (FindStringSubmatch true (slash "uploads" (slash u (slash T (slash h (print_dec n))))) =
    Some (T, h, print_dec n)) as ->.
  { apply write_regex_iff. split.
    - split_and!; try done; [apply print_dec_nonempty|apply print_dec_digits].
    - exists "", u. split_and!; [by left|done..]. }
  by rewrite ParseInt_print.
Qed.

(** The resource name of an upload. *)
Definition upload_name (s : RemoteStore) (uuid : string) (d : Digest) : string :=
  slash "uploads" (slash uuid
    (slash (if zstd_on s then "compressed-blobs/zstd" else "blobs")
       (slash (Hash d) (print_int (Size d))))).

Lemma Put_name `{Sdk, Zstd} srv s uuid d data :
  uuid ≠ "" → Hash d ≠ "" →
  Put None srv s uuid d data =
  put_loop (read_fuel (if zstd_on s then zstd_encode data else data)) srv s d
    (upload_name s uuid d) 0 (if zstd_on s then zstd_encode data else data) [].
Proof.
  intros Hu Hh. unfold Put, upload_name.
  assert (print_int (Size d) ≠ "") as Hp.
  { unfold print_int. destruct (Size d <? 0); [done|]. apply print_dec_nonempty. }
  destruct (zstd_on s) eqn:Hz.
  - rewrite ResourceName_join by (repeat constructor; done). simpl. unfold slash. simpl.
    by rewrite <- !str_app_assoc.
  - rewrite ResourceNameWrite_name, ResourceName_join by (repeat constructor; done). done.
Qed.

Lemma remote_put_to_peer `{Sdk, ZstdCodec} put s uuid h n data f :
  uuid ≠ "" → contains_byte "/" uuid = false →
  h ≠ "" → str_all is_hex h = true → Z.of_N n ≤ max_int64 →
  let d := mkDigest h (Z.of_N n) in
  rd_err data = None → put d (zstd_on s) = Puts (Drains f) →
  let wire := Z.of_nat (String.length (rd_all (if zstd_on s then zstd_encode data else data))) in
  ∃ sent, Put None (peer put) s uuid d data = Some
    (match f (rd_all data) None with
     | Err _ => Err (StatusErr Internal "store put failed")
     | Ok _ => if (if zstd_on s then negb (wire =? 0) else wire =? Size d)
               then Ok () else Err (Errorf "incomplete write")
     end, sent).
Proof.
  intros Hu Hus Hh Hhex Hn d He Hput wire. rewrite Put_name by done.
  set (r := if zstd_on s then zstd_encode data else data).
  assert (rd_err r = None) as Her.
  { unfold r. destruct (zstd_on s); [by apply zstd_roundtrip|done]. }
  destruct (put_loop_spec (peer put) s d (upload_name s uuid d) (read_fuel r) 0 r [])
    as (res & out & Hl & [Hs _ _ Hcomp]); [done|done|].
  destruct (Hcomp Her (λ _, eq_refl)) as ((m & Hm & _) & Hsd & Hres). simpl in Hres.
  exists out. rewrite Hl. do 2 f_equal. rewrite Hres. clear Hl Hcomp Hres.
  destruct out as [|m0 out]; [done|].
  pose proof (stream_upload _ _ _ Hs) as Hup. rewrite Hsd in Hup.
  simpl in Hs. destruct Hs as (Hname & Hoff & _).
  rewrite (Write_drains put m0 out d (zstd_on s) f), Hup; [| |lia|done].
  - assert ((if zstd_on s then match zstd_decode (rd_all r) with
                               | Ok plain => f plain None | Err e => f "" (Some e) end
             else f (rd_all r) None) = f (rd_all data) None) as ->.
    { unfold r. destruct (zstd_on s); [|done].
      destruct (zstd_roundtrip data He) as [_ Hd]. by rewrite Hd. }
    destruct (f (rd_all data) None); [|done]. unfold isCommitSuccessful. fold r in wire.
    by destruct (zstd_on s).
  - rewrite Hname. unfold upload_name. simpl. unfold print_int.
    rewrite (proj2 (Z.ltb_ge (Z.of_N n) 0)) by lia. simpl.
    replace (Z.abs_N (Z.of_N n)) with n by lia.
    rewrite parse_write_name by (destruct (zstd_on s); auto; done).
    by destruct (zstd_on s).
Qed.

(** ** The properties *)



(** The reason of a failed upload is lost: when a server ends the stream
    early, the next [Send] reports [io.EOF] and the status is in the answer of
    [CloseAndRecv]; [Put] returns [io.EOF], which is also what a reader reports at
    the end of its data. *)
Theorem remote_put_hides_status `{Sdk, Zstd} srv s uuid d data status :
  uuid ≠ "" → Hash d ≠ "" →
  (∀ ms, Send srv ms = Some EOF) → (∀ ms, CloseAndRecv srv ms = Err status) →
  rd_err (if zstd_on s then zstd_encode data else data) = None →
  Put None srv s uuid d data = Some (Err EOF, []).
Proof.
  intros Hu Hh Hsend Hclose He. rewrite Put_name by done.
  set (r := if zstd_on s then _ else _) in *. clearbody r.
  enough (∀ fuel r offset, rd_err r = None → (read_fuel r ≤ fuel)%nat →
    put_loop fuel srv s d (upload_name s uuid d) offset r [] = Some (Err EOF, [])) as Hall
    by by apply Hall.
  clear r He. induction fuel as [|fuel IH]; intros r offset He Hf; [unfold read_fuel in Hf; lia|].
  simpl. destruct (read_some bufSize r) as [[x err] r'] eqn:Hr.
  apply read_some_spec in Hr as (_ & _ & Herr); [|done].
  unfold early_close. rewrite Hsend, Hclose.
  destruct (0 <? Z.of_nat (String.length x)) eqn:Hpos; to_prop; [done|].
  destruct err as [e|].
  - destruct Herr as (Hx & _ & ->). by rewrite He, Hsend, ?Hclose.
  - apply IH; [destruct Herr; congruence|lia].
Qed.

(** An encoder that emits nothing for empty data makes the empty blob, which
    every cache is asked for, impossible to upload with compression. *)
Lemma zstd_empty_upload_fails `{Sdk, ZstdCodec} put s uuid h data :
  zstd_on s = true → uuid ≠ "" → contains_byte "/" uuid = false →
  h ≠ "" → str_all is_hex h = true → rd_err data = None → rd_all data = "" →
  rd_all (zstd_encode data) = "" → put (mkDigest h 0) true = Puts (Drains (λ _ _, Ok ())) →
  ∃ sent, Put None (peer put) s uuid (mkDigest h 0) data =
    Some (Err (Errorf "incomplete write"), sent).
Proof.
  intros Hz Hu Hus Hh Hhex He _ Henc Hput.
  destruct (remote_put_to_peer put s uuid h 0%N data (λ _ _, Ok ())) as [sent Hp];
    try done; [by rewrite Hz|].
  exists sent. rewrite Hz in Hp. by rewrite Henc in Hp.
Qed.

(** ** Concrete instances *)
Module Demo.
Import ByteStream.Demo.

Definition resource_name (segs : list string) : result string :=
  if existsb (λ s, s =? "")%string segs then Err (Errorf "empty segment")
  else Ok (join_byte "/" segs).

#[export] Program Instance sdk : Sdk := {|
  ResourceName := resource_name;
  ResourceNameWrite uuid hash size :=
    resource_name ["uploads"; uuid; "blobs"; hash; print_int size];
|}.
Next Obligation.
  intros segs Hf. unfold resource_name.
  assert (existsb (λ s, s =? "")%string segs = false) as ->; [|done].
  induction Hf as [|s segs Hs Hf IH]; simpl; [done|]. by rewrite (proj2 (String.eqb_neq _ _) Hs).
Qed.
Next Obligation. done. Qed.

#[export] Program Instance codec_id : ZstdCodec := {| zstd_NewReader r := Ok r |}.
Next Obligation. done. Qed.
Next Obligation. intros r s He [= <-]. by exists r. Qed.

Definition plain : RemoteStore := mkRemoteStore "".
Definition zstd : RemoteStore := mkRemoteStore "zstd".
Definition dg : Digest := mkDigest "abcdef0123" 5.
Definition hello : reader := mkReader ["he"; "llo"] None.

(** A server that reports the whole upload as committed. *)
Definition counting : server :=
  mkServer (λ _, None) (λ msgs, Ok (Z.of_nat (String.length (sent_data msgs)))).



Definition closing : server :=
  mkServer (λ _, Some EOF) (λ _, Err (StatusErr ResourceExhausted "quota")).

Lemma remote_put_hides_status_witness : Put None closing plain "u" dg hello = Some (Err EOF, []).
Proof.
  exact (remote_put_hides_status closing plain "u" dg hello _ ltac:(discriminate)
    ltac:(discriminate) (λ _, eq_refl) (λ _, eq_refl) eq_refl).
Defined.
End Demo.
End Remote.
