(* ===== verification/CasServer.v ===== *)
(** The unary services: content-addressable storage and capabilities
    (src/pkg/server/server.go), the action cache (src/pkg/server/actioncache.go)
    and the operations service (src/pkg/server/operations.go).

    The CAS handlers work against the interface [Blobs.BlobStore]; their theorems
    use its laws only, so they hold for the local and the proxy store alike. *)

From S2P Require Import Prelude GoStrings Messages Scheduler Fs Storage Proxy Blobs ByteStream Remote.
Local Open Scope Z_scope.

Module CasServer.
Import Storage Blobs.

(** What the SDK makes of a digest field that is not set, and [err.Error()]. *)
Class GoValues := {
  NewFromProto_nil : result Digest;
  err_Error : error → string;
}.

(** ** Content-addressable storage *)

Record BatchUpdateRequest := mkBatchUpdateRequest { br_Digest : option PbDigest; br_Data : string }.
Record BatchUpdateResponse := mkBatchUpdateResponse {
  bu_Digest : option PbDigest;
  bu_Code : code;
  bu_Message : string;
}.

(** [bytes.NewReader] *)
Definition bytes_reader (data : string) : reader :=
  mkReader (if (data =? "")%string then [] else [data]) None.

Section cas.
Context {W : Type} `{DigestSdk, GoValues, BlobStore W}.

Fixpoint find_missing (ds missing : list PbDigest) (w : W) : option (result (list PbDigest)) * W :=
  match ds with
  | [] => (Some (Ok missing), w)
  | d :: ds =>
      match FromProto d with
      | Err _ => (Some (Err (StatusErr InvalidArgument "invalid digest")), w)
      | Ok digest =>
          match st_Has digest w with
          | (None, w) => (None, w)
          | (Some (Err _), w) => (Some (Err (StatusErr Internal "storage error")), w)
          | (Some (Ok present), w) =>
              find_missing ds (if present : bool then missing else missing ++ [d]) w
          end
      end
  end.

Definition FindMissingBlobs (BlobDigests : list PbDigest) : W → option (result (list PbDigest)) * W :=
  find_missing BlobDigests [].

(** Logging an invalid digest reads [r.Digest.Hash], which panics if there is no
    digest. *)
Fixpoint BatchUpdateBlobs (requests : list BatchUpdateRequest) (w : W)
    : option (list BatchUpdateResponse) * W :=
  match requests with
  | [] => (Some [], w)
  | r :: requests =>
      let respond c msg w :=
        match BatchUpdateBlobs requests w with
        | (Some rs, w) => (Some (mkBatchUpdateResponse (br_Digest r) c msg :: rs), w)
        | (None, w) => (None, w)
        end in
      match (match br_Digest r with Some d => FromProto d | None => NewFromProto_nil end) with
      | Err e =>
          match br_Digest r with
          | None => (None, w)
          | Some _ => respond InvalidArgument (err_Error e) w
          end
      | Ok dg =>
          match st_Put dg (bytes_reader (br_Data r)) w with
          | (None, w) => (None, w)
          | (Some (Err e), w) => respond Internal (err_Error e) w
          | (Some (Ok _), w) => respond OK "" w
          end
      end
  end.

Definition GetTree : result unit := Err (StatusErr Unimplemented "GetTree not implemented").
End cas.

(** ** Capabilities *)

Inductive DigestFunction := SHA256.
Inductive Compressor := ZSTD.

Record ServerCapabilities := mkServerCapabilities {
  DigestFunctions : list DigestFunction;
  SupportedCompressors : list Compressor;
  UpdateEnabled : bool;
  MaxBatchTotalSizeBytes : Z;
  ExecEnabled : bool;
  LowApiVersion : Z * Z;
  HighApiVersion : Z * Z;
}.

Definition GetCapabilities (execEnabled : bool) : ServerCapabilities :=
  mkServerCapabilities [SHA256] [ZSTD] true (4 * 1024 * 1024) execEnabled (2, 0) (2, 2).

(** ** The action cache *)

Section actioncache.
Context `{DigestSdk, GrpcStatus}.

(** [get] and [update] are the store's operations on the world. *)
Definition GetActionResult {W} (get : Digest → W → option (result ActionResult) * W)
    (ActionDigest : PbDigest) (w : W) : option (result ActionResult) * W :=
  match FromProto ActionDigest with
  | Err _ => (Some (Err (StatusErr InvalidArgument "invalid digest")), w)
  | Ok dg =>
      match get dg w with
      | (Some (Err e), w) =>
          (Some (Err (if os_IsNotExist e || bool_decide (status_Code e = NotFound)
                      then StatusErr NotFound "action result not found"
                      else StatusErr Internal "failed to get action result")), w)
      | r => r
      end
  end.

Definition UpdateActionResult {W} (update : Digest → ActionResult → W → option (result unit) * W)
    (ActionDigest : PbDigest) (res : ActionResult) (w : W) : option (result ActionResult) * W :=
  match FromProto ActionDigest with
  | Err _ => (Some (Err (StatusErr InvalidArgument "invalid digest")), w)
  | Ok dg =>
      match update dg res w with
      | (Some (Err _), w) => (Some (Err (StatusErr Internal "failed to update action result")), w)
      | (Some (Ok _), w) => (Some (Ok res), w)
      | (None, w) => (None, w)
      end
  end.
End actioncache.

(** ** Operations: the scheduler's calls *)

Section operations.
Context `{GrpcStatus, AnyPb}.
Import Scheduler.

Definition GetOperation (name : string) (s : Scheduler) : result Operation :=
  Scheduler.GetOperation name s.
Definition ListOperations (s : Scheduler) : list Operation := Scheduler.ListOperations s.
Definition CancelOperation (name : string) (now : Z) (s : Scheduler)
    : option (result unit * Scheduler) := Scheduler.CancelOperation name now s.
Definition DeleteOperation (name : string) (s : Scheduler) : result unit * Scheduler :=
  Scheduler.DeleteOperation name s.
End operations.

(** ** Lemmas *)

Section cas_lemmas.
Context {W : Type} `{DigestSdk, GoValues, BlobStoreLaws W}.

(** The digests the SDK accepts have hashes the stores can handle. *)
Lemma FromProto_hex p d : FromProto p = Ok d → hex_hash (Hash d) ∧ Hash d = pb_Hash p.
Proof using Type.
  intros Hp. destruct (NewFromProto_valid _ _ Hp) as [Hl Hh].
  destruct (NewFromProto_fields _ _ Hp) as [He _]. split; [split; [lia|done]|done].
Qed.

(** All digests of a request are ones the SDK accepts. *)
Definition valid (d : PbDigest) : Prop := ∃ dg, FromProto d = Ok dg.

Lemma valid_hex d : valid d → hex_hash (pb_Hash d).
Proof using Type. intros [dg Hd]. destruct (FromProto_hex _ _ Hd) as [? <-]. done. Qed.

Lemma find_missing_spec ds missing w :
  sane w →
  ∃ r w', find_missing ds missing w = (Some r, w') ∧ sane w' ∧
    (∀ h, hex_hash h → holds h w' ↔ holds h w) ∧
    (∀ ms, r = Ok ms → ∃ ms', ms = missing ++ ms' ∧ ms' `sublist_of` ds ∧ Forall valid ds ∧
       ∀ d, d ∈ ms' ↔ d ∈ ds ∧ ¬ holds (pb_Hash d) w).
Proof using Type.
  revert missing w. induction ds as [|d ds IH]; intros missing w Hs; simpl.
  { eexists _, _. split_and!; [done|done|done|]. intros ms [= <-]. exists [].
    rewrite app_nil_r. split_and!; [done|done|done|]. set_solver. }
  destruct (FromProto d) as [dg|e] eqn:Hd; [|by eexists _, _; split_and!].
  destruct (FromProto_hex _ _ Hd) as [Hhex Hhash].
  destruct (Has_law dg w Hs Hhex) as (r & w1 & Hr & Hs1 & Hk1 & Hb). rewrite Hr.
  destruct r as [b|e]; [|by eexists _, _; split_and!].
  destruct (IH (if b then missing else missing ++ [d]) w1 Hs1) as (r & w' & Hf & Hs' & Hk & Hok).
  rewrite Hf. exists r, w'. split_and!; [done|done|intros h Hh; by rewrite Hk, Hk1|].
  intros ms ->. destruct (Hok ms eq_refl) as (ms' & Hms & Hsub & Hval & Hin).
  specialize (Hb b eq_refl). rewrite Hhash in *.
  assert (∀ d', d' ∈ ds → holds (pb_Hash d') w1 ↔ holds (pb_Hash d') w) as Hsame.
  { intros d' Hd'. apply Hk1, valid_hex. rewrite Forall_forall in Hval. by apply Hval. }
  assert (Forall valid (d :: ds)) as Hval' by (constructor; [by eexists|done]).
  destruct b.
  - exists ms'. split_and!; [done|by constructor|done|]. intros d'. rewrite elem_of_cons, Hin.
    split; [intros [? Hn]; rewrite Hsame in Hn by done; tauto|].
    intros [[->|Hd'] Hn]; [destruct Hn; by apply Hb|]. by rewrite Hsame.
  - exists (d :: ms'). rewrite <- app_assoc in Hms. split_and!; [done|by constructor|done|].
    intros d'. rewrite !elem_of_cons, Hin. split.
    + intros [->|[? Hn]]; [split; [by left|]; by intros ?%Hb|].
      rewrite Hsame in Hn by done. tauto.
    + intros [[->|Hd'] Hn]; [by left|right]. by rewrite Hsame.
Qed.

(** Responses correspond to requests; a blob reported as stored is there. *)
Definition answers (w : W) (r : BatchUpdateRequest) (resp : BatchUpdateResponse) : Prop :=
  bu_Digest resp = br_Digest r ∧
  (bu_Code resp = OK → ∃ d, br_Digest r = Some d ∧ valid d ∧ holds (pb_Hash d) w) ∧
  (bu_Code resp = InvalidArgument ↔ ∃ d, br_Digest r = Some d ∧ ¬ valid d).

Lemma answers_mono w w' r resp :
  (∀ h, hex_hash h → holds h w → holds h w') → answers w r resp → answers w' r resp.
Proof using Type.
  intros Hk (Hd & Hok & Hinv). split_and!; [done| |done].
  intros Hc. destruct (Hok Hc) as (d & ? & Hv & ?). exists d. split_and!; auto using valid_hex.
Qed.

Lemma BatchUpdateBlobs_spec rs w :
  sane w → Forall (λ r, is_Some (br_Digest r)) rs →
  ∃ resps w', BatchUpdateBlobs rs w = (Some resps, w') ∧ sane w' ∧
    (∀ h, hex_hash h → holds h w → holds h w') ∧ Forall2 (answers w') rs resps.
Proof using Type.
  revert w. induction rs as [|r rs IH]; intros w Hs Hf; simpl; [by eexists [], w; split_and!|].
  apply Forall_cons in Hf as [[d Hd] Hf]. rewrite Hd. destruct (FromProto d) as [dg|e] eqn:Hp.
  - destruct (FromProto_hex _ _ Hp) as [Hhex Hhash].
    destruct (Put_law dg (bytes_reader (br_Data r)) w Hs Hhex) as (res & w1 & Hput & Hs1 & Hk1 & Hok).
    rewrite Hput. assert (valid d) as Hv by by eexists.
    destruct (IH w1 Hs1 Hf) as (resps & w' & Hb & Hs' & Hk & Hall). rewrite Hb.
    destruct res as [[]|e]; (eexists _, _; split_and!; [done|done|auto|]); constructor; try done;
      (unfold answers; simpl; rewrite Hd; split_and!; [done| |]); try done.
    + intros _. exists d. split_and!; [done|done|]. rewrite <- Hhash. auto.
    + split; [done|]. intros (d' & [= <-] & ?). congruence.
    + split; [done|]. intros (d' & [= <-] & ?). congruence.
  - destruct (IH w Hs Hf) as (resps & w' & Hb & Hs' & Hk & Hall). rewrite Hb.
    eexists _, _. split_and!; [done|done|done|]. constructor; [|done].
    unfold answers. simpl. rewrite Hd. split_and!; [done|done|]. split; [|done]. intros _.
    exists d. split; [done|]. intros [dg Hdg]. congruence.
Qed.
End cas_lemmas.

(** ** The properties *)

(** [FindMissingBlobs] is exact: over any store with the interface's laws it
    never panics and leaves the blobs alone, and an answer lists, in the request's
    order, precisely the requested digests of which there is no blob; it answers
    only if all of them are valid. *)
Theorem find_missing_exact {W} `{DigestSdk, BlobStoreLaws W} ds w :
  sane w →
  ∃ r w', FindMissingBlobs ds w = (Some r, w') ∧ sane w' ∧
    (∀ h, hex_hash h → holds h w' ↔ holds h w) ∧
    (∀ missing, r = Ok missing → missing `sublist_of` ds ∧ Forall valid ds ∧
       ∀ d, d ∈ missing ↔ d ∈ ds ∧ ¬ holds (pb_Hash d) w).
Proof.
  intros Hs. destruct (find_missing_spec ds [] w Hs) as (r & w' & Hf & Hs' & Hk & Hok).
  exists r, w'. split_and!; [done..|]. intros ms ->.
  by destruct (Hok ms eq_refl) as (ms' & -> & ? & ? & ?).
Qed.


(** A request without a digest brings the server down: if the SDK rejects a
    missing digest, logging the rejection dereferences it, wherever in the batch
    the request is. *)
Theorem batch_update_nil_digest_panics {W} `{DigestSdk, GoValues, BlobStore W} rs w e :
  NewFromProto_nil = Err e → (∃ r, r ∈ rs ∧ br_Digest r = None) →
  (BatchUpdateBlobs rs w).1 = None.
Proof.
  intros Hnil (r & Hin & Hr). revert w. induction rs as [|r' rs IH]; intros w; [by apply elem_of_nil in Hin|].
  simpl. destruct (br_Digest r') as [d|] eqn:Hd; [|by rewrite Hnil].
  apply elem_of_cons in Hin as [->|Hin]; [congruence|]. specialize (IH Hin).
  destruct (FromProto d) as [dg|].
  - destruct (st_Put _ _ w) as [[[[]|]|] w1]; [..|done]; specialize (IH w1);
      destruct (BatchUpdateBlobs rs w1) as [[]]; done.
  - specialize (IH w). by destruct (BatchUpdateBlobs rs w) as [[]].
Qed.

Lemma action_cache_roundtrip `{OS, ActionResultPb, DigestSdk, GrpcStatus} s p d r w :
  FromProto p = Ok d → wf (fs w) →
  (∀ res w', UpdateActionResult (Storage.UpdateActionResult s) p r w = (Some (Ok res), w') →
     res = r ∧
     ((GetActionResult (Storage.GetActionResult s) p w').1 = Some (Ok r) ∨
      is_Some (fault (tick w')) ∨ is_Some (fault (S (tick w'))))) ∧
  (tree (fs w) !! action_path s d = None → fault (tick w) = None →
     (GetActionResult (Storage.GetActionResult s) p w).1 =
     Some (Err (StatusErr NotFound "action result not found"))).
Proof.
  intros Hp Hwf. destruct (FromProto_hex _ _ Hp) as [Hh _].
  unfold UpdateActionResult, GetActionResult. rewrite Hp. split.
  - intros res w'. destruct (Storage.UpdateActionResult s d r w) as [[[[]|e]|] w1] eqn:Hu;
      intros [= <- <-]. split; [done|].
    assert (∃ data, ar_Marshal r = Ok data) as [data Hm].
    { unfold Storage.UpdateActionResult in Hu. destruct (ar_Marshal r); [by eexists|done]. }
    destruct (UpdateActionResult_wp s d r data w Hh Hwf Hm) as [_ (res & Hres & Hpub)].
    rewrite Hu in Hres, Hpub. injection Hres as <-.
    destruct (pu_result _ _ _ _ _ _ _ _ _ _ _ Hpub) as (_ & (x & Hx & Hc & _) & _). simpl in Hx.
    destruct (GetActionResult_bytes s d w1 data r Hh) as [Hg|[? _]]; [| | |by right].
    + unfold bytes_at. rewrite Hx. simpl. by rewrite Hc.
    + by apply ar_Unmarshal_Marshal.
    + left. destruct (Storage.GetActionResult s d w1) as [o w2]. simpl in Hg. by subst o.
  - intros Ht Hf. unfold Storage.GetActionResult. rewrite getActionPath_hex by done.
    unfold mbind, M_bind, or_panic, mret, M_ret, os_ReadFile, mbind, M_bind, os_Open, sys.
    rewrite Hf. unfold fs_open. by rewrite Ht.
Qed.

(** The action cache service over the local store: what an accepted update
    stored is what a lookup returns, unless one of its two system calls fails, and
    a lookup of an action without a result is answered with NotFound. *)
Theorem action_cache_service `{OS, ActionResultPb, DigestSdk, GrpcStatus} s p d r w :
  FromProto p = Ok d → wf (fs w) →
  (∀ res w', UpdateActionResult (Storage.UpdateActionResult s) p r w = (Some (Ok res), w') →
     res = r ∧
     ((GetActionResult (Storage.GetActionResult s) p w').1 = Some (Ok r) ∨
      is_Some (fault (tick w')) ∨ is_Some (fault (S (tick w'))))) ∧
  (tree (fs w) !! action_path s d = None → fault (tick w) = None →
     (GetActionResult (Storage.GetActionResult s) p w).1 =
     Some (Err (StatusErr NotFound "action result not found"))).
Proof. apply action_cache_roundtrip. Qed.

(** Client and service of the action cache together: what a node stores at a
    peer, it gets back from it, as long as none of the two system calls of the
    lookup fails; and what the peer does not have is an error with code NotFound. *)
Theorem remote_action_roundtrip `{OS, ActionResultPb, DigestSdk, GrpcStatus} s d r w :
  let peer_get := λ _ : string, GetActionResult (Storage.GetActionResult s) in
  let peer_update := λ _ : string, UpdateActionResult (Storage.UpdateActionResult s) in
  FromProto (ToProto d) = Ok d → wf (fs w) →
  (∀ w', Remote.UpdateActionResult peer_update d r w = (Some (Ok ()), w') →
     (Remote.GetActionResult peer_get d w').1 = Some (Ok r) ∨
     is_Some (fault (tick w')) ∨ is_Some (fault (S (tick w')))) ∧
  (tree (fs w) !! action_path s d = None → fault (tick w) = None →
     (Remote.GetActionResult peer_get d w).1 =
     Some (Err (StatusErr NotFound "action result not found"))).
Proof.
  intros peer_get peer_update Hp Hwf. destruct (action_cache_roundtrip s (ToProto d) d r w Hp Hwf) as [Hup Hmiss].
  split; [|done]. intros w'. unfold Remote.UpdateActionResult, peer_update.
  destruct (UpdateActionResult _ _ r w) as [[[res|e]|] w1] eqn:Hu; intros [= <-].
  by destruct (Hup res w1 eq_refl).
Qed.

(** ** Concrete instances *)
Module Demo.
Import Messages.Concrete Schedules Storage.Demo.

#[export] Instance go_values : GoValues := {|
  NewFromProto_nil := Err (Errorf "invalid digest");
  err_Error _ := "error";
|}.

Definition hash64 : string :=
  "0123456789abcdef0123456789abcdef0123456789abcdef0123456789abcdef".
Definition here : PbDigest := mkPbDigest hash64 5.
Definition bad : PbDigest := mkPbDigest "abc" 5.

#[export] Instance stores : BlobStore World := local_blobs (H := calm) store.
#[export] Instance laws : BlobStoreLaws World := local_laws (H := calm) store.

Lemma world_sane : sane world.
Proof.
  split; [exact disk_wf|]. intros h _ Hd. simpl in Hd. unfold blob_of, hash_dir in Hd. simpl in Hd.
  repeat apply lookup_insert_Some in Hd as [[[=] _]|[_ Hd]].
  by apply lookup_singleton_Some in Hd as [[=] _].
Qed.

Definition batch : list BatchUpdateRequest :=
  [mkBatchUpdateRequest (Some bad) "x"; mkBatchUpdateRequest (Some here) "hello"].

(** The digests of a request, one of which is in the store afterwards. *)
Definition after_batch := BatchUpdateBlobs batch world.

Lemma find_missing_exact_witness :
  ∃ w', FindMissingBlobs [here] world = (Some (Ok [here]), w') ∧
    ¬ holds hash64 world.
Proof.
  destruct (find_missing_exact [here] world world_sane) as (r & w' & Hf & _ & _ & Hok).
  assert (FindMissingBlobs [here] world =
    (Some (Ok [here]), (FindMissingBlobs [here] world).2)) as He
    by (vm_compute; reflexivity).
  exists (FindMissingBlobs [here] world).2. split; [exact He|].
  rewrite Hf in He. injection He as ->. destruct (Hok [here] eq_refl) as (_ & _ & Hin).
  apply (Hin here). by left.
Defined.


Lemma batch_update_nil_digest_panics_witness :
  (BatchUpdateBlobs [mkBatchUpdateRequest (Some here) "hello"; mkBatchUpdateRequest None "x"]
     world).1 = None.
Proof.
  apply (batch_update_nil_digest_panics _ world (Errorf "invalid digest")); [reflexivity|].
  exists (mkBatchUpdateRequest None "x"). split; [right; left|reflexivity].
Defined.

Definition action : Digest := mkDigest hash64 5.

Lemma action_cache_service_witness :
  (GetActionResult (Storage.GetActionResult (H := calm) store) here world).1 =
  Some (Err (StatusErr NotFound "action result not found")).
Proof.
  apply (action_cache_service (H := calm) store here action ar0 world); [|exact disk_wf|..];
    vm_compute; reflexivity.
Defined.
End Demo.
End CasServer.
