(* ===== verification/Sandbox.v ===== *)
(** The sandbox (src/pkg/sandbox/sandbox.go): building the linux-sandbox command
    line of an action. *)

From S2P Require Import Prelude GoStrings Messages Fs Storage Float64.
Local Open Scope Z_scope.

Module Sandbox.

(** The fields of [config.SandboxConfig] it reads. *)
Record SandboxConfig := mkSandboxConfig {
  Enabled : bool;
  BinaryPath : string;
  NetworkIsolation : bool;
  cfg_WritablePaths : list string;
  KillDelay : Z;
  Debug : bool;
}.

Record Sandbox := mkSandbox { cfg : SandboxConfig }.

(** [stat] is the error of [os.Stat(cfg.BinaryPath)]; [None] is a nil sandbox. *)
Definition New (stat : option error) (cfg : SandboxConfig) : result (option Sandbox) :=
  if negb (Enabled cfg) then Ok None
  else match stat with
  | Some e => Err (Wrapped "linux-sandbox binary not found" e)
  | None => Ok (Some (mkSandbox cfg))
  end.

(** The method [Enabled] of a sandbox that may be nil. *)
Definition sandbox_Enabled (s : option Sandbox) : bool :=
  match s with Some s => Enabled (cfg s) | None => false end.

(** [Timeout] is a [time.Duration] in nanoseconds. *)
Record WrapSpec := mkWrapSpec {
  ExecRoot : string;
  InputMounts : gmap string string;
  WritablePaths : list string;
  Timeout : Z;
  Command : list string;
}.

(** [deduplicatePaths]; [seen] is the map of the paths met so far. *)
Fixpoint dedup (seen : gset string) (paths : list string) : list string :=
  match paths with
  | [] => []
  | p :: paths => if bool_decide (p ∈ seen) then dedup seen paths
                  else p :: dedup ({[p]} ∪ seen) paths
  end.
Definition deduplicatePaths (paths : list string) : list string := dedup ∅ paths.

(** [sort.Strings]: bytewise order. *)
Definition sort_Strings (l : list string) : list string := merge_sort String.le l.

Definition second : Z := 10 ^ 9.

(** [Duration.Seconds], a float64, for a positive duration. *)
Definition Seconds (d : Z) : f64 :=
  f64_add (f64_of_int (Z.quot d second))
    (f64_div (f64_of_int (Z.rem d second)) (f64_of_int second)).

(** [order] is the iteration order of the map [spec.InputMounts]. *)
Definition WrapCommand (order : list string) (s : Sandbox) (spec : WrapSpec) : result (list string) :=
  if (List.length (Command spec) =? 0)%nat then Err (Errorf "command cannot be empty")
  else
    let sources := sort_Strings order in
    Ok ([BinaryPath (cfg s); "-W"; ExecRoot spec] ++
        (sources ≫= λ source, ["-M"; source; "-m"; default "" (InputMounts spec !! source)]) ++
        (cfg_WritablePaths (cfg s) ≫= λ p, ["-w"; p]) ++
        (sort_Strings (deduplicatePaths (WritablePaths spec)) ≫= λ p, ["-w"; p]) ++
        (if NetworkIsolation (cfg s) then ["-N"] else []) ++
        ["-H"] ++
        (if 0 <? Timeout spec
         then ["-T"; Storage.print_int (f64_to_int (Seconds (Timeout spec)));
               "-t"; Storage.print_int (KillDelay (cfg s))]
         else []) ++
        (if Debug (cfg s) then ["-D"] else []) ++
        ["--"] ++ Command spec).

(** ** Reading the command line back *)

(** One option of the command line. *)
Inductive option_ :=
  | OWorkdir (d : string)
  | OMount (source target : string)
  | OWritable (p : string)
  | ONetwork
  | OHostname
  | OTimeout (n : string)
  | OKillDelay (n : string)
  | ODebug.

Definition print_option (o : option_) : list string :=
  match o with
  | OWorkdir d => ["-W"; d]
  | OMount s t => ["-M"; s; "-m"; t]
  | OWritable p => ["-w"; p]
  | ONetwork => ["-N"]
  | OHostname => ["-H"]
  | OTimeout n => ["-T"; n]
  | OKillDelay n => ["-t"; n]
  | ODebug => ["-D"]
  end.

(** The first option of the arguments, and the rest. *)
Definition read_option (args : list string) : option (option_ * list string) :=
  match args with
  | [] => None
  | flag :: rest =>
      if (flag =? "-N")%string then Some (ONetwork, rest)
      else if (flag =? "-H")%string then Some (OHostname, rest)
      else if (flag =? "-D")%string then Some (ODebug, rest)
      else match rest with
      | [] => None
      | arg :: rest =>
          if (flag =? "-W")%string then Some (OWorkdir arg, rest)
          else if (flag =? "-w")%string then Some (OWritable arg, rest)
          else if (flag =? "-T")%string then Some (OTimeout arg, rest)
          else if (flag =? "-t")%string then Some (OKillDelay arg, rest)
          else if (flag =? "-M")%string then
            match rest with
            | m :: target :: rest =>
                if (m =? "-m")%string then Some (OMount arg target, rest) else None
            | _ => None
            end
          else None
      end
  end.

(** The options up to the delimiter, and the command after it. *)
Fixpoint read_args (fuel : nat) (args : list string) : option (list option_ * list string) :=
  match fuel with
  | O => None
  | S fuel =>
      if bool_decide (head args = Some "--") then Some ([], tail args)
      else '(o, args) ← read_option args; '(os, cmd) ← read_args fuel args; Some (o :: os, cmd)
  end.

(** ** Lemmas: paths *)

Lemma dedup_spec seen l :
  NoDup (dedup seen l) ∧ ∀ p, p ∈ dedup seen l ↔ p ∈ l ∧ p ∉ seen.
Proof.
  revert seen. induction l as [|p l IH]; intros seen; simpl.
  { split; [constructor|]. intros p. rewrite elem_of_nil. tauto. }
  case_bool_decide as Hp.
  - destruct (IH seen) as [Hn Hin]. split; [done|]. intros q. rewrite Hin, elem_of_cons.
    split; [tauto|]. intros [[->|?] ?]; tauto.
  - destruct (IH ({[p]} ∪ seen)) as [Hn Hin]. split.
    + constructor; [|done]. rewrite Hin, elem_of_union, elem_of_singleton. tauto.
    + intros q. rewrite !elem_of_cons, Hin, elem_of_union, elem_of_singleton.
      destruct (decide (q = p)) as [->|]; tauto.
Qed.

Lemma sort_Strings_unique l k : l ≡ₚ k → sort_Strings l = sort_Strings k.
Proof.
  intros Hp. apply (Sorted_unique String.le); try apply (Sorted_merge_sort String.le).
  unfold sort_Strings. by rewrite !(merge_sort_Permutation String.le).
Qed.

Lemma sort_Strings_perm l : sort_Strings l ≡ₚ l.
Proof. apply (merge_sort_Permutation String.le). Qed.

(** ** Lemmas: seconds *)

Lemma f64_add_frac m1 a m2 b :
  0 ≤ a → 0 ≤ b →
  f64_add (Fin m1 (- a)) (Fin m2 (- b)) =
  rnd (m1 * 2 ^ (Z.max a b - a) + m2 * 2 ^ (Z.max a b - b)) (2 ^ Z.max a b).
Proof.
  intros Ha Hb. unfold f64_add.
  assert (pw (Z.min (- a) (- b)) = 1) as -> by (unfold pw; rewrite Z.max_l by lia; done).
  rewrite Z.mul_1_r. unfold pw. f_equal; [f_equal; f_equal; f_equal; lia|f_equal; lia].
Qed.

(** The fraction of a second is a float64 that stays away from one. *)
Lemma nanos_frac ns :
  0 ≤ ns < second →
  ∃ m b, rnd ns second = Fin m (- b) ∧ 0 ≤ b ∧ 0 ≤ m ∧ m * 2 ^ 31 ≤ (2 ^ 31 - 1) * 2 ^ b.
Proof.
  intros Hns. destruct (Z.eq_dec ns 0) as [->|Hne].
  { exists 0, 0. by split_and!. }
  pose proof (rnd_mono ns second 999999999 second ltac:(lia) ltac:(done) ltac:(done) ltac:(done)
    ltac:(unfold second in *; nia)) as Hle.
  pose proof (rnd_nonneg ns second ltac:(lia) ltac:(done)) as Hpos.
  pose proof (exp53_spec ns second ltac:(lia) ltac:(done)) as [Hlo _].
  rewrite (rnd_pos ns) in * by lia. set (e := exp53 ns second) in *. simpl in Hpos.
  assert (e ≤ 0) as He.
  { apply Z.le_ngt. intros Hgt. unfold num, den in Hlo.
    assert (pw (- e) = 1) as Hp by (unfold pw; rewrite Z.max_l by lia; done).
    pose proof (pw_pos e). rewrite Hp in Hlo. unfold second in *. nia. }
  exists (sig ns second), (- e). rewrite Z.opp_involutive. split_and!; [done|lia|done|].
  assert (rnd 999999999 second = Fin 9007199245733793 (-53)) as Hbig by (vm_compute; reflexivity).
  rewrite Hbig in Hle. unfold f64_lt in Hle. apply Z.ltb_ge in Hle.
  pose proof (pw_cross e (-53)) as Hc. set (m := sig ns second) in *. clearbody m.
  assert (pw e = 1) as Hp1 by (unfold pw; rewrite Z.max_l by lia; done).
  assert (pw (- e) = 2 ^ (- e)) as Hp2 by (unfold pw; f_equal; lia).
  change (pw (-53)) with 1 in Hc. change (pw (- -53)) with (2 ^ 53) in Hc.
  rewrite Hp1, Hp2, Z.mul_1_r, Z.mul_1_l in Hc.
  pose proof (Z.pow_pos_nonneg 2 (- e) ltac:(lia) ltac:(lia)) as Hq.
  pose proof (pw_pos (e - -53)). pose proof (pw_pos (-53 - e)).
  set (x := pw (e - -53)) in *. set (y := pw (-53 - e)) in *. set (q := 2 ^ (- e)) in *.
  clearbody x y q.
  assert (m * x * q ≤ 9007199245733793 * y * q) as H1 by (apply Z.mul_le_mono_nonneg_r; lia).
  assert (m * (y * 2 ^ 53) ≤ 9007199245733793 * y * q) as H2 by (rewrite <- Hc; lia).
  assert (m * 2 ^ 53 ≤ 9007199245733793 * q) as H3 by nia.
  nia.
Qed.

(** [int(d.Seconds())] is the number of whole seconds, below 2^22 of them. *)
Lemma Seconds_whole d : 0 < d → d / second < 2 ^ 22 - 1 → f64_to_int (Seconds d) = d / second.
Proof.
  intros Hd Hs. unfold Seconds. rewrite Z.quot_div_nonneg, Z.rem_mod_nonneg by (done || lia).
  pose proof (Z.mod_pos_bound d second ltac:(done)) as Hns.
  pose proof (Z.div_pos d second ltac:(lia) ltac:(done)) as Hpos.
  set (sec := d / second) in *. set (ns := d mod second) in *. clearbody sec ns. clear Hd d.
  rewrite f64_div_int by (unfold second in *; lia).
  destruct (nanos_frac ns Hns) as (m & b & -> & Hb & Hm & Hlt).
  assert (∃ a, 0 ≤ a ∧ f64_of_int sec = Fin (sec * 2 ^ a) (- a)) as (a & Ha & ->).
  { destruct (Z.eq_dec sec 0) as [->|]; [by exists 0|].
    destruct (f64_of_int_exact sec) as (a & ? & ?); [lia|]. by exists a. }
  rewrite f64_add_frac by done. set (N := Z.max a b).
  assert (sec * 2 ^ a * 2 ^ (N - a) = sec * 2 ^ N) as ->.
  { rewrite <- Z.mul_assoc, <- Z.pow_add_r by lia. do 2 f_equal. lia. }
  pose proof (Z.pow_pos_nonneg 2 N ltac:(lia) ltac:(lia)) as HN.
  pose proof (Z.pow_pos_nonneg 2 (N - b) ltac:(lia) ltac:(lia)) as HNb.
  assert (2 ^ N = 2 ^ b * 2 ^ (N - b)) as HNe by (rewrite <- Z.pow_add_r by lia; f_equal; lia).
  set (P := sec * 2 ^ N + m * 2 ^ (N - b)).
  assert (0 ≤ P) by (unfold P; nia).
  apply Z.le_antisymm.
  - assert (sec = ((sec + 1) * 2 ^ 31 - 1) / 2 ^ 31) as Heq.
    { apply (Z.div_unique _ _ _ (2 ^ 31 - 1)); lia. }
    rewrite Heq at 1. rewrite <- f64_to_int_dyadic by lia.
    apply f64_to_int_mono; [by apply rnd_nonneg|apply rnd_nonneg; lia|].
    apply rnd_mono; try lia. unfold P. rewrite HNe.
    set (u := 2 ^ (N - b)) in *. set (v := 2 ^ b) in *. clearbody u v. nia.
  - rewrite <- (Z.div_1_r sec) at 1. change 1 with (2 ^ 0). rewrite <- f64_to_int_dyadic by lia.
    apply f64_to_int_mono; [apply rnd_nonneg; lia|by apply rnd_nonneg|].
    apply rnd_mono; try lia.
Qed.

(** ** Lemmas: reading back *)

Lemma read_print_option o args : read_option (print_option o ++ args) = Some (o, args).
Proof. by destruct o. Qed.

(** The options in front of a delimiter and a command. *)
Lemma read_args_print os cmd fuel :
  (List.length os < fuel)%nat → read_args fuel ((os ≫= print_option) ++ "--" :: cmd) = Some (os, cmd).
Proof.
  revert fuel. induction os as [|o os IH]; intros [|fuel] Hf; simpl in Hf; try lia; [done|].
  change ((o :: os) ≫= print_option) with (print_option o ++ (os ≫= print_option)).
  rewrite <- app_assoc.
  assert (head (print_option o ++ (os ≫= print_option) ++ "--" :: cmd) ≠ Some "--") as Hh
    by by destruct o.
  unfold read_args. fold read_args. rewrite bool_decide_eq_false_2 by done.
  rewrite read_print_option. simpl. rewrite IH by lia. done.
Qed.

(** What linux-sandbox is told. *)
Definition invocation (s : Sandbox) (spec : WrapSpec) (sources writable : list string)
    : list option_ :=
  [OWorkdir (ExecRoot spec)] ++
  ((λ src, OMount src (default "" (InputMounts spec !! src))) <$> sources) ++
  (OWritable <$> cfg_WritablePaths (cfg s)) ++ (OWritable <$> writable) ++
  (if NetworkIsolation (cfg s) then [ONetwork] else []) ++ [OHostname] ++
  (if 0 <? Timeout spec
   then [OTimeout (Storage.print_int (f64_to_int (Seconds (Timeout spec))));
         OKillDelay (Storage.print_int (KillDelay (cfg s)))]
   else []) ++
  (if Debug (cfg s) then [ODebug] else []).

Lemma WrapCommand_options order s spec :
  Command spec ≠ [] →
  WrapCommand order s spec =
  Ok (BinaryPath (cfg s) ::
      (invocation s spec (sort_Strings order)
         (sort_Strings (deduplicatePaths (WritablePaths spec))) ≫= print_option) ++
      "--" :: Command spec).
Proof.
  intros Hc. unfold WrapCommand. destruct (Command spec) as [|c cs] eqn:E; [done|].
  cbn [List.length Nat.eqb]. f_equal. unfold invocation. rewrite !bind_app.
  assert (∀ {A} (f : A → option_) l, (f <$> l) ≫= print_option = l ≫= (λ x, print_option (f x)))
    as Hfm by (intros A f l; induction l; [done|by simpl; f_equal]).
  rewrite !Hfm, <- !app_assoc. simpl. do 3 f_equal.
  by destruct (NetworkIsolation _), (0 <? _), (Debug _).
Qed.

(** ** The properties *)


(** Linux-sandbox is given the whole seconds of the timeout, so an action
    with a positive timeout below one second runs with "-T 0" (for timeouts below
    2^22 seconds, where the float64 arithmetic is exact). *)
Theorem sandbox_timeout order s spec args :
  WrapCommand order s spec = Ok args → 0 < Timeout spec → Timeout spec / second < 2 ^ 22 - 1 →
  ∃ before after, args = before ++ ["-T"; Storage.print_int (Timeout spec / second)] ++ after ∧
    (Timeout spec < second → Storage.print_int (Timeout spec / second) = "0").
Proof.
  unfold WrapCommand. destruct (_ =? 0)%nat; [done|]. intros [= <-] Hpos Hs.
  rewrite (proj2 (Z.ltb_lt _ _) Hpos), Seconds_whole by done.
  match goal with
  | |- ∃ _ _, ?a :: ?f :: ?d :: ?x ++ ?y ++ ?z ++ ?u ++ ?h :: [_; _; ?t; ?k] ++ ?w = _ ∧ _ =>
      exists (a :: f :: d :: x ++ y ++ z ++ u ++ [h]), ([t; k] ++ w)
  end. split.
  - simpl. do 3 f_equal. by rewrite <- !app_assoc.
  - intros Hlt. by rewrite Z.div_small by lia.
Qed.

(** ** Concrete instances *)
Module Demo.
Definition box : Sandbox := mkSandbox (mkSandboxConfig true "/bin/linux-sandbox" true ["/tmp"] 5 false).
Definition spec : WrapSpec :=
  mkWrapSpec "/w" {["/in/b" := "/w/b"; "/in/a" := "/w/a"]} ["/w/out"; "/w/o"; "/w/out"]
    500000000 ["sh"; "-c"; "--"].

Example wrap_runs :
  WrapCommand ["/in/b"; "/in/a"] box spec =
  Ok ["/bin/linux-sandbox"; "-W"; "/w"; "-M"; "/in/a"; "-m"; "/w/a"; "-M"; "/in/b"; "-m"; "/w/b";
      "-w"; "/tmp"; "-w"; "/w/o"; "-w"; "/w/out"; "-N"; "-H"; "-T"; "0"; "-t"; "5"; "--";
      "sh"; "-c"; "--"].
Proof. vm_compute. reflexivity. Qed.


Lemma sandbox_timeout_witness :
  ∃ before after, default [] (match WrapCommand ["/in/b"; "/in/a"] box spec with
                              | Ok a => Some a | Err _ => None end) =
    before ++ ["-T"; "0"] ++ after.
Proof.
  destruct (sandbox_timeout ["/in/b"; "/in/a"] box spec _ eq_refl ltac:(vm_compute; reflexivity)
    ltac:(vm_compute; reflexivity)) as (before & after & He & _).
  exists before, after. exact He.
Defined.
End Demo.
End Sandbox.
