(* ===== verification/Persistent.v ===== *)
(** Persistent workers (src/pkg/execution/persistent.go): the framing of the
    worker protocol, and the manager of long-lived worker processes.

    Messages are the bytes their protobuf codec gives.  What a process does, and
    whether starting one succeeds, is the schedule [Processes]; the manager's state
    records which processes were started and killed and what was sent to whom. *)

From S2P Require Import Prelude GoStrings Messages Fs Storage ByteStream.
Local Open Scope Z_scope.

(** ** Framing *)

Module Framing.
Import ByteStream.

(** [binary.LittleEndian.PutUint32(buf, uint32(n))] *)
Definition byte_of (z : Z) : ascii := ascii_of_N (Z.to_N (z mod 256)).
Definition PutUint32 (n : Z) : string :=
  String (byte_of n) (String (byte_of (n / 2 ^ 8))
    (String (byte_of (n / 2 ^ 16)) (String (byte_of (n / 2 ^ 24)) ""))).

Definition byte_val (c : ascii) : Z := Z.of_N (N_of_ascii c).
Definition Uint32 (s : string) : Z :=
  match s with
  | String a (String b (String c (String d _))) =>
      byte_val a + byte_val b * 2 ^ 8 + byte_val c * 2 ^ 16 + byte_val d * 2 ^ 24
  | _ => 0
  end.

(** [writeProto]: the bytes written for a marshalled message. *)
Definition writeProto (data : string) : string :=
  PutUint32 (Z.of_nat (String.length data) mod 2 ^ 32) +:+ data.

(** [io.ReadFull(r, buf)] with [n] bytes: [EOF] if there is nothing, an
    unexpected end if there is less. *)
Definition ReadFull (n : nat) (s : string) : result (string * string) :=
  if (n <=? String.length s)%nat then Ok (str_take n s, str_drop n s)
  else if (s =? "")%string then Err EOF else Err (Errorf "unexpected EOF").

(** [readProto] up to [proto.Unmarshal]: the message and the rest of the stream. *)
Definition readProto (s : string) : result (string * string) :=
  '(lenBuf, s) ← ReadFull 4 s;
  ReadFull (Z.to_nat (Uint32 lenBuf)) s.

Lemma byte_val_of z : byte_val (byte_of z) = z mod 256.
Proof.
  unfold byte_val, byte_of. pose proof (Z.mod_pos_bound z 256 ltac:(lia)).
  rewrite N_ascii_embedding by lia. lia.
Qed.

Lemma Uint32_PutUint32 n s : 0 ≤ n < 2 ^ 32 → Uint32 (PutUint32 n +:+ s) = n.
Proof.
  intros Hn. unfold PutUint32, Uint32. cbn [String.append]. rewrite !byte_val_of.
  change (2 ^ 8) with 256. change (2 ^ 16) with 65536. change (2 ^ 24) with 16777216.
  change (2 ^ 32) with 4294967296 in Hn.
  replace (n / 65536) with (n / 256 / 256) by (by rewrite Z.div_div by lia).
  replace (n / 16777216) with (n / 256 / 256 / 256) by (by rewrite !Z.div_div by lia).
  assert (0 ≤ n / 256 / 256 / 256 < 256).
  { rewrite !Z.div_div by lia. split; [apply Z.div_pos; lia|apply Z.div_lt_upper_bound; lia]. }
  rewrite (Z.mod_small (n / 256 / 256 / 256)) by lia.
  pose proof (Z.div_mod n 256 ltac:(lia)). pose proof (Z.div_mod (n / 256) 256 ltac:(lia)).
  pose proof (Z.div_mod (n / 256 / 256) 256 ltac:(lia)). lia.
Qed.

Lemma ReadFull_app a s : ReadFull (String.length a) (a +:+ s) = Ok (a, s).
Proof.
  unfold ReadFull. rewrite str_length_app, (proj2 (Nat.leb_le _ _)) by lia.
  rewrite str_take_app, str_drop_app. done.
Qed.

(** Reading one frame in front of anything: the length prefix has 32 bits. *)
Lemma readProto_frame data rest :
  readProto (writeProto data +:+ rest) =
  ReadFull (Z.to_nat (Z.of_nat (String.length data) mod 2 ^ 32)) (data +:+ rest).
Proof.
  unfold readProto, writeProto. set (n := Z.of_nat (String.length data) mod 2 ^ 32).
  rewrite <- str_app_assoc.
  change 4%nat with (String.length (PutUint32 n)). rewrite ReadFull_app.
  unfold mbind, result_bind. rewrite <- (str_app_nil_r (PutUint32 n)), Uint32_PutUint32; [done|].
  apply Z.mod_pos_bound. lia.
Qed.

(** Reading all frames of a stream, one per message expected. *)
Fixpoint read_frames (n : nat) (s : string) : result (list string) :=
  match n with
  | O => Ok []
  | S n => '(m, s) ← readProto s; ms ← read_frames n s; Ok (m :: ms)
  end.

Lemma read_frames_app n ms rest :
  Forall (λ m, Z.of_nat (String.length m) < 2 ^ 32) ms → List.length ms = n →
  read_frames n (concat_str (writeProto <$> ms) +:+ rest) = Ok ms.
Proof.
  intros Hf <-. induction Hf as [|m ms Hm Hf IH]; [done|].
  change (concat_str (writeProto <$> m :: ms)) with
    (writeProto m +:+ concat_str (writeProto <$> ms)).
  rewrite <- str_app_assoc. cbn [List.length read_frames]. rewrite readProto_frame.
  rewrite Z.mod_small, Nat2Z.id, ReadFull_app by lia.
  unfold mbind, result_bind. by rewrite IH.
Qed.

End Framing.

(** ** The manager *)

Module Persistent.

(** The fields of [exec.Cmd] a restart copies. *)
Record Cmd := mkCmd { Path : string; Args : list string; Env : list string; WorkDir : string }.

Record WorkRequest := mkWorkRequest {
  Arguments : list string;
  Inputs : list (string * string);
  Cancel : bool;
}.

(** [WorkResponse] and [WorkResult]. *)
Record WorkResult := mkWorkResult {
  ExitCode : Z;
  Output : string;
  RequestId : Z;
  WasCancelled : bool;
}.

(** [w_ProcessState] is nil until [Wait] returns; a process is named by the
    number of its start. *)
Record managedWorker := mkWorker {
  key : string;
  pid : nat;
  w_Process : bool;
  w_ProcessState : option bool;
}.

(** [restart]: the command a dead worker is started with again.  [started]
    counts the attempts to start a process; [killed] are the processes whose pipes
    have been closed, [sends] what was written to which process, latest first. *)
Record Manager := mkManager {
  workers : gmap string managedWorker;
  restart : gmap string Cmd;
  started : nat;
  killed : list nat;
  sends : list (nat * WorkRequest);
}.

Definition NewPersistentWorkerManager : Manager := mkManager ∅ ∅ 0 [] [].

(** How a request to a live process ends: the write fails; the context is done
    before the answer; the answer is unreadable; or there is one. *)
Inductive served :=
  | WriteFails (e : error)
  | CtxDone (e : error)
  | ReadFails (e : error)
  | Replies (r : WorkResult).

Class Processes := {
  (** the error of the pipes or of [Start], for the [n]-th attempt *)
  start_fails : nat → option error;
  (** what process [p] does with the [n]-th request ever sent *)
  serve : nat → nat → WorkRequest → served;
}.

Definition SetRestartCommand (k : string) (cmd : Cmd) (m : Manager) : Manager :=
  mkManager (workers m) (<[k := cmd]> (restart m)) (started m) (killed m) (sends m).

Definition set_workers (ws : gmap string managedWorker) (m : Manager) : Manager :=
  mkManager ws (restart m) (started m) (killed m) (sends m).

(** Closing the pipes of a worker (and killing its process). *)
Definition stop (w : managedWorker) (m : Manager) : Manager :=
  mkManager (workers m) (restart m) (started m) (pid w :: killed m) (sends m).

Section manager.
Context `{Processes}.

Definition startWorker (k : string) (cmd : Cmd) (m : Manager) : result managedWorker * Manager :=
  let n := started m in
  match start_fails n with
  | Some e =>
      (Err (Wrapped "failed to start worker process" e),
       mkManager (workers m) (restart m) (S n) (killed m) (sends m))
  | None =>
      let restart :=
        match restart m !! k with Some _ => restart m | None => <[k := cmd]> (restart m) end in
      (Ok (mkWorker k n true None), mkManager (workers m) restart (S n) (killed m) (sends m))
  end.

(** The process of a listed worker counts as alive. *)
Definition seems_alive (w : managedWorker) : bool :=
  w_Process w && match w_ProcessState w with None => true | Some exited => negb exited end.

(** Starting a worker and listing it. *)
Definition start_and_list (k : string) (cmd : Cmd) (m : Manager) : result managedWorker * Manager :=
  match startWorker k cmd m with
  | (Err e, m) => (Err e, m)
  | (Ok w, m) => (Ok w, set_workers (<[k := w]> (workers m)) m)
  end.

Definition getOrCreateWorker (k : string) (cmd : option Cmd) (m : Manager)
    : result managedWorker * Manager :=
  let create m :=
    match cmd with
    | None => (Err (Errorf "no worker exists for key and no command provided"), m)
    | Some cmd => start_and_list k cmd m
    end in
  match workers m !! k with
  | Some w =>
      if seems_alive w then (Ok w, m)
      else create (set_workers (delete k (workers m)) (stop w m))
  | None => create m
  end.

Definition restartWorker (k : string) (m : Manager) : result managedWorker * Manager :=
  let m :=
    match workers m !! k with
    | Some w => set_workers (delete k (workers m)) (stop w m)
    | None => m
    end in
  match restart m !! k with
  | None => (Err (Errorf "no restart command registered for key"), m)
  | Some cmd => start_and_list k cmd m
  end.

(** A worker whose pipes are closed takes no request. *)
Definition sendRequest (w : managedWorker) (req : WorkRequest) (m : Manager)
    : result WorkResult * Manager :=
  if bool_decide (pid w ∈ killed m)
  then (Err (Wrapped "failed to write request" ErrClosedPipe), m)
  else
    let sent := mkManager (workers m) (restart m) (started m) (killed m)
                  ((pid w, req) :: sends m) in
    match serve (pid w) (List.length (sends m)) req with
    | WriteFails e => (Err (Wrapped "failed to write request" e), m)
    | CtxDone e => (Err e, sent)
    | ReadFails e => (Err (Wrapped "failed to read response" e), sent)
    | Replies r => (Ok r, sent)
    end.

(** The second half of [Execute]: one restart and one more try. *)
Definition retry (k : string) (req : WorkRequest) (err : error) (m : Manager)
    : result WorkResult * Manager :=
  match restartWorker k m with
  | (Err _, m) => (Err (Wrapped "worker died and restart failed" err), m)
  | (Ok w, m) =>
      match sendRequest w req m with
      | (Err e, m) => (Err (Wrapped "worker failed after restart" e), m)
      | r => r
      end
  end.

(** The options of a call, applied in order. *)
Record executeConfig := mkExecuteConfig { cfg_cancel : bool }.
Definition ExecuteOption : Type := executeConfig → executeConfig.
Definition WithCancel (cancel : bool) : ExecuteOption := λ _, mkExecuteConfig cancel.
Definition configure (opts : list ExecuteOption) : executeConfig :=
  foldl (λ cfg opt, opt cfg) (mkExecuteConfig false) opts.

Definition Execute (k : string) (cmd : option Cmd) (arguments : list string)
    (inputs : list (string * string)) (opts : list ExecuteOption) (m : Manager) : result WorkResult * Manager :=
  match getOrCreateWorker k cmd m with
  | (Err e, m) => (Err (Wrapped "failed to get/create worker" e), m)
  | (Ok w, m) =>
      let req := mkWorkRequest arguments inputs (cfg_cancel (configure opts)) in
      match sendRequest w req m with
      | (Err err, m) => retry k req err m
      | r => r
      end
  end.

Definition Shutdown (m : Manager) : Manager :=
  mkManager ∅ (restart m) (started m) ((pid <$> (map_to_list (workers m)).*2) ++ killed m) (sends m).

(** ** The invariant

    Listed workers are under their key, have a process whose state nobody waits
    for and whose pipes are open, and different keys have different processes;
    every listed worker can be restarted. *)
Record wf (m : Manager) : Prop := mkWf {
  wf_worker k w : workers m !! k = Some w →
    key w = k ∧ w_Process w = true ∧ w_ProcessState w = None ∧
    (pid w < started m)%nat ∧ pid w ∉ killed m ∧ is_Some (restart m !! k);
  wf_distinct k1 k2 w1 w2 : workers m !! k1 = Some w1 → workers m !! k2 = Some w2 →
    pid w1 = pid w2 → k1 = k2;
  wf_killed p : p ∈ killed m → (p < started m)%nat;
}.

Lemma wf_new_manager : wf NewPersistentWorkerManager.
Proof using Type.
  split; simpl; [intros k w|intros k1 k2 w1 w2|by intros p ?%elem_of_nil]; by rewrite lookup_empty.
Qed.

Lemma wf_SetRestartCommand k cmd m : wf m → wf (SetRestartCommand k cmd m).
Proof using Type.
  intros [Hw Hd Hk]. split; simpl; [|done|done]. intros k' w Hl.
  destruct (Hw k' w Hl) as (? & ? & ? & ? & ? & ?). split_and!; try done.
  destruct (decide (k = k')) as [->|]; [rewrite lookup_insert_eq; by eexists|by rewrite lookup_insert_ne].
Qed.

(** Removing a listed worker. *)
Lemma wf_stop k w m :
  wf m → workers m !! k = Some w → wf (set_workers (delete k (workers m)) (stop w m)).
Proof using Type.
  intros [Hw Hd Hk] Hl. destruct (Hw k w Hl) as (_ & _ & _ & Hlt & _ & _). split; simpl.
  - intros k' w' [Hne Hl']%lookup_delete_Some.
    destruct (Hw k' w' Hl') as (? & ? & ? & ? & ? & ?). split_and!; try done.
    apply not_elem_of_cons. split; [|done]. intros Hp. apply Hne. symmetry. by eapply Hd.
  - intros k1 k2 w1 w2 [_ H1]%lookup_delete_Some [_ H2]%lookup_delete_Some. by apply Hd.
  - intros p [->|?]%elem_of_cons; auto.
Qed.

Lemma start_and_list_spec k cmd m r m' :
  wf m → workers m !! k = None → start_and_list k cmd m = (r, m') →
  wf m' ∧ sends m' = sends m ∧ killed m' = killed m ∧ started m' = S (started m) ∧
  match r with
  | Ok w => w = mkWorker k (started m) true None ∧ workers m' = <[k := w]> (workers m) ∧
      is_Some (restart m' !! k) ∧ start_fails (started m) = None
  | Err _ => workers m' = workers m ∧ is_Some (start_fails (started m))
  end.
Proof using Type.
  intros [Hw Hd Hk] Hnone. unfold start_and_list, startWorker.
  destruct (start_fails (started m)) as [e|] eqn:Hs; intros [= <- <-]; simpl.
  - split_and!; try done. split; simpl; [|done|].
    + intros k' w' Hl. destruct (Hw k' w' Hl) as (? & ? & ? & ? & ? & ?). split_and!; auto; lia.
    + intros p Hp. specialize (Hk p Hp). lia.
  - set (rs := match restart m !! k with Some _ => _ | None => _ end).
    assert (∀ k', is_Some (restart m !! k') ∨ k' = k → is_Some (rs !! k')) as Hrs.
    { unfold rs. intros k'. destruct (restart m !! k) eqn:Hr; [naive_solver|].
      destruct (decide (k = k')) as [<-|]; [rewrite lookup_insert_eq; by eexists|].
      rewrite lookup_insert_ne by done. naive_solver. }
    split_and!; try done; [|auto]. split; simpl.
    + intros k' w' [[<- <-]|[Hne Hl]]%lookup_insert_Some.
      * split_and!; simpl; try done; [lia| |auto]. intros Hp%Hk. lia.
      * destruct (Hw k' w' Hl) as (? & ? & ? & ? & ? & ?). split_and!; auto; lia.
    + intros k1 k2 w1 w2 [[<- <-]|[Hne1 H1]]%lookup_insert_Some
        [[<- <-]|[Hne2 H2]]%lookup_insert_Some; simpl; try done.
      * intros Hp. destruct (Hw k2 w2 H2) as (_ & _ & _ & ? & _). lia.
      * intros Hp. destruct (Hw k1 w1 H1) as (_ & _ & _ & ? & _). lia.
      * by apply Hd.
    + intros p Hp%Hk. lia.
Qed.

Lemma wf_set_sends m l :
  wf m → wf (mkManager (workers m) (restart m) (started m) (killed m) l).
Proof using Type. by intros [? ? ?]; split. Qed.

(** Every operation in terms of what it does to the table. *)
Lemma getOrCreateWorker_listed k cmd m w :
  wf m → workers m !! k = Some w → getOrCreateWorker k cmd m = (Ok w, m).
Proof using Type.
  intros [Hw _ _] Hl. destruct (Hw k w Hl) as (_ & Hp & Hs & _). unfold getOrCreateWorker.
  rewrite Hl. unfold seems_alive. by rewrite Hp, Hs.
Qed.

Lemma restartWorker_spec k m r m' :
  wf m → restartWorker k m = (r, m') →
  wf m' ∧ sends m' = sends m ∧ (started m ≤ started m' ≤ S (started m))%nat ∧
  (∀ p, p ∈ killed m → p ∈ killed m') ∧
  (∀ w, workers m !! k = Some w → pid w ∈ killed m') ∧
  match r with
  | Ok w => workers m' !! k = Some w ∧ pid w = started m
  | Err _ => True
  end.
Proof using Type.
  intros Hwf. unfold restartWorker. destruct (workers m !! k) as [w|] eqn:Hl; simpl.
  - pose proof (wf_stop k w m Hwf Hl) as Hwf1.
    destruct (restart m !! k) as [cmd|].
    2: { intros [= <- <-]. split_and!; simpl; try done; try lia; [by right|].
         intros ? [= ->]. by left. }
    intros Hs. apply start_and_list_spec in Hs as (Hwf' & Hsends & Hkill & Hst & Hr);
      [|done|apply lookup_delete_eq]. simpl in *. split_and!; try done; try lia.
    + intros p Hp. rewrite Hkill. by right.
    + intros ? [= <-]. rewrite Hkill. by left.
    + destruct r as [w'|]; [|done]. destruct Hr as (-> & -> & _). by rewrite lookup_insert_eq.
  - destruct (restart m !! k) as [cmd|].
    2: { intros [= <- <-]. split_and!; try done; lia. }
    intros Hs. apply start_and_list_spec in Hs as (Hwf' & Hsends & Hkill & Hst & Hr); [|done..].
    split_and!; try done; try lia; [by rewrite Hkill|].
    destruct r as [w'|]; [|done]. destruct Hr as (-> & -> & _). by rewrite lookup_insert_eq.
Qed.

Lemma sendRequest_spec w req m r m' :
  wf m → sendRequest w req m = (r, m') →
  wf m' ∧ workers m' = workers m ∧ restart m' = restart m ∧ started m' = started m ∧
  killed m' = killed m ∧
  (sends m' = sends m ∧ (∃ e, r = Err e) ∨ sends m' = (pid w, req) :: sends m).
Proof using Type.
  intros Hwf. unfold sendRequest. case_bool_decide; [intros [= <- <-]; naive_solver|].
  destruct (serve _ _ _); intros [= <- <-]; simpl; (split; [first [done|by apply wf_set_sends]|]); simpl; eauto 10.
Qed.

Lemma getOrCreateWorker_spec k cmd m r m' :
  wf m → getOrCreateWorker k cmd m = (r, m') →
  wf m' ∧ sends m' = sends m ∧ (started m ≤ started m' ≤ S (started m))%nat ∧
  match r with Ok w => workers m' !! k = Some w | Err _ => True end.
Proof using Type.
  intros Hwf. destruct (workers m !! k) as [w|] eqn:Hl.
  { rewrite (getOrCreateWorker_listed k cmd m w) by done. intros [= <- <-]. split_and!; done || lia. }
  unfold getOrCreateWorker. rewrite Hl. destruct cmd as [cmd|].
  2: { intros [= <- <-]. split_and!; done || lia. }
  intros Hs. apply start_and_list_spec in Hs as (? & ? & _ & ? & Hr); [|done..].
  split_and!; try done; try lia. destruct r as [w|]; [|done]. destruct Hr as (-> & -> & _).
  by rewrite lookup_insert_eq.
Qed.

(** The messages [Execute] sends: at most two, all of them the request. *)
Definition resends (req : WorkRequest) (m m' : Manager) : Prop :=
  ∃ new, sends m' = new ++ sends m ∧ (List.length new ≤ 2)%nat ∧ Forall (λ s, s.2 = req) new.

Lemma Execute_spec k cmd arguments inputs opts m r m' :
  wf m → Execute k cmd arguments inputs opts m = (r, m') →
  wf m' ∧ (started m' ≤ started m + 2)%nat ∧
  resends (mkWorkRequest arguments inputs (cfg_cancel (configure opts))) m m'.
Proof using Type.
  intros Hwf. unfold Execute, retry. set (req := mkWorkRequest arguments inputs (cfg_cancel (configure opts))).
  destruct (getOrCreateWorker k cmd m) as [[w|e] m1] eqn:Hg;
    apply getOrCreateWorker_spec in Hg as (Hwf1 & Hs1 & Hst1 & Hw); try done.
  2: { intros [= <- <-]. split_and!; [done|lia|]. exists []. rewrite Hs1. split_and!; [done|simpl; lia|done]. }
  destruct (sendRequest w req m1) as [[res|err] m2] eqn:Hsend;
    apply sendRequest_spec in Hsend as (Hwf2 & _ & _ & Hst2 & _ & Hs2); try done.
  { intros [= <- <-]. split_and!; [done|lia|]. destruct Hs2 as [[_ [? [=]]]|Hs2].
    exists [(pid w, req)]. rewrite Hs2, Hs1. split_and!; [done|simpl; lia|by constructor]. }
  assert (∃ new, sends m2 = new ++ sends m ∧ (List.length new ≤ 1)%nat ∧ Forall (λ s, s.2 = req) new)
    as (new & Hnew & Hlen & Hall).
  { destruct Hs2 as [[-> _]| ->]; rewrite Hs1; [by exists []; split_and!; [|simpl; lia|]|].
    exists [(pid w, req)]. split_and!; [done|simpl; lia|by constructor]. }
  destruct (restartWorker k m2) as [[w2|e] m3] eqn:Hr;
    apply restartWorker_spec in Hr as (Hwf3 & Hs3 & Hst3 & _); try done.
  2: { intros [= <- <-]. split_and!; [done|lia|]. exists new. rewrite Hs3. split_and!; [done|lia|done]. }
  destruct (sendRequest w2 req m3) as [r4 m4] eqn:Hsend.
  apply sendRequest_spec in Hsend as (Hwf4 & _ & _ & Hst4 & _ & Hs4); [|done]. intros Hres.
  assert (m' = m4) as -> by (by destruct r4; injection Hres).
  split_and!; [done|lia|]. destruct Hs4 as [[Hs4 _]|Hs4]; rewrite Hs3 in Hs4.
  - exists new. rewrite Hs4. split_and!; [done|lia|done].
  - exists ((pid w2, req) :: new). rewrite Hs4, Hnew. split_and!; [done|simpl; lia|by constructor].
Qed.

Lemma wf_Shutdown m : wf m → wf (Shutdown m).
Proof using Type.
  intros [Hw Hd Hk]. split; simpl; [by intros k w; rewrite lookup_empty| |].
  - by intros k1 k2 w1 w2; rewrite lookup_empty.
  - intros p [Hp|Hp]%elem_of_app; [|auto]. apply list_elem_of_fmap in Hp as (w & -> & Hin).
    apply list_elem_of_fmap in Hin as ([k w'] & -> & Hin).
    apply elem_of_map_to_list in Hin. by destruct (Hw _ _ Hin) as (_ & _ & _ & ? & _).
Qed.

(** The calls of the manager's users, one after the other. *)
Inductive call :=
  | CSetRestart (k : string) (cmd : Cmd)
  | CExecute (k : string) (cmd : option Cmd) (arguments : list string)
      (inputs : list (string * string)) (opts : list ExecuteOption)
  | CShutdown.

Definition call_step (m : Manager) (c : call) : Manager :=
  match c with
  | CSetRestart k cmd => SetRestartCommand k cmd m
  | CExecute k cmd arguments inputs opts => (Execute k cmd arguments inputs opts m).2
  | CShutdown => Shutdown m
  end.

Definition call_run (cs : list call) : Manager := foldl call_step NewPersistentWorkerManager cs.

Lemma wf_run cs : wf (call_run cs).
Proof using Type.
  unfold call_run. generalize wf_new_manager. generalize NewPersistentWorkerManager.
  induction cs as [|c cs IH]; intros m Hm; simpl; [done|]. apply IH. destruct c; simpl.
  - by apply wf_SetRestartCommand.
  - destruct (Execute _ _ _ _ _ m) as [r m'] eqn:He. by apply Execute_spec in He as [? _].
  - by apply wf_Shutdown.
Qed.
End manager.

(** ** The properties *)

(** Framing is self-delimiting: any messages below 4 GiB written one after
    the other are read back in order, whatever follows; the length prefix of a
    longer message has wrapped around, and the reader takes only so many bytes. *)
Theorem worker_protocol_roundtrip ms data rest :
  (Forall (λ m, Z.of_nat (String.length m) < 2 ^ 32) ms →
   Framing.read_frames (List.length ms)
     (ByteStream.concat_str (Framing.writeProto <$> ms) +:+ rest) = Ok ms) ∧
  (2 ^ 32 ≤ Z.of_nat (String.length data) →
   let n := Z.to_nat (Z.of_nat (String.length data) mod 2 ^ 32) in
   (n < String.length data)%nat ∧
   Framing.readProto (Framing.writeProto data +:+ rest) =
     Ok (str_take n (data +:+ rest), str_drop n (data +:+ rest))).
Proof.
  split; [intros Hf; by apply Framing.read_frames_app|]. intros Hlen n.
  assert (n < String.length data)%nat as Hn.
  { unfold n. pose proof (Z.mod_pos_bound (Z.of_nat (String.length data)) (2 ^ 32) ltac:(lia)). lia. }
  split; [done|]. rewrite Framing.readProto_frame. fold n. unfold Framing.ReadFull.
  by rewrite (proj2 (Nat.leb_le _ _)) by (rewrite str_length_app; lia).
Qed.


(** The check for dead workers never finds one: in every state the manager
    can reach, [getOrCreateWorker] takes a listed worker for alive, even if its
    process has exited, since nothing has waited for it. *)
Theorem dead_worker_never_detected `{Processes} cs k cmd w :
  workers (call_run cs) !! k = Some w →
  seems_alive w = true ∧ getOrCreateWorker k cmd (call_run cs) = (Ok w, call_run cs).
Proof.
  intros Hw. pose proof (wf_run cs) as Hwf. split; [|by apply getOrCreateWorker_listed].
  destruct (wf_worker _ Hwf k w Hw) as (_ & Hp & Hs & _). unfold seems_alive. by rewrite Hp, Hs.
Qed.

(** A cancelled request is executed again: when the context of an [Execute]
    ends before the answer, the worker, which was healthy, is killed and the
    request is written to a new process. *)
Theorem cancelled_request_is_resent `{Processes} m k cmd arguments inputs opts w e :
  wf m → workers m !! k = Some w → start_fails (started m) = None →
  let req := mkWorkRequest arguments inputs (cfg_cancel (configure opts)) in
  serve (pid w) (List.length (sends m)) req = CtxDone e →
  (∀ e', serve (started m) (S (List.length (sends m))) req ≠ WriteFails e') →
  let m' := (Execute k cmd arguments inputs opts m).2 in
  sends m' = (started m, req) :: (pid w, req) :: sends m ∧ pid w ∈ killed m'.
Proof.
  intros Hwf Hw Hstart req Hserve Hnw m'.
  destruct (wf_worker m Hwf k w Hw) as (Hkey & _ & _ & Hlt & Hk & [c Hc]).
  set (m1 := mkManager (workers m) (restart m) (started m) (killed m) ((pid w, req) :: sends m)).
  assert (sendRequest w req m = (Err e, m1)) as H1.
  { unfold sendRequest. rewrite bool_decide_eq_false_2 by done. by rewrite Hserve. }
  set (w2 := mkWorker k (started m) true None).
  set (m2 := mkManager (<[k := w2]> (delete k (workers m))) (restart m) (S (started m))
               (pid w :: killed m) ((pid w, req) :: sends m)).
  assert (restartWorker k m1 = (Ok w2, m2)) as H2.
  { unfold restartWorker. simpl. rewrite Hw. simpl. rewrite Hc.
    unfold start_and_list, startWorker. simpl. by rewrite Hstart, Hc. }
  assert (pid w2 ∉ killed m2) as Hnk.
  { simpl. intros [Heq|Hin]%elem_of_cons; [lia|]. apply (wf_killed m Hwf) in Hin. lia. }
  subst m'. unfold Execute. rewrite (getOrCreateWorker_listed k cmd m w) by done.
  fold req. cbv beta iota zeta. rewrite H1. unfold retry. rewrite H2.
  unfold sendRequest. rewrite bool_decide_eq_false_2 by done. cbv zeta.
  change (serve (pid w2) (List.length (sends m2)) req) with
    (serve (started m) (S (List.length (sends m))) req).
  destruct (serve (started m) _ req) as [e'| | |] eqn:Hs; [by destruct (Hnw e')|..];
    (split; [done|by left]).
Qed.

(** Two requests for a dying worker fail each other: both hold the worker when
    it dies; the first one's restart is undone by the second one's, which kills
    the fresh process, so that the first one's retry fails on a closed pipe,
    although every process that was started would have answered. *)
Theorem concurrent_restart_kills_fresh_worker `{Processes} m k w reqA reqB err mA :
  wf m → workers m !! k = Some w → (∀ n, start_fails n = None) →
  sendRequest w reqA m = (Err err, mA) →
  ∃ w1 m1 e2 m2 w2 m3,
    restartWorker k mA = (Ok w1, m1) ∧ sendRequest w reqB m1 = (Err e2, m2) ∧
    restartWorker k m2 = (Ok w2, m3) ∧ pid w1 ≠ pid w2 ∧
    (sendRequest w1 reqA m3).1 = Err (Wrapped "failed to write request" ErrClosedPipe).
Proof.
  intros Hwf Hw Hstart HA. apply sendRequest_spec in HA as (HwfA & HwA & HrA & HsA & HkA & _); [|done].
  assert (∀ m0 w0, wf m0 → workers m0 !! k = Some w0 → ∃ w' m', restartWorker k m0 = (Ok w', m'))
    as Hrestart.
  { intros m0 w0 Hwf0 Hw0. destruct (wf_worker m0 Hwf0 k w0 Hw0) as (_ & _ & _ & _ & _ & [c Hc]).
    unfold restartWorker. rewrite Hw0. simpl. rewrite Hc. unfold start_and_list, startWorker. simpl.
    rewrite Hstart. by eexists _, _. }
  rewrite <- HwA in Hw. destruct (Hrestart mA w HwfA Hw) as (w1 & m1 & H1).
  pose proof (restartWorker_spec _ _ _ _ HwfA H1) as (Hwf1 & _ & Hst1 & _ & Hkw & Hw1 & Hp1).
  specialize (Hkw w Hw).
  assert (sendRequest w reqB m1 = (Err (Wrapped "failed to write request" ErrClosedPipe), m1)) as HB.
  { unfold sendRequest. by rewrite bool_decide_eq_true_2. }
  destruct (Hrestart m1 w1 Hwf1 Hw1) as (w2 & m3 & H3).
  pose proof (restartWorker_spec _ _ _ _ Hwf1 H3) as (_ & _ & _ & _ & Hk1 & _ & Hp2).
  exists w1, m1, (Wrapped "failed to write request" ErrClosedPipe), m1, w2, m3. split_and!; try done.
  - destruct (wf_worker m1 Hwf1 k w1 Hw1) as (_ & _ & _ & ? & _). lia.
  - unfold sendRequest. by rewrite bool_decide_eq_true_2 by auto.
Qed.

(** ** Concrete instances *)
Module Demo.
Definition tool : Cmd := mkCmd "/bin/javac" ["javac"] [] "/w".
Definition fine : WorkResult := mkWorkResult 0 "" 0 false.

(** Every process starts; the first request is cancelled, the others answered. *)
#[export] Instance impatient : Processes := {|
  start_fails _ := None;
  serve _ n _ := match n with 1%nat => CtxDone CtxCanceled | _ => Replies fine end;
|}.

Definition m1 : Manager := call_run [CExecute "javac" (Some tool) ["A.java"] [] []].
Definition w1 : managedWorker := mkWorker "javac" 0 true None.

Lemma dead_worker_never_detected_witness :
  getOrCreateWorker "javac" None (call_run [CExecute "javac" (Some tool) ["A.java"] [] []])
  = (Ok w1, m1).
Proof.
  apply (dead_worker_never_detected [CExecute "javac" (Some tool) ["A.java"] [] []] "javac" None w1).
  vm_compute. reflexivity.
Defined.

Lemma cancelled_request_is_resent_witness :
  let req := mkWorkRequest ["B.java"] [] false in
  sends (Execute "javac" None ["B.java"] [] [] m1).2 =
  (1%nat, req) :: (0%nat, req) :: sends m1.
Proof.
  apply (cancelled_request_is_resent m1 "javac" None ["B.java"] [] [] w1 CtxCanceled);
    [apply wf_run|vm_compute; reflexivity|reflexivity|vm_compute; reflexivity|].
  intros e. vm_compute. discriminate.
Defined.

Lemma concurrent_restart_kills_fresh_worker_witness :
  ∃ w1' m1' e2 m2 w2 m3,
    restartWorker "javac" (sendRequest w1 (mkWorkRequest ["B.java"] [] false) m1).2 = (Ok w1', m1') ∧
    sendRequest w1 (mkWorkRequest ["C.java"] [] false) m1' = (Err e2, m2) ∧
    restartWorker "javac" m2 = (Ok w2, m3) ∧ pid w1' ≠ pid w2 ∧
    (sendRequest w1' (mkWorkRequest ["B.java"] [] false) m3).1 =
      Err (Wrapped "failed to write request" ErrClosedPipe).
Proof.
  apply (concurrent_restart_kills_fresh_worker m1 "javac" w1 (mkWorkRequest ["B.java"] [] false)
    (mkWorkRequest ["C.java"] [] false) CtxCanceled);
    [apply wf_run|vm_compute; reflexivity|reflexivity|vm_compute; reflexivity].
Defined.

Example frames : Framing.read_frames 2 (Framing.writeProto "ab" +:+ Framing.writeProto "") = Ok ["ab"; ""].
Proof. vm_compute. reflexivity. Qed.
End Demo.
End Persistent.
