(* ===== verification/Tree.v ===== *)
(** The build directories of the workers: a file system with hard and symbolic
    links.

    A path is the list of the components of a cleaned absolute path, as in [Fs].
    Names point to inodes, so two hard links share contents and permissions, and
    calls follow symbolic links the way the operating system does.  Permissions
    of directories are left out; those of files matter for opening a file for
    writing and for the executable bit. *)

From S2P Require Import Prelude GoStrings Messages Fs.

Module Tree.

Record file := mkFile { f_data : string; f_mode : Z }.
Inductive wnode := WDir | WFile (ino : nat) | WLink (target : string).
Record disk := mkDisk { nodes : gmap path wnode; files : gmap nat file }.

#[export] Instance file_eq_dec : EqDecision file.
Proof. solve_decision. Defined.
#[export] Instance wnode_eq_dec : EqDecision wnode.
Proof. solve_decision. Defined.

Definition set_node (p : path) (n : wnode) (d : disk) : disk := mkDisk (<[p := n]> (nodes d)) (files d).
Definition set_file (i : nat) (f : file) (d : disk) : disk := mkDisk (nodes d) (<[i := f]> (files d)).

(** The node of a path; the root is a directory. *)
Definition node_at (d : disk) (p : path) : option wnode :=
  match p with [] => Some WDir | _ => nodes d !! p end.
Definition is_dir (d : disk) (p : path) : bool := bool_decide (node_at d p = Some WDir).

(** [q] is [p] or lies under it. *)
Definition below (p q : path) : Prop := ∃ r, q = p ++ r.
#[export] Instance below_dec p q : Decision (below p q).
Proof.
  refine (cast_if (decide (take (List.length p) q = p))); unfold below.
  - exists (drop (List.length p) q). rewrite <- (firstn_skipn (List.length p) q) at 1. congruence.
  - intros [r ->]. by rewrite take_app_length in n.
Defined.

(** ** Permissions *)

(** [mode & 0111 != 0] and [mode & 0200 != 0]. *)
Definition executable (m : Z) : bool := negb (Z.land m 73 =? 0)%Z.
Definition writable (m : Z) : bool := negb (Z.land m 128 =? 0)%Z.

(** [fs.FileInfo]. *)
Inductive info := IDir | IFile (mode : Z) | ILink.
Definition IsDir (i : info) : bool := match i with IDir => true | _ => false end.
Definition is_exec (i : info) : bool := match i with IFile m => executable m | _ => true end.

(** ** Resolving links *)

Definition is_dir_error : error := ErrIO "is a directory".
Definition too_many_links : error := ErrIO "too many levels of symbolic links".
Definition permission_denied : error := ErrIO "permission denied".

(** Walking along components from a directory; at most [links] links are
    followed, and what is walked through must be a directory. *)
Fixpoint walk (links : nat) (d : disk) : path → list string → result path :=
  fix go (cur : path) (cs : list string) : result path :=
    match cs with
    | [] => Ok cur
    | c :: cs =>
        let q := clean_step cur c in
        match node_at d q with
        | Some (WLink t) =>
            match links with
            | O => Err too_many_links
            | S links => walk links d (if HasPrefix t "/" then [] else cur) (split_byte "/" t ++ cs)
            end
        | n =>
            match cs with
            | [] => Ok q
            | _ => if is_dir d q then go q cs
                   else Err (match n with Some _ => not_dir | None => ErrNotExist end)
            end
        end
    end.

Definition max_links : nat := 40.

(** The path a call works on: with the last component followed, or not. *)
Definition follow (d : disk) (p : path) : result path := walk max_links d [] p.
Definition nofollow (d : disk) (p : path) : result path :=
  match last p with
  | None => Ok []
  | Some c =>
      q ← walk max_links d [] (Dir p);
      if is_dir d q then Ok (q ++ [c])
      else Err (match node_at d q with Some _ => not_dir | None => ErrNotExist end)
  end.

(** ** Calls *)

(** [os.MkdirAll]: a link in the way must lead to a directory; when it fails, it
    may have made some of the directories. *)
Fixpoint mkdir_all (cs : list string) (cur : path) (d : disk) : result unit * disk :=
  match cs with
  | [] => (Ok (), d)
  | c :: cs =>
      let q := cur ++ [c] in
      match node_at d q with
      | Some WDir => mkdir_all cs q d
      | Some (WFile _) => (Err not_dir, d)
      | Some (WLink _) =>
          match walk max_links d cur [c] with
          | Ok q' => if is_dir d q' then mkdir_all cs q' d else (Err not_dir, d)
          | Err e => (Err e, d)
          end
      | None => mkdir_all cs q (set_node q WDir d)
      end
  end.
Definition MkdirAll (p : path) (d : disk) : result unit * disk := mkdir_all p [] d.

Definition node_info (d : disk) (p : path) : result info :=
  match node_at d p with
  | Some WDir => Ok IDir
  | Some (WFile i) => match files d !! i with Some f => Ok (IFile (f_mode f)) | None => Err ErrNotExist end
  | Some (WLink _) => Ok ILink
  | None => Err ErrNotExist
  end.

(** [os.Stat] and [os.Lstat] (the [Info] of a directory entry). *)
Definition Stat (p : path) (d : disk) : result info * disk := (q ← follow d p; node_info d q, d).
Definition Lstat (p : path) (d : disk) : result info * disk := (q ← nofollow d p; node_info d q, d).

(** A new name for a node in an existing directory. *)
Definition new_name (n : wnode) (p : path) (d : disk) : result unit * disk :=
  match nofollow d p with
  | Err e => (Err e, d)
  | Ok q => match node_at d q with
            | Some _ => (Err exists_, d)
            | None => (Ok (), set_node q n d)
            end
  end.

(** [os.Symlink(target, p)]. *)
Definition Symlink (target : string) (p : path) (d : disk) : result unit * disk :=
  if (target =? "")%string then (Err ErrNotExist, d) else new_name (WLink target) p d.

(** [os.Link(old, new)]: a link to a symbolic link is one more symbolic link. *)
Definition Link (old new : path) (d : disk) : result unit * disk :=
  match nofollow d old with
  | Err e => (Err e, d)
  | Ok q => match node_at d q with
            | Some (WFile i) => new_name (WFile i) new d
            | Some (WLink t) => new_name (WLink t) new d
            | Some WDir => (Err (ErrIO "operation not permitted"), d)
            | None => (Err ErrNotExist, d)
            end
  end.

Definition Readlink (p : path) (d : disk) : result string * disk :=
  (q ← nofollow d p;
   match node_at d q with
   | Some (WLink t) => Ok t
   | Some _ => Err (ErrIO "invalid argument")
   | None => Err ErrNotExist
   end, d).

(** [os.Chmod]; the mode of a directory is not kept. *)
Definition Chmod (p : path) (m : Z) (d : disk) : result unit * disk :=
  match follow d p with
  | Err e => (Err e, d)
  | Ok q => match node_at d q with
            | Some (WFile i) => match files d !! i with
                                | Some f => (Ok (), set_file i (mkFile (f_data f) m) d)
                                | None => (Err ErrNotExist, d)
                                end
            | Some _ => (Ok (), d)
            | None => (Err ErrNotExist, d)
            end
  end.

Definition new_ino (d : disk) : nat := fresh (dom (files d) : gset nat).

(** [os.OpenFile(p, O_CREATE|O_WRONLY|O_TRUNC, perm)]: an existing file keeps its
    inode and its permissions, which must allow writing unless the process is
    [privileged]; a link is followed and its target created if need be. *)
Definition OpenTrunc (privileged : bool) (p : path) (perm : Z) (d : disk) : result nat * disk :=
  match follow d p with
  | Err e => (Err e, d)
  | Ok q =>
      match node_at d q with
      | Some (WFile i) =>
          match files d !! i with
          | Some f => if privileged || writable (f_mode f)
                      then (Ok i, set_file i (mkFile "" (f_mode f)) d) else (Err permission_denied, d)
          | None => (Err ErrNotExist, d)
          end
      | Some _ => (Err is_dir_error, d)
      | None =>
          if is_dir d (Dir q) then
            let i := new_ino d in (Ok i, set_node q (WFile i) (set_file i (mkFile "" perm) d))
          else (Err ErrNotExist, d)
      end
  end.

(** Appending to an open file, and its contents. *)
Definition AppendIno (i : nat) (s : string) (d : disk) : disk :=
  match files d !! i with Some f => set_file i (mkFile (f_data f +:+ s) (f_mode f)) d | None => d end.
Definition ino_data (d : disk) (i : nat) : string :=
  match files d !! i with Some f => f_data f | None => "" end.

(** [os.Open] of a file; [None] is a directory, which opens but does not read. *)
Definition Open (p : path) (d : disk) : result (option nat) * disk :=
  (q ← follow d p;
   match node_at d q with
   | Some (WFile i) => Ok (Some i)
   | Some _ => Ok None
   | None => Err ErrNotExist
   end, d).

(** [os.ReadDir]: the names in a directory, sorted. *)
Definition child_of (p q : path) : bool :=
  match last q with Some c => bool_decide (q = p ++ [c]) | None => false end.
Definition child_paths (d : disk) (p : path) : list path :=
  filter (λ q, child_of p q = true) (map_to_list (nodes d)).*1.
Definition children (d : disk) (p : path) : list string :=
  merge_sort String.le (omap last (child_paths d p)).
Definition ReadDir (p : path) (d : disk) : result (list string) * disk :=
  (q ← follow d p; if is_dir d q then Ok (children d q) else Err not_dir, d).

(** [os.RemoveAll]: everything at and below a path; links are not followed.  When
    it fails it may have removed what lies deeper than some level. *)
Definition remove_below (q : path) (level : nat) (d : disk) : disk :=
  mkDisk (filter (λ kv, ¬ (below q kv.1 ∧ (List.length q + level ≤ List.length kv.1)%nat)) (nodes d))
    (files d).
Definition RemoveAll (p : path) (d : disk) : result unit * disk :=
  match nofollow d p with
  | Err e => (if os_IsNotExist e then Ok () else Err e, d)
  | Ok q => (Ok (), remove_below q 0 d)
  end.

(** ** Lemmas: paths that need no resolving *)

(** Every prefix of [p] is a directory, and no component is special. *)
Definition real_dir (d : disk) (p : path) : Prop :=
  Forall (λ c, plain c = true) p ∧ ∀ q r, p = q ++ r → node_at d q = Some WDir.

Lemma clean_step_plain p c : plain c = true → clean_step p c = p ++ [c].
Proof.
  unfold plain, clean_step. intros Hc. to_prop.
  by rewrite (proj2 (String.eqb_neq c "")), (proj2 (String.eqb_neq c ".")), (proj2 (String.eqb_neq c "..")).
Qed.

Lemma walk_cons l d cur c cs :
  walk l d cur (c :: cs) =
  let q := clean_step cur c in
  match node_at d q with
  | Some (WLink t) =>
      match l with
      | O => Err too_many_links
      | S l => walk l d (if HasPrefix t "/" then [] else cur) (split_byte "/" t ++ cs)
      end
  | n => match cs with
         | [] => Ok q
         | _ => if is_dir d q then walk l d q cs
                else Err (match n with Some _ => not_dir | None => ErrNotExist end)
         end
  end.
Proof. by destruct l. Qed.
Lemma walk_nil l d cur : walk l d cur [] = Ok cur.
Proof. by destruct l. Qed.

Lemma node_at_snoc d p c : node_at d (p ++ [c]) = nodes d !! (p ++ [c]).
Proof. by destruct p. Qed.
Lemma is_dir_node d p : node_at d p = Some WDir → is_dir d p = true.
Proof. apply bool_decide_eq_true_2. Qed.
Lemma is_dir_true d p : is_dir d p = true → node_at d p = Some WDir.
Proof. apply bool_decide_eq_true_1. Qed.

Lemma real_dir_nil d : real_dir d [].
Proof. split; [done|]. intros q r Hq. by destruct q. Qed.
Lemma real_dir_node d p : real_dir d p → node_at d p = Some WDir.
Proof. intros [_ Hp]. apply (Hp p []). by rewrite app_nil_r. Qed.
Lemma real_dir_is_dir d p : real_dir d p → is_dir d p = true.
Proof. intros Hp. by apply is_dir_node, real_dir_node. Qed.
Lemma real_dir_snoc d p c :
  real_dir d p → plain c = true → nodes d !! (p ++ [c]) = Some WDir → real_dir d (p ++ [c]).
Proof.
  intros [Hf Hp] Hc Hn. split; [apply Forall_app_2; [done|by apply Forall_singleton]|]. intros q r Hq.
  destruct r as [|x r _] using rev_ind.
  - rewrite app_nil_r in Hq. subst. by rewrite node_at_snoc.
  - rewrite app_assoc in Hq. apply app_inj_tail in Hq as [Hq _]. by eapply Hp.
Qed.
Lemma real_dir_app d p r : real_dir d (p ++ r) → real_dir d p.
Proof.
  intros [Hf Hp]. split; [by apply Forall_app in Hf as [? _]|].
  intros q r' ->. apply (Hp q (r' ++ r)). by rewrite app_assoc.
Qed.
Lemma real_dir_plain d p c : real_dir d (p ++ [c]) → plain c = true.
Proof. intros [[_ Hf]%Forall_app _]. by inversion Hf. Qed.

(** Walking through directories. *)
Lemma walk_through l d cur cs rest :
  real_dir d (cur ++ cs) → rest ≠ [] → walk l d cur (cs ++ rest) = walk l d (cur ++ cs) rest.
Proof.
  revert cur. induction cs as [|c cs IH]; intros cur Hr Hrest; [by rewrite app_nil_r|].
  simpl app. rewrite walk_cons.
  replace (cur ++ c :: cs) with ((cur ++ [c]) ++ cs) in * by by rewrite <- app_assoc.
  pose proof (real_dir_app _ _ _ Hr) as Hc. pose proof (real_dir_node _ _ Hc) as Hn.
  rewrite clean_step_plain by by eapply real_dir_plain. cbv zeta. rewrite Hn.
  destruct (cs ++ rest) eqn:E; [by destruct cs|]. rewrite <- E in IH |- *. rewrite is_dir_node by done. by apply IH.
Qed.
Lemma walk_real l d cur cs : real_dir d (cur ++ cs) → walk l d cur cs = Ok (cur ++ cs).
Proof.
  destruct cs as [|c cs _] using rev_ind; intros Hr; [by rewrite walk_nil, app_nil_r|].
  rewrite app_assoc in Hr. rewrite walk_through by (done || by eapply real_dir_app).
  rewrite walk_cons, clean_step_plain by by eapply real_dir_plain. cbv zeta.
  by rewrite (real_dir_node _ _ Hr), app_assoc.
Qed.

(** A last component that is not a symbolic link. *)
Lemma follow_last d p c :
  real_dir d p → plain c = true → (∀ t, nodes d !! (p ++ [c]) ≠ Some (WLink t)) →
  follow d (p ++ [c]) = Ok (p ++ [c]).
Proof.
  intros Hr Hc Hl. unfold follow. rewrite walk_through by done. simpl app at 1.
  rewrite walk_cons, clean_step_plain by done. cbv zeta. rewrite node_at_snoc.
  destruct (nodes d !! (p ++ [c])) as [[]|] eqn:E; try done. by destruct (Hl target).
Qed.
Lemma nofollow_last d p c : real_dir d p → nofollow d (p ++ [c]) = Ok (p ++ [c]).
Proof.
  intros Hr. unfold nofollow. rewrite last_snoc, Dir_snoc.
  rewrite (walk_real _ d [] p) by done. simpl. by rewrite real_dir_is_dir.
Qed.
Lemma follow_real d p : real_dir d p → follow d p = Ok p.
Proof. apply (walk_real max_links d []). Qed.

(** ** Lemmas: calls on such paths *)

Lemma mkdir_all_app d cs cs' cur :
  real_dir d (cur ++ cs) → mkdir_all (cs ++ cs') cur d = mkdir_all cs' (cur ++ cs) d.
Proof.
  revert cur. induction cs as [|c cs IH]; intros cur Hr; [by rewrite app_nil_r|]. simpl.
  replace (cur ++ c :: cs) with ((cur ++ [c]) ++ cs) in * by by rewrite <- app_assoc.
  rewrite (real_dir_node _ _ (real_dir_app _ _ _ Hr)). by apply IH.
Qed.
Lemma MkdirAll_real d p : real_dir d p → MkdirAll p d = (Ok (), d).
Proof. intros Hr. unfold MkdirAll. rewrite <- (app_nil_r p), mkdir_all_app; [done|done]. Qed.
Lemma MkdirAll_new d p c :
  real_dir d p → nodes d !! (p ++ [c]) = None → MkdirAll (p ++ [c]) d = (Ok (), set_node (p ++ [c]) WDir d).
Proof.
  intros Hr Hn. unfold MkdirAll. rewrite (mkdir_all_app d p [c] []) by done. simpl.
  by rewrite node_at_snoc, Hn.
Qed.

Lemma new_name_new d n p c :
  real_dir d p → nodes d !! (p ++ [c]) = None → new_name n (p ++ [c]) d = (Ok (), set_node (p ++ [c]) n d).
Proof. intros Hr Hn. unfold new_name. by rewrite nofollow_last, node_at_snoc, Hn. Qed.

Lemma new_ino_fresh d : files d !! new_ino d = None.
Proof. apply not_elem_of_dom. exact (is_fresh (dom (files d) : gset nat)). Qed.

Lemma OpenTrunc_new d b p c perm :
  real_dir d p → plain c = true → nodes d !! (p ++ [c]) = None →
  OpenTrunc b (p ++ [c]) perm d =
  (Ok (new_ino d), set_node (p ++ [c]) (WFile (new_ino d)) (set_file (new_ino d) (mkFile "" perm) d)).
Proof.
  intros Hr Hc Hn. unfold OpenTrunc. rewrite follow_last by (done || by rewrite Hn).
  by rewrite node_at_snoc, Hn, Dir_snoc, real_dir_is_dir.
Qed.

Lemma Lstat_last d p c : real_dir d p → (Lstat (p ++ [c]) d).1 = node_info d (p ++ [c]).
Proof. intros Hr. unfold Lstat. by rewrite nofollow_last. Qed.

(** ** Lemmas: the entries of a directory *)

Lemma elem_of_children d p c : c ∈ children d p ↔ is_Some (nodes d !! (p ++ [c])).
Proof.
  unfold children. rewrite merge_sort_Permutation, list_elem_of_omap. split.
  - intros (q & [Hq Hin]%list_elem_of_filter & Hl). unfold child_of in Hq. rewrite Hl in Hq.
    apply bool_decide_eq_true in Hq as ->. apply list_elem_of_fmap in Hin as ([q n] & Heq & Hin).
    simpl in Heq. subst q. apply elem_of_map_to_list in Hin. eauto.
  - intros [n Hn]. exists (p ++ [c]). rewrite last_snoc. split; [|done].
    apply list_elem_of_filter. split.
    + unfold child_of. rewrite last_snoc. by apply bool_decide_eq_true.
    + apply list_elem_of_fmap. exists (p ++ [c], n). split; [done|]. by apply elem_of_map_to_list.
Qed.

Lemma NoDup_children d p : NoDup (children d p).
Proof.
  unfold children. rewrite merge_sort_Permutation.
  assert (NoDup (child_paths d p)) as Hn by apply NoDup_filter, NoDup_fst_map_to_list.
  assert (∀ q, q ∈ child_paths d p → child_of p q = true) as Hc by by intros q [? _]%list_elem_of_filter.
  revert Hn Hc. generalize (child_paths d p).
  intros l Hn Hc. induction Hn as [|q l Hq Hn IH]; [constructor|].
  assert (child_of p q = true) as Hcq by (apply Hc; by left). simpl.
  unfold child_of in Hcq. destruct (last q) as [c|] eqn:E; [|done]. apply bool_decide_eq_true in Hcq.
  constructor; [|apply IH; intros; apply Hc; by right].
  intros (q' & Hq' & Hl')%list_elem_of_omap. assert (child_of p q' = true) as Hcq' by (apply Hc; by right).
  unfold child_of in Hcq'. rewrite Hl' in Hcq'. apply bool_decide_eq_true in Hcq'.
  apply Hq. by rewrite Hcq, <- Hcq'.
Qed.

(** ** Removing *)

(** A smaller disk resolves paths the same way, or not at all. *)
Section sub.
Context (d d' : disk) (Hsub : ∀ p n, node_at d' p = Some n → node_at d p = Some n).

Lemma walk_sub l cur cs rest :
  rest ≠ [] → node_at d' cur = Some WDir →
  (∃ e, walk l d' cur (cs ++ rest) = Err e) ∨
  ∃ l' cur', walk l d' cur (cs ++ rest) = walk l' d' cur' rest ∧ walk l d cur cs = Ok cur' ∧
    node_at d' cur' = Some WDir.
Proof using All.
  intros Hrest. revert cur cs. induction l as [|l IHl]; intros cur cs; revert cur;
    induction cs as [|c cs IHc]; intros cur Hcur;
    try (right; eexists _, _; split; [done|by rewrite walk_nil]).
  all: simpl app; rewrite (walk_cons _ d'); cbv zeta;
    destruct (node_at d' (clean_step cur c)) as [[|i|t]|] eqn:E; try (by left; eexists).
  all: try (destruct (cs ++ rest) eqn:Ecs; [by destruct cs|]; rewrite <- Ecs in IHc |- *).
  all: try (destruct (is_dir d' (clean_step cur c)) eqn:Ed; [|by left; eexists];
            apply is_dir_true in Ed; rewrite Ed in E; try discriminate E).
  all: try (destruct (IHc (clean_step cur c) Ed) as [?|(l' & cur' & Hl & Hw & ?)]; [by left|]; right;
    exists l', cur'; split; [done|]; split; [|done]; rewrite walk_cons; cbv zeta; rewrite (Hsub _ _ Ed);
    destruct cs; [by rewrite walk_nil in Hw|by rewrite is_dir_node by by apply Hsub]).
  rewrite app_assoc.
  destruct (IHl (if HasPrefix t "/" then [] else cur) (split_byte "/" t ++ cs))
    as [?|(l' & cur' & Hl & Hw & ?)]; [by destruct (HasPrefix t "/")|by left|].
  right. exists l', cur'. split; [done|]. split; [|done].
  rewrite walk_cons. cbv zeta. by rewrite (Hsub _ _ E).
Qed.

Lemma walk_sub_dir l cur cs z :
  walk l d' cur cs = Ok z → node_at d' z = Some WDir → walk l d cur cs = Ok z.
Proof using All.
  intros Hw Hz. revert cur cs Hw. induction l as [|l IHl]; intros cur cs; revert cur;
    induction cs as [|c cs IHc]; intros cur; rewrite ?walk_nil; try done;
    rewrite !walk_cons; cbv zeta.
  all: destruct (node_at d' (clean_step cur c)) as [[|i|t]|] eqn:E; try done;
    try rewrite (Hsub _ _ E); try by apply IHl.
  all: destruct cs; [intros [= Hs]; congruence|].
  all: destruct (is_dir d' (clean_step cur c)) eqn:Ed; [|done]; apply is_dir_true in Ed;
    rewrite ?(is_dir_node d), ?(Hsub _ _ Ed) by by apply Hsub.
  all: apply IHc.
Qed.
End sub.

Lemma node_at_remove q l d p n : node_at (remove_below q l d) p = Some n → node_at d p = Some n.
Proof. destruct p; [done|]. simpl. intros [? _]%map_lookup_filter_Some. done. Qed.

Lemma remove_below_none q d r : q ++ r ≠ [] → node_at (remove_below q 0 d) (q ++ r) = None.
Proof.
  intros Hr. destruct (q ++ r) as [|x y] eqn:E; [done|]. simpl. rewrite <- E.
  apply map_lookup_filter_None. right. intros n _ Hn. apply Hn. simpl. split; [by exists r|].
  rewrite length_app. lia.
Qed.

(** After [RemoveAll] nothing can be found at or below its path, even if it fails
    because the path does not lead anywhere. *)
Lemma RemoveAll_gone p d d' res q :
  Forall (λ c, plain c = true) p → p ≠ [] →
  RemoveAll p d = (res, d') → below p q → ∃ e, (Lstat q d').1 = Err e.
Proof.
  destruct p as [|c p _] using rev_ind; [done|]. intros Hf _ Hr [r ->].
  apply Forall_app in Hf as [_ Hc]. apply Forall_cons in Hc as [Hc _].
  unfold RemoveAll in Hr. destruct (nofollow d (p ++ [c])) as [q|e] eqn:Hq.
  - assert (∃ q0, walk max_links d [] p = Ok q0 ∧ q = q0 ++ [c]) as (q0 & Hq0 & ->).
    { unfold nofollow in Hq. rewrite last_snoc, Dir_snoc in Hq.
      destruct (walk max_links d [] p) as [q0|]; [|done]. simpl in Hq.
      destruct (is_dir d q0); [|done]. injection Hq as <-. eauto. }
    injection Hr as <- <-. set (d' := remove_below (q0 ++ [c]) 0 d).
    assert (∀ x n, node_at d' x = Some n → node_at d x = Some n) as Hsub by apply node_at_remove.
    assert (node_at d' (q0 ++ [c]) = None) as Hgone.
    { pose proof (remove_below_none (q0 ++ [c]) d []) as Hn. rewrite app_nil_r in Hn.
      apply Hn. by destruct q0. }
    unfold Lstat, fst, nofollow. destruct r as [|x r _] using rev_ind.
    + rewrite app_nil_r, last_snoc, Dir_snoc.
      destruct (walk max_links d' [] p) as [z|] eqn:Hw; simpl; [|eauto].
      destruct (is_dir d' z) eqn:Ed; simpl; [|eauto]. apply is_dir_true in Ed.
      pose proof (walk_sub_dir d d' Hsub _ _ _ _ Hw Ed) as Hz. rewrite Hq0 in Hz. injection Hz as <-.
      unfold node_info. rewrite Hgone. eauto.
    + rewrite app_assoc, last_snoc, Dir_snoc, <- app_assoc.
      destruct (walk_sub d d' Hsub max_links [] p ([c] ++ r) ltac:(done) eq_refl)
        as [[e ->]|(l & cur & -> & Hcur & _)]; [simpl; eauto|].
      rewrite Hq0 in Hcur. injection Hcur as <-.
      simpl app. rewrite walk_cons, clean_step_plain by done. cbv zeta. rewrite Hgone.
      assert (is_dir d' (q0 ++ [c]) = false) as Hd.
      { unfold is_dir. rewrite Hgone. by apply bool_decide_eq_false. }
      rewrite Hd. destruct r; simpl; [rewrite Hd; simpl|]; eauto.
  - injection Hr as _ <-.
    destruct r as [|x r _] using rev_ind.
    { rewrite app_nil_r. unfold Lstat. rewrite Hq. simpl. eauto. }
    unfold Lstat, fst, nofollow. unfold nofollow in Hq. rewrite last_snoc, Dir_snoc in Hq.
    rewrite app_assoc, last_snoc, Dir_snoc, <- app_assoc.
    destruct (walk_sub d d (λ _ _ H, H) max_links [] p ([c] ++ r) ltac:(done) eq_refl)
      as [[e' ->]|(l & cur & _ & Hcur & Hdir)]; [simpl; eauto|].
    rewrite Hcur in Hq. simpl in Hq. by rewrite is_dir_node in Hq.
Qed.

End Tree.
