(* ===== verification/Worker.v ===== *)
(** The workers (src/pkg/execution/worker.go): fetching an action, staging its
    inputs, running its command, uploading its outputs, and the loop that takes
    tasks from the scheduler.

    A computation of type [WM S A] maps a world (the disk, the state [S] of the
    stores, a count of the calls made) to an outcome and a new world; the outcome
    is [None] when the call does not return: it panics, blocks for ever, or its
    recursion is deeper than the fuel of the model.  Any call of the operating
    system may fail, on a schedule.  The blob store and the action cache are
    interfaces, as in the source. *)

From S2P Require Import Prelude GoStrings Messages Fs Scheduler Sandbox Tree.

Module Worker.
Import Tree.
Local Open Scope Z_scope.

(** ** Messages *)

Record FileNode := mkFileNode { fn_Name : string; fn_Digest : PbDigest; fn_IsExecutable : bool }.
Record DirectoryNode := mkDirectoryNode { dn_Name : string; dn_Digest : PbDigest }.
Record SymlinkNode := mkSymlinkNode { sn_Name : string; sn_Target : string }.
Record Directory := mkDirectory {
  Files : list FileNode; Directories : list DirectoryNode; Symlinks_ : list SymlinkNode }.
Record PbTree := mkTree { Root : Directory; Children : list Directory }.

(** [Timeout] is the [AsDuration] of the field, in nanoseconds. *)
Record Action := mkAction {
  CommandDigest : PbDigest; InputRootDigest : PbDigest; act_Timeout : option Z; DoNotCache : bool }.
Record Command := mkCommand {
  Arguments_ : list string;
  EnvironmentVariables : list (string * string);
  OutputFiles : list string;
  OutputDirectories : list string;
  OutputPaths : list string;
  WorkingDirectory : string;
}.

#[export] Instance FileNode_eq_dec : EqDecision FileNode.
Proof. solve_decision. Defined.
#[export] Instance DirectoryNode_eq_dec : EqDecision DirectoryNode.
Proof. solve_decision. Defined.
#[export] Instance SymlinkNode_eq_dec : EqDecision SymlinkNode.
Proof. solve_decision. Defined.
#[export] Instance Directory_eq_dec : EqDecision Directory.
Proof. solve_decision. Defined.
#[export] Instance PbTree_eq_dec : EqDecision PbTree.
Proof. solve_decision. Defined.
#[export] Instance Action_eq_dec : EqDecision Action.
Proof. solve_decision. Defined.
#[export] Instance Command_eq_dec : EqDecision Command.
Proof. solve_decision. Defined.

(** The protobuf codec.  [proto.Marshal] refuses strings that are not UTF-8. *)
Class WorkerPb := {
  utf8 : string → bool;
  utf8_hex h : str_all is_hex h = true → utf8 h = true;
  Unmarshal_Action : string → result Action;
  Unmarshal_Command : string → result Command;
  Marshal_Directory : Directory → result string;
  Unmarshal_Directory : string → result Directory;
  Marshal_Tree : PbTree → result string;
  Unmarshal_Marshal_Directory dir s : Marshal_Directory dir = Ok s → Unmarshal_Directory s = Ok dir;
  Marshal_Directory_ok dir :
    Forall (λ f, utf8 (fn_Name f) = true ∧ utf8 (pb_Hash (fn_Digest f)) = true) (Files dir) →
    Forall (λ f, utf8 (dn_Name f) = true ∧ utf8 (pb_Hash (dn_Digest f)) = true) (Directories dir) →
    Forall (λ l, utf8 (sn_Name l) = true ∧ utf8 (sn_Target l) = true) (Symlinks_ dir) →
    ∃ s, Marshal_Directory dir = Ok s;
}.

(** [digest.NewFromBlob]: SHA-256 and length; a digest it makes is valid. *)
Class Sha `{DigestSdk} := {
  NewFromBlob : string → Digest;
  NewFromBlob_size s : Size (NewFromBlob s) = Z.of_nat (String.length s);
  NewFromBlob_valid s : NewFromProto (ToProto (NewFromBlob s)) = Ok (NewFromBlob s);
}.

(** ** Worlds and computations *)

Record WWorld (S : Type) := mkW { w_disk : disk; w_store : S; w_tick : nat }.
Arguments mkW {S}.
Arguments w_disk {S}.
Arguments w_store {S}.
Arguments w_tick {S}.

Definition WM (S A : Type) := WWorld S → option (result A) * WWorld S.

#[export] Instance WM_ret {S} : MRet (WM S) := λ A a w, (Some (Ok a), w).
#[export] Instance WM_bind {S} : MBind (WM S) := λ A B k m w,
  match m w with
  | (Some (Ok a), w) => k a w
  | (Some (Err e), w) => (Some (Err e), w)
  | (None, w) => (None, w)
  end.

Section monad.
Context {S : Type}.
Definition throw {A} (e : error) : WM S A := λ w, (Some (Err e), w).
Definition stuck {A} : WM S A := λ w, (None, w).
Definition lift {A} (r : result A) : WM S A := λ w, (Some r, w).
Definition try {A} (m : WM S A) : WM S (result A) := λ w,
  match m w with (Some r, w) => (Some (Ok r), w) | (None, w) => (None, w) end.
Definition wrap {A} (msg : string) (m : WM S A) : WM S A := λ w,
  match m w with (Some (Err e), w) => (Some (Err (Wrapped msg e)), w) | r => r end.

(** [defer d()]: it runs when the body returns. *)
Definition finally {A} (m : WM S A) (d : WM S unit) : WM S A := λ w,
  match m w with (None, w) => (None, w) | (r, w) => (r, (d w).2) end.

(** [for _, x := range xs] with an accumulator, and without. *)
Fixpoint fold_M {A B} (f : B → A → WM S B) (xs : list A) (b : B) : WM S B :=
  match xs with [] => mret b | x :: xs => b ← f b x; fold_M f xs b end.
Definition for_each {A} (f : A → WM S unit) (xs : list A) : WM S unit := fold_M (λ _ x, f x) xs ().
End monad.

(** *** The operating system *)

(** The schedule of failures by call and number of calls so far, with how much of
    the call still happens; whether the program runs as root; the environment;
    the iteration order of maps. *)
Class Sys := {
  call_fault : string → nat → option (error * nat);
  fault_not_exist c k e n : call_fault c k = Some (e, n) → os_IsNotExist e = false;
  privileged : bool;
  Environ : list string;
  NumCPU : Z;
  NumCPU_pos : 0 < NumCPU;
  range_over {A} : nat → gmap path A → list (path * A);
  range_over_perm {A} k (m : gmap path A) : range_over k m ≡ₚ map_to_list m;
}.

Section calls.
Context {S : Type} `{Sys}.

Definition with_disk (d : disk) (w : WWorld S) : WWorld S := mkW d (w_store w) (Datatypes.S (w_tick w)).

(** A call; [part] is what a failing call still does. *)
Definition sys_part {A} (name : string) (op : disk → result A * disk) (part : nat → disk → disk)
    : WM S A := λ w,
  match call_fault name (w_tick w) with
  | Some (e, n) => (Some (Err e), with_disk (part n (w_disk w)) w)
  | None => let '(r, d) := op (w_disk w) in (Some r, with_disk d w)
  end.
Definition sys {A} (name : string) (op : disk → result A * disk) : WM S A := sys_part name op (λ _ d, d).

Definition os_MkdirAll (p : path) : WM S unit :=
  sys_part "MkdirAll" (MkdirAll p) (λ n d, (MkdirAll (take n p) d).2).
Definition os_RemoveAll (p : path) : WM S unit :=
  sys_part "RemoveAll" (RemoveAll p) (λ n d, match nofollow d p with
                                             | Ok q => remove_below q (1 + n) d
                                             | Err _ => d end).
Definition os_Stat (p : path) : WM S info := sys "Stat" (Stat p).
Definition os_Lstat (p : path) : WM S info := sys "Lstat" (Lstat p).
Definition os_Readlink (p : path) : WM S string := sys "Readlink" (Readlink p).
Definition os_ReadDir (p : path) : WM S (list string) := sys "ReadDir" (ReadDir p).
Definition os_Symlink (target : string) (p : path) : WM S unit := sys "Symlink" (Symlink target p).
Definition os_Link (old new : path) : WM S unit := sys "Link" (Link old new).
Definition os_Chmod (p : path) (m : Z) : WM S unit := sys "Chmod" (Chmod p m).
Definition os_Open (p : path) : WM S (option nat) := sys "Open" (Open p).
Definition os_OpenFile (p : path) (perm : Z) : WM S nat := sys "OpenFile" (OpenTrunc privileged p perm).
(** [os.Create]: permissions 0666 less the umask 022. *)
Definition os_Create (p : path) : WM S nat := os_OpenFile p 420.

(** A write that fails may have written a part of the data. *)
Definition sys_write (i : nat) (s : string) : WM S unit :=
  sys_part "Write" (λ d, (Ok (), AppendIno i s d)) (λ n d, AppendIno i (str_take n s) d).

(** An [io.ReadCloser] of a store: an open file, or a stream. *)
Inductive blob_reader := OnDisk (ino : nat) | Stream (r : reader).

(** [io.ReadAll]. *)
Definition read_all (rc : blob_reader) : WM S string :=
  match rc with
  | OnDisk i => sys "Read" (λ d, (Ok (ino_data d i), d))
  | Stream r => lift (match rd_err r with Some e => Err e | None => Ok (rd_all r) end)
  end.

(** [io.Copy] to an open file: what is on disk is read when it is copied. *)
Definition io_Copy (f : nat) (rc : blob_reader) : WM S unit :=
  match rc with
  | OnDisk i => data ← read_all (OnDisk i); sys_write f data
  | Stream r =>
      _ ← for_each (sys_write f) (rd_chunks r);
      lift (match rd_err r with Some e => Err e | None => Ok () end)
  end.

(** An open file handed to a store as a reader: a directory cannot be read. *)
Definition file_reader (f : option nat) : WM S reader := λ w,
  (Some (Ok (match f, call_fault "Read" (w_tick w) with
             | None, _ => mkReader [] (Some is_dir_error)
             | Some _, Some (e, _) => mkReader [] (Some e)
             | Some i, None => mkReader [ino_data (w_disk w) i] None
             end)), with_disk (w_disk w) w).
End calls.

(** *** The stores *)

(** [storage.BlobStore] with the optional [storage.LocalBlobStore], and
    [storage.ActionCache]; [BlobPath] may panic. *)
Record LocalBlobStore (S : Type) := mkLocalBlobStore {
  BlobPath : Digest → option path;
  PutFile : Digest → path → WM S unit;
}.
Arguments BlobPath {S}.
Arguments PutFile {S}.

Class Stores (S : Type) := {
  bs_Get : Digest → WM S blob_reader;
  bs_Put : Digest → reader → WM S unit;
  bs_local : option (LocalBlobStore S);
  ac_UpdateActionResult : Digest → ActionResult → WM S unit;
}.

(** *** Processes *)

(** What starting a command leads to: an executable that is not found, a process
    that cannot be started, or one that runs.  [ends] is when it ends by itself
    and its exit code (-1 after a signal), [None] if it never does.  [effect] is
    what it has done by the time it ends, or is killed: the disk, standard output
    and standard error.  [pipes_close] says whether the other processes that hold
    the pipes of its output close them. *)
Record process := mkProcess {
  ends : option (Z * Z);
  effect : bool → disk * string * string;
  pipes_close : bool → bool;
}.
Inductive started := NotFound_ (e : error) | NotStarted (e : error) | Started (p : process).

(** [elapsed] is the time spent between creating the context and starting. *)
Class Runner := {
  start : nat → list string → path → list string → disk → started;
  elapsed : nat → Z;
  elapsed_nonneg k : 0 ≤ elapsed k;
}.

(** The error of [Run]: an exit code, the error of the context, or another one. *)
Inductive run_error := ExitError (code : Z) | ContextError | OtherError (e : error).

(** [exec.Cmd.Run] under a context with [remaining] time: the direct child is
    killed at the deadline, and [Run] returns when the output pipes are closed.
    A child that exits at the deadline may yield the error of the context. *)
Definition cmd_Run (remaining : Z) (s : started) (d : disk)
    : option (option run_error * disk * string * string) :=
  match s with
  | NotFound_ e => Some (Some (OtherError e), d, "", "")
  | NotStarted e =>
      Some (Some (if remaining <=? 0 then ContextError else OtherError e), d, "", "")
  | Started p =>
      if remaining <=? 0 then Some (Some ContextError, d, "", "")
      else
        let killed := match ends p with Some (t, _) => remaining <? t | None => true end in
        let '(d', out, errs) := effect p killed in
        if negb (pipes_close p killed) then None
        else Some (match ends p with
                   | Some (t, code) =>
                       if remaining <? t then Some (ExitError (-1))
                       else if negb (code =? 0) then Some (ExitError code)
                       else if t =? remaining then Some ContextError
                       else None
                   | None => Some (ExitError (-1))
                   end, d', out, errs)
  end.

(** [ctx.Err() == context.DeadlineExceeded] after a [Run] with that error, and
    the error [runCommand] returns. *)
Definition run_failure (remaining : Z) (err : run_error) : error :=
  match err with
  | OtherError e => if remaining <=? 0 then StatusErr DeadlineExceeded "command timed out"
                    else Wrapped "command failed" e
  | _ => StatusErr DeadlineExceeded "command timed out"
  end.

(** The string of a path, for command lines. *)
Definition path_string (p : path) : string := "/" +:+ join_byte "/" p.

(** ** The worker pool *)

Record WorkerPool := mkWorkerPool {
  buildRoot : path;
  concurrency : Z;
  sandbox_ : option Sandbox.Sandbox;
}.

(** The fields of [config.ExecutionConfig] it reads. *)
Record ExecutionConfig := mkExecutionConfig {
  cfg_BuildRoot : path; cfg_Concurrency : Z; cfg_Sandbox : Sandbox.SandboxConfig }.

Definition defaultTimeout : Z := 10 * Scheduler.minute.

(** [stat] is the error of the [os.Stat] in [sandbox.New]. *)
Definition NewWorkerPool `{Sys} (stat : option error) (cfg : ExecutionConfig) : result WorkerPool :=
  let concurrency := if cfg_Concurrency cfg <=? 0 then NumCPU else cfg_Concurrency cfg in
  match Sandbox.New stat (cfg_Sandbox cfg) with
  | Err e => Err (Wrapped "failed to initialize sandbox" e)
  | Ok sb => Ok (mkWorkerPool (cfg_BuildRoot cfg) concurrency sb)
  end.

Section WorkerPool.
Context {S : Type} `{Sys, Stores S, Runner, WorkerPb, Sha}.
Implicit Types (wp : WorkerPool).

(** *** Fetching messages *)

Definition fetch {A} (unmarshal : string → result A) (d : Digest) : WM S A :=
  rc ← bs_Get d; data ← read_all rc; lift (unmarshal data).
Definition fetchAction : Digest → WM S Action := fetch Unmarshal_Action.
Definition fetchCommand : Digest → WM S Command := fetch Unmarshal_Command.
Definition fetchDirectory : Digest → WM S Directory := fetch Unmarshal_Directory.

(** *** Staging inputs *)

Definition stageFile (targetPath : path) (d : Digest) (exec : bool) : WM S unit :=
  rc ← bs_Get d;
  linked ←
    match bs_local with
    | Some lbs =>
        p ← match BlobPath lbs d with Some p => mret p | None => stuck end;
        _ ← (if exec then
               i ← os_Stat p;
               if negb (is_exec i)
               then wrap "failed to chmod CAS file"
                      (os_Chmod p (Z.lor (match i with IFile m => m | _ => 0 end) 73))
               else mret ()
             else mret ());
        r ← try (os_Link p targetPath);
        mret (match r with Ok _ => true | Err _ => false end)
    | None => mret false
    end;
  if linked : bool then mret ()
  else
    f ← os_OpenFile targetPath (if exec then 493 else 420);
    io_Copy f rc.

(** Parse the digest of a node, then go on with it. *)
Definition from_proto (p : PbDigest) : WM S Digest := lift (NewFromProto p).

Definition stage_file (targetDir : path) (file : FileNode) : WM S unit :=
  fileDigest ← from_proto (fn_Digest file);
  wrap ("failed to stage file " +:+ fn_Name file)
    (stageFile (Join targetDir [fn_Name file]) fileDigest (fn_IsExecutable file)).
Definition stage_symlink (targetDir : path) (l : SymlinkNode) : WM S unit :=
  wrap ("failed to create symlink " +:+ sn_Name l) (os_Symlink (sn_Target l) (Join targetDir [sn_Name l])).

Fixpoint stageDirectory (fuel : nat) (targetDir : path) (dirDigest : Digest) : WM S unit :=
  match fuel with
  | O => stuck
  | Datatypes.S fuel =>
      _ ← os_MkdirAll targetDir;
      dir ← fetchDirectory dirDigest;
      _ ← for_each (stage_file targetDir) (Files dir);
      _ ← for_each (stage_symlink targetDir) (Symlinks_ dir);
      for_each (λ subdir,
        subdirDigest ← from_proto (dn_Digest subdir);
        stageDirectory fuel (Join targetDir [dn_Name subdir]) subdirDigest) (Directories dir)
  end.
Definition stageInputs : nat → path → Digest → WM S unit := stageDirectory.

(** *** Input mounts *)

Record InputMounts := mkInputMounts {
  FileMounts : gmap path path;
  Symlinks : gmap path string;
}.

(** The function [filepath.WalkDir] calls: whether to go on into a directory. *)
Definition mount_entry (inputsDir execRoot p : path) (m : InputMounts) : WM S (bool * InputMounts) :=
  let targetPath := execRoot ++ drop (List.length inputsDir) p in
  i ← os_Lstat p;
  match i with
  | ILink =>
      linkTarget ← wrap "failed to read symlink" (os_Readlink p);
      _ ← os_MkdirAll (Dir targetPath);
      mret (false, mkInputMounts (FileMounts m) (<[targetPath := linkTarget]> (Symlinks m)))
  | IDir =>
      _ ← os_MkdirAll targetPath;
      mret (true, m)
  | IFile _ =>
      _ ← os_MkdirAll (Dir targetPath);
      mret (false, mkInputMounts (<[p := targetPath]> (FileMounts m)) (Symlinks m))
  end.

Fixpoint walkDir (fuel : nat) (inputsDir execRoot p : path) (m : InputMounts) : WM S InputMounts :=
  match fuel with
  | O => stuck
  | Datatypes.S fuel =>
      '(dir, m) ← mount_entry inputsDir execRoot p m;
      if dir : bool then
        names ← os_ReadDir p;
        fold_M (λ m name, walkDir fuel inputsDir execRoot (p ++ [name]) m) names m
      else mret m
  end.

Definition buildInputMounts (fuel : nat) (inputsDir execRoot : path) : WM S InputMounts :=
  _ ← os_Lstat inputsDir;
  walkDir fuel inputsDir execRoot inputsDir (mkInputMounts ∅ ∅).

(** *** Output directories *)

Fixpoint dedup (seen : gset path) (paths : list path) : list path :=
  match paths with
  | [] => []
  | p :: paths => if bool_decide (p ∈ seen) then dedup seen paths
                  else p :: dedup ({[p]} ∪ seen) paths
  end.
Definition deduplicatePaths (paths : list path) : list path := dedup ∅ paths.

(** [make_dirs msg dirs acc]: creates the directories and adds them to the list. *)
Definition make_dirs (msg : string) (dirs : list path) (acc : list path) : WM S (list path) :=
  fold_M (λ acc dir, _ ← wrap msg (os_MkdirAll dir); mret (acc ++ [dir])) dirs acc.

Definition createOutputDirectories (execRoot : path) (c : Command) : WM S (list path) :=
  let workingDir := Join execRoot [WorkingDirectory c] in
  w ← make_dirs "failed to create output parent dir"
        ((λ o, Dir (Join workingDir [o])) <$> OutputFiles c) [];
  w ← make_dirs "failed to create output dir" ((λ o, Join workingDir [o]) <$> OutputDirectories c) w;
  w ← make_dirs "failed to create output parent dir"
        ((λ o, Dir (Join workingDir [o])) <$> OutputPaths c) w;
  mret (deduplicatePaths w).

(** *** Running the command *)

(** The entries of a map in the order of this iteration. *)
Definition entries {A} (m : gmap path A) : WM S (list (path * A)) := λ w,
  (Some (Ok (range_over (w_tick w) m)), with_disk (w_disk w) w).

Definition materializeInputsForUnsandboxed (m : InputMounts) : WM S unit :=
  links ← entries (Symlinks m);
  _ ← for_each (λ '(target, linkTarget),
        _ ← wrap "failed to create target dir for symlink" (os_MkdirAll (Dir target));
        wrap "failed to create symlink" (os_Symlink linkTarget target)) links;
  mounts ← entries (FileMounts m);
  for_each (λ '(source, target),
    _ ← wrap "failed to create target dir" (os_MkdirAll (Dir target));
    r ← try (os_Link source target);
    match r with
    | Ok _ => mret ()
    | Err _ => wrap "failed to link" (os_Symlink (path_string source) target)
    end) mounts.

(** Symbolic links and empty files for the sandbox to mount inputs on. *)
Definition make_mount_points (m : InputMounts) : WM S unit :=
  links ← entries (Symlinks m);
  _ ← for_each (λ '(target, linkTarget),
        wrap "failed to create symlink" (os_Symlink linkTarget target)) links;
  mounts ← entries (FileMounts m);
  for_each (λ '(_, target),
    _ ← wrap "failed to create mount target" (os_Create target); mret ()) mounts.

(** [exitCode], [stdout] and [stderr]; the duration is for tracing only. *)
Record execResult := mkExecResult { exitCode : Z; stdout : string; stderr : string }.

(** [cmd.Run] and what [runCommand] makes of its error. *)
Definition run_process (cmdTimeout : Z) (args : list string) (dir : path) (env : list string)
    : WM S execResult := λ w,
  let remaining := cmdTimeout - elapsed (w_tick w) in
  match cmd_Run remaining (start (w_tick w) args dir env (w_disk w)) (w_disk w) with
  | None => (None, w)
  | Some (err, d, out, errs) =>
      (Some (match err with
             | None => Ok (mkExecResult 0 out errs)
             | Some (ExitError code) => Ok (mkExecResult code out errs)
             | Some err => Err (run_failure remaining err)
             end), with_disk d w)
  end.

Definition runCommand wp (execRoot : path) (m : InputMounts) (writablePaths : list path)
    (c : Command) (timeout : option Z) : WM S execResult :=
  let cmdTimeout := default defaultTimeout timeout in
  if (List.length (Arguments_ c) =? 0)%nat
  then throw (StatusErr InvalidArgument "command has no arguments") else
  let workingDir := Join execRoot [WorkingDirectory c] in
  let env := Environ ++ ((λ ev, ev.1 +:+ "=" +:+ ev.2) <$> EnvironmentVariables c) in
  args ←
    match (if Sandbox.sandbox_Enabled (sandbox_ wp) then sandbox_ wp else None) with
    | Some sb =>
        _ ← make_mount_points m;
        order ← entries (FileMounts m);
        let spec := Sandbox.mkWrapSpec (path_string workingDir)
          (list_to_map ((λ st, (path_string st.1, path_string st.2)) <$> map_to_list (FileMounts m)))
          (path_string <$> writablePaths) cmdTimeout (Arguments_ c) in
        wrap "failed to wrap command in sandbox"
          (lift (Sandbox.WrapCommand (path_string ∘ fst <$> order) sb spec))
    | None =>
        _ ← wrap "failed to materialize inputs" (materializeInputsForUnsandboxed m);
        mret (Arguments_ c)
    end;
  run_process cmdTimeout args workingDir env.

(** *** Uploading outputs *)

Definition uploadBlob (data : string) : WM S Digest :=
  let d := NewFromBlob data in
  _ ← bs_Put d (mkReader [data] None); mret d.

(** [digest.NewFromFile]: the digest of what the file holds. *)
Definition NewFromFile (p : path) : WM S Digest :=
  f ← os_Open p;
  data ← match f with Some i => read_all (OnDisk i) | None => throw is_dir_error end;
  mret (NewFromBlob data).

Definition uploadFile (p : path) : WM S Digest :=
  d ← wrap "failed to compute digest" (NewFromFile p);
  match bs_local with
  | Some lbs => _ ← wrap "failed to put file" (PutFile lbs d p); mret d
  | None =>
      f ← wrap "failed to open file" (os_Open p);
      r ← file_reader f;
      _ ← wrap "failed to put blob" (bs_Put d r); mret d
  end.

Definition add_file (dir : Directory) (f : FileNode) : Directory :=
  mkDirectory (Files dir ++ [f]) (Directories dir) (Symlinks_ dir).
Definition add_dir (dir : Directory) (f : DirectoryNode) : Directory :=
  mkDirectory (Files dir) (Directories dir ++ [f]) (Symlinks_ dir).
Definition add_link (dir : Directory) (f : SymlinkNode) : Directory :=
  mkDirectory (Files dir) (Directories dir) (Symlinks_ dir ++ [f]).

(** One entry of [dirPath]; [build] is the recursive call. *)
Definition build_entry (build : path → list Directory → WM S (Directory * list Directory)) (dirPath : path)
    (acc : Directory * list Directory) (name : string) : WM S (Directory * list Directory) :=
  let entryPath := Join dirPath [name] in
  i ← os_Lstat entryPath;
  match i with
  | IDir =>
      '(subdir, children) ← build entryPath acc.2;
      subdirData ← lift (Marshal_Directory subdir);
      subdirDigest ← uploadBlob subdirData;
      mret (add_dir acc.1 (mkDirectoryNode name (ToProto subdirDigest)), children ++ [subdir])
  | ILink =>
      target ← os_Readlink entryPath;
      mret (add_link acc.1 (mkSymlinkNode name target), acc.2)
  | IFile _ =>
      d ← uploadFile entryPath;
      mret (add_file acc.1 (mkFileNode name (ToProto d) (is_exec i)), acc.2)
  end.

(** The directory of [dirPath] and the children of the tree, to which it adds
    the directories below. *)
Fixpoint buildDirectoryProto (fuel : nat) (dirPath : path) (children : list Directory)
    : WM S (Directory * list Directory) :=
  match fuel with
  | O => stuck
  | Datatypes.S fuel =>
      names ← os_ReadDir dirPath;
      fold_M (build_entry (buildDirectoryProto fuel) dirPath) names (mkDirectory [] [] [], children)
  end.

Definition buildTree (fuel : nat) (dirPath : path) : WM S (PbTree * Digest) :=
  '(rootDir, children) ← buildDirectoryProto fuel dirPath [];
  rootData ← lift (Marshal_Directory rootDir);
  let rootDigest := NewFromBlob rootData in
  _ ← bs_Put rootDigest (mkReader [rootData] None);
  mret (mkTree rootDir children, rootDigest).

Definition add_output_file (r : ActionResult) (f : OutputFile) : ActionResult :=
  mkActionResult (ar_OutputFiles r ++ [f]) (ar_OutputDirectories r) (ar_ExitCode r)
    (ar_StdoutDigest r) (ar_StderrDigest r).
Definition add_output_dir (r : ActionResult) (o : OutputDirectory) : ActionResult :=
  mkActionResult (ar_OutputFiles r) (ar_OutputDirectories r ++ [o]) (ar_ExitCode r)
    (ar_StdoutDigest r) (ar_StderrDigest r).

Definition upload_output_file (fullPath : path) (outputPath : string) (i : info) (r : ActionResult)
    : WM S ActionResult :=
  d ← wrap ("failed to upload output " +:+ outputPath) (uploadFile fullPath);
  mret (add_output_file r (mkOutputFile outputPath (ToProto d) (is_exec i))).

Definition upload_output_dir (fuel : nat) (fullPath : path) (outputPath : string) (r : ActionResult)
    : WM S ActionResult :=
  '(tree, rootDigest) ← wrap ("failed to build tree for " +:+ outputPath) (buildTree fuel fullPath);
  treeData ← lift (Marshal_Tree tree);
  treeDigest ← wrap ("failed to upload tree for " +:+ outputPath) (uploadBlob treeData);
  mret (add_output_dir r (mkOutputDirectory outputPath (ToProto treeDigest) (ToProto rootDigest))).

(** An [os.Stat] of an output: [None] if it has not been produced. *)
Definition stat_output (fullPath : path) (outputPath : string) : WM S (option info) :=
  r ← try (os_Stat fullPath);
  match r with
  | Ok i => mret (Some i)
  | Err e => if os_IsNotExist e then mret None else throw (Wrapped ("failed to stat output " +:+ outputPath) e)
  end.

(** The digest of standard output or error; nothing is stored for an empty one. *)
Definition upload_stream (msg data : string) : WM S (option PbDigest) :=
  if (data =? "")%string then mret None
  else d ← wrap msg (uploadBlob data); mret (Some (ToProto d)).

Definition uploadOutputs (fuel : nat) (workDir : path) (c : Command) (x : execResult) : WM S ActionResult :=
  out ← upload_stream "failed to upload stdout" (stdout x);
  errs ← upload_stream "failed to upload stderr" (stderr x);
  let full outputPath := Join workDir [WorkingDirectory c; outputPath] in
  r ← fold_M (λ r o,
        i ← stat_output (full o) o;
        match i with None => mret r | Some i => upload_output_file (full o) o i r end)
      (OutputFiles c) (mkActionResult [] [] (int32 (exitCode x)) out errs);
  r ← fold_M (λ r o,
        i ← try (os_Stat (full o));
        match i with
        | Err e => if os_IsNotExist e then mret r else upload_output_dir fuel (full o) o r
        | Ok _ => upload_output_dir fuel (full o) o r
        end)
      (OutputDirectories c) r;
  fold_M (λ r o,
    i ← stat_output (full o) o;
    match i with
    | None => mret r
    | Some i => if IsDir i then upload_output_dir fuel (full o) o r else upload_output_file (full o) o i r
    end) (OutputPaths c) r.

(** *** Executing a task *)

Definition digest_arg (msg : string) (p : PbDigest) : WM S Digest :=
  match NewFromProto p with Ok d => mret d | Err _ => throw (StatusErr InvalidArgument msg) end.

Definition safeDirName (operationID : string) : string := replace_byte ":" "_" operationID.
Definition baseDir wp (t : Scheduler.Task) : path := Join (buildRoot wp) [safeDirName (Scheduler.OperationID t)].

(** Steps 5 to 8, after which the deferred removal runs. *)
Definition execute_in (fuel : nat) wp (base : path) (t : Scheduler.Task) (actionDigest : Digest)
    (a : Action) (c : Command) (inputRootDigest : Digest) : WM S ActionResult :=
  let inputsDir := Join base ["inputs"] in
  let execRoot := Join base ["execroot"] in
  _ ← wrap "failed to stage inputs" (stageInputs fuel inputsDir inputRootDigest);
  m ← wrap "failed to build input mounts" (buildInputMounts fuel inputsDir execRoot);
  _ ← wrap "failed to create working directory" (os_MkdirAll (Join execRoot [WorkingDirectory c]));
  writablePaths ← wrap "failed to create output directories" (createOutputDirectories execRoot c);
  x ← wrap "failed to execute command" (runCommand wp execRoot m writablePaths c (act_Timeout a));
  result ← wrap "failed to upload outputs" (uploadOutputs fuel execRoot c x);
  _ ← (if (ar_ExitCode result =? 0) && negb (Scheduler.SkipCache t)
       then r ← try (ac_UpdateActionResult actionDigest result); mret () else mret ());
  mret result.

Definition execute (fuel : nat) wp (t : Scheduler.Task) : WM S ActionResult :=
  actionDigest ← digest_arg "invalid action digest" (Scheduler.ActionDigest t);
  a ← wrap "failed to fetch action" (fetchAction actionDigest);
  cmdDigest ← digest_arg "invalid command digest" (CommandDigest a);
  c ← wrap "failed to fetch command" (fetchCommand cmdDigest);
  inputRootDigest ← digest_arg "invalid input root digest" (InputRootDigest a);
  let base := baseDir wp t in
  _ ← wrap "failed to create inputs dir" (os_MkdirAll (Join base ["inputs"]));
  _ ← wrap "failed to create execroot" (os_MkdirAll (Join base ["execroot"]));
  finally (execute_in fuel wp base t actionDigest a c inputRootDigest)
    (_ ← try (os_RemoveAll base); mret ()).

(** *** The loop of a worker *)

Context `{GrpcStatus, AnyPb}.

(** [executeTask]: [others] is what other goroutines do to the scheduler while
    the task executes; [None] if it does not return, or a goroutine panics. *)
Definition executeTask (fuel : nat) wp (t1 t2 : Z) (others : list Scheduler.event) (t : Scheduler.Task)
    (s : Scheduler.Scheduler) (w : WWorld S) : option (Scheduler.Scheduler * WWorld S) :=
  let name := Scheduler.opName (Scheduler.OperationID t) in
  s ← Scheduler.UpdateState name Scheduler.StateExecuting
        (mkMetadata STAGE_EXECUTING (Scheduler.ActionDigest t)) t1 s;
  s ← Scheduler.run s others;
  match execute fuel wp t w with
  | (None, _) => None
  | (Some (Err e), w) => s ← Scheduler.FailOp name e t2 s; Some (s, w)
  | (Some (Ok result), w) =>
      s ← Scheduler.Complete name (mkExecuteResponse result false) t2 s; Some (s, w)
  end.

(** One turn of the loop: what happens before a task is received, whether the
    context has ended by then, and what happens while the task executes. *)
Record turn := mkTurn {
  before : list Scheduler.event;
  ctx_done : bool;
  during : list Scheduler.event;
  times : Z * Z;
}.

(** [runWorker] over the turns; it ends when the context has ended, and waits
    while the queue is empty. *)
Fixpoint runWorker (fuel : nat) wp (turns : list turn) (s : Scheduler.Scheduler) (w : WWorld S)
    : option (Scheduler.Scheduler * WWorld S) :=
  match turns with
  | [] => Some (s, w)
  | u :: turns =>
      s ← Scheduler.run s (before u);
      if ctx_done u then Some (s, w)
      else match Scheduler.Dequeue s with
           | None => runWorker fuel wp turns s w
           | Some (t, s) =>
               '(s, w) ← executeTask fuel wp (times u).1 (times u).2 (during u) t s w;
               runWorker fuel wp turns s w
           end
  end.

(** [Run] up to the start of the workers: how many are started. *)
Definition Run wp : WM S nat :=
  _ ← wrap "failed to create build root" (os_MkdirAll (buildRoot wp));
  mret (Z.to_nat (concurrency wp)).
End WorkerPool.
End Worker.
