(* ===== verification/Pool.v ===== *)
(** Properties of the workers: the build directory of a task is its own and is
    removed, what reaches the action cache, deadlines, and that a worker finishes
    the operations it takes. *)

From S2P Require Import Prelude GoStrings Messages Fs Scheduler Sandbox Tree Worker.

Module Pool.
Import Tree Worker.
Local Open Scope Z_scope.

(** ** What a computation leaves as it is *)

(** However it ends, [m] leads to a world related to the one it started in. *)
Definition keeps {S A} (R : relation (WWorld S)) (m : WM S A) : Prop := ∀ w, R w (m w).2.

Section keeps.
Context {S : Type} (R : relation (WWorld S)) `{!PreOrder R}.

Lemma keeps_id {A} (f : WWorld S → option (result A)) : keeps R (λ w, (f w, w)).
Proof using Type*. intros w. simpl. reflexivity. Qed.
Lemma kept_by_bind {A B} (m : WM S A) (k : A → WM S B) :
  keeps R m → (∀ a, keeps R (k a)) → keeps R (m ≫= k).
Proof using Type*.
  intros Hm Hk w. specialize (Hm w). unfold mbind, WM_bind.
  destruct (m w) as [[[a|e]|] w1]; simpl in *; [|done|done]. etransitivity; [done|apply Hk].
Qed.
Lemma kept_by_try {A} (m : WM S A) : keeps R m → keeps R (try m).
Proof using Type*. intros Hm w. specialize (Hm w). unfold try. by destruct (m w) as [[r|] w1]. Qed.
Lemma kept_by_wrap {A} msg (m : WM S A) : keeps R m → keeps R (wrap msg m).
Proof using Type*. intros Hm w. specialize (Hm w). unfold wrap. by destruct (m w) as [[[a|e]|] w1]. Qed.
Lemma keeps_finally {A} (m : WM S A) d : keeps R m → keeps R d → keeps R (finally m d).
Proof using Type*.
  intros Hm Hd w. specialize (Hm w). unfold finally. destruct (m w) as [[r|] w1]; [|done].
  simpl in *. etransitivity; [done|apply Hd].
Qed.
Lemma keeps_fold {A B} (f : B → A → WM S B) xs b : (∀ b x, keeps R (f b x)) → keeps R (fold_M f xs b).
Proof using Type*.
  intros Hf. revert b. induction xs as [|x xs IH]; intros b; [apply keeps_id|].
  apply kept_by_bind; [apply Hf|apply IH].
Qed.
Lemma keeps_for_each {A} (f : A → WM S unit) xs : (∀ x, keeps R (f x)) → keeps R (for_each f xs).
Proof using Type*. intros Hf. by apply keeps_fold. Qed.

(** A relation that does not look at the disk and at the number of calls. *)
Context `{Sys} (Hdisk : ∀ w d k, R w (mkW d (w_store w) k)).
Lemma keeps_disk {A} (f : WWorld S → option (result A)) (g : WWorld S → disk) h :
  keeps R (λ w, (f w, mkW (g w) (w_store w) (h w))).
Proof using Type*. intros w. apply Hdisk. Qed.
Lemma keeps_sys_part {A} name (op : disk → result A * disk) part : keeps R (sys_part (S := S) name op part).
Proof using Type*.
  intros w. unfold sys_part. destruct (call_fault name (w_tick w)) as [[e n]|]; [apply Hdisk|].
  destruct (op (w_disk w)). apply Hdisk.
Qed.
End keeps.

(** The ways out of a sequence. *)
Lemma bind_out {S A B} (m : WM S A) (k : A → WM S B) w o w' :
  (m ≫= k) w = (o, w') →
  (∃ a w1, m w = (Some (Ok a), w1) ∧ k a w1 = (o, w')) ∨
  ((m w).2 = w' ∧ (∀ b, o ≠ Some (Ok b)) ∧
   (∀ e, o = Some (Err e) → (m w).1 = Some (Err e))).
Proof.
  unfold mbind, WM_bind. destruct (m w) as [[[a|e]|] w1]; intros Heq.
  - left. eauto.
  - right. injection Heq as <- <-. split_and!; [done|done|]. by intros ? [= <-].
  - right. injection Heq as <- <-. by split_and!.
Qed.

Lemma bind_ret {S A B} (a : A) (k : A → WM S B) w : (mret a ≫= k) w = k a w.
Proof. done. Qed.

(** Take a computation apart into its calls. *)
Ltac keep_by l := apply l; [exact _|..].
Ltac keep_step :=
  match goal with
  | |- keeps _ (@mbind _ _ _ _ _ _) => keep_by @kept_by_bind; [|intros ?]
  | |- keeps _ (try _) => keep_by @kept_by_try
  | |- keeps _ (wrap _ _) => keep_by @kept_by_wrap
  | |- keeps _ (finally _ _) => keep_by @keeps_finally
  | |- keeps _ (fold_M _ _ _) => keep_by @keeps_fold; intros ? ?
  | |- keeps _ (for_each _ _) => keep_by @keeps_for_each; intros ?
  | |- keeps _ (@mret _ _ _ _) => keep_by @keeps_id
  | |- keeps _ (throw _) => keep_by @keeps_id
  | |- keeps _ (lift _) => keep_by @keeps_id
  | |- keeps _ stuck => keep_by @keeps_id
  | |- keeps _ ((match ?x with _ => _ end) _) => destruct x eqn:?
  | |- keeps _ (match ?x with _ => _ end) => destruct x eqn:?
  end.

(** ** The action cache *)

(** The stores have action results; only [UpdateActionResult] changes them. *)
Class ActionLaws (S : Type) `{Stores S} := {
  actions : S → gmap string ActionResult;
  Get_actions d w : actions (w_store (bs_Get d w).2) = actions (w_store w);
  Put_actions d r w : actions (w_store (bs_Put d r w).2) = actions (w_store w);
  PutFile_actions lbs d p w :
    bs_local = Some lbs → actions (w_store (PutFile lbs d p w).2) = actions (w_store w);
  Update_actions d r w :
    actions (w_store (ac_UpdateActionResult d r w).2) = actions (w_store w) ∨
    ((ac_UpdateActionResult d r w).1 ≠ None ∧
     actions (w_store (ac_UpdateActionResult d r w).2) = <[Hash d := r]> (actions (w_store w)));
}.

Section actions.
Context {S : Type} `{Sys, Stores S, Runner, WorkerPb, Sha, !ActionLaws S}.

Definition same_actions : relation (WWorld S) := λ w w', actions (w_store w') = actions (w_store w).
#[local] Instance same_actions_preorder : PreOrder same_actions.
Proof using Type. split; [done|]. intros a b c Hab Hbc. unfold same_actions in *. by etransitivity. Qed.

Lemma actions_disk (w : WWorld S) d k : same_actions w (mkW d (w_store w) k).
Proof using Type. done. Qed.
Lemma actions_Get d : keeps same_actions (bs_Get d).
Proof using Type. intros w. apply Get_actions. Qed.
Lemma actions_Put d r : keeps same_actions (bs_Put d r).
Proof using Type. intros w. apply Put_actions. Qed.
Lemma actions_PutFile lbs d p : bs_local = Some lbs → keeps same_actions (PutFile lbs d p).
Proof using Type. intros Hl w. by apply PutFile_actions. Qed.

Ltac keep := repeat first
  [ apply actions_Get | apply actions_Put | by eapply actions_PutFile
  | keep_by @keeps_sys_part; exact actions_disk
  | keep_step
  | keep_by @keeps_disk; exact actions_disk ].

Lemma actions_read_all rc : keeps same_actions (read_all rc).
Proof using Type. unfold read_all, sys. keep. Qed.
Lemma actions_fetch {A} (u : string → result A) d : keeps same_actions (fetch u d).
Proof using Type. unfold fetch. keep. apply actions_read_all. Qed.
Lemma actions_stageFile p d x : keeps same_actions (stageFile p d x).
Proof using Type.
  unfold stageFile, os_Stat, os_Chmod, os_Link, os_OpenFile, io_Copy, sys_write, sys. keep.
Qed.
Lemma actions_stageDirectory fuel p d : keeps same_actions (stageDirectory fuel p d).
Proof using Type.
  revert p d. induction fuel as [|fuel IH]; intros p d; simpl; [keep|].
  unfold os_MkdirAll, fetchDirectory, stage_file, stage_symlink, from_proto, os_Symlink, sys. keep;
    [apply actions_fetch|apply actions_stageFile|apply IH].
Qed.
Lemma actions_walkDir fuel i e p m : keeps same_actions (walkDir fuel i e p m).
Proof using Type.
  revert p m. induction fuel as [|fuel IH]; intros p m; simpl; [keep|].
  unfold mount_entry, os_Lstat, os_Readlink, os_MkdirAll, os_ReadDir, sys. keep. apply IH.
Qed.
Lemma actions_run_process t args dir env : keeps same_actions (run_process t args dir env).
Proof using Type.
  intros w. unfold run_process. destruct (cmd_Run _ _ _) as [[[[err d] out] errs]|]; [|done].
  apply actions_disk.
Qed.
Lemma actions_runCommand pool e m wps c t : keeps same_actions (runCommand pool e m wps c t).
Proof using Type.
  unfold runCommand, make_mount_points, materializeInputsForUnsandboxed, entries, os_Create,
    os_OpenFile, os_Symlink, os_Link, os_MkdirAll, sys.
  keep; apply actions_run_process.
Qed.
Lemma actions_uploadBlob s : keeps same_actions (uploadBlob s).
Proof using Type. unfold uploadBlob. keep. Qed.
Lemma actions_uploadFile p : keeps same_actions (uploadFile p).
Proof using Type.
  unfold uploadFile, NewFromFile, os_Open, file_reader, sys. keep.
Qed.
Lemma actions_buildDirectoryProto fuel p ch : keeps same_actions (buildDirectoryProto fuel p ch).
Proof using Type.
  revert p ch. induction fuel as [|fuel IH]; intros p ch; simpl; [keep|].
  unfold build_entry, os_ReadDir, os_Lstat, os_Readlink, sys. keep;
    [apply IH|apply actions_uploadBlob|apply actions_uploadFile].
Qed.
Lemma actions_uploadOutputs fuel e c x : keeps same_actions (uploadOutputs fuel e c x).
Proof using Type.
  unfold uploadOutputs, upload_stream, stat_output, upload_output_dir, upload_output_file, buildTree,
    os_Stat, sys.
  keep; first [apply actions_uploadBlob|apply actions_uploadFile|apply actions_buildDirectoryProto].
Qed.

(** The last steps are the only ones that touch the action cache. *)
Definition cached (t : Scheduler.Task) (d : Digest) (o : option (result ActionResult)) (w w' : WWorld S) : Prop :=
  same_actions w w' ∨
  ∃ r, o = Some (Ok r) ∧ ar_ExitCode r = 0 ∧ Scheduler.SkipCache t = false ∧
    actions (w_store w') = <[Hash d := r]> (actions (w_store w)).

Lemma cached_bind {A} (m : WM S A) (k : A → WM S ActionResult) t d w o w' :
  keeps same_actions m → (m ≫= k) w = (o, w') →
  (∀ a w1, k a w1 = (o, w') → cached t d o w1 w') → cached t d o w w'.
Proof using Type.
  intros Hm Hb Hk. specialize (Hm w). apply bind_out in Hb as [(a & w1 & Ha & Hr)|(Hr & _)].
  - rewrite Ha in Hm. simpl in Hm. destruct (Hk a w1 Hr) as [Hs|(r & -> & ? & ? & Hs)].
    + left. unfold same_actions in *. by etransitivity.
    + right. exists r. split_and!; [done..|]. rewrite Hs. by unfold same_actions in Hm; rewrite Hm.
  - left. by rewrite Hr in Hm.
Qed.

Lemma execute_in_cached fuel pool base t d a c root w o w' :
  execute_in fuel pool base t d a c root w = (o, w') → cached t d o w w'.
Proof using Type.
  unfold execute_in. intros Hw. revert Hw.
  do 6 (intros Hw; eapply cached_bind; [|exact Hw|];
    [unfold stageInputs, buildInputMounts, createOutputDirectories, make_dirs, os_MkdirAll, os_Lstat, sys;
     keep; first [apply actions_stageDirectory|apply actions_walkDir|apply actions_runCommand
                 |apply actions_uploadOutputs]|];
    clear w Hw; intros ? w; revert w; intros w).
  cbv beta. match goal with |- context [ar_ExitCode ?x] => rename x into r end.
  destruct ((ar_ExitCode r =? 0) && negb (Scheduler.SkipCache t)) eqn:E; [|intros [= <- <-]; by left].
  to_prop. pose proof (Update_actions d r w) as Hu.
  unfold mbind, WM_bind, try. destruct (ac_UpdateActionResult d r w) as [[x|] w1]; simpl in *.
  - intros [= <- <-]. destruct Hu as [Hu|[_ Hu]]; [by left|right; eauto].
  - intros [= <- <-]. destruct Hu as [Hu|[Hu _]]; [by left|done].
Qed.

(** C25: executing a task changes the action cache only after everything has
    succeeded: either it is as before, or the task did not ask to skip the cache,
    the command exited with 0, and exactly the result that is returned has been
    stored under the digest of the task's action. *)
Theorem cached_only_on_success fuel pool t w o w' :
  execute fuel pool t w = (o, w') →
  actions (w_store w') = actions (w_store w) ∨
  ∃ d r, NewFromProto (Scheduler.ActionDigest t) = Ok d ∧ o = Some (Ok r) ∧
    ar_ExitCode r = 0 ∧ Scheduler.SkipCache t = false ∧
    actions (w_store w') = <[Hash d := r]> (actions (w_store w)).
Proof using Type.
  unfold execute, digest_arg. destruct (NewFromProto (Scheduler.ActionDigest t)) as [d|e].
  2:{ intros [= <- <-]. by left. }
  intros Hw. assert (cached t d o w w') as [Hs|(r & Hs)]; [|by left|right; naive_solver].
  rewrite bind_ret in Hw. revert Hw.
  do 6 (intros Hw; eapply cached_bind; [|exact Hw|];
    [unfold os_MkdirAll, fetchAction, fetchCommand; keep; apply actions_fetch|];
    clear w Hw; intros ? w).
  intros Hw. unfold finally in Hw. destruct (execute_in _ _ _ _ _ _ _ _ w) as [x w1] eqn:Hx.
  apply execute_in_cached in Hx. destruct x as [x|]; injection Hw as <- <-; [|done].
  match goal with |- cached _ _ _ _ (?m w1).2 => assert (same_actions w1 (m w1).2) as Hm end.
  { match goal with |- same_actions _ (?m _).2 => assert (keeps same_actions m) as Hk; [|apply Hk] end.
    unfold os_RemoveAll. keep. }
  destruct Hx as [Hs|(r & -> & ? & ? & Hs)]; unfold same_actions in *.
  - left. unfold same_actions. by etransitivity.
  - right. exists r. by rewrite Hm.
Qed.
End actions.

(** ** Build directories *)

(** The components [filepath.Join] makes are plain. *)
Lemma Join_plain_names p elems :
  Forall (λ c, plain c = true) p → Forall (λ c, plain c = true) (Join p elems).
Proof.
  unfold Join. assert (∀ c, c ∈ elems ≫= split_byte "/" → contains_byte "/" c = false) as Hc.
  { intros c (s & Hs & _)%list_elem_of_bind. by eapply split_byte_pieces. }
  revert p Hc. generalize (elems ≫= split_byte "/"). intros cs. induction cs as [|c cs IH]; intros p Hc Hp; [done|].
  simpl. apply IH; [by intros; apply Hc; right|].
  unfold clean_step. destruct ((c =? "")%string || (c =? ".")%string) eqn:E1; [done|].
  destruct (c =? "..")%string eqn:E2.
  - destruct p as [|x p _] using rev_ind; [done|]. rewrite removelast_last. by apply Forall_app in Hp as [? _].
  - apply Forall_app_2; [done|]. apply Forall_singleton. unfold plain.
    apply orb_false_iff in E1 as [-> ->]. rewrite E2, Hc by left. done.
Qed.

Section execute.
Context {S : Type} `{Sys, Stores S, Runner, WorkerPb, Sha}.

(** The errors before the removal of the build directory is deferred. *)
Definition early_error (e : error) : bool :=
  match e with
  | StatusErr InvalidArgument msg =>
      bool_decide (msg ∈ ["invalid action digest"; "invalid command digest"; "invalid input root digest"])
  | Wrapped msg _ =>
      bool_decide (msg ∈ ["failed to fetch action"; "failed to fetch command";
                          "failed to create inputs dir"; "failed to create execroot"])
  | _ => false
  end.

(** An error of the call before the rest, or the rest. *)
Lemma early_bind {A B} (m : WM S A) (k : A → WM S B) w o w' (P : Prop) :
  (m ≫= k) w = (Some o, w') →
  (∀ e, (m w).1 = Some (Err e) → early_error e = true) →
  (∀ a w1, k a w1 = (Some o, w') → (∃ e, o = Err e ∧ early_error e = true) ∨ P) →
  (∃ e, o = Err e ∧ early_error e = true) ∨ P.
Proof using Type.
  intros Hb He Hk. apply bind_out in Hb as [(a & w1 & _ & Hr)|(_ & Ho & Hm)]; [by eapply Hk|].
  destruct o as [b|e]; [by destruct (Ho b)|]. left. exists e. split; [done|]. by apply He, Hm.
Qed.

Lemma wrap_error {A} msg (m : WM S A) w e : (wrap msg m w).1 = Some (Err e) → ∃ e', e = Wrapped msg e'.
Proof using Type. unfold wrap. destruct (m w) as [[[a|e']|] w1]; simpl; intros [= <-]. eauto. Qed.
Lemma digest_arg_error msg p w e :
  (digest_arg (S := S) msg p w).1 = Some (Err e) → e = StatusErr InvalidArgument msg.
Proof using Type. unfold digest_arg. destruct (NewFromProto p); simpl; by intros [= <-]. Qed.

(** C24: a task leaves nothing behind: whatever fails on the way and whatever the
    command does, when [execute] returns, nothing is found at or below the
    task's build directory; unless it failed before it began to stage, or the
    operating system refuses [os.RemoveAll]. *)
Theorem execute_cleans_up fuel pool t w o w' q :
  Forall (λ c, plain c = true) (buildRoot pool) → baseDir pool t ≠ [] →
  (∀ k, call_fault "RemoveAll" k = None) →
  execute fuel pool t w = (Some o, w') →
  (∃ e, o = Err e ∧ early_error e = true) ∨
  (below (baseDir pool t) q → ∃ e, (Lstat q (w_disk w')).1 = Err e).
Proof using Type.
  intros Hroot Hbase Hnf Hw. unfold execute in Hw.
  eapply early_bind; [exact Hw|by intros e ->%digest_arg_error|]. clear w Hw. intros d w Hw.
  eapply early_bind; [exact Hw|by intros e [? ->]%wrap_error|]. clear w Hw. intros a w Hw.
  eapply early_bind; [exact Hw|by intros e ->%digest_arg_error|]. clear w Hw. intros dc w Hw.
  eapply early_bind; [exact Hw|by intros e [? ->]%wrap_error|]. clear w Hw. intros c w Hw.
  eapply early_bind; [exact Hw|by intros e ->%digest_arg_error|]. clear w Hw. intros dr w Hw.
  eapply early_bind; [exact Hw|by intros e [? ->]%wrap_error|]. clear w Hw. intros u1 w Hw.
  eapply early_bind; [exact Hw|by intros e [? ->]%wrap_error|]. clear w Hw. intros u2 w Hw.
  right. unfold finally in Hw. destruct (execute_in _ _ _ _ _ _ _ _ w) as [[r|] w1]; [|done].
  injection Hw as <- <-. unfold os_RemoveAll, sys_part, try, mbind, WM_bind. rewrite Hnf.
  destruct (RemoveAll (baseDir pool t) (w_disk w1)) as [x d'] eqn:Hr. simpl.
  intros Hq. eapply RemoveAll_gone; [|done|done|done]. by apply Join_plain_names.
Qed.
End execute.

(** A slash-free operation ID names a directory in the build root. *)
Lemma baseDir_plain pool t :
  plain (safeDirName (Scheduler.OperationID t)) = true →
  baseDir pool t = buildRoot pool ++ [safeDirName (Scheduler.OperationID t)].
Proof. intros Hp. unfold baseDir. apply Join_plain. by apply Forall_singleton. Qed.

(** Two operations never share a build directory, and neither has its own
    below the other's, as long as their IDs have no underscore, which the colon of
    an ID is replaced by, and name a directory. *)
Theorem build_dirs_apart pool t1 t2 :
  contains_byte "_" (Scheduler.OperationID t1) = false →
  contains_byte "_" (Scheduler.OperationID t2) = false →
  plain (safeDirName (Scheduler.OperationID t1)) = true →
  plain (safeDirName (Scheduler.OperationID t2)) = true →
  below (baseDir pool t1) (baseDir pool t2) →
  Scheduler.OperationID t1 = Scheduler.OperationID t2.
Proof.
  intros H1 H2 Hp1 Hp2. rewrite !baseDir_plain by done. intros [r Hr].
  rewrite <- app_assoc in Hr. apply app_inv_head in Hr. simpl in Hr. injection Hr as Hr _.
  by eapply replace_byte_inj.
Qed.

Lemma clean_plain p cs : Forall (λ c, plain c = true) cs → foldl clean_step p cs = p ++ cs.
Proof.
  intros Hf. revert p. induction Hf as [|c cs Hc Hf IH]; intros p; simpl; [by rewrite app_nil_r|].
  rewrite clean_step_plain, IH by done. by rewrite <- app_assoc.
Qed.
Lemma clean_up_to_root p cs : foldl clean_step p (replicate (List.length p) ".." ++ cs) = foldl clean_step [] cs.
Proof.
  induction p as [|c p IH] using rev_ind; [done|].
  rewrite length_app, Nat.add_comm. simpl. unfold clean_step at 2. simpl. by rewrite removelast_last.
Qed.

(** The node ID that a request claims to be forwarded from becomes part of
    the operation's ID and is joined to the build root as it is: with enough
    ".." in front, the caller chooses where the worker makes, fills and removes
    its build directory. *)
Theorem origin_chooses_build_dir root conc sb s uuid target x d skip now :
  Forall (λ c, plain c = true ∧ contains_byte ":" c = false) target →
  plain x = true → contains_byte ":" x = false →
  contains_byte "/" uuid = false → contains_byte ":" uuid = false →
  let origin := join_byte "/" ((replicate (List.length root) ".." ++ target) ++ [x]) in
  baseDir (mkWorkerPool root conc sb)
    (Scheduler.mkTask (Scheduler.newOperationID s uuid origin) d skip now) =
  target ++ [x +:+ "_" +:+ uuid].
Proof.
  intros Ht Hx Hxc Hu Huc origin. set (up := replicate (List.length root) "..") in *.
  assert (∀ c, c = "/"%char ∨ c = ":"%char → Forall (λ s, contains_byte c s = false) (up ++ target)) as Hno.
  { intros c Hc. apply Forall_app_2.
    - unfold up. apply Forall_replicate. by destruct Hc as [-> | ->].
    - eapply Forall_impl; [exact Ht|]. intros e [Hp He]. unfold plain in Hp. to_prop.
      by destruct Hc as [-> | ->]. }
  assert (contains_byte "/" x = false ∧ x ≠ "") as [Hxs Hxn] by (unfold plain in Hx; to_prop; done).
  assert (origin ≠ "") as Hne.
  { intros He. pose proof (split_join_byte "/" (up ++ target) x "" (Hno _ (or_introl eq_refl)) Hxs eq_refl) as Hs.
    fold origin in Hs. rewrite He in Hs. change (split_byte "/" ("" +:+ "")) with ([] ++ [""]) in Hs.
    apply app_inj_tail in Hs as [_ Hs]. by destruct x. }
  unfold baseDir, Scheduler.newOperationID. simpl. apply String.eqb_neq in Hne. rewrite Hne. simpl.
  rewrite Hne. simpl. unfold safeDirName. rewrite replace_byte_app. simpl.
  rewrite !replace_byte_id; [|done|].
  2:{ apply join_byte_contains; [done|]. apply Forall_app_2; [auto|by constructor]. }
  unfold Join. simpl. rewrite app_nil_r. unfold origin. rewrite split_join_byte; auto.
  rewrite <- app_assoc. unfold up. rewrite clean_up_to_root.
  assert (plain (x +:+ "_" +:+ uuid) = true) as Hp.
  { unfold plain. rewrite contains_byte_app, Hxs. simpl. rewrite Hu.
    destruct x as [|a [|b x]]; [done|simpl; by destruct (a =? ".")%char|].
    simpl. destruct (a =? ".")%char; [|done]. destruct (b =? ".")%char; [|done]. by destruct x. }
  assert (Forall (λ c, plain c = true) (target ++ [x +:+ "_" +:+ uuid])) as Hf.
  { apply Forall_app_2; [|by constructor]. eapply Forall_impl; [exact Ht|]. by intros ? [? _]. }
  exact (clean_plain [] _ Hf).
Qed.

(** ** Deadlines *)

Section commands.
Context {S : Type} `{Sys, Stores S, Runner, WorkerPb, Sha}.
Implicit Types w : WWorld S.

(** Errors of the preparation are all wrapped. *)
Definition wraps {A} (m : WM S A) : Prop := ∀ w e, (m w).1 = Some (Err e) → ∃ msg e', e = Wrapped msg e'.
Lemma wraps_ret {A} (a : A) : wraps (mret a).
Proof using Type. by intros w e [=]. Qed.
Lemma wraps_wrap {A} msg (m : WM S A) : wraps (wrap msg m).
Proof using Type. intros w e He. apply wrap_error in He. eauto. Qed.
Lemma wraps_bind {A B} (m : WM S A) (k : A → WM S B) : wraps m → (∀ a, wraps (k a)) → wraps (m ≫= k).
Proof using Type.
  intros Hm Hk w e He. destruct ((m ≫= k) w) as [o w'] eqn:Hb. simpl in He. subst o.
  apply bind_out in Hb as [(a & w1 & _ & Hr)|(_ & _ & Hr)]; [|by eapply Hm, Hr].
  apply (Hk a w1). by rewrite Hr.
Qed.
Lemma wraps_for_each {A} (f : A → WM S unit) xs : (∀ x, wraps (f x)) → wraps (for_each f xs).
Proof using Type.
  intros Hf. unfold for_each. induction xs as [|x xs IH]; [apply wraps_ret|]. by apply wraps_bind; [|intros []].
Qed.
Lemma wraps_entries {A} (m : gmap path A) : wraps (entries (S := S) m).
Proof using Type. by intros w e [=]. Qed.
Lemma wraps_mount_points m : wraps (make_mount_points (S := S) m).
Proof using Type.
  apply wraps_bind; [apply wraps_entries|intros links].
  apply wraps_bind; [apply wraps_for_each; intros []; apply wraps_wrap|intros _].
  apply wraps_bind; [apply wraps_entries|intros mounts].
  apply wraps_for_each. intros []. apply wraps_bind; [apply wraps_wrap|intros; apply wraps_ret].
Qed.

(** C37: the end of a command at its deadline.  A process that is killed at the
    deadline makes [runCommand] succeed with exit code -1; if another process
    keeps its output open, the worker waits for it whatever the timeout.  The error
    "command timed out" is returned only when the time was up before the command
    started, or when the command ended with exit code 0 at that very moment. *)
Theorem command_deadline :
  (∀ timeout args dir env w p,
     start (w_tick w) args dir env (w_disk w) = Started p →
     elapsed (w_tick w) < timeout →
     (∀ t code, ends p = Some (t, code) → timeout - elapsed (w_tick w) < t) →
     if pipes_close p true then
       ∃ x w', run_process timeout args dir env w = (Some (Ok x), w') ∧ exitCode x = -1 ∧
         w_disk w' = (effect p true).1.1 ∧ stdout x = (effect p true).1.2
     else (run_process (S := S) timeout args dir env w).1 = None) ∧
  (∀ pool execRoot m wps c timeout w w',
     runCommand pool execRoot m wps c timeout w =
       (Some (Err (StatusErr DeadlineExceeded "command timed out")), w') →
     let time := default defaultTimeout timeout in
     ∃ w1 args env,
       time ≤ elapsed (w_tick w1) ∨
       ∃ p, start (w_tick w1) args (Join execRoot [WorkingDirectory c]) env (w_disk w1) = Started p ∧
         ends p = Some (time - elapsed (w_tick w1), 0)).
Proof using Type.
  split.
  - intros timeout args dir env w p Hs Ht Hends. unfold run_process, cmd_Run. rewrite Hs.
    rewrite (proj2 (Z.leb_gt _ _)) by lia.
    assert ((match ends p with Some (t, _) => timeout - elapsed (w_tick w) <? t | None => true end) = true) as Hk.
    { destruct (ends p) as [[t code]|]; [|done]. apply Z.ltb_lt. by eapply Hends. }
    rewrite Hk. destruct (effect p true) as [[d out] errs]. simpl.
    destruct (pipes_close p true); simpl; [|done].
    destruct (ends p) as [[t code]|]; [rewrite Hk|]; eauto 10.
  - intros pool er m wps c timeout w w'. unfold runCommand.
    destruct (_ =? 0)%nat; [by unfold throw|].
    intros [(args & w1 & _ & Hr)|(_ & _ & He)]%bind_out.
    + exists w1, args. eexists. revert Hr. unfold run_process, cmd_Run.
      set (time := default defaultTimeout timeout). set (rem := time - elapsed (w_tick w1)).
      destruct (decide (time ≤ elapsed (w_tick w1))) as [|Hlt]; [by left|].
      assert ((rem <=? 0) = false) as -> by (apply Z.leb_gt; lia).
      destruct (start (w_tick w1) _ _ _ (w_disk w1)) as [e|e|p] eqn:Hs; try (by intros [=]); [..|].
      all: try (unfold run_failure; assert ((rem <=? 0) = false) as -> by (apply Z.leb_gt; lia); by intros [=]).
      destruct (effect p _) as [[d out] errs]. destruct (negb _); [by intros [=]|].
      intros Hr. right. exists p. split; [exact Hs|].
      destruct (ends p) as [[t code]|] eqn:He; [|done].
      destruct (rem <? t); [done|]. destruct (code =? 0) eqn:Hc; [|done]. simpl in Hr.
      destruct (t =? rem) eqn:Ht; [|done]. to_prop. by subst.
    + exfalso. specialize (He _ eq_refl). destruct (if Sandbox.sandbox_Enabled _ then _ else _) as [sb|].
      * assert (∃ msg e', StatusErr DeadlineExceeded "command timed out" = Wrapped msg e') as (? & ? & ?); [|done].
        eapply wraps_bind; [apply wraps_mount_points| |exact He]. intros ?.
        apply wraps_bind; [apply wraps_entries|intros order]. apply wraps_wrap.
      * assert (∃ msg e', StatusErr DeadlineExceeded "command timed out" = Wrapped msg e') as (? & ? & ?); [|done].
        eapply wraps_bind; [apply wraps_wrap| |exact He]. intros ?. apply wraps_ret.
Qed.
End commands.

(** ** The loop *)

Section loop.
Context {S : Type} `{Sys, Stores S, Runner, WorkerPb, Sha, GrpcStatus, AnyPb}.
Import Scheduler.

(** What the scheduler records when the execution ends with [o]. *)
Definition outcome (o : result ActionResult) (op op' : OperationStatus) : Prop :=
  State op' = StateCompleted ∧
  match o with
  | Ok r => Result op' = Some (mkExecuteResponse r false) ∧ Error op' = Error op
  | Err e => Error op' = Some e
  end.

Lemma lookup_with_op s l op' cnt cs n :
  lookup_op (with_op l op' cnt cs s) n =
  if decide (operations s !! n = Some l) then Some op' else lookup_op s n.
Proof using Type.
  unfold lookup_op, with_op. simpl. destruct (decide (operations s !! n = Some l)) as [->|Hn].
  - simpl. by rewrite lookup_insert_eq.
  - destruct (operations s !! n) as [l'|]; [|done]. simpl. rewrite lookup_insert_ne; [done|congruence].
Qed.

(** A change of one operation: the others, the table and the queue stay. *)
Definition changes_only (name : string) (s s' : Scheduler) : Prop :=
  wf s' ∧ operations s' = operations s ∧ taskQueue s' = taskQueue s ∧
  (∀ n, n ≠ name → lookup_op s' n = lookup_op s n).

Lemma changes_with_op name s l op op' cs st :
  wf s → operations s !! name = Some l → heap s !! l = Some op →
  Name op' = Name op → State op' = st → delivered s name l cs →
  changes_only name s (with_op l op' (count_after s op st) cs s).
Proof using Type.
  intros Hwf Hn Hl Hname Hst Hd. split_and!; [by eapply wf_change|done|done|].
  intros n Hne. rewrite lookup_with_op. destruct (decide _) as [Hn'|]; [|done].
  destruct (wf_ops s Hwf n l Hn') as (o1 & Ho1 & <-). destruct (wf_ops s Hwf name l Hn) as (o2 & Ho2 & <-).
  congruence.
Qed.

Lemma lookup_op_listed s name op :
  lookup_op s name = Some op → ∃ l, operations s !! name = Some l ∧ heap s !! l = Some op.
Proof using Type. unfold lookup_op. destruct (operations s !! name) as [l|]; [eauto|done]. Qed.
Lemma lookup_op_unlisted s name : wf s → lookup_op s name = None → operations s !! name = None.
Proof using Type.
  intros Hwf. unfold lookup_op. destruct (operations s !! name) as [l|] eqn:E; [|done]. simpl.
  destruct (wf_ops s Hwf name l E) as (op & -> & _). done.
Qed.

(** The end of [executeTask]. *)
Definition finish (name : string) (o : result ActionResult) (t : Z) (s : Scheduler) : option Scheduler :=
  match o with
  | Ok r => Complete name (mkExecuteResponse r false) t s
  | Err e => FailOp name e t s
  end.

Lemma finish_spec name o t s :
  wf s → ∃ s', finish name o t s = Some s' ∧ changes_only name s s' ∧
    match lookup_op s name with
    | Some op => ∃ op', lookup_op s' name = Some op' ∧ outcome o op op' ∧
        executingCount s' = count_after s op StateCompleted
    | None => s' = s
    end.
Proof using Type.
  intros Hwf. destruct (lookup_op s name) as [op|] eqn:Hop.
  - apply lookup_op_listed in Hop as (l & Hn & Hl).
    destruct o as [r|e]; simpl.
    + destruct (Complete_spec s name l op Hwf Hn Hl (mkExecuteResponse r false) t) as (cs & Hd & ->).
      eexists. split; [done|]. split; [by eapply changes_with_op|].
      rewrite lookup_with_op, decide_True by done. by eexists.
    + destruct (FailOp_spec s name l op Hwf Hn Hl e t) as (cs & Hd & ->).
      eexists. split; [done|]. split; [by eapply changes_with_op|].
      rewrite lookup_with_op, decide_True by done. by eexists.
  - apply lookup_op_unlisted in Hop; [|done]. exists s.
    split; [destruct o; simpl; unfold Complete, FailOp; by rewrite Hop|]. by split_and!.
Qed.

Lemma UpdateState_changes name st md t s :
  wf s → ∃ s', UpdateState name st md t s = Some s' ∧ changes_only name s s'.
Proof using Type.
  intros Hwf. destruct (operations s !! name) as [l|] eqn:Hn.
  - destruct (wf_ops s Hwf name l Hn) as (op & Hl & _).
    destruct (UpdateState_spec s name l op Hwf Hn Hl st md t) as (cs & Hd & ->).
    eexists. split; [done|]. by eapply changes_with_op.
  - exists s. unfold UpdateState. rewrite Hn. by split_and!.
Qed.

(** C10: a worker finishes what it takes: when the execution of a task returns,
    whatever clients, handlers and other workers did to the scheduler in the
    meantime, [executeTask] does not panic, keeps the invariant and, unless the
    operation has been removed, leaves it completed with exactly the result or the
    error of the execution, and not counted as executing. *)
Theorem execute_task_finishes fuel pool t1 t2 others t s w o w' :
  wf s → execute fuel pool t w = (Some o, w') →
  let name := opName (OperationID t) in
  ∃ s1 s', run s (EUpdate name StateExecuting (mkMetadata STAGE_EXECUTING (ActionDigest t)) t1 :: others) = Some s1 ∧
    executeTask fuel pool t1 t2 others t s w = Some (s', w') ∧ wf s' ∧
    match lookup_op s1 name with
    | Some op => ∃ op', lookup_op s' name = Some op' ∧ outcome o op op' ∧
        executingCount s' = executingCount s1 - (if decide (State op = StateExecuting) then 1 else 0)
    | None => s' = s1
    end.
Proof using Type.
  intros Hwf Hx name.
  destruct (run_wf s (EUpdate name StateExecuting (mkMetadata STAGE_EXECUTING (ActionDigest t)) t1 :: others) Hwf)
    as (s1 & Hrun & Hwf1).
  destruct (finish_spec name o t2 s1 Hwf1) as (s' & Hf & (Hwf' & _) & Hop).
  exists s1, s'. split; [done|]. split; [|split; [done|]].
  - unfold executeTask. fold name. simpl in Hrun.
    destruct (UpdateState name _ _ t1 s) as [s0|]; [|done]. simpl in *. rewrite Hrun. simpl.
    rewrite Hx. destruct o; simpl in Hf; by rewrite Hf.
  - destruct (lookup_op s1 name) as [op|]; [|done]. destruct Hop as (op' & ? & ? & Hc).
    exists op'. split_and!; [done..|]. rewrite Hc. unfold count_after.
    rewrite (bool_decide_eq_false_2 (StateCompleted = _)) by done. simpl.
    destruct (decide _); [rewrite bool_decide_eq_true_2 by done|rewrite bool_decide_eq_false_2 by done]; simpl; lia.
Qed.

(** Turns in which nobody else touches the scheduler. *)
Definition quiet_turn (u : turn) : Prop := before u = [] ∧ ctx_done u = false ∧ during u = [].

Definition completed (s : Scheduler) (name : string) : Prop :=
  ∃ op, lookup_op s name = Some op ∧ State op = StateCompleted.

(** One task executed while nobody else touches the scheduler. *)
Lemma executeTask_quiet fuel pool t1 t2 t s w :
  wf s → (execute fuel pool t w).1 ≠ None →
  ∃ s', executeTask fuel pool t1 t2 [] t s w = Some (s', (execute fuel pool t w).2) ∧
    changes_only (opName (OperationID t)) s s' ∧
    (is_Some (operations s !! opName (OperationID t)) → completed s' (opName (OperationID t))).
Proof using Type.
  intros Hwf Hx. set (name := opName (OperationID t)).
  destruct (execute fuel pool t w) as [[o|] w'] eqn:Ho; [|done].
  destruct (UpdateState_changes name StateExecuting (mkMetadata STAGE_EXECUTING (ActionDigest t)) t1 s Hwf)
    as (s1 & Hu & Hwf1 & Ho1 & Hq1 & Hl1).
  destruct (finish_spec name o t2 s1 Hwf1) as (s2 & Hf & (Hwf2 & Ho2 & Hq2 & Hl2) & Hop).
  exists s2. split_and!.
  - unfold executeTask. fold name. rewrite Hu. simpl. rewrite Ho. destruct o; simpl in Hf; by rewrite Hf.
  - split_and!; [done|congruence|congruence|]. intros n Hn. by rewrite Hl2, Hl1.
  - intros [l Hl]. rewrite <- Ho1 in Hl. destruct (wf_ops s1 Hwf1 name l Hl) as (op & Hh & _).
    assert (lookup_op s1 name = Some op) as Hlk by (unfold lookup_op; by rewrite Hl).
    rewrite Hlk in Hop. destruct Hop as (op' & ? & [? _] & _). by exists op'.
Qed.

(** Executed one after the other, the tasks all return. *)
Fixpoint all_return (fuel : nat) pool (ts : list Task) (w : WWorld S) : Prop :=
  match ts with
  | [] => True
  | t :: ts => (execute fuel pool t w).1 ≠ None ∧ all_return fuel pool ts (execute fuel pool t w).2
  end.

Lemma runWorker_serves fuel pool turns s w :
  wf s → all_return fuel pool (taskQueue s) w →
  Forall quiet_turn turns → List.length turns = List.length (taskQueue s) →
  ∃ s' w', runWorker fuel pool turns s w = Some (s', w') ∧ wf s' ∧ taskQueue s' = [] ∧
    (∀ n, completed s n → completed s' n) ∧
    ∀ t, t ∈ taskQueue s → is_Some (operations s !! opName (OperationID t)) →
      completed s' (opName (OperationID t)).
Proof using Type.
  intros Hwf Hx Hq. revert s w Hwf Hx.
  induction Hq as [|u turns (Hb & Hd & Hdu) Hq IH]; intros s w Hwf Hx Hlen.
  { exists s, w. destruct (taskQueue s) eqn:E; [|done]. split_and!; [done..|].
    intros t Ht. by apply elem_of_nil in Ht. }
  cbn [runWorker]. rewrite Hb, Hd, Hdu. simpl.
  destruct (Dequeue s) as [[t s0]|] eqn:Hdq; unfold Dequeue in Hdq;
    destruct (taskQueue s) as [|t' q] eqn:Ht; try done. injection Hdq as <- <-.
  assert (wf (set_queue q s)) as Hwf0 by (apply (Dequeue_wf s t'); [done|unfold Dequeue; by rewrite Ht]).
  destruct (executeTask_quiet fuel pool (times u).1 (times u).2 t' (set_queue q s) w Hwf0)
    as (s1 & -> & (Hwf1 & Ho1 & Hq1 & Hl1) & Hc1); [apply Hx|].
  simpl. destruct (IH s1 (execute fuel pool t' w).2 Hwf1) as (s' & w' & Hr & Hwf' & Hq' & Hkeep & Hserved);
    [rewrite Hq1; apply Hx|rewrite Hq1; simpl in *; lia|].
  rewrite Hq1, Ho1 in Hserved. simpl in Ho1, Hserved, Hc1.
  exists s', w'. split_and!; [done..| |].
  - intros n (op & Hop & Hst). apply Hkeep.
    destruct (decide (n = opName (OperationID t'))) as [->|Hn].
    + apply Hc1. apply lookup_op_listed in Hop as (l & Hl & _). by exists l.
    + exists op. split; [|done]. by rewrite Hl1.
  - intros t [->|Hin]%elem_of_cons His; [apply Hkeep, Hc1, His|by apply Hserved].
Qed.

(** C11: a worker that is left alone serves the whole queue: if the executions,
    one after the other, all return, then after as many turns as there are tasks the queue is empty and
    every queued operation that is listed is completed. *)
Theorem worker_drains_queue fuel pool turns s w :
  wf s → all_return fuel pool (taskQueue s) w →
  Forall quiet_turn turns → List.length turns = List.length (taskQueue s) →
  ∃ s' w', runWorker fuel pool turns s w = Some (s', w') ∧ wf s' ∧ taskQueue s' = [] ∧
    ∀ t, t ∈ taskQueue s → is_Some (operations s !! opName (OperationID t)) →
      completed s' (opName (OperationID t)).
Proof using Type.
  intros Hwf Hx Hq Hlen.
  destruct (runWorker_serves fuel pool turns s w Hwf Hx Hq Hlen) as (s' & w' & ? & ? & ? & _ & ?). eauto 10.
Qed.
End loop.

End Pool.
