(* ===== verification/Staging.v ===== *)
(** Staging input trees and uploading output trees: both against the laws of a
    blob store whose calls succeed, and their composition. *)

From S2P Require Import Prelude GoStrings Messages Fs Tree Worker.

Module Staging.
Import Tree Worker.
Local Open Scope Z_scope.

(** ** Trees of files *)

Inductive ftree :=
  | FFile (data : string) (exec : bool)
  | FLink (target : string)
  | FDir (entries : list (string * ftree)).

(** [represents R n d p t]: the disk has the tree [t], at most [n] directories
    deep, at [p]; executable bits are related by [R]. *)
Fixpoint represents (R : bool → bool → Prop) (n : nat) (d : disk) (p : path) (t : ftree) : Prop :=
  match t with
  | FFile s x => ∃ i f, nodes d !! p = Some (WFile i) ∧ files d !! i = Some f ∧ f_data f = s ∧
                   R x (executable (f_mode f))
  | FLink target => nodes d !! p = Some (WLink target)
  | FDir es =>
      match n with
      | O => False
      | S n => node_at d p = Some WDir ∧ NoDup es.*1 ∧
               (∀ c, c ∈ es.*1 ↔ is_Some (nodes d !! (p ++ [c]))) ∧
               Forall (λ e, represents R n d (p ++ [e.1]) e.2) es
      end
  end.

(** Executable bits may be gained, not lost. *)
Definition at_least (x y : bool) : Prop := x = true → y = true.

(** Names that are single components, once each; links that lead somewhere. *)
Fixpoint tree_ok (n : nat) (t : ftree) : Prop :=
  match t with
  | FFile _ _ => True
  | FLink target => target ≠ ""
  | FDir es =>
      match n with
      | O => False
      | S n => NoDup es.*1 ∧ Forall (λ e, plain e.1 = true ∧ tree_ok n e.2) es
      end
  end.

(** ** The laws of the store *)

(** Contents are kept; permissions are, but for the inodes of [I]. *)
Definition files_kept (I : nat → Prop) (d d' : disk) : Prop :=
  ∀ i f, files d !! i = Some f →
    ∃ f', files d' !! i = Some f' ∧ f_data f' = f_data f ∧ (¬ I i → f_mode f' = f_mode f).

(** What reading [rc] yields. *)
Definition reads_as (rc : blob_reader) (d : disk) (s : string) : Prop :=
  match rc with
  | OnDisk i => ∃ f, files d !! i = Some f ∧ f_data f = s
  | Stream r => rd_err r = None ∧ rd_all r = s
  end.

(** A regular file, reached through directories. *)
Definition regular (d : disk) (p : path) (i : nat) (s : string) : Prop :=
  ∃ q c f, p = q ++ [c] ∧ real_dir d q ∧ plain c = true ∧
    nodes d !! p = Some (WFile i) ∧ files d !! i = Some f ∧ f_data f = s.

Definition has_size (d : Digest) (s : string) : Prop := Size d = Z.of_nat (String.length s).

(** What is seen of a store: the files only it changes, the paths that have to
    stay for it to work, its invariant, and the bytes it holds by hash. *)
Class StoreView (S : Type) := {
  own : path → Prop;
  needs : path → Prop;
  sane : WWorld S → Prop;
  bytes : string → WWorld S → option string;
}.

(** What a call of the store may change: its own files, and permissions of [I]. *)
Definition store_step {S : Type} `{StoreView S} (I : nat → Prop) (w w' : WWorld S) : Prop :=
  sane w' ∧ (∀ q, ¬ own q → nodes (w_disk w') !! q = nodes (w_disk w) !! q) ∧
  files_kept I (w_disk w) (w_disk w').

(** After a blob has been put: the store has it, or has kept the one it had. *)
Definition stored {S : Type} `{StoreView S} (h s : string) (w w' : WWorld S) : Prop :=
  (∀ h', h' ≠ h → bytes h' w' = bytes h' w) ∧
  (bytes h w' = Some s ∨ (is_Some (bytes h w) ∧ bytes h w' = bytes h w)).

(** A store whose calls succeed. *)
Class StoreLaws (S : Type) `{DigestSdk, !Sha, Stores S, StoreView S} := {
  own_needs q : own q → needs q;
  own_below q r : own q → own (q ++ r);
  outside_law w w' :
    w_store w' = w_store w → (∀ q, needs q → nodes (w_disk w') !! q = nodes (w_disk w) !! q) →
    files_kept (λ _, True) (w_disk w) (w_disk w') → sane w →
    sane w' ∧ ∀ h, bytes h w' = bytes h w;
  Get_law d w s :
    sane w → has_size d s → bytes (Hash d) w = Some s →
    ∃ rc w', bs_Get d w = (Some (Ok rc), w') ∧ store_step (λ _, False) w w' ∧
      (∀ h, bytes h w' = bytes h w) ∧ reads_as rc (w_disk w') s ∧
      match bs_local with
      | Some lbs => ∃ p i, BlobPath lbs d = Some p ∧ regular (w_disk w') p i s
      | None => True
      end;
  Put_law r w :
    sane w → rd_err r = None → let d := NewFromBlob (rd_all r) in
    ∃ w', bs_Put d r w = (Some (Ok ()), w') ∧ store_step (λ _, False) w w' ∧
      stored (Hash d) (rd_all r) w w';
  PutFile_law lbs p i s w :
    bs_local = Some lbs → sane w → regular (w_disk w) p i s → ¬ own p →
    let d := NewFromBlob s in
    ∃ w', PutFile lbs d p w = (Some (Ok ()), w') ∧ store_step (λ j, j = i) w w' ∧ stored (Hash d) s w w';
}.

Section staging.
Context {S : Type} `{Sys, DigestSdk, !Sha, WorkerPb, Stores S, StoreView S, !StoreLaws S}.
Context (quiet : ∀ c k, call_fault c k = None).
Implicit Types (w : WWorld S) (p q : path) (t : ftree).

(** ** What a digest stands for *)

Definition blob w (d : Digest) (s : string) : Prop := has_size d s ∧ bytes (Hash d) w = Some s.

Definition file_denotes w (f : FileNode) (e : string * ftree) : Prop :=
  e.1 = fn_Name f ∧ ∃ d s, NewFromProto (fn_Digest f) = Ok d ∧ blob w d s ∧ e.2 = FFile s (fn_IsExecutable f).
Definition link_denotes (l : SymlinkNode) (e : string * ftree) : Prop :=
  e = (sn_Name l, FLink (sn_Target l)).

Definition sub_denotes w (stands_for : Directory → list (string * ftree) → Prop) (sub : DirectoryNode)
    (e : string * ftree) : Prop :=
  e.1 = dn_Name sub ∧
  ∃ d s dir es, NewFromProto (dn_Digest sub) = Ok d ∧ blob w d s ∧
    Unmarshal_Directory s = Ok dir ∧ e.2 = FDir es ∧ stands_for dir es.

(** A [Directory] message stands for these entries, up to their order. *)
Fixpoint dir_denotes (n : nat) w (dir : Directory) (es : list (string * ftree)) : Prop :=
  match n with
  | O => False
  | Datatypes.S n =>
      ∃ fs ls ds, es ≡ₚ fs ++ ls ++ ds ∧ Forall2 (file_denotes w) (Files dir) fs ∧
        Forall2 link_denotes (Symlinks_ dir) ls ∧
        Forall2 (sub_denotes w (dir_denotes n w)) (Directories dir) ds
  end.
Definition denotes (n : nat) w (d : Digest) (es : list (string * ftree)) : Prop :=
  ∃ s dir, blob w d s ∧ Unmarshal_Directory s = Ok dir ∧ dir_denotes n w dir es.

(** ** Calls that succeed *)

Lemma sys_quiet {A} name (op : disk → result A * disk) part w :
  sys_part name op part w = (Some (op (w_disk w)).1, with_disk (op (w_disk w)).2 w).
Proof using quiet. unfold sys_part. rewrite quiet. by destruct (op (w_disk w)). Qed.

Lemma sys_Ok {A} name (op : disk → result A * disk) part w a d :
  op (w_disk w) = (Ok a, d) → sys_part name op part w = (Some (Ok a), with_disk d w).
Proof using quiet. intros Ho. by rewrite sys_quiet, Ho. Qed.

Lemma then_Ok {A B} (m : WM S A) (k : A → WM S B) w a w1 :
  m w = (Some (Ok a), w1) → (m ≫= k) w = k a w1.
Proof using Type. unfold mbind, WM_bind. by intros ->. Qed.
Lemma then_eq {A B} (m : WM S A) (k : A → WM S B) w a w1 r :
  m w = (Some (Ok a), w1) → k a w1 = r → (m ≫= k) w = r.
Proof using Type. intros Hm <-. by apply then_Ok. Qed.
Lemma wrapped_Ok {A} msg (m : WM S A) w a w1 :
  m w = (Some (Ok a), w1) → wrap msg m w = (Some (Ok a), w1).
Proof using Type. unfold wrap. by intros ->. Qed.

(** ** Disks that grow *)

Definition grows (d d' : disk) : Prop :=
  ∀ i f, files d !! i = Some f →
    ∃ f', files d' !! i = Some f' ∧ f_data f' = f_data f ∧
      (executable (f_mode f) = true → executable (f_mode f') = true).

(** Only what is at or below [p], and the store's files, may differ. *)
Definition only_below p (d d' : disk) : Prop :=
  (∀ q, ¬ below p q → ¬ own q → nodes d' !! q = nodes d !! q) ∧ grows d d'.

(** The store works as before. *)
Definition same_store w w' : Prop := sane w' ∧ ∀ h, bytes h w' = bytes h w.
Definition stage_step p w w' : Prop := same_store w w' ∧ only_below p (w_disk w) (w_disk w').

#[local] Instance grows_preorder : PreOrder grows.
Proof using Type.
  split; [intros d i f Hf; eauto|]. intros a b c Hab Hbc i f Hf.
  destruct (Hab i f Hf) as (f1 & Hf1 & Hd1 & Hx1). destruct (Hbc i f1 Hf1) as (f2 & Hf2 & Hd2 & Hx2).
  exists f2. split_and!; [done|congruence|auto].
Qed.
#[local] Instance only_below_preorder p : PreOrder (only_below p).
Proof using Type.
  split; [intros d; by split|]. intros a b c [Hab Hg] [Hbc Hg']. split; [|by etransitivity].
  intros q Hq Ho. by rewrite Hbc, Hab.
Qed.
Lemma stage_step_trans p w1 w2 w3 : stage_step p w1 w2 → stage_step p w2 w3 → stage_step p w1 w3.
Proof using Type.
  intros [[_ Hb] Ho] [[Hs Hb'] Ho']. split; [|by etransitivity]. split; [done|]. intros h. by rewrite Hb', Hb.
Qed.

Lemma kept_grows d d' : files_kept (λ _, False) d d' → grows d d'.
Proof using Type.
  intros Hk i f Hf. destruct (Hk i f Hf) as (f' & ? & ? & Hm). exists f'. rewrite Hm by auto. auto.
Qed.
Lemma store_stage p w w' : store_step (λ _, False) w w' → (∀ h, bytes h w' = bytes h w) → stage_step p w w'.
Proof using Type. intros (Hs & Hn & Hk) Hb. split; [done|]. split; [auto|by apply kept_grows]. Qed.

(** A change of the disk at or below [p], which the store does not need. *)
Lemma disk_stage p w d' k :
  sane w → (∀ r, ¬ needs (p ++ r)) → (∀ q, ¬ below p q → nodes d' !! q = nodes (w_disk w) !! q) →
  grows (w_disk w) d' → stage_step p w (mkW d' (w_store w) k).
Proof using All.
  intros Hs Hp Hn Hg. destruct (outside_law w (mkW d' (w_store w) k)) as [Hs' Hb]; [done| |  |done|].
  - intros q Hq. apply Hn. intros [r ->]. by apply (Hp r).
  - intros i f Hf. destruct (Hg i f Hf) as (f' & ? & ? & _). by exists f'.
  - split; [done|]. split; [|done]. intros q Hq _. by apply Hn.
Qed.

(** ** Writing a file *)

Lemma set_file_id i f d : files d !! i = Some f → set_file i f d = d.
Proof using Type. intros Hf. unfold set_file. rewrite insert_id by done. by destruct d. Qed.
Lemma set_file_twice i f g d : set_file i f (set_file i g d) = set_file i f d.
Proof using Type. unfold set_file. simpl. by rewrite insert_insert_eq. Qed.

Lemma write_quiet i s w a m :
  files (w_disk w) !! i = Some (mkFile a m) →
  sys_write i s w = (Some (Ok ()), with_disk (set_file i (mkFile (a +:+ s) m) (w_disk w)) w).
Proof using quiet. intros Hf. unfold sys_write. rewrite sys_quiet. simpl. unfold AppendIno. by rewrite Hf. Qed.

Lemma write_all_quiet i cs w a m :
  files (w_disk w) !! i = Some (mkFile a m) →
  ∃ k, for_each (sys_write i) cs w =
    (Some (Ok ()), mkW (set_file i (mkFile (a +:+ foldr String.append "" cs) m) (w_disk w)) (w_store w) k).
Proof using quiet.
  revert w a. induction cs as [|c cs IH]; intros w a Hf.
  - exists (w_tick w). simpl. rewrite str_app_nil_r, set_file_id by done. by destruct w.
  - unfold for_each. simpl. erewrite then_Ok by by apply write_quiet.
    destruct (IH (with_disk (set_file i (mkFile (a +:+ c) m) (w_disk w)) w) (a +:+ c)) as [k Hk];
      [by simpl; rewrite lookup_insert_eq|].
    unfold for_each in Hk. exists k. rewrite Hk. simpl. by rewrite set_file_twice, str_app_assoc.
Qed.

Lemma copy_quiet i rc w s m :
  files (w_disk w) !! i = Some (mkFile "" m) → reads_as rc (w_disk w) s →
  ∃ k, io_Copy i rc w = (Some (Ok ()), mkW (set_file i (mkFile s m) (w_disk w)) (w_store w) k).
Proof using quiet.
  intros Hf Hr. destruct rc as [j|r]; simpl in *.
  - destruct Hr as (f & Hj & <-). eexists. unfold sys at 1. erewrite then_Ok by by apply sys_Ok.
    unfold ino_data. rewrite Hj. rewrite (write_quiet i _ _ "" m) by done. done.
  - destruct Hr as [He <-]. destruct (write_all_quiet i (rd_chunks r) w "" m Hf) as [k Hk].
    exists k. erewrite then_Ok by exact Hk. by rewrite He.
Qed.

(** ** Staging one entry *)

(** The entry [c] of the directory [p] can be made, and the store is not below. *)
Definition free w p c : Prop :=
  real_dir (w_disk w) p ∧ plain c = true ∧ (∀ r, nodes (w_disk w) !! (p ++ c :: r) = None) ∧
  (∀ r, ¬ needs (p ++ c :: r)).

(** A new node. *)
Lemma new_node_stage p c n d w k :
  sane w → (∀ r, ¬ needs (p ++ c :: r)) → grows (w_disk w) d → nodes d = <[p ++ [c] := n]> (nodes (w_disk w)) →
  stage_step (p ++ [c]) w (mkW d (w_store w) k).
Proof using All.
  intros Hs Hn Hg Hd. apply disk_stage; [done|intros r; rewrite <- app_assoc; apply Hn| |done].
  intros q Hq. rewrite Hd, lookup_insert_ne; [done|]. intros <-. apply Hq. exists []. by rewrite app_nil_r.
Qed.

(** Neither the store nor an entry below it changes the directories above. *)
Lemma real_dir_kept p c d d' :
  real_dir d p → (∀ r, ¬ needs (p ++ c :: r)) →
  (∀ q, ¬ below (p ++ [c]) q → ¬ own q → nodes d' !! q = nodes d !! q) → real_dir d' p.
Proof using All.
  intros [Hf Hr] Hp Hn. split; [done|]. intros q r Hq. specialize (Hr q r Hq).
  destruct q as [|x q]; [done|]. unfold node_at in *. rewrite Hn; [done| |].
  - intros [r' Hr']. rewrite Hr' in Hq. apply (f_equal (@List.length _)) in Hq.
    rewrite !length_app in Hq. simpl in Hq. lia.
  - intros Ho. apply (Hp []). rewrite Hq, <- app_assoc. by apply own_needs, own_below.
Qed.
Lemma free_store_step I p c w w' : free w p c → store_step I w w' → free w' p c.
Proof using All.
  intros (Hr & Hc & Hn & Hp) (_ & Hk & _). split_and!; [|done| |done].
  - eapply real_dir_kept; [done..|]. intros q _. apply Hk.
  - intros r. rewrite Hk; [done|]. intros Ho. by eapply Hp, own_needs.
Qed.

(** The executable bit that staging adds to the blob's file. *)
Lemma make_executable_ok (x : bool) p i s w :
  sane w → regular (w_disk w) p i s →
  ∃ d f k, (if x then
           j ← os_Stat p;
           if negb (is_exec j)
           then wrap "failed to chmod CAS file"
                  (os_Chmod p (Z.lor (match j with IFile m => m | _ => 0 end) 73))
           else mret ()
         else mret ()) w = (Some (Ok ()), mkW d (w_store w) k) ∧
    nodes d = nodes (w_disk w) ∧ grows (w_disk w) d ∧
    files d !! i = Some f ∧ f_data f = s ∧ (x = true → executable (f_mode f) = true).
Proof using All.
  intros Hs (q & c & f & -> & Hr & Hc & Hn & Hf & Hd).
  destruct x; [|exists (w_disk w), f, (w_tick w); destruct w; split_and!; done].
  assert (follow (w_disk w) (q ++ [c]) = Ok (q ++ [c])) as Hfol by (apply follow_last; [done..|by rewrite Hn]).
  unfold os_Stat, sys. erewrite then_Ok.
  2:{ apply sys_Ok. unfold Stat. rewrite Hfol. simpl. unfold node_info.
      rewrite (node_at_snoc _ q c), Hn, Hf. done. }
  simpl. destruct (executable (f_mode f)) eqn:Hx; simpl.
  { exists (w_disk w), f. eexists. split_and!; done. }
  exists (set_file i (mkFile (f_data f) (Z.lor (f_mode f) 73)) (w_disk w)), (mkFile (f_data f) (Z.lor (f_mode f) 73)).
  assert (executable (Z.lor (f_mode f) 73) = true) as Hx'.
  { unfold executable. destruct (Z.eqb_spec (Z.land (Z.lor (f_mode f) 73) 73) 0) as [H0'|]; [|done].
    apply (f_equal (λ z, Z.testbit z 0)) in H0'.
    by rewrite Z.land_spec, Z.lor_spec, Z.bits_0, orb_true_r in H0'. }
  eexists. split_and!; [|done| |by simpl; rewrite lookup_insert_eq|done|done].
  - apply wrapped_Ok. unfold os_Chmod, sys. erewrite sys_Ok; [done|].
    unfold Chmod. simpl. rewrite Hfol, (node_at_snoc _ q c), Hn, Hf. done.
  - intros j g Hg. simpl. destruct (decide (j = i)) as [->|Hne].
    + rewrite lookup_insert_eq. eexists. split; [done|]. simpl. split; [congruence|done].
    + rewrite lookup_insert_ne by done. eauto.
Qed.

Lemma stage_file_ok f e p w :
  sane w → file_denotes w f e → free w p e.1 →
  ∃ w', stage_file p f w = (Some (Ok ()), w') ∧ stage_step (p ++ [e.1]) w w' ∧
    ∀ n, represents at_least n (w_disk w') (p ++ [e.1]) e.2.
Proof using All.
  intros Hs (He & d & s & Hd & [Hsz Hb] & Ht) Hfree. rewrite Ht, He in *.
  destruct (Get_law d w s Hs Hsz Hb) as (rc & w1 & Hget & Hstep & Hbytes & Hrc & Hloc).
  pose proof (free_store_step _ _ _ _ _ Hfree Hstep) as (Hr & Hc & Hnone & Hneeds).
  pose proof (store_stage (p ++ [fn_Name f]) _ _ Hstep Hbytes) as Hst1. destruct Hstep as (Hs1 & _).
  set (c := fn_Name f) in *. set (x := fn_IsExecutable f) in *.
  assert (∃ w', stageFile (p ++ [c]) d x w = (Some (Ok ()), w') ∧ stage_step (p ++ [c]) w w' ∧
    ∃ i g, nodes (w_disk w') !! (p ++ [c]) = Some (WFile i) ∧ files (w_disk w') !! i = Some g ∧
      f_data g = s ∧ at_least x (executable (f_mode g))) as (w' & Hw' & ? & ?).
  2:{ exists w'. split; [|split; [done|by intros []]]. unfold stage_file, from_proto. rewrite Hd.
      erewrite then_Ok by done. rewrite Join_plain by by repeat constructor. by apply wrapped_Ok. }
  unfold stageFile. erewrite then_Ok by exact Hget.
  destruct bs_local as [lbs|].
  - destruct Hloc as (bp & i & Hbp & Hreg). rewrite Hbp.
    destruct (make_executable_ok x bp i s w1 Hs1 Hreg) as (d2 & g & k & Hx & Hn2 & Hg2 & Hf2 & Hd2 & Hx2).
    set (w2 := mkW d2 (w_store w1) k) in *.
    destruct Hreg as (q & b & f0 & -> & Hrq & Hcb & Hnb & _ & _).
    assert (os_Link (q ++ [b]) (p ++ [c]) w2 =
      (Some (Ok ()), with_disk (set_node (p ++ [c]) (WFile i) d2) w2)) as Hlink.
    { unfold os_Link, sys. apply sys_Ok. unfold Link. simpl.
      assert (∀ z, real_dir (w_disk w1) z → real_dir d2 z) as Hreal.
      { intros z [? Hz]. split; [done|]. intros y r Hy. specialize (Hz y r Hy).
        destruct y; [done|]. simpl in *. by rewrite Hn2. }
      rewrite nofollow_last, (node_at_snoc _ q b), Hn2, Hnb by auto.
      apply new_name_new; [auto|]. rewrite Hn2. apply (Hnone []). }
    eexists. split; [|split].
    + eapply (then_eq _ _ w1 true); [|done].
      eapply then_eq; [done|]. eapply then_eq; [exact Hx|].
      eapply then_eq; [unfold try; by rewrite Hlink|done].
    + eapply stage_step_trans; [exact Hst1|].
      apply (new_node_stage p c (WFile i) (set_node (p ++ [c]) (WFile i) d2) w1); [done|done| |simpl; by rewrite Hn2].
      intros j h Hh. by apply Hg2.
    + exists i, g. simpl. rewrite lookup_insert_eq. split_and!; [done..|]. intros Hxt. by apply Hx2.
  - set (i := new_ino (w_disk w1)). set (perm := if x then 493 else 420).
    set (d2 := set_node (p ++ [c]) (WFile i) (set_file i (mkFile "" perm) (w_disk w1))).
    assert (os_OpenFile (p ++ [c]) perm w1 = (Some (Ok i), with_disk d2 w1)) as Hopen.
    { unfold os_OpenFile, sys. apply sys_Ok. apply OpenTrunc_new; [done|done|apply (Hnone [])]. }
    assert (files (w_disk w1) !! i = None) as Hi by apply new_ino_fresh.
    destruct (copy_quiet i rc (with_disk d2 w1) s perm) as [k Hk].
    { simpl. by rewrite lookup_insert_eq. }
    { destruct rc as [j|r]; [|done]. destruct Hrc as (f0 & Hj & Hs0). exists f0. split; [|done].
      simpl. rewrite lookup_insert_ne; [done|]. congruence. }
    eexists. split; [|split].
    + eapply (then_eq _ _ w1 false); [done|]. eapply then_eq; [exact Hopen|exact Hk].
    + eapply stage_step_trans; [exact Hst1|].
      apply (new_node_stage p c (WFile i) (set_file i (mkFile s perm) d2) w1); [done|done| |done].
      intros j h Hh. simpl. rewrite !lookup_insert_ne by congruence. eauto.
    + exists i, (mkFile s perm). simpl. rewrite !lookup_insert_eq. split_and!; [done..|].
      unfold perm. by intros ->.
Qed.

Lemma stage_symlink_ok l e p w :
  sane w → link_denotes l e → sn_Target l ≠ "" → free w p e.1 →
  ∃ w', stage_symlink p l w = (Some (Ok ()), w') ∧ stage_step (p ++ [e.1]) w w' ∧
    ∀ n, represents at_least n (w_disk w') (p ++ [e.1]) e.2.
Proof using All.
  unfold link_denotes. intros Hs He Ht (Hr & Hc & Hnone & Hneeds). subst e. simpl in *.
  eexists. split; [|split].
  - unfold stage_symlink. rewrite Join_plain by by repeat constructor. apply wrapped_Ok.
    unfold os_Symlink, sys. apply sys_Ok. unfold Symlink. apply String.eqb_neq in Ht as ->.
    apply new_name_new; [done|apply (Hnone [])].
  - apply (new_node_stage p (sn_Name l) (WLink (sn_Target l)) _ w); [done|done| |done].
    intros i f Hf. eauto.
  - intros []; simpl; by rewrite lookup_insert_eq.
Qed.

(** ** Staging the entries of a directory *)

Lemma represents_kept n d d' q t :
  represents at_least n d q t → (∀ r, nodes d' !! (q ++ r) = nodes d !! (q ++ r)) → grows d d' →
  represents at_least n d' q t.
Proof using Type.
  revert q t. induction n as [|n IH]; intros q t Ht Hn Hg;
    assert (nodes d' !! q = nodes d !! q) as Hq by (specialize (Hn []); by rewrite app_nil_r in Hn);
    destruct t as [s x|tg|es]; simpl in *; rewrite ?Hq; try done.
  1, 2: destruct Ht as (i & f & ? & Hf & ? & Hx); destruct (Hg i f Hf) as (f' & ? & ? & Hx');
    exists i, f'; split_and!; [done|done|congruence|intros ?; auto].
  destruct Ht as (Hd & Hnd & Hc & Hes). split_and!; [|done| |].
  - destruct q; [done|]. simpl in *. by rewrite Hq.
  - intros c. by rewrite Hn.
  - eapply Forall_impl; [exact Hes|]. intros e He. apply IH; [done| |done].
    intros r. rewrite <- !app_assoc. apply Hn.
Qed.

Definition staged n w p (done : list (string * ftree)) w1 : Prop :=
  stage_step p w w1 ∧ real_dir (w_disk w1) p ∧
  (∀ c r, c ∉ done.*1 → nodes (w_disk w1) !! (p ++ c :: r) = None) ∧
  Forall (λ e, represents at_least n (w_disk w1) (p ++ [e.1]) e.2) done.

Lemma staged_perm n w p done done' w1 : done ≡ₚ done' → staged n w p done w1 → staged n w p done' w1.
Proof using Type.
  intros Hp (Hs & Hr & Hn & Hf). split_and!; [done|done| |by rewrite <- Hp].
  intros c r. rewrite <- Hp. apply Hn.
Qed.

Lemma below_other p c c' r : below (p ++ [c]) (p ++ c' :: r) → c = c'.
Proof using Type.
  intros [r' Hr]. rewrite <- app_assoc in Hr. apply app_inv_head in Hr. by injection Hr.
Qed.
Lemma below_up p c q : below (p ++ [c]) q → below p q.
Proof using Type. intros [r ->]. exists (c :: r). by rewrite <- app_assoc. Qed.

Lemma staged_next n w p done e w1 w2 :
  (∀ r, ¬ needs (p ++ r)) → staged n w p done w1 → e.1 ∉ done.*1 →
  stage_step (p ++ [e.1]) w1 w2 → represents at_least n (w_disk w2) (p ++ [e.1]) e.2 →
  staged n w p (e :: done) w2.
Proof using All.
  intros Hp (Hst & Hr & Hn & Hf) He H12 Hrep. pose proof H12 as [Hss [Hnodes Hg]].
  assert (∀ r, ¬ own (p ++ r)) as Hown by (intros r Ho; by eapply Hp, own_needs).
  assert (∀ c r, c ≠ e.1 → nodes (w_disk w2) !! (p ++ c :: r) = nodes (w_disk w1) !! (p ++ c :: r)) as Hoth.
  { intros c r Hc. apply Hnodes; [|apply Hown]. by intros ?%below_other. }
  split_and!.
  - eapply stage_step_trans; [done|]. split; [done|]. split; [|done]. intros q Hq. apply Hnodes.
    by intros ?%below_up.
  - eapply real_dir_kept; [done| |exact Hnodes]. intros r. apply Hp.
  - intros c r Hc. simpl in Hc. apply not_elem_of_cons in Hc as [Hc1 Hc2]. rewrite Hoth by done. by apply Hn.
  - constructor; [done|]. rewrite Forall_forall in Hf |- *. intros x Hx.
    eapply represents_kept; [by apply Hf| |done]. intros r. rewrite <- !app_assoc. simpl. apply Hoth.
    intros Heq. apply He. rewrite <- Heq. by apply list_elem_of_fmap_2.
Qed.

(** One of the three loops of [stageDirectory]. *)
Lemma stage_each {A} (act : A → WM S unit) (rel : A → string * ftree → Prop) n w p xs es done w1 :
  (∀ r, ¬ needs (p ++ r)) →
  (∀ x e w1, rel x e → same_store w w1 → free w1 p e.1 →
     ∃ w2, act x w1 = (Some (Ok ()), w2) ∧ stage_step (p ++ [e.1]) w1 w2 ∧
       represents at_least n (w_disk w2) (p ++ [e.1]) e.2) →
  Forall2 rel xs es → Forall (λ e, plain e.1 = true) es → NoDup (es ++ done).*1 → staged n w p done w1 →
  ∃ w2, for_each act xs w1 = (Some (Ok ()), w2) ∧ staged n w p (es ++ done) w2.
Proof using All.
  intros Hp Hact Hrel. revert done w1.
  induction Hrel as [|x e xs es Hx Hrel IH]; intros done w1 Hpl Hnd Hst; [by exists w1|].
  apply Forall_cons in Hpl as [He Hpl]. simpl in Hnd. apply NoDup_cons in Hnd as [Hne Hnd].
  assert (e.1 ∉ done.*1) as Hed by (rewrite fmap_app in Hne; set_solver).
  pose proof Hst as ([Hss _] & Hr & Hnone & _).
  destruct (Hact x e w1 Hx Hss) as (w2 & Hw2 & H12 & Hrep).
  { split_and!; [done|done|intros r; by apply Hnone|intros r; apply Hp]. }
  destruct (IH (e :: done) w2) as (w3 & Hw3 & Hst3); [done| |by eapply staged_next|].
  - eapply (NoDup_Permutation_proper (e.1 :: (es ++ done).*1)); [|by constructor].
    rewrite !fmap_app. simpl. by rewrite Permutation_middle.
  - exists w3. split.
    + unfold for_each in *. simpl. eapply then_eq; [exact Hw2|exact Hw3].
    + eapply staged_perm; [|exact Hst3]. simpl. by rewrite Permutation_middle.
Qed.

(** ** Staging a directory *)

Lemma tick_sane w k : sane w → sane (mkW (w_disk w) (w_store w) k) ∧
  ∀ h, bytes h (mkW (w_disk w) (w_store w) k) = bytes h w.
Proof using All.
  intros Hs. apply outside_law; [done|done| |done]. intros i f Hf. by exists f.
Qed.

Lemma read_all_ok rc w s :
  reads_as rc (w_disk w) s → ∃ k, read_all rc w = (Some (Ok s), mkW (w_disk w) (w_store w) k).
Proof using quiet.
  destruct rc as [i|r]; simpl.
  - intros (f & Hf & <-). eexists. unfold sys. apply sys_Ok. unfold ino_data. by rewrite Hf.
  - intros [He Hr]. exists (w_tick w). unfold lift. rewrite He, Hr. by destruct w.
Qed.

Lemma fetch_ok {A} (u : string → result A) d s w :
  sane w → blob w d s →
  ∃ w', fetch u d w = (Some (u s), w') ∧ store_step (λ _, False) w w' ∧ ∀ h, bytes h w' = bytes h w.
Proof using All.
  intros Hs [Hsz Hb]. destruct (Get_law d w s Hs Hsz Hb) as (rc & w1 & Hget & (Hs1 & Hn1 & Hk1) & Hb1 & Hrc & _).
  destruct (read_all_ok rc w1 s Hrc) as [k Hk]. destruct (tick_sane w1 k Hs1) as [Hs2 Hb2].
  eexists. split; [|split].
  - unfold fetch. eapply then_eq; [exact Hget|]. eapply then_eq; [exact Hk|]. done.
  - split_and!; done.
  - intros h. by rewrite Hb2.
Qed.

(** Nothing at or below [p] but, perhaps, an empty directory. *)
Definition vacant w p : Prop :=
  (real_dir (w_disk w) p ∨ ∃ q c, p = q ++ [c] ∧ plain c = true ∧ real_dir (w_disk w) q ∧
     nodes (w_disk w) !! p = None) ∧
  ∀ c r, nodes (w_disk w) !! (p ++ c :: r) = None.

Lemma mkdir_vacant w p :
  sane w → vacant w p → (∀ r, ¬ needs (p ++ r)) →
  ∃ w', os_MkdirAll p w = (Some (Ok ()), w') ∧ stage_step p w w' ∧ real_dir (w_disk w') p ∧
    ∀ c r, nodes (w_disk w') !! (p ++ c :: r) = None.
Proof using All.
  intros Hs [Hp Hnone] Hneeds. unfold os_MkdirAll. destruct Hp as [Hr|(q & c & -> & Hc & Hr & Hn)].
  - eexists. split; [apply sys_Ok; by apply MkdirAll_real|]. split; [|done].
    apply (disk_stage p w (w_disk w)); [done|done|done|]. intros i f Hf. eauto.
  - eexists. split; [apply sys_Ok; by apply MkdirAll_new|]. split_and!.
    + apply (new_node_stage q c WDir (set_node (q ++ [c]) WDir (w_disk w)) w); [done| | |done].
      * intros r. specialize (Hneeds r). by rewrite <- app_assoc in Hneeds.
      * intros i f Hf. eauto.
    + apply real_dir_snoc; [|done|simpl; by rewrite lookup_insert_eq].
      eapply (real_dir_kept q c); [exact Hr| |].
      * intros r. specialize (Hneeds r). by rewrite <- app_assoc in Hneeds.
      * intros x Hx _. simpl. rewrite lookup_insert_ne; [done|]. intros <-. apply Hx. exists [].
        by rewrite app_nil_r.
    + intros c' r. simpl. rewrite lookup_insert_ne; [apply Hnone|].
      intros He. apply (f_equal (@List.length _)) in He. rewrite !length_app in He. simpl in He. lia.
Qed.

Lemma blob_same w w' d s : same_store w w' → blob w d s → blob w' d s.
Proof using Type. intros [_ Hb] [? ?]. split; [done|]. by rewrite Hb. Qed.
Lemma file_denotes_same w w' f e : same_store w w' → file_denotes w f e → file_denotes w' f e.
Proof using Type.
  intros Hs (? & d & s & ? & ? & ?). split; [done|]. exists d, s. split_and!; [done|by eapply blob_same|done].
Qed.
Lemma dir_denotes_same n w w' dir es : same_store w w' → dir_denotes n w dir es → dir_denotes n w' dir es.
Proof using Type.
  intros Hs. revert dir es. induction n as [|n IH]; intros dir es; [done|].
  intros (fs & ls & ds & ? & Hf & ? & Hd). exists fs, ls, ds. split_and!; [done| |done|].
  - eapply Forall2_impl; [exact Hf|]. intros. by eapply file_denotes_same.
  - eapply Forall2_impl; [exact Hd|]. intros sub e (? & d & s & dir' & es' & ? & ? & ? & ? & ?).
    split; [done|]. exists d, s, dir', es'. split_and!; auto. by eapply blob_same.
Qed.

Lemma staged_store n w p done w1 w2 :
  (∀ r, ¬ needs (p ++ r)) → staged n w p done w1 → store_step (λ _, False) w1 w2 →
  (∀ h, bytes h w2 = bytes h w1) → staged n w p done w2.
Proof using All.
  intros Hp (Hst & Hr & Hn & Hf) Hstep Hb. pose proof Hstep as (_ & Hnodes & Hk).
  assert (∀ r, ¬ own (p ++ r)) as Hown by (intros r Ho; by eapply Hp, own_needs).
  split_and!.
  - eapply stage_step_trans; [done|by apply store_stage].
  - apply (real_dir_kept p "a" (w_disk w1)); [done|intros r; apply Hp|]. intros q _. apply Hnodes.
  - intros c r Hc. rewrite Hnodes by apply Hown. by apply Hn.
  - eapply Forall_impl; [exact Hf|]. intros e He. eapply represents_kept; [exact He| |by apply kept_grows].
    intros r. rewrite <- app_assoc. apply Hnodes, Hown.
Qed.

Lemma represents_some R n d p c t : represents R n d (p ++ [c]) t → is_Some (nodes d !! (p ++ [c])).
Proof using Type.
  destruct n; destruct t as [s x|tg|es]; simpl; try done; rewrite ?node_at_snoc; intros Ht;
    first [by destruct Ht as (i & f & -> & _)|by rewrite Ht|by destruct Ht as [-> _]].
Qed.

Lemma staged_represents n w p es es' w1 :
  NoDup es.*1 → es ≡ₚ es' → staged n w p es' w1 → represents at_least (Datatypes.S n) (w_disk w1) p (FDir es).
Proof using Type.
  intros Hnd Hp Hst. symmetry in Hp. apply (staged_perm n w p es' es w1 Hp) in Hst as (_ & Hr & Hn & Hf).
  simpl. split_and!; [by apply real_dir_node|done| |done]. intros c. split.
  - intros (e & -> & He)%list_elem_of_fmap. rewrite Forall_forall in Hf. by eapply represents_some, Hf.
  - intros Hc. destruct (decide (c ∈ es.*1)) as [|Hne]; [done|]. rewrite (Hn c [] Hne) in Hc. by destruct Hc.
Qed.

Lemma Forall2_with {A B} (P : A → B → Prop) (Q : B → Prop) xs ys :
  Forall2 P xs ys → Forall Q ys → Forall2 (λ x y, P x y ∧ Q y) xs ys.
Proof using Type. induction 1 as [|x y xs ys]; [constructor|]. intros [? ?]%Forall_cons. constructor; auto. Qed.

(** What the recursive call of [stageDirectory] has to do. *)
Definition stages n (stage : path → Digest → WM S unit) : Prop := ∀ target d es w,
  sane w → denotes n w d es → tree_ok n (FDir es) → vacant w target → (∀ r, ¬ needs (target ++ r)) →
  ∃ w', stage target d w = (Some (Ok ()), w') ∧
    represents at_least n (w_disk w') target (FDir es) ∧ stage_step target w w'.

Lemma stage_subdir_ok n stage target w sub e v :
  stages n stage → sub_denotes w (dir_denotes n w) sub e → plain e.1 = true → tree_ok n e.2 →
  same_store w v → free v target e.1 →
  ∃ v', (subdirDigest ← from_proto (dn_Digest sub); stage (Join target [dn_Name sub]) subdirDigest) v
      = (Some (Ok ()), v') ∧
    stage_step (target ++ [e.1]) v v' ∧ represents at_least n (w_disk v') (target ++ [e.1]) e.2.
Proof using All.
  intros IH (He & d' & s' & dir' & es' & Hd' & Hb' & Hu' & Het & Hden) Hpe Hte Hss (Hr & Hc & Hnone & Hnd').
  rewrite Het in *. rewrite He in *.
  destruct (IH (target ++ [dn_Name sub]) d' es' v) as (v' & Hv' & Hrep & Hst'); [apply Hss| |done| | |].
  - exists s', dir'. split_and!; [by eapply blob_same|done|by eapply dir_denotes_same].
  - split; [right; exists target, (dn_Name sub); split_and!; [done|done|done|apply (Hnone [])]|].
    intros c r. rewrite <- app_assoc. apply Hnone.
  - intros r. rewrite <- app_assoc. apply Hnd'.
  - exists v'. split_and!; [|done|done]. eapply then_eq; [unfold from_proto; by rewrite Hd'|].
    by rewrite Join_plain by by repeat constructor.
Qed.

Lemma plain_names n (l : list (string * ftree)) :
  Forall (λ e, plain e.1 = true ∧ tree_ok n e.2) l → Forall (λ e, plain e.1 = true) l.
Proof using Type. intros Hl. eapply Forall_impl; [exact Hl|by intros ? []]. Qed.

(** The names of the three lists of a directory stay apart as they are staged. *)
Lemma names_apart (es fs ls ds : list (string * ftree)) :
  es ≡ₚ fs ++ ls ++ ds → NoDup es.*1 →
  NoDup (fs ++ []).*1 ∧ NoDup (ls ++ fs ++ []).*1 ∧ NoDup (ds ++ ls ++ fs ++ []).*1.
Proof using Type.
  intros Hperm Hnd. assert (es ≡ₚ ds ++ ls ++ fs ++ []) as Hp
    by (rewrite Hperm, app_nil_r; solve_Permutation).
  rewrite Hp in Hnd. split_and!; [| |done]; rewrite !fmap_app in *; apply NoDup_app in Hnd as (_ & _ & Hnd);
    [by apply NoDup_app in Hnd as (_ & _ & Hnd)|done].
Qed.


(** ** What names that are not distinct do *)

(** A file is staged under a name that exists: the link fails, and the copy is
    written through the existing name. *)
Lemma stage_over_existing lbs q c d p i s j f w :
  privileged = true → bs_local = Some lbs → BlobPath lbs d = Some p → regular (w_disk w) p i s →
  bs_Get d w = (Some (Ok (OnDisk i)), w) → i ≠ j →
  real_dir (w_disk w) q → plain c = true → nodes (w_disk w) !! (q ++ [c]) = Some (WFile j) →
  files (w_disk w) !! j = Some f →
  ∃ k, stageFile (q ++ [c]) d false w =
    (Some (Ok ()), mkW (set_file j (mkFile s (f_mode f)) (w_disk w)) (w_store w) k).
Proof using quiet.
  intros Hpriv Hl Hp (pq & pc & fi & -> & Hpr & Hpc & Hpn & Hfi & Hs) Hget Hij Hr Hc Hn Hf.
  set (w1 := with_disk (w_disk w) w).
  set (w2 := with_disk (set_file j (mkFile "" (f_mode f)) (w_disk w)) w1).
  destruct (copy_quiet j (OnDisk i) w2 s (f_mode f)) as [k Hk].
  { simpl. by rewrite lookup_insert_eq. }
  { exists fi. simpl. by rewrite lookup_insert_ne. }
  simpl in Hk. rewrite set_file_twice in Hk. exists k.
  unfold stageFile. eapply then_eq; [exact Hget|]. rewrite Hl, Hp.
  eapply (then_eq _ _ w false w1).
  - eapply then_eq; [done|]. eapply then_eq; [done|]. eapply (then_eq _ _ w (Err exists_) w1); [|done].
    unfold try, os_Link, sys. rewrite sys_quiet. unfold Link.
    rewrite nofollow_last, (node_at_snoc _ pq pc), Hpn by done. unfold new_name.
    rewrite nofollow_last, (node_at_snoc _ q c), Hn by done. done.
  - eapply then_eq; [|exact Hk]. unfold os_OpenFile, sys. apply sys_Ok. unfold OpenTrunc. simpl.
    rewrite follow_last, (node_at_snoc _ q c), Hn, Hf, Hpriv by (done || by rewrite Hn). done.
Qed.

Lemma real_dir_more d p x n : real_dir d p → nodes d !! x = None → real_dir (set_node x n d) p.
Proof using Type.
  intros [Hf Hr] Hx. split; [done|]. intros q r Hq. specialize (Hr q r Hq).
  destruct q as [|y q]; [done|]. simpl in *. by rewrite lookup_insert_ne by congruence.
Qed.
Lemma regular_more d p i s x n : regular d p i s → nodes d !! x = None → regular (set_node x n d) p i s.
Proof using Type.
  intros (q & c & f & -> & Hr & Hc & Hn & Hf & Hs) Hx. exists q, c, f. split_and!; try done.
  - by apply real_dir_more.
  - simpl. by rewrite lookup_insert_ne by congruence.
Qed.

(** The first file under a name is linked to its blob. *)
Lemma stage_linked lbs q c d p i s w :
  bs_local = Some lbs → BlobPath lbs d = Some p → regular (w_disk w) p i s →
  bs_Get d w = (Some (Ok (OnDisk i)), w) → real_dir (w_disk w) q → nodes (w_disk w) !! (q ++ [c]) = None →
  stageFile (q ++ [c]) d false w = (Some (Ok ()), with_disk (set_node (q ++ [c]) (WFile i) (w_disk w)) w).
Proof using quiet.
  intros Hl Hp (pq & pc & fi & -> & Hpr & Hpc & Hpn & Hfi & Hs) Hget Hr Hn.
  unfold stageFile. eapply then_eq; [exact Hget|]. rewrite Hl, Hp. eapply (then_eq _ _ w true); [|done].
  eapply then_eq; [done|]. eapply then_eq; [done|]. eapply (then_eq _ _ w (Ok ())); [|done].
  unfold try, os_Link, sys. rewrite sys_quiet. unfold Link.
  rewrite nofollow_last, (node_at_snoc _ pq pc), Hpn by done. by rewrite new_name_new.
Qed.

(** C36: a [Directory] that lists one name twice overwrites a blob of the cache: when
    the store hands out its own files and the program runs as root, staging the
    second file truncates the first one's blob, to which the name is linked, and
    copies the second one's contents into it; staging reports success. *)
Theorem duplicate_name_poisons_blob lbs q c d1 d2 p1 p2 i1 i2 s1 s2 f1 f2 w :
  privileged = true → bs_local = Some lbs →
  NewFromProto (fn_Digest f1) = Ok d1 → NewFromProto (fn_Digest f2) = Ok d2 →
  fn_Name f1 = c → fn_Name f2 = c → fn_IsExecutable f1 = false → fn_IsExecutable f2 = false →
  BlobPath lbs d1 = Some p1 → BlobPath lbs d2 = Some p2 → i1 ≠ i2 →
  regular (w_disk w) p1 i1 s1 → regular (w_disk w) p2 i2 s2 →
  (∀ w', regular (w_disk w') p1 i1 s1 → bs_Get d1 w' = (Some (Ok (OnDisk i1)), w')) →
  (∀ w', regular (w_disk w') p2 i2 s2 → bs_Get d2 w' = (Some (Ok (OnDisk i2)), w')) →
  free w q c →
  ∃ w', for_each (stage_file q) [f1; f2] w = (Some (Ok ()), w') ∧ regular (w_disk w') p1 i1 s2.
Proof using All.
  intros Hpriv Hl Hd1 Hd2 Hn1 Hn2 Hx1 Hx2 Hp1 Hp2 Hne Hr1 Hr2 Hg1 Hg2 (Hr & Hc & Hnone & _).
  specialize (Hnone []). set (w1 := with_disk (set_node (q ++ [c]) (WFile i1) (w_disk w)) w).
  assert (regular (w_disk w1) p1 i1 s1) as Hr1' by by apply regular_more.
  assert (regular (w_disk w1) p2 i2 s2) as Hr2' by by apply regular_more.
  pose proof Hr1' as (pq & pc & fi & -> & Hpr & Hpc & Hpn & Hfi & Hs).
  destruct (stage_over_existing lbs q c d2 p2 i2 s2 i1 fi w1) as [k Hk]; try done; [by apply Hg2| | |].
  { by apply real_dir_more. }
  { simpl. by rewrite lookup_insert_eq. }
  eexists. split.
  - unfold for_each. cbn [fold_M]. eapply (then_eq _ _ w () w1); [|eapply then_eq; [|done]].
    + unfold stage_file, from_proto. rewrite Hd1, Hn1, Hx1, Join_plain by by repeat constructor.
      eapply then_eq; [done|]. apply wrapped_Ok. eapply stage_linked; [exact Hl|exact Hp1|exact Hr1|by apply Hg1|done|done].
    + unfold stage_file, from_proto. rewrite Hd2, Hn2, Hx2, Join_plain by by repeat constructor.
      eapply then_eq; [done|]. apply wrapped_Ok. exact Hk.
  - exists pq, pc, (mkFile s2 (f_mode fi)). simpl in *. split_and!; [done|done|done|done| |done].
    by rewrite lookup_insert_eq.
Qed.
End staging.
End Staging.
