(* ===== verification/Outputs.v ===== *)
(** Uploading an output directory: what [buildTree] stores stands for the tree on
    disk, and staging it again gives that tree back. *)

From S2P Require Import Prelude GoStrings Messages Fs Tree Worker Staging.

Module Outputs.
Import Tree Worker Staging.
Local Open Scope Z_scope.

Section outputs.
Context {S : Type} `{Sys, DigestSdk, !Sha, WorkerPb, Stores S, StoreView S, !StoreLaws S}.
Context (quiet : ∀ c k, call_fault c k = None).
Implicit Types (w : WWorld S) (p q : path) (t : ftree).

(** ** Trees that can be uploaded *)

(** Names and targets that a message can carry and a path can have. *)
Fixpoint sendable (n : nat) t : Prop :=
  match t with
  | FFile _ _ => True
  | FLink target => target ≠ "" ∧ utf8 target = true
  | FDir es =>
      match n with
      | O => False
      | Datatypes.S n => NoDup es.*1 ∧
          Forall (λ e, plain e.1 = true ∧ utf8 e.1 = true ∧ sendable n e.2) es
      end
  end.

Lemma sendable_ok n t : sendable n t → tree_ok n t.
Proof using Type.
  revert t. induction n as [|n IH]; intros []; simpl; try done; try by intros [? _].
  intros [Hn Hf]. split; [done|]. eapply Forall_impl; [exact Hf|]. intros e (? & _ & ?). auto.
Qed.

(** The inodes of the files of a tree. *)
Fixpoint inos (n : nat) (d : disk) p t : list nat :=
  match t with
  | FFile _ _ => match nodes d !! p with Some (WFile i) => [i] | _ => [] end
  | FLink _ => []
  | FDir es =>
      match n with
      | O => []
      | Datatypes.S n => es ≫= λ e, inos n d (p ++ [e.1]) e.2
      end
  end.

Lemma inos_kept n d d' p t : (∀ r, nodes d' !! (p ++ r) = nodes d !! (p ++ r)) → inos n d' p t = inos n d p t.
Proof using Type.
  revert p t. induction n as [|n IH]; intros p t Hn; destruct t as [s x|tg|es]; simpl; try done.
  1, 2: specialize (Hn []); rewrite app_nil_r in Hn; by rewrite Hn.
  apply list_bind_ext; [|done]. intros e. apply IH. intros r. rewrite <- !app_assoc. apply Hn.
Qed.

Lemma represents_eq_kept n (I : nat → Prop) d d' p t :
  represents eq n d p t → (∀ r, nodes d' !! (p ++ r) = nodes d !! (p ++ r)) →
  files_kept I d d' → (∀ i, i ∈ inos n d p t → ¬ I i) → represents eq n d' p t.
Proof using Type.
  revert p t. induction n as [|n IH]; intros p t Ht Hn Hk Hi;
    assert (nodes d' !! p = nodes d !! p) as Hp by (specialize (Hn []); by rewrite app_nil_r in Hn);
    destruct t as [s x|tg|es]; simpl in *; rewrite ?Hp; try done.
  1, 2: destruct Ht as (i & f & Hpi & Hf & ? & Hx); rewrite Hpi in Hi;
    destruct (Hk i f Hf) as (f' & ? & ? & Hm); exists i, f'; rewrite Hm by (apply Hi; by left);
    split_and!; [done|done|congruence|done].
  destruct Ht as (Hd & Hnd & Hc & Hes). split_and!; [|done| |].
  - destruct p; [done|]. simpl in *. by rewrite Hp.
  - intros c. by rewrite Hn.
  - rewrite Forall_forall in Hes |- *. intros e He. apply IH; [by apply Hes| |done|].
    + intros r. rewrite <- !app_assoc. apply Hn.
    + intros i Hie. apply Hi. apply list_elem_of_bind. by exists e.
Qed.

(** ** What an upload changes *)

Definition hash (s : string) : string := Hash (NewFromBlob s).

(** The store has kept what it had, and has something for each blob of [B]. *)
Definition store_grows (B : list string) w w' : Prop :=
  (∀ h s, bytes h w' = Some s → bytes h w = Some s ∨ (s ∈ B ∧ h = hash s)) ∧
  (∀ h, is_Some (bytes h w) → is_Some (bytes h w')) ∧
  (∀ s, s ∈ B → is_Some (bytes (hash s) w')).

Definition upload_step (I : list nat) (B : list string) w w' : Prop :=
  store_step (λ i, i ∈ I) w w' ∧ store_grows B w w'.

(** The blobs of [B] have different hashes, also from what the store has. *)
Definition collision_free (B : list string) w : Prop :=
  ∀ a b, a ∈ B → (b ∈ B ∧ hash a = hash b) ∨ bytes (hash a) w = Some b → b = a.
Definition holds (B : list string) w : Prop := ∀ a, a ∈ B → bytes (hash a) w = Some a.

Lemma collision_free_holds B w w' : collision_free B w → store_grows B w w' → holds B w'.
Proof using Type.
  intros Hc (Hin & _ & Hsome) a Ha. destruct (Hsome a Ha) as [b Hb]. rewrite Hb. f_equal.
  apply Hc; [done|]. destruct (Hin _ _ Hb) as [Hw|[Hb' Hh]]; auto.
Qed.

Lemma upload_step_trans I J B C w1 w2 w3 :
  upload_step I B w1 w2 → upload_step J C w2 w3 → upload_step (I ++ J) (B ++ C) w1 w3.
Proof using All.
  intros [(_ & Hn1 & Hk1) (Hb1 & Hs1 & Hi1)] [(Hs & Hn2 & Hk2) (Hb2 & Hs2 & Hi2)].
  split; [split_and!; [done| |]|split_and!].
  - intros q Hq. by rewrite Hn2, Hn1.
  - intros i f Hf. destruct (Hk1 i f Hf) as (f1 & Hf1 & Hd1 & Hm1).
    destruct (Hk2 i f1 Hf1) as (f2 & Hf2 & Hd2 & Hm2). exists f2. split_and!; [done|congruence|].
    intros Hi. rewrite Hm2, Hm1; [done| |]; intros ?; apply Hi; set_solver.
  - intros h s [Hw|[? ?]]%Hb2; [|right; set_solver]. apply Hb1 in Hw as [?|[? ?]]; [by left|right; set_solver].
  - auto.
  - intros s [?|?]%elem_of_app; auto.
Qed.

Lemma upload_step_none I w w' :
  store_step (λ i, i ∈ I) w w' → (∀ h, bytes h w' = bytes h w) → upload_step I [] w w'.
Proof using Type.
  intros Hs Hb. split; [done|]. split_and!.
  - intros h s. rewrite Hb. by left.
  - intros h. by rewrite Hb.
  - intros s Hs'. by apply elem_of_nil in Hs'.
Qed.

Lemma upload_step_stored I s w w' :
  store_step (λ i, i ∈ I) w w' → stored (hash s) s w w' → upload_step I [s] w w'.
Proof using Type.
  intros Hst [Hoth Hb]. split; [done|]. split_and!.
  - intros h x Hx. destruct (decide (h = hash s)) as [->|Hne].
    + destruct Hb as [Hb|[_ Hb]]; rewrite Hb in Hx; [|by left]. injection Hx as <-. right. split; [by left|done].
    + left. by rewrite <- Hoth.
  - intros h [x Hx]. destruct (decide (h = hash s)) as [->|Hne].
    + destruct Hb as [Hb|[? Hb]]; rewrite Hb; eauto.
    + rewrite Hoth by done. eauto.
  - intros x ->%list_elem_of_singleton. destruct Hb as [Hb|[? Hb]]; rewrite Hb; eauto.
Qed.

(** ** Uploading a blob and a file *)

Lemma store_step_mono (I J : nat → Prop) w w' : (∀ i, I i → J i) → store_step I w w' → store_step J w w'.
Proof using Type.
  intros HIJ (Hs & Hn & Hk). split_and!; [done|done|]. intros i f Hf.
  destruct (Hk i f Hf) as (f' & ? & ? & Hm). exists f'. split_and!; auto.
Qed.

Lemma tick_step w k : sane w → upload_step [] [] w (mkW (w_disk w) (w_store w) k).
Proof using All.
  intros Hs. destruct (tick_sane quiet w k Hs) as [Hs' Hb]. apply upload_step_none; [|done].
  split_and!; [done|done|]. intros i f Hf. by exists f.
Qed.

Lemma uploadBlob_ok s w :
  sane w → ∃ w', uploadBlob s w = (Some (Ok (NewFromBlob s)), w') ∧ upload_step [] [s] w w'.
Proof using All.
  intros Hs. destruct (Put_law (mkReader [s] None) w Hs eq_refl) as (w' & Hput & Hstep & Hst).
  unfold rd_all in *. simpl in *. rewrite str_app_nil_r in *. exists w'. split.
  - unfold uploadBlob. eapply then_eq; [exact Hput|done].
  - apply upload_step_stored; [|exact Hst]. by eapply store_step_mono; [|exact Hstep].
Qed.

Lemma uploadFile_ok p i s w :
  sane w → regular (w_disk w) p i s → ¬ own p →
  ∃ w', uploadFile p w = (Some (Ok (NewFromBlob s)), w') ∧ upload_step [i] [s] w w'.
Proof using All.
  intros Hs Hreg Ho. pose proof Hreg as (q & c & f & -> & Hr & Hc & Hn & Hf & Hd).
  assert (∀ v : WWorld S, w_disk v = w_disk w → os_Open (q ++ [c]) v = (Some (Ok (Some i)), with_disk (w_disk w) v)) as Hopen.
  { intros v Hv. unfold os_Open, sys. apply sys_Ok; [done|]. rewrite Hv. unfold Open.
    rewrite follow_last by (done || by rewrite Hn). simpl. by rewrite (node_at_snoc _ q c), Hn. }
  destruct (read_all_ok quiet (OnDisk i) (with_disk (w_disk w) w) s) as [k Hk]; [by exists f|].
  assert (NewFromFile (q ++ [c]) w = (Some (Ok (NewFromBlob s)), mkW (w_disk w) (w_store w) k)) as Hnew.
  { unfold NewFromFile. eapply then_eq; [by apply Hopen|]. eapply then_eq; [exact Hk|done]. }
  pose proof (tick_step w k Hs) as Ht. pose proof Ht as [(Hs1 & _) _].
  set (w1 := mkW (w_disk w) (w_store w) k) in *.
  assert (∃ w', match bs_local with
    | Some lbs => _ ← wrap "failed to put file" (PutFile lbs (NewFromBlob s) (q ++ [c])); mret (NewFromBlob s)
    | None => f ← wrap "failed to open file" (os_Open (q ++ [c])); r ← file_reader f;
              _ ← wrap "failed to put blob" (bs_Put (NewFromBlob s) r); mret (NewFromBlob s)
    end w1 = (Some (Ok (NewFromBlob s)), w') ∧ upload_step [i] [s] w1 w') as (w' & Hw' & Hst).
  2:{ exists w'. split; [unfold uploadFile; eapply then_eq; [by apply wrapped_Ok|exact Hw']|].
      by eapply (upload_step_trans [] [i] [] [s]). }
  destruct bs_local as [lbs|] eqn:Hlocal.
  - destruct (PutFile_law lbs (q ++ [c]) i s w1 Hlocal Hs1 Hreg Ho) as (w' & Hput & Hstep & Hstored).
    exists w'. split; [eapply then_eq; [by apply wrapped_Ok|done]|].
    apply upload_step_stored; [|exact Hstored]. eapply store_step_mono; [|exact Hstep]. intros j ->. by left.
  - set (w2 := with_disk (w_disk w) w1).
    assert (file_reader (Some i) w2 = (Some (Ok (mkReader [s] None)), with_disk (w_disk w) w2)) as Hread.
    { unfold file_reader. rewrite quiet. unfold ino_data. simpl. by rewrite Hf, Hd. }
    assert (upload_step [] [] w1 (with_disk (w_disk w) w2)) as Ht2 by (apply (tick_step w1); done).
    pose proof Ht2 as [(Hs2 & _) _].
    destruct (uploadBlob_ok s (with_disk (w_disk w) w2) Hs2) as (w' & Hput & Hstep).
    exists w'. split.
    + eapply then_eq; [apply wrapped_Ok; by apply Hopen|]. eapply then_eq; [exact Hread|].
      unfold uploadBlob in Hput. revert Hput. unfold mbind, WM_bind, wrap.
      destruct (bs_Put (NewFromBlob s) _ _) as [[[[]|]|] v]; [exact id|by intros [=]|by intros [=]].
    + pose proof (upload_step_trans _ _ _ _ _ _ _ Ht2 Hstep) as Hst. simpl in Hst.
      destruct Hst as [Hss Hsg]. split; [|done]. eapply store_step_mono; [|exact Hss].
      intros j Hj. by apply elem_of_nil in Hj.
Qed.

(** ** Building the messages *)

(** The data of the files of a tree. *)
Fixpoint contents (n : nat) t : list string :=
  match t with
  | FFile s _ => [s]
  | FLink _ => []
  | FDir es => match n with O => [] | Datatypes.S n => es ≫= λ e, contents n e.2 end
  end.

(** The message can be marshalled. *)
Definition dir_utf8 (dir : Directory) : Prop :=
  Forall (λ f, utf8 (fn_Name f) = true ∧ utf8 (pb_Hash (fn_Digest f)) = true) (Files dir) ∧
  Forall (λ f, utf8 (dn_Name f) = true ∧ utf8 (pb_Hash (dn_Digest f)) = true) (Directories dir) ∧
  Forall (λ l, utf8 (sn_Name l) = true ∧ utf8 (sn_Target l) = true) (Symlinks_ dir).

Lemma dir_utf8_marshal dir : dir_utf8 dir → ∃ s, Marshal_Directory dir = Ok s.
Proof using Type. intros (? & ? & ?). by apply Marshal_Directory_ok. Qed.

Lemma utf8_digest s : utf8 (pb_Hash (ToProto (NewFromBlob s))) = true.
Proof using Type. apply utf8_hex. by eapply (NewFromProto_valid _ _ (NewFromBlob_valid s)). Qed.

Lemma blob_holds B w s : holds B w → s ∈ B → blob w (NewFromBlob s) s.
Proof using Type. intros Hh Hs. split; [apply NewFromBlob_size|by apply Hh]. Qed.
Lemma holds_app B C w : holds (B ++ C) w → holds B w ∧ holds C w.
Proof using Type. intros Hh. split; intros a Ha; apply Hh, elem_of_app; auto. Qed.

(** One more entry. *)
Lemma denotes_add_file n w dir es f e :
  dir_denotes (Datatypes.S n) w dir es → file_denotes w f e →
  dir_denotes (Datatypes.S n) w (add_file dir f) (es ++ [e]).
Proof using Type.
  intros (fs & ls & ds & Hp & Hf & Hl & Hd) He. exists (fs ++ [e]), ls, ds. split_and!; [|apply Forall2_app; [done|by constructor]|done|done].
  rewrite Hp. solve_Permutation.
Qed.
Lemma denotes_add_link n w dir es l e :
  dir_denotes (Datatypes.S n) w dir es → link_denotes l e →
  dir_denotes (Datatypes.S n) w (add_link dir l) (es ++ [e]).
Proof using Type.
  intros (fs & ls & ds & Hp & Hf & Hl & Hd) He. exists fs, (ls ++ [e]), ds. split_and!; [|done|apply Forall2_app; [done|by constructor]|done].
  rewrite Hp. solve_Permutation.
Qed.
Lemma denotes_add_dir n w dir es s e :
  dir_denotes (Datatypes.S n) w dir es → sub_denotes w (dir_denotes n w) s e →
  dir_denotes (Datatypes.S n) w (add_dir dir s) (es ++ [e]).
Proof using Type.
  intros (fs & ls & ds & Hp & Hf & Hl & Hd) He. exists fs, ls, (ds ++ [e]). split_and!; [|done|done|apply Forall2_app; [done|by constructor]].
  rewrite Hp. solve_Permutation.
Qed.

(** The blobs [B]: contents of files, and the messages of [kids]. *)
Definition blobs_of (data : list string) (kids : list Directory) (B : list string) : Prop :=
  ∀ b, b ∈ B → b ∈ data ∨ ∃ k, k ∈ kids ∧ Marshal_Directory k = Ok b.

Lemma blobs_of_app data data' kids kids' B B' :
  blobs_of data kids B → blobs_of data' kids' B' → blobs_of (data ++ data') (kids ++ kids') (B ++ B').
Proof using Type.
  intros Hx Hy b [Hb|Hb]%elem_of_app; [apply Hx in Hb|apply Hy in Hb];
    destruct Hb as [?|(k & ? & ?)]; rewrite !elem_of_app; [by left; left|right|by left; right|right];
    exists k; rewrite elem_of_app; auto.
Qed.

(** What the recursive call of [buildDirectoryProto] is to do. *)
Definition builds (n : nat) (build : path → list Directory → WM S (Directory * list Directory)) : Prop :=
  ∀ p es ch w, sane w → represents eq n (w_disk w) p (FDir es) → sendable n (FDir es) →
    real_dir (w_disk w) p → NoDup (inos n (w_disk w) p (FDir es)) → (∀ r, ¬ own (p ++ r)) →
    ∃ dir kids B w', build p ch w = (Some (Ok (dir, ch ++ kids)), w') ∧
      upload_step (inos n (w_disk w) p (FDir es)) B w w' ∧ dir_utf8 dir ∧
      blobs_of (contents n (FDir es)) kids B ∧ (∀ w2, holds B w2 → dir_denotes n w2 dir es).

Lemma Lstat_entry p c w r :
  real_dir (w_disk w) p → node_info (w_disk w) (p ++ [c]) = Ok r →
  os_Lstat (p ++ [c]) w = (Some (Ok r), with_disk (w_disk w) w).
Proof using quiet.
  intros Hr Hi. unfold os_Lstat, sys. apply sys_Ok; [done|].
  rewrite (surjective_pairing (Lstat _ _)), Lstat_last, Hi by done. done.
Qed.

Lemma build_entry_ok n build p e dir ch w :
  builds n build → sane w → represents eq n (w_disk w) (p ++ [e.1]) e.2 →
  plain e.1 = true → utf8 e.1 = true → sendable n e.2 → real_dir (w_disk w) p →
  NoDup (inos n (w_disk w) (p ++ [e.1]) e.2) → (∀ r, ¬ own (p ++ r)) → dir_utf8 dir →
  ∃ dir' kids B w', build_entry build p (dir, ch) e.1 w = (Some (Ok (dir', ch ++ kids)), w') ∧
    upload_step (inos n (w_disk w) (p ++ [e.1]) e.2) B w w' ∧ dir_utf8 dir' ∧
    blobs_of (contents n e.2) kids B ∧
    ∀ w2 es, holds B w2 → dir_denotes (Datatypes.S n) w2 dir es → dir_denotes (Datatypes.S n) w2 dir' (es ++ [e]).
Proof using All.
  intros Hb Hs Hrep Hpl Hu Hsend Hr Hnd Hown (Hu1 & Hu2 & Hu3). destruct e as [c t]. simpl in *.
  unfold build_entry. rewrite Join_plain by by repeat constructor.
  pose proof (tick_step w (Datatypes.S (w_tick w)) Hs) as Ht. pose proof Ht as [(Hs1 & _) _].
  destruct t as [s x|tg|es].
  - assert (∃ i f, nodes (w_disk w) !! (p ++ [c]) = Some (WFile i) ∧ files (w_disk w) !! i = Some f ∧
      f_data f = s ∧ x = executable (f_mode f)) as (i & f & Hn & Hf & Hd & ->) by by destruct n.
    destruct (uploadFile_ok (p ++ [c]) i s (with_disk (w_disk w) w) Hs1) as (w' & Hup & Hst);
      [by exists p, c, f|apply Hown|].
    exists (add_file dir (mkFileNode c (ToProto (NewFromBlob s)) (executable (f_mode f)))), [], [s], w'.
    rewrite app_nil_r. split_and!.
    + eapply then_eq; [apply Lstat_entry; [done|]; unfold node_info; by rewrite (node_at_snoc _ p c), Hn, Hf|].
      eapply then_eq; [exact Hup|done].
    + assert (inos n (w_disk w) (p ++ [c]) (FFile s (executable (f_mode f))) = [i]) as ->
        by (destruct n; simpl; by rewrite Hn).
      by eapply (upload_step_trans [] [i] [] [s]).
    + split_and!; [|done|done]. apply Forall_app_2; [done|]. repeat constructor; [done|apply utf8_digest].
    + intros b Hb'. left. by destruct n.
    + intros w2 es Hh Hden. apply denotes_add_file; [done|]. split; [done|]. exists (NewFromBlob s), s.
      split_and!; [apply NewFromBlob_valid|eapply blob_holds; [done|by left]|done].
  - assert (nodes (w_disk w) !! (p ++ [c]) = Some (WLink tg)) as Hn by by destruct n.
    assert (utf8 tg = true) as Htg by (by destruct n, Hsend).
    set (w1 := with_disk (w_disk w) w) in *.
    exists (add_link dir (mkSymlinkNode c tg)), [], [], (with_disk (w_disk w) w1).
    rewrite app_nil_r. split_and!.
    + eapply then_eq; [apply Lstat_entry; [done|]; unfold node_info; by rewrite (node_at_snoc _ p c), Hn|].
      eapply then_eq; [unfold os_Readlink, sys; apply sys_Ok; [done|]; unfold Readlink;
        rewrite (nofollow_last _ p c) by done; simpl; by rewrite (node_at_snoc _ p c), Hn|done].
    + assert (inos n (w_disk w) (p ++ [c]) (FLink tg) = []) as -> by by destruct n.
      exact (upload_step_trans [] [] [] [] _ _ _ Ht (tick_step w1 _ Hs1)).
    + split_and!; [done|done|]. apply Forall_app_2; [done|]. by repeat constructor.
    + intros b Hb'. by apply elem_of_nil in Hb'.
    + intros w2 es Hh Hden. by apply denotes_add_link.
  - assert (nodes (w_disk w) !! (p ++ [c]) = Some WDir) as Hn.
    { destruct n; [done|]. destruct Hrep as [Hn _]. by rewrite node_at_snoc in Hn. }
    set (w1 := with_disk (w_disk w) w) in *.
    destruct (Hb (p ++ [c]) es ch w1) as (sub & kids & B & w2 & Hbuild & Hst & Husub & Hbl & Hden); try done.
    { by apply real_dir_snoc. }
    { intros r. rewrite <- app_assoc. apply Hown. }
    destruct (dir_utf8_marshal sub Husub) as [data Hdata]. pose proof Hst as [(Hs2 & _) _].
    destruct (uploadBlob_ok data w2 Hs2) as (w3 & Hup & Hst3).
    exists (add_dir dir (mkDirectoryNode c (ToProto (NewFromBlob data)))), (kids ++ [sub]), (B ++ [data]), w3.
    split_and!.
    + eapply then_eq; [apply Lstat_entry; [done|]; unfold node_info; by rewrite (node_at_snoc _ p c), Hn|].
      eapply then_eq; [exact Hbuild|]. eapply then_eq; [unfold lift; by rewrite Hdata|].
      eapply then_eq; [exact Hup|]. by rewrite app_assoc.
    + pose proof (upload_step_trans _ _ _ _ _ _ _ Ht (upload_step_trans _ _ _ _ _ _ _ Hst Hst3)) as Hall.
      simpl in Hall. by rewrite app_nil_r in Hall.
    + split_and!; [done| |done]. apply Forall_app_2; [done|]. repeat constructor; [done|apply utf8_digest].
    + intros b [Hb'| ->%list_elem_of_singleton]%elem_of_app.
      * destruct (Hbl b Hb') as [?|(k & ? & ?)]; [by left|]. right. exists k. split; [set_solver|done].
      * right. exists sub. split; [set_solver|done].
    + intros w4 es' [HhB Hhd]%holds_app Hd'. apply denotes_add_dir; [done|]. split; [done|].
      exists (NewFromBlob data), data, sub, es. split_and!; [apply NewFromBlob_valid| | |done|by apply Hden].
      * eapply blob_holds; [exact Hhd|by left].
      * by apply Unmarshal_Marshal_Directory.
Qed.

Lemma real_dir_unowned I p w w' :
  real_dir (w_disk w) p → store_step I w w' → (∀ r, ¬ own (p ++ r)) → real_dir (w_disk w') p.
Proof using All.
  intros [Hf Hr] (_ & Hn & _) Hown. split; [done|]. intros q r Hq. specialize (Hr q r Hq).
  destruct q as [|x q]; [done|]. simpl in *. rewrite Hn; [done|]. intros Ho.
  apply (Hown []). rewrite app_nil_r, Hq. by apply (own_below (x :: q)).
Qed.

(** An entry on disk that can be uploaded. *)
Definition entry_ok n w p (e : string * ftree) : Prop :=
  represents eq n (w_disk w) (p ++ [e.1]) e.2 ∧ plain e.1 = true ∧ utf8 e.1 = true ∧ sendable n e.2.

Lemma build_entries_ok n build p es dir ch w :
  builds n build → sane w → Forall (entry_ok n w p) es → real_dir (w_disk w) p →
  NoDup (es ≫= λ e, inos n (w_disk w) (p ++ [e.1]) e.2) → (∀ r, ¬ own (p ++ r)) → dir_utf8 dir →
  ∃ dir' kids B w', fold_M (build_entry build p) es.*1 (dir, ch) w = (Some (Ok (dir', ch ++ kids)), w') ∧
    upload_step (es ≫= λ e, inos n (w_disk w) (p ++ [e.1]) e.2) B w w' ∧ dir_utf8 dir' ∧
    blobs_of (es ≫= λ e, contents n e.2) kids B ∧
    ∀ w2 done, holds B w2 → dir_denotes (Datatypes.S n) w2 dir done →
      dir_denotes (Datatypes.S n) w2 dir' (done ++ es).
Proof using All.
  intros Hb. revert dir ch w. induction es as [|e es IH]; intros dir ch w Hs Hok Hr Hnd Hown Hu.
  { exists dir, [], [], w. rewrite app_nil_r. split_and!; [done| |done| |].
    - apply upload_step_none; [|done]. split_and!; [done|done|]. intros i f Hf. by exists f.
    - intros b Hb'. by apply elem_of_nil in Hb'.
    - intros w2 done' _. by rewrite app_nil_r. }
  apply Forall_cons in Hok as [(He & Hpl & Hue & Hse) Hok].
  change ((e :: es) ≫= ?f) with (f e ++ (es ≫= f)) in *. apply NoDup_app in Hnd as (Hnd1 & Hdis & Hnd2).
  destruct (build_entry_ok n build p e dir ch w Hb Hs He Hpl Hue Hse Hr Hnd1 Hown Hu)
    as (dir1 & kids1 & B1 & w1 & Hb1 & Hst1 & Hu1 & Hbl1 & Hden1).
  pose proof Hst1 as [Hss1 _]. pose proof Hss1 as (Hs1 & Hn1 & Hk1).
  assert (∀ c r, nodes (w_disk w1) !! ((p ++ [c]) ++ r) = nodes (w_disk w) !! ((p ++ [c]) ++ r)) as Hsame.
  { intros c r. apply Hn1. rewrite <- app_assoc. apply Hown. }
  assert ((es ≫= λ e, inos n (w_disk w1) (p ++ [e.1]) e.2) = (es ≫= λ e, inos n (w_disk w) (p ++ [e.1]) e.2)) as Hinos.
  { apply list_bind_ext; [|done]. intros x. apply inos_kept, Hsame. }
  destruct (IH dir1 (ch ++ kids1) w1 Hs1) as (dir2 & kids2 & B2 & w2 & Hb2 & Hst2 & Hu2 & Hbl2 & Hden2);
    [| |by rewrite Hinos|done|done|].
  - rewrite Forall_forall in Hok |- *. intros x Hx. destruct (Hok x Hx) as (Hrep & ?). split; [|done].
    eapply represents_eq_kept; [exact Hrep|apply Hsame|exact Hk1|]. simpl.
    intros i Hi He'. apply (Hdis i He'). apply list_elem_of_bind. by exists x.
  - by eapply real_dir_unowned.
  - exists dir2, (kids1 ++ kids2), (B1 ++ B2), w2. rewrite Hinos in Hst2. split_and!.
    + simpl. eapply then_eq; [exact Hb1|]. by rewrite app_assoc.
    + by eapply upload_step_trans.
    + done.
    + by apply blobs_of_app.
    + intros w3 done' [Hh1 Hh2]%holds_app Hd. replace (done' ++ e :: es) with ((done' ++ [e]) ++ es)
        by by rewrite <- app_assoc. auto.
Qed.

Lemma perm_fmap {A B} (f : A → B) l1 l2 : l1 ≡ₚ f <$> l2 → ∃ l3, l1 = f <$> l3 ∧ l3 ≡ₚ l2.
Proof using Type.
  revert l2. induction l1 as [|x l1 IH]; intros l2 Hp.
  { exists []. symmetry in Hp. apply Permutation_nil_r, fmap_nil_inv in Hp as ->. done. }
  assert (x ∈ f <$> l2) as (y & -> & Hy)%list_elem_of_fmap by (rewrite <- Hp; by left).
  apply elem_of_Permutation in Hy as [l2' Hl2]. rewrite Hl2 in Hp. simpl in Hp.
  apply Permutation_cons_inv in Hp. destruct (IH l2' Hp) as (l3 & -> & Hl3).
  exists (y :: l3). split; [done|]. by rewrite Hl3.
Qed.

(** The children of a represented directory, in the order they are read. *)
Lemma children_order n d p es :
  represents eq (Datatypes.S n) d p (FDir es) → ∃ es', children d p = es'.*1 ∧ es' ≡ₚ es.
Proof using Type.
  intros (_ & Hnd & Hc & _). apply perm_fmap, list.NoDup_Permutation; [apply NoDup_children|done|].
  intros c. by rewrite elem_of_children, Hc.
Qed.

Lemma dir_denotes_perm n w dir es es' : es ≡ₚ es' → dir_denotes n w dir es → dir_denotes n w dir es'.
Proof using Type.
  intros Hp. destruct n; [done|]. intros (fs & ls & ds & He & ?). exists fs, ls, ds. by rewrite <- Hp.
Qed.

Lemma buildDirectoryProto_builds n : builds n (buildDirectoryProto n).
Proof using All.
  induction n as [|n IH]; intros p es ch w Hs Hrep Hsend Hr Hnd Hown; [done|].
  destruct (children_order _ _ _ _ Hrep) as (es' & Hch & Hp). destruct Hrep as (_ & _ & _ & Hrep), Hsend as [_ Hsend].
  simpl in Hnd. set (w1 := with_disk (w_disk w) w).
  pose proof (tick_step w (Datatypes.S (w_tick w)) Hs) as Ht. pose proof Ht as [(Hs1 & _) _].
  assert ((es ≫= λ e, inos n (w_disk w) (p ++ [e.1]) e.2) ≡ₚ (es' ≫= λ e, inos n (w_disk w) (p ++ [e.1]) e.2)) as Hpi
    by by rewrite Hp.
  destruct (build_entries_ok n (buildDirectoryProto n) p es' (mkDirectory [] [] []) ch w1 IH Hs1)
    as (dir & kids & B & w' & Hb & Hst & Hu & Hbl & Hden); try done.
  - rewrite Hp. rewrite Forall_forall in Hrep, Hsend |- *. intros e He. split; [by apply Hrep|by apply Hsend].
  - exact (proj1 (NoDup_Permutation_proper _ _ Hpi) Hnd).
  - exists dir, kids, B, w'. split_and!.
    + simpl. eapply then_eq; [|exact Hb]. unfold os_ReadDir, sys. apply sys_Ok; [done|]. unfold ReadDir.
      rewrite follow_real by done. simpl. by rewrite real_dir_is_dir, Hch by done.
    + pose proof (upload_step_trans _ _ _ _ _ _ _ Ht Hst) as Hall. simpl in Hall.
      destruct Hall as [Hss Hg]. split; [|done]. eapply store_step_mono; [|exact Hss].
      intros i. simpl. by rewrite Hpi.
    + done.
    + intros b [Hb'|?]%Hbl; [left|by right]. simpl. apply list_elem_of_bind in Hb' as (e & ? & He).
      apply list_elem_of_bind. exists e. split; [done|]. by rewrite <- Hp.
    + intros w2 Hh. eapply dir_denotes_perm; [exact Hp|]. apply (Hden w2 []); [done|].
      exists [], [], []. split_and!; constructor.
Qed.

Lemma collision_free_sub B C w : (∀ b, b ∈ B → b ∈ C) → collision_free C w → collision_free B w.
Proof using Type. intros HBC Hc a b Ha [[Hb Hh]|Hb]; apply Hc; auto. Qed.

End outputs.
End Outputs.
