(* ===== verification/WorkerDemo.v ===== *)
(** Concrete parameters of the workers (a hash, a codec, a store in a directory,
    processes) that satisfy their laws, and the properties of [Pool], [Staging] and
    [Outputs] applied to them. *)

From S2P Require Import Prelude GoStrings Messages Fs Storage Scheduler Sandbox Tree Worker Pool Staging Outputs.

Module WorkerDemo.
Import Tree Worker Pool Staging Outputs Concrete.
Local Open Scope Z_scope.

(** ** A hash with 64 hexadecimal digits *)

Definition hex_char (n : N) : ascii := default "0"%char (String.get (N.to_nat n) "0123456789abcdef").
Fixpoint hex_digits (k : nat) (n : N) : string :=
  match k with O => "" | S k => String (hex_char (n mod 16)) (hex_digits k (n / 16)) end.
Fixpoint checksum (acc : N) (s : string) : N :=
  match s with
  | "" => acc
  | String a s => checksum (N.land (acc * 257 + N_of_ascii a + 1) 18446744073709551615)%N s
  end.
Definition toy_hash (s : string) : string := hex_digits 64 (checksum 7 s).

Lemma hex_digits_length k n : String.length (hex_digits k n) = k.
Proof. revert n. induction k as [|k IH]; intros n; [done|]. simpl. by rewrite IH. Qed.
Lemma hex_digits_hex k n : str_all is_hex (hex_digits k n) = true.
Proof.
  revert n. induction k as [|k IH]; intros n; [done|]. cbn [hex_digits str_all]. rewrite IH, andb_true_r.
  pose proof (N.mod_lt n 16 ltac:(done)) as Hn. revert Hn. generalize (n mod 16)%N. intros m Hm.
  assert (m ∈ [0; 1; 2; 3; 4; 5; 6; 7; 8; 9; 10; 11; 12; 13; 14; 15]%N) as Hin by (rewrite !elem_of_cons; lia).
  repeat (apply elem_of_cons in Hin as [->|Hin]; [done|]). by apply elem_of_nil in Hin.
Qed.

#[export] Program Instance toy_sha : Sha := {|
  NewFromBlob s := mkDigest (toy_hash s) (Z.of_nat (String.length s));
|}.
Next Obligation. done. Qed.
Next Obligation.
  intros s. unfold ToProto, NewFromProto, digest_sdk, new_from_proto. simpl Hash. simpl Size. cbn [pb_Hash pb_SizeBytes].
  unfold toy_hash. by rewrite hex_digits_length, hex_digits_hex.
Qed.

(** ** A codec: strings with each character marked, lists with each item marked *)

Fixpoint put_str (s : string) : string :=
  match s with "" => "." | String a s => String "c" (String a (put_str s)) end.
Fixpoint get_str (s : string) : option (string * string) :=
  match s with
  | String m s =>
      if (m =? ".")%char then Some ("", s)
      else match s with
           | String a s => match get_str s with Some (x, r) => Some (String a x, r) | None => None end
           | "" => None
           end
  | "" => None
  end.

Fixpoint bits (p : positive) : string :=
  match p with xH => "" | xO p => String "0" (bits p) | xI p => String "1" (bits p) end.
Fixpoint unbits (s : string) : positive :=
  match s with "" => xH | String a s => if (a =? "0")%char then xO (unbits s) else xI (unbits s) end.
Definition put_Z (z : Z) : string := put_str (bits (encode z)).
Definition get_Z (s : string) : option (Z * string) := '(x, r) ← get_str s; z ← decode (unbits x); Some (z, r).

Section lists.
Context {A : Type} (put : A → string) (get : string → option (A * string)).
Context (Hget : ∀ a r, get (put a +:+ r) = Some (a, r)).
Fixpoint put_list (l : list A) : string :=
  match l with [] => "." | a :: l => String "i" (put a +:+ put_list l) end.
Fixpoint get_list (fuel : nat) (s : string) : option (list A * string) :=
  match fuel, s with
  | S fuel, String m s =>
      if (m =? ".")%char then Some ([], s)
      else '(a, s) ← get s; '(l, s) ← get_list fuel s; Some (a :: l, s)
  | _, _ => None
  end.
Lemma get_put_list fuel l r : (List.length l < fuel)%nat → get_list fuel (put_list l +:+ r) = Some (l, r).
Proof using Hget.
  revert fuel. induction l as [|a l IH]; intros [|fuel] Hf; simpl in Hf; try lia; [done|].
  cbn [put_list String.append get_list]. simpl. rewrite <- str_app_assoc, Hget. simpl. by rewrite IH by lia.
Qed.
Lemma put_list_length l : (List.length l < String.length (put_list l))%nat.
Proof using Type. induction l as [|a l IH]; simpl; [lia|]. rewrite str_length_app. lia. Qed.
Lemma get_put_all l r :
  get_list (String.length (put_list l +:+ r)) (put_list l +:+ r) = Some (l, r).
Proof using Hget.
  apply get_put_list. pose proof (put_list_length l). rewrite str_length_app. lia.
Qed.
End lists.

Lemma get_put_str s r : get_str (put_str s +:+ r) = Some (s, r).
Proof. induction s as [|a s IH]; [done|]. simpl. by rewrite IH. Qed.
Lemma unbits_bits p : unbits (bits p) = p.
Proof. induction p as [p IH|p IH|]; simpl; by rewrite ?IH. Qed.
Lemma get_put_Z z r : get_Z (put_Z z +:+ r) = Some (z, r).
Proof.
  unfold get_Z, put_Z. rewrite get_put_str. unfold mbind, option_bind. by rewrite unbits_bits, (decode_encode z).
Qed.

Definition put_digest (d : PbDigest) : string := put_str (pb_Hash d) +:+ put_Z (pb_SizeBytes d).
Definition get_digest (s : string) : option (PbDigest * string) :=
  '(h, s) ← get_str s; '(z, s) ← get_Z s; Some (mkPbDigest h z, s).
Definition put_file (f : FileNode) : string :=
  put_str (fn_Name f) +:+ (put_digest (fn_Digest f) +:+ put_Z (if fn_IsExecutable f then 1 else 0)).
Definition get_file (s : string) : option (FileNode * string) :=
  '(n, s) ← get_str s; '(d, s) ← get_digest s; '(x, s) ← get_Z s; Some (mkFileNode n d (x =? 1), s).
Definition put_dir (f : DirectoryNode) : string := put_str (dn_Name f) +:+ put_digest (dn_Digest f).
Definition get_dir (s : string) : option (DirectoryNode * string) :=
  '(n, s) ← get_str s; '(d, s) ← get_digest s; Some (mkDirectoryNode n d, s).
Definition put_link (l : SymlinkNode) : string := put_str (sn_Name l) +:+ put_str (sn_Target l).
Definition get_link (s : string) : option (SymlinkNode * string) :=
  '(n, s) ← get_str s; '(t, s) ← get_str s; Some (mkSymlinkNode n t, s).

Lemma get_put_digest d r : get_digest (put_digest d +:+ r) = Some (d, r).
Proof.
  unfold get_digest, put_digest. rewrite <- str_app_assoc, get_put_str. simpl. rewrite get_put_Z. by destruct d.
Qed.
Lemma get_put_file f r : get_file (put_file f +:+ r) = Some (f, r).
Proof.
  unfold get_file, put_file. rewrite <- !str_app_assoc, get_put_str. simpl. rewrite get_put_digest. simpl.
  rewrite get_put_Z. by destruct f as [? ? []].
Qed.
Lemma get_put_dir f r : get_dir (put_dir f +:+ r) = Some (f, r).
Proof.
  unfold get_dir, put_dir. rewrite <- str_app_assoc, get_put_str. simpl. rewrite get_put_digest. by destruct f.
Qed.
Lemma get_put_link l r : get_link (put_link l +:+ r) = Some (l, r).
Proof.
  unfold get_link, put_link. rewrite <- str_app_assoc, get_put_str. simpl. rewrite get_put_str. by destruct l.
Qed.

Definition dir_data (d : Directory) : string :=
  put_list put_file (Files d) +:+ (put_list put_dir (Directories d) +:+ put_list put_link (Symlinks_ d)).
Definition decode_dir (s : string) : result Directory :=
  match '(fs, s) ← get_list get_file (String.length s) s;
        '(ds, s) ← get_list get_dir (String.length s) s;
        '(ls, s) ← get_list get_link (String.length s) s; Some (mkDirectory fs ds ls) with
  | Some d => Ok d
  | None => Err (Errorf "proto: cannot parse")
  end.
Lemma decode_dir_data d : decode_dir (dir_data d) = Ok d.
Proof.
  unfold decode_dir, dir_data. rewrite (get_put_all _ _ get_put_file). simpl.
  rewrite (get_put_all _ _ get_put_dir). simpl.
  rewrite <- (str_app_nil_r (put_list put_link (Symlinks_ d))), (get_put_all _ _ get_put_link). by destruct d.
Qed.

(** *** Actions *)

Definition digest_of (s : string) : PbDigest := ToProto (NewFromBlob s).

(** An input tree: a file, an empty directory, a directory with a link. *)
Definition sub_dir : Directory := mkDirectory [] [] [mkSymlinkNode "up" "../a"].
Definition empty_dir : Directory := mkDirectory [] [] [].
Definition root_dir : Directory :=
  mkDirectory [mkFileNode "a" (digest_of "hello") true]
    [mkDirectoryNode "d" (digest_of (dir_data sub_dir)); mkDirectoryNode "e" (digest_of (dir_data empty_dir))] [].

Definition demo_action (command : string) : Action :=
  mkAction (digest_of command) (digest_of (dir_data root_dir)) (Some 1000) true.
Definition demo_command (tool : string) : Command := mkCommand [tool] [("K", "v")] [] [] ["out"] "".

Definition toy_utf8 (s : string) : bool := negb (contains_byte (ascii_of_nat 255) s).

#[export] Program Instance toy_pb : WorkerPb := {|
  utf8 := toy_utf8;
  Unmarshal_Action s :=
    if (s =? "build action")%string then Ok (demo_action "build")
    else if (s =? "spin action")%string then Ok (demo_action "spin")
    else Err (Errorf "proto: cannot parse");
  Unmarshal_Command s := Ok (demo_command s);
  Marshal_Directory d := Ok (dir_data d);
  Unmarshal_Directory := decode_dir;
  Marshal_Tree t := Ok (put_list dir_data (Root t :: Children t));
|}.
Next Obligation.
  intros h Hh. unfold toy_utf8. apply negb_true_iff. induction h as [|a h IH]; [done|].
  simpl in *. apply andb_true_iff in Hh as [Ha Hh]. rewrite IH, orb_false_r by done.
  apply Ascii.eqb_neq. intros ->. done.
Qed.
Next Obligation. intros dir s [= <-]. apply decode_dir_data. Qed.
Next Obligation. intros dir _ _ _. by eexists. Qed.

(** ** A quiet operating system *)

#[export] Program Instance quiet_sys : Sys := {|
  call_fault _ _ := None;
  privileged := true;
  Environ := ["PATH=/bin"];
  NumCPU := 4;
  range_over _ _ m := map_to_list m;
|}.
Next Obligation. done. Qed.
Next Obligation. done. Qed.
Next Obligation. done. Qed.

Lemma toy_quiet : ∀ c k, call_fault c k = None.
Proof. done. Qed.

(** ** A store in the directory /cas *)

Definition cas_path (d : Digest) : path := ["cas"] ++ [Hash d].
Definition cas_ino (d : Digest) (k : disk) : option nat :=
  match nodes k !! cas_path d with Some (WFile i) => Some i | _ => None end.

Definition toy_Get (d : Digest) : WM (gmap string ActionResult) blob_reader := λ w,
  (Some (match cas_ino d (w_disk w) with Some i => Ok (OnDisk i) | None => Err ErrNotExist end), w).
Definition put_blob (d : Digest) (s : string) (k : disk) : disk :=
  let i := new_ino k in set_node (cas_path d) (WFile i) (set_file i (mkFile s 292) k).
Definition toy_Put (d : Digest) (r : reader) : WM (gmap string ActionResult) unit := λ w,
  match rd_err r with
  | Some e => (Some (Err e), w)
  | None => (Some (Ok ()), mkW (put_blob d (rd_all r) (w_disk w)) (w_store w) (w_tick w))
  end.
Definition toy_PutFile (d : Digest) (p : path) : WM (gmap string ActionResult) unit := λ w,
  match cas_ino d (w_disk w), nodes (w_disk w) !! p with
  | Some _, _ => (Some (Ok ()), w)
  | None, Some (WFile i) =>
      (Some (Ok ()), mkW (set_node (cas_path d) (WFile i)
                            (set_file i (mkFile (ino_data (w_disk w) i) 292) (w_disk w))) (w_store w) (w_tick w))
  | None, _ => (Some (Err ErrNotExist), w)
  end.

#[export] Instance toy_store : Stores (gmap string ActionResult) := {|
  bs_Get := toy_Get;
  bs_Put := toy_Put;
  bs_local := Some (mkLocalBlobStore _ (λ d, Some (cas_path d)) toy_PutFile);
  ac_UpdateActionResult d r := λ w, (Some (Ok ()), mkW (w_disk w) (<[Hash d := r]> (w_store w)) (w_tick w));
|}.

#[export] Program Instance toy_actions : ActionLaws (gmap string ActionResult) := {| actions := id |}.
Next Obligation. done. Qed.
Next Obligation. intros d r w. simpl. unfold toy_Put. by destruct (rd_err r). Qed.
Next Obligation.
  intros lbs d p w [= <-]. simpl. unfold toy_PutFile. destruct (cas_ino d (w_disk w)); [done|].
  by destruct (nodes (w_disk w) !! p) as [[]|].
Qed.
Next Obligation. intros d r w. right. done. Qed.

Definition cas_bytes (h : string) (k : disk) : option string :=
  match nodes k !! (["cas"] ++ [h]) with Some (WFile i) => f_data <$> files k !! i | _ => None end.

(** The directory exists; its entries are files with plain names. *)
Record cas_sane (k : disk) : Prop := {
  cas_dir : nodes k !! ["cas"] = Some WDir;
  cas_plain h : is_Some (nodes k !! (["cas"] ++ [h])) → plain h = true;
  cas_files h i : nodes k !! (["cas"] ++ [h]) = Some (WFile i) → is_Some (files k !! i);
}.

#[export] Instance toy_view : StoreView (gmap string ActionResult) := {|
  own q := ∃ c r, q = "cas" :: c :: r;
  needs q := ∃ r, q = "cas" :: r;
  sane w := cas_sane (w_disk w);
  bytes h w := cas_bytes h (w_disk w);
|}.

Lemma cas_real k : cas_sane k → real_dir k ["cas"].
Proof.
  intros Hs. apply (real_dir_snoc k [] "cas"); [apply real_dir_nil|done|apply Hs].
Qed.

Lemma hash_plain s : plain (Hash (NewFromBlob s)) = true.
Proof.
  apply Storage.hex_plain; [|apply hex_digits_hex]. intros He.
  assert (String.length (Hash (NewFromBlob s)) = 64%nat) as Hl by apply hex_digits_length. by rewrite He in Hl.
Qed.

(** Adding a blob's file to the directory. *)
Lemma cas_add k s i f (I : nat → Prop) :
  let h := Hash (NewFromBlob s) in
  let k' := set_node (["cas"] ++ [h]) (WFile i) (set_file i f k) in
  cas_sane k → f_data f = s → (∀ g, files k !! i = Some g → f_data g = s ∧ I i) →
  cas_sane k' ∧ (∀ q, ¬ own q → nodes k' !! q = nodes k !! q) ∧ files_kept I k k' ∧
  (∀ h', h' ≠ h → cas_bytes h' k' = cas_bytes h' k) ∧ cas_bytes h k' = Some s.
Proof.
  intros h k' Hs Hf Hi. split_and!.
  - split; simpl.
    + rewrite lookup_insert_ne by done. apply Hs.
    + intros h' [n Hn]. destruct (decide (h' = h)) as [->|Hne]; [apply hash_plain|].
      rewrite lookup_insert_ne in Hn by congruence. by eapply cas_plain.
    + intros h' j Hj. destruct (decide (j = i)) as [->|Hne]; [by rewrite lookup_insert_eq|].
      rewrite lookup_insert_ne by done. destruct (decide (h' = h)) as [->|Hne'].
      * rewrite lookup_insert_eq in Hj. congruence.
      * rewrite lookup_insert_ne in Hj by congruence. by eapply (cas_files k Hs h').
  - intros q Hq. simpl. rewrite lookup_insert_ne; [done|]. intros <-. apply Hq. by exists h, [].
  - intros j g Hg. simpl. destruct (decide (j = i)) as [->|Hne].
    + rewrite lookup_insert_eq. exists f. destruct (Hi g Hg) as [<- ?]. by split_and!.
    + rewrite lookup_insert_ne by done. eauto.
  - intros h' Hne. unfold cas_bytes. simpl. rewrite lookup_insert_ne by congruence.
    destruct (nodes k !! ["cas"; h']) as [[|j|]|] eqn:Hn; try done.
    destruct (decide (j = i)) as [->|Hj]; [|by rewrite lookup_insert_ne].
    rewrite lookup_insert_eq. destruct (files k !! i) as [g|] eqn:Hg; simpl.
    + f_equal. destruct (Hi g eq_refl). congruence.
    + destruct (cas_files k Hs h' i Hn) as [g' Hg']. congruence.
  - unfold cas_bytes. simpl. rewrite !lookup_insert_eq. simpl. congruence.
Qed.

Lemma cas_stored s w w' (I : nat → Prop) k :
  let h := Hash (NewFromBlob s) in
  w' = mkW (set_node (["cas"] ++ [h]) (WFile k.1) (set_file k.1 k.2 (w_disk w))) (w_store w) (w_tick w) →
  cas_sane (w_disk w) → f_data k.2 = s → (∀ g, files (w_disk w) !! k.1 = Some g → f_data g = s ∧ I k.1) →
  store_step I w w' ∧ stored h s w w'.
Proof.
  intros h -> Hs Hf Hi.
  destruct (cas_add (w_disk w) s k.1 k.2 I Hs Hf Hi) as (? & ? & ? & ? & ?).
  split; [by split_and!|]. split; [done|]. by left.
Qed.

Lemma regular_file k p i s : regular k p i s → nodes k !! p = Some (WFile i) ∧ ino_data k i = s ∧ is_Some (files k !! i).
Proof. intros (q & c & f & -> & _ & _ & Hn & Hf & Hd). unfold ino_data. rewrite Hf. eauto. Qed.

#[export] Program Instance toy_laws : StoreLaws (gmap string ActionResult).
Next Obligation. intros q (c & r & ->). by exists (c :: r). Qed.
Next Obligation. intros q r (c & r' & ->). by exists c, (r' ++ r). Qed.
Next Obligation.
  intros w w' _ Hn Hk Hs. assert (∀ h, nodes (w_disk w') !! (["cas"] ++ [h]) = nodes (w_disk w) !! (["cas"] ++ [h])) as Hh
    by (intros h; apply Hn; by exists [h]).
  split.
  - split; [rewrite Hn by (by exists []); apply Hs| |]; intros h; rewrite Hh; [by eapply cas_plain|].
    intros i Hi. destruct (cas_files _ Hs h i Hi) as [f Hf]. destruct (Hk i f Hf) as (f' & ? & _). by exists f'.
  - intros h. simpl. unfold cas_bytes. rewrite Hh.
    destruct (nodes (w_disk w) !! (["cas"] ++ [h])) as [[|i|]|] eqn:Hi; try done.
    destruct (cas_files _ Hs h i Hi) as [f Hf]. destruct (Hk i f Hf) as (f' & Hf' & Hd & _).
    rewrite Hf, Hf'. simpl. by rewrite Hd.
Qed.
Next Obligation.
  intros d w s Hs _ Hb. simpl in Hb. unfold cas_bytes in Hb.
  destruct (nodes (w_disk w) !! (["cas"] ++ [Hash d])) as [[|i|]|] eqn:Hn; try done.
  destruct (files (w_disk w) !! i) as [f|] eqn:Hf; [|done]. injection Hb as Hb.
  exists (OnDisk i), w. simpl. unfold toy_Get, cas_ino, cas_path. rewrite Hn. split_and!; [done| |done| |].
  - split_and!; [done|done|]. intros j g Hg. by exists g.
  - by exists f.
  - exists (["cas"] ++ [Hash d]), i. split; [done|]. exists ["cas"], (Hash d), f. split_and!; [done| | |done|done|done].
    + by apply cas_real.
    + eapply cas_plain; [exact Hs|by rewrite Hn].
Qed.
Next Obligation.
  intros r w Hs Hr d. simpl. unfold toy_Put. rewrite Hr. eexists. split; [done|].
  eapply (cas_stored (rd_all r) w _ _ (new_ino (w_disk w), mkFile (rd_all r) 292)); [done|done|done|].
  intros g Hg. simpl in Hg. by rewrite new_ino_fresh in Hg.
Qed.
Next Obligation.
  intros lbs p i s w [= <-] Hs Hreg Ho d. simpl. unfold toy_PutFile.
  destruct (regular_file _ _ _ _ Hreg) as (Hn & Hd & [f Hf]). destruct (cas_ino d (w_disk w)) as [j|] eqn:Hc.
  - exists w. split; [done|]. split; [split_and!; [done|done|]|].
    + intros k g Hg. by exists g.
    + split; [done|]. right. split; [|done]. change (is_Some (cas_bytes (Hash d) (w_disk w))).
      unfold cas_ino, cas_path in Hc. unfold cas_bytes.
      destruct (nodes (w_disk w) !! (["cas"] ++ [Hash d])) as [[|k|]|] eqn:Hk; try done.
      destruct (cas_files _ Hs _ k Hk) as [g Hg]. rewrite Hg. by eexists.
  - rewrite Hn. eexists. split; [done|].
    eapply (cas_stored s w _ _ (i, mkFile (ino_data (w_disk w) i) 292)); [done|done|done|].
    intros g Hg. simpl in *. split; [|done]. unfold ino_data in Hd. by rewrite Hg in Hd.
Qed.

(** ** Processes *)

(** "build" copies its input into an output directory; "spin" never ends;
    "daemon" leaves a process behind that keeps its output open. *)
Definition build_output (dir : path) (k : disk) : disk :=
  let i := new_ino k in
  set_node (dir ++ ["out"; "log"]) (WLink "result")
    (set_node (dir ++ ["out"; "result"]) (WFile i)
       (set_node (dir ++ ["out"]) WDir (set_file i (mkFile "hello, built" 493) k))).

Definition toy_start (args : list string) (dir : path) (k : disk) : started :=
  if bool_decide (args = ["build"])
  then Started (mkProcess (Some (5, 0)) (λ _, (build_output dir k, "done", "")) (λ _, true))
  else if bool_decide (args = ["spin"])
  then Started (mkProcess None (λ _, (k, "spinning", "")) (λ _, true))
  else if bool_decide (args = ["daemon"])
  then Started (mkProcess (Some (5, 0)) (λ _, (k, "", "")) (λ _, false))
  else NotFound_ (Errorf "executable file not found in $PATH").

Lemma toy_elapsed (k : nat) : 0 ≤ 10.
Proof. done. Qed.
#[export] Instance toy_runner : Runner := {|
  start _ args dir env k := toy_start args dir k;
  elapsed _ := 10;
  elapsed_nonneg := toy_elapsed;
|}.

(** ** A world *)

Definition demo_blobs : list string :=
  ["hello"; "build"; "spin"; "build action"; "spin action"; dir_data root_dir; dir_data sub_dir; dir_data empty_dir].
Definition demo_disk : disk :=
  foldl (λ k s, put_blob (NewFromBlob s) s k) (set_node ["cas"] WDir (set_node ["build"] WDir (mkDisk ∅ ∅))) demo_blobs.
Definition demo_world : WWorld (gmap string ActionResult) := mkW demo_disk ∅ 0.

Definition demo_pool : WorkerPool := mkWorkerPool ["build"] 4 None.
Definition demo_task (action : string) : Scheduler.Task :=
  Scheduler.mkTask "node:1234" (digest_of action) false 0.

(** ** The properties at concrete inputs *)

Definition run_demo (action : string) := execute 5 demo_pool (demo_task action) demo_world.

(** The action asks not to be cached, and its result is. *)
Lemma cached_only_on_success_witness :
  ∃ d r, DoNotCache (demo_action "build") = true ∧ (run_demo "build action").1 = Some (Ok r) ∧
    ar_ExitCode r = 0 ∧ w_store (run_demo "build action").2 = <[Hash d := r]> ∅.
Proof.
  destruct (cached_only_on_success 5 demo_pool (demo_task "build action") demo_world
    (run_demo "build action").1 (run_demo "build action").2) as [Ha|(d & r & _ & Ho & Hc & _ & Ha)].
  - by apply surjective_pairing.
  - assert (bool_decide (w_store (run_demo "build action").2 = ∅) = true) as Hb
      by (apply bool_decide_eq_true; exact Ha).
    vm_compute in Hb. discriminate Hb.
  - exists d, r. split_and!; [reflexivity|exact Ho|exact Hc|exact Ha].
Defined.

Lemma execute_cleans_up_witness :
  ∃ e, (Lstat ["build"; "node_1234"; "inputs"; "a"] (w_disk (run_demo "build action").2)).1 = Err e.
Proof.
  destruct (run_demo "build action") as [o w'] eqn:E.
  assert (match o with Some (Ok r) => ar_ExitCode r =? 0 | _ => false end = true) as Ho.
  { replace o with (run_demo "build action").1 by (by rewrite E). vm_compute. reflexivity. }
  destruct o as [[r|]|]; try discriminate Ho.
  destruct (execute_cleans_up 5 demo_pool (demo_task "build action") demo_world (Ok r) w'
    ["build"; "node_1234"; "inputs"; "a"]) as [(e & He & _)|Hg];
    [by repeat constructor|discriminate|reflexivity|exact E|discriminate He|].
  apply Hg. exists ["inputs"; "a"]. reflexivity.
Defined.

Lemma build_dirs_apart_witness :
  ¬ below (baseDir demo_pool (Scheduler.mkTask "n:1" (digest_of "") false 0))
          (baseDir demo_pool (Scheduler.mkTask "n:2" (digest_of "") false 0)).
Proof.
  intros Hb. assert ("n:1" = "n:2") as He; [|discriminate He].
  apply (build_dirs_apart demo_pool (Scheduler.mkTask "n:1" (digest_of "") false 0)
    (Scheduler.mkTask "n:2" (digest_of "") false 0)); [reflexivity..|exact Hb].
Defined.

Lemma origin_chooses_build_dir_witness :
  baseDir demo_pool (Scheduler.mkTask (Scheduler.newOperationID (Scheduler.NewScheduler 4 "n") "u1" "../etc/cron.d/x")
    (digest_of "") true 0) = ["etc"; "cron.d"; "x_u1"].
Proof.
  apply (origin_chooses_build_dir ["build"] 4 None (Scheduler.NewScheduler 4 "n") "u1" ["etc"; "cron.d"] "x"
    (digest_of "") true 0); [by repeat constructor|reflexivity..].
Defined.

(** A command that does not end is killed, and its operation completed with exit code -1. *)
Example spin_is_killed : ∃ r, (run_demo "spin action").1 = Some (Ok r) ∧ ar_ExitCode r = -1.
Proof. vm_compute. by eexists. Qed.

(** *** A scheduler with two tasks *)

Definition demo_sched : Scheduler.Scheduler :=
  (Scheduler.Enqueue "u2" 1 (digest_of "spin action") false ""
    (Scheduler.Enqueue "u1" 0 (digest_of "build action") false "" (Scheduler.NewScheduler 4 "n")).2).2.
Lemma demo_sched_wf : Scheduler.wf demo_sched.
Proof. by apply Scheduler.Enqueue_wf, Scheduler.Enqueue_wf, Scheduler.wf_new. Qed.

Definition first_task : Scheduler.Task := Scheduler.mkTask "n:u1" (digest_of "build action") false 0.

Lemma execute_task_finishes_witness :
  ∃ s' w' op', executeTask 5 demo_pool 2 3 [Scheduler.ECleanup 2] first_task demo_sched demo_world = Some (s', w') ∧
    Scheduler.lookup_op s' "operations/n:u1" = Some op' ∧ Scheduler.State op' = Scheduler.StateCompleted.
Proof.
  destruct (execute 5 demo_pool first_task demo_world) as [o w'] eqn:E.
  assert (match o with Some _ => true | None => false end = true) as Ho.
  { replace o with (execute 5 demo_pool first_task demo_world).1 by (by rewrite E). vm_compute. reflexivity. }
  destruct o as [o|]; [|discriminate Ho].
  destruct (execute_task_finishes 5 demo_pool 2 3 [Scheduler.ECleanup 2] first_task demo_sched demo_world o w'
    demo_sched_wf E) as (s1 & s' & Hr & Hx & _ & Hop).
  assert (bool_decide (is_Some (Scheduler.lookup_op s1 "operations/n:u1")) = true) as Hs.
  { replace s1 with (default s1 (Scheduler.run demo_sched
      [Scheduler.EUpdate "operations/n:u1" Scheduler.StateExecuting
         (mkMetadata STAGE_EXECUTING (Scheduler.ActionDigest first_task)) 2; Scheduler.ECleanup 2]))
      by (change "operations/n:u1" with (Scheduler.opName (Scheduler.OperationID first_task)); by rewrite Hr).
    vm_compute. reflexivity. }
  apply bool_decide_eq_true in Hs as [op Hs].
  change (Scheduler.opName (Scheduler.OperationID first_task)) with "operations/n:u1" in Hop. rewrite Hs in Hop.
  destruct Hop as (op' & Hl & [Hst _] & _). exists s', w', op'. split_and!; [exact Hx|exact Hl|exact Hst].
Defined.

Definition idle_turn : turn := mkTurn [] false [] (2, 3).

Lemma worker_drains_queue_witness :
  ∃ s' w', runWorker 5 demo_pool [idle_turn; idle_turn] demo_sched demo_world = Some (s', w') ∧
    Scheduler.taskQueue s' = [] ∧ completed s' "operations/n:u1" ∧ completed s' "operations/n:u2".
Proof.
  destruct (worker_drains_queue 5 demo_pool [idle_turn; idle_turn] demo_sched demo_world demo_sched_wf)
    as (s' & w' & Hr & _ & Hq & Hc).
  - assert (Scheduler.taskQueue demo_sched =
      [first_task; Scheduler.mkTask "n:u2" (digest_of "spin action") false 1]) as -> by reflexivity.
    split; [|split; [|exact I]]; intros Hx; vm_compute in Hx; discriminate Hx.
  - by repeat constructor.
  - reflexivity.
  - exists s', w'. split_and!; [exact Hr|exact Hq| |].
    + apply (Hc first_task); [by left|vm_compute; by eexists].
    + apply (Hc (Scheduler.mkTask "n:u2" (digest_of "spin action") false 1)); [by right; left|vm_compute; by eexists].
Defined.

(** *** Staging and uploading *)

Lemma put_blob_sane k s : cas_sane k → cas_sane (put_blob (NewFromBlob s) s k).
Proof.
  intros Hs. destruct (cas_add k s (new_ino k) (mkFile s 292) (λ _, True) Hs eq_refl) as [? _]; [|done].
  intros g Hg. by rewrite new_ino_fresh in Hg.
Qed.
Lemma demo_sane : cas_sane demo_disk.
Proof.
  unfold demo_disk. simpl foldl. do 8 apply put_blob_sane. split.
  - reflexivity.
  - intros h [n Hn]. simpl in Hn. rewrite !lookup_insert_ne in Hn by done. by rewrite lookup_empty in Hn.
  - intros h i Hn. simpl in Hn. rewrite !lookup_insert_ne in Hn by done. by rewrite lookup_empty in Hn.
Qed.

(** Outside the store, the disk has only the build root. *)
Lemma demo_build c r : nodes demo_disk !! ("build" :: c :: r) = None.
Proof.
  unfold demo_disk. simpl foldl. unfold put_blob. simpl. rewrite !lookup_insert_ne by done. apply lookup_empty.
Qed.
Lemma demo_real : real_dir demo_disk ["build"].
Proof. apply (real_dir_snoc _ [] "build"); [apply real_dir_nil|reflexivity|vm_compute; reflexivity]. Qed.

Definition demo_tree : list (string * ftree) :=
  [("a", FFile "hello" true); ("d", FDir [("up", FLink "../a")]); ("e", FDir [])].

Lemma demo_blob s : s ∈ demo_blobs → blob demo_world (NewFromBlob s) s.
Proof.
  intros Hs. split; [reflexivity|]. repeat (apply elem_of_cons in Hs as [->|Hs]; [vm_compute; reflexivity|]).
  by apply elem_of_nil in Hs.
Qed.

Lemma demo_sub n (d : Directory) es :
  dir_data d ∈ demo_blobs → dir_denotes n demo_world d es → ∀ name,
  sub_denotes demo_world (dir_denotes n demo_world) (mkDirectoryNode name (digest_of (dir_data d))) (name, FDir es).
Proof.
  intros Hin Hd name. split; [done|]. exists (NewFromBlob (dir_data d)), (dir_data d), d, es.
  split_and!; [apply NewFromBlob_valid|by apply demo_blob|apply decode_dir_data|done|done].
Qed.

Lemma demo_denotes : denotes 2 demo_world (NewFromBlob (dir_data root_dir)) demo_tree.
Proof.
  exists (dir_data root_dir), root_dir. split_and!; [apply demo_blob; set_solver|apply decode_dir_data|].
  exists [("a", FFile "hello" true)], [], [("d", FDir [("up", FLink "../a")]); ("e", FDir [])]. split_and!.
  - done.
  - constructor; [|constructor]. split; [done|]. exists (NewFromBlob "hello"), "hello".
    split_and!; [apply NewFromBlob_valid|apply demo_blob; set_solver|done].
  - constructor.
  - constructor; [apply demo_sub; [set_solver|]|constructor; [apply demo_sub; [set_solver|]|constructor]].
    + exists [], [("up", FLink "../a")], []. by split_and!; repeat constructor.
    + exists [], [], []. by split_and!; repeat constructor.
Qed.


(** A disk with outputs, and a world with it. *)
Definition out_world : WWorld (gmap string ActionResult) := mkW (build_output ["build"] demo_disk) ∅ 0.
Definition out_tree : list (string * ftree) := [("log", FLink "result"); ("result", FFile "hello, built" true)].
Definition out_dir : Directory :=
  mkDirectory [mkFileNode "result" (digest_of "hello, built") true] [] [mkSymlinkNode "log" "result"].

Lemma build_output_other k q :
  q ≠ ["build"; "out"; "log"] → q ≠ ["build"; "out"; "result"] → q ≠ ["build"; "out"] →
  nodes (build_output ["build"] k) !! q = nodes k !! q.
Proof. intros. unfold build_output. simpl. by rewrite !lookup_insert_ne by congruence. Qed.
Lemma build_output_files k i f : files k !! i = Some f → files (build_output ["build"] k) !! i = Some f.
Proof.
  intros Hf. unfold build_output. simpl. rewrite lookup_insert_ne; [done|]. intros <-. by rewrite new_ino_fresh in Hf.
Qed.
Lemma out_other q :
  q ≠ ["build"; "out"; "log"] → q ≠ ["build"; "out"; "result"] → q ≠ ["build"; "out"] →
  nodes (w_disk out_world) !! q = nodes demo_disk !! q.
Proof. apply build_output_other. Qed.

Lemma out_sane : sane out_world.
Proof.
  apply (outside_law demo_world out_world); [reflexivity| | |exact demo_sane].
  - intros q [r ->]. by apply out_other.
  - intros i f Hf. exists f. split; [by apply build_output_files|done].
Qed.

Lemma out_real c : nodes (w_disk out_world) !! (["build"] ++ [c]) = Some WDir → plain c = true →
  real_dir (w_disk out_world) (["build"] ++ [c]).
Proof.
  intros Hn Hc. apply real_dir_snoc; [|done|done]. apply (real_dir_snoc _ [] "build"); [apply real_dir_nil|done|].
  vm_compute. reflexivity.
Qed.

Lemma out_represents : represents eq 1 (w_disk out_world) ["build"; "out"] (FDir out_tree).
Proof.
  split_and!; [reflexivity|vm_compute; repeat constructor; set_solver| |].
  - intros c. destruct (decide (c = "log")) as [->|H1].
    { split; [intros _; vm_compute; by eexists|intros _; by left]. }
    destruct (decide (c = "result")) as [->|H2].
    { split; [intros _; vm_compute; by eexists|intros _; by right; left]. }
    simpl app. rewrite out_other by congruence. rewrite demo_build. split; [|by intros []].
    intros [?|[?|[]%elem_of_nil]%elem_of_cons]%elem_of_cons; done.
  - apply Forall_cons. split; [vm_compute; reflexivity|]. apply Forall_singleton.
    exists (new_ino demo_disk), (mkFile "hello, built" 493). split_and!; vm_compute; reflexivity.
Qed.

(** The two blobs it uploads. *)
Lemma out_collisions B :
  blobs_of (contents 1 (FDir out_tree)) [out_dir] B → collision_free B out_world.
Proof.
  intros HB. assert (∀ b, b ∈ B → b = "hello, built" ∨ b = dir_data out_dir) as Hcase.
  { intros b [Hb|(k & Hk & Hm)]%HB; [left; set_solver|]. apply list_elem_of_singleton in Hk as ->. right. by injection Hm. }
  intros a b Ha [[Hb Hh]|Hb].
  - destruct (Hcase a Ha) as [-> | ->], (Hcase b Hb) as [-> | ->]; try done; vm_compute in Hh; discriminate Hh.
  - exfalso. destruct (Hcase a Ha) as [-> | ->]; vm_compute in Hb; discriminate Hb.
Qed.


(** *** One name twice *)

Lemma toy_Get_regular d i s (w : WWorld (gmap string ActionResult)) :
  regular (w_disk w) (cas_path d) i s → bs_Get d w = (Some (Ok (OnDisk i)), w).
Proof. intros (Hn & _)%regular_file. simpl. unfold toy_Get, cas_ino. by rewrite Hn. Qed.

Definition blob_ino (s : string) : nat := default 0%nat (cas_ino (NewFromBlob s) demo_disk).
Lemma demo_regular s : s ∈ ["hello"; "spin"] → regular demo_disk (cas_path (NewFromBlob s)) (blob_ino s) s.
Proof.
  intros Hs. exists ["cas"], (Hash (NewFromBlob s)), (mkFile s 292).
  split_and!; [reflexivity|apply cas_real, demo_sane|apply hash_plain| | |reflexivity];
    repeat (apply elem_of_cons in Hs as [->|Hs]; [vm_compute; reflexivity|]); by apply elem_of_nil in Hs.
Qed.

(** Staging a directory that lists "t" twice turns the blob of "hello" into "spin". *)
Lemma duplicate_name_poisons_blob_witness :
  ∃ w', for_each (stage_file ["build"])
      [mkFileNode "t" (digest_of "hello") false; mkFileNode "t" (digest_of "spin") false] demo_world
      = (Some (Ok ()), w') ∧
    regular (w_disk w') (cas_path (NewFromBlob "hello")) (blob_ino "hello") "spin".
Proof.
  apply (duplicate_name_poisons_blob toy_quiet (mkLocalBlobStore _ (λ d, Some (cas_path d)) toy_PutFile)
    ["build"] "t" (NewFromBlob "hello") (NewFromBlob "spin") (cas_path (NewFromBlob "hello"))
    (cas_path (NewFromBlob "spin")) (blob_ino "hello") (blob_ino "spin") "hello" "spin");
    try reflexivity.
  - vm_compute. discriminate.
  - apply demo_regular. by left.
  - apply demo_regular. by right; left.
  - intros w'. apply toy_Get_regular.
  - intros w'. apply toy_Get_regular.
  - split_and!; [exact demo_real|reflexivity|intros r; apply demo_build|].
    intros r (r' & Hr). discriminate Hr.
Defined.
End WorkerDemo.
