(* ===== verification/Node.v ===== *)
(** Handlers, workers and the scheduler of a node at the same time
    (src/pkg/server/execution.go, src/pkg/execution/worker.go,
    src/pkg/scheduler/scheduler.go).

    [ExecServer] and [Worker] describe a handler and a worker that nobody
    interrupts inside a section.  Here every critical section of the scheduler,
    every channel operation and every [Send] is a step of its own, and the steps
    of any number of handlers and workers interleave: a handler is at one of the
    points of [handler], a worker at one of the points of [worker].  The execution
    of a task is one step that returns what it likes.  The operations service and
    the cleanup act on the scheduler in between.  [issued] and [finished] record
    the IDs of the accepted and of the served tasks; no step reads them. *)

From stdpp Require Import relations.
From S2P Require Import Prelude GoStrings Messages Scheduler ExecServer Worker.

Module Node.
Import Scheduler.

(** A subscription that a handler serves; [s_wait] in [WaitExecution]. *)
Record stream `{AnyPb} := mkStream {
  s_name : string;
  s_chan : nat;
  s_wait : bool;
  s_sent : list Operation;
}.

(** What a handler does next. *)
Inductive handler `{AnyPb} :=
  (** [Execute] with a cached result: complete, look up, send *)
  | HCached (r : ActionResult) (op : Operation)
  | HFinal (name : string)
  | HAnswer (op : Operation)
  (** [Execute] and [executeLocally]: subscribe, send the first state *)
  | HAccepted (op : Operation)
  | HInitial (σ : stream) (op : Operation)
  (** [WaitExecution] of an operation that is not done: subscribe *)
  | HFound (name : string)
  (** the loop: receive, look up, send, check the state *)
  | HLoop (σ : stream)
  | HUpdate (σ : stream) (update : nat)
  | HSend (σ : stream) (update : nat) (op : Operation)
  | HSent (σ : stream) (update : nat)
  (** the deferred unsubscribe *)
  | HLeave (σ : stream) (r : result unit)
  | HReturned (r : result unit) (sent : list Operation).

(** A worker waits for a task, has received one, or executes it. *)
Inductive worker := WIdle | WTaken (t : Task) | WBusy (t : Task).

Inductive next A := Panic | Blocked | Next (a : A).
Arguments Panic {A}.
Arguments Blocked {A}.
Arguments Next {A} a.

Definition next_map {A B} (f : A → B) (x : next A) : next B :=
  match x with Panic => Panic | Blocked => Blocked | Next a => Next (f a) end.
Definition or_panic {A} (o : option A) : next A :=
  match o with Some a => Next a | None => Panic end.

Section node.
Context `{GrpcStatus, AnyPb}.

Record node := mkNode {
  sched : Scheduler;
  workers : gmap nat worker;
  handlers : gmap nat handler;
  issued : list string;
  finished : list string;
}.

Definition send_on (σ : stream) (op : Operation) : stream :=
  mkStream _ (s_name σ) (s_chan σ) (s_wait σ) (s_sent σ ++ [op]).

(** What the handler returns after the loop; [gone]: the client has cancelled. *)
Definition ending (σ : stream) (gone : bool) : result unit :=
  if s_wait σ && gone then Err (StatusErr Canceled "client cancelled") else Ok ().

Definition subscribed (name : string) (wait : bool) (s : Scheduler) : stream * Scheduler :=
  let '(c, s) := Subscribe name s in (mkStream _ name c wait [], s).

(** One step of a handler; [send] is the error of a [Send] in it. *)
Definition handler_step (now : Z) (send : option error) (gone : bool) (x : handler) (s : Scheduler)
    : next (handler * Scheduler) :=
  match x with
  | HCached r op =>
      next_map (λ s, (HFinal (op_Name op), s))
        (or_panic (Complete (op_Name op) (mkExecuteResponse r true) now s))
  | HFinal name =>
      Next (match GetOperation name s with Err e => HReturned (Err e) [] | Ok op => HAnswer op end, s)
  | HAnswer op =>
      Next (match send with Some e => HReturned (Err e) [] | None => HReturned (Ok ()) [op] end, s)
  | HAccepted op => let '(σ, s) := subscribed (op_Name op) false s in Next (HInitial σ op, s)
  | HInitial σ op =>
      Next (match send with Some e => HLeave σ (Err e) | None => HLoop (send_on σ op) end, s)
  | HFound name => let '(σ, s) := subscribed name true s in Next (HLoop σ, s)
  | HLoop σ =>
      match recv (s_chan σ) s with
      | Some (update, s) => Next (HUpdate σ update, s)
      | None =>
          match chans s !! s_chan σ with
          | Some ch => if closed ch then Next (HLeave σ (ending σ gone), s) else Blocked
          | None => Blocked
          end
      end
  | HUpdate σ update =>
      Next (match GetOperation (s_name σ) s with Err _ => HLoop σ | Ok op => HSend σ update op end, s)
  | HSend σ update op =>
      Next (match send with Some e => HLeave σ (Err e) | None => HSent (send_on σ op) update end, s)
  | HSent σ update =>
      match heap s !! update with
      | None => Panic
      | Some op => Next (if bool_decide (State op = StateCompleted)
                         then HLeave σ (ending σ gone) else HLoop σ, s)
      end
  | HLeave σ r =>
      next_map (λ s, (HReturned r (s_sent σ), s)) (or_panic (unsubscribe (s_name σ) (s_chan σ) s))
  | HReturned _ _ => Blocked
  end.

(** One step of a worker; [res] is what the execution returns. *)
Definition worker_step (now : Z) (res : result ActionResult) (w : worker) (s : Scheduler)
    : next (worker * Scheduler) :=
  match w with
  | WIdle =>
      match Dequeue s with Some (t, s) => Next (WTaken t, s) | None => Blocked end
  | WTaken t =>
      next_map (pair (WBusy t))
        (or_panic (UpdateState (opName (OperationID t)) StateExecuting
                     (mkMetadata STAGE_EXECUTING (ActionDigest t)) now s))
  | WBusy t =>
      next_map (pair WIdle)
        (or_panic (match res with
                   | Ok r => Complete (opName (OperationID t)) (mkExecuteResponse r false) now s
                   | Err e => FailOp (opName (OperationID t)) e now s
                   end))
  end.

(** The tasks that a worker's step serves. *)
Definition served (w : worker) : list string :=
  match w with WBusy t => [OperationID t] | _ => [] end.

Inductive event :=
  (** a client calls [Execute] and is served locally, from the queue or from the cache *)
  | EExecute (h : nat) (uuid : string) (now : Z) (req : ExecServer.ExecuteRequest) (origin : string)
  | EExecuteCached (h : nat) (uuid : string) (now : Z) (req : ExecServer.ExecuteRequest) (r : ActionResult)
  | EWaitExecution (h : nat) (name : string)
  (** a handler or a worker takes a step *)
  | EHandler (h : nat) (now : Z) (send : option error) (gone : bool)
  | EWorker (k : nat) (now : Z) (res : result ActionResult)
  (** the operations service, and the cleanup *)
  | ECancelOperation (name : string) (now : Z)
  | EDeleteOperation (name : string)
  | ECleanupExpired (now : Z).

Definition start (h : nat) (x : handler) (s : Scheduler) (n : node) : node :=
  mkNode s (workers n) (<[h := x]> (handlers n)) (issued n) (finished n).

(** The admission of a request: [Enqueue], and what the handler does then. *)
Definition admit_request (h : nat) (uuid : string) (now : Z) (d : PbDigest) (skip : bool) (origin : string)
    (k : Operation → handler) (n : node) : node :=
  let '(r, s) := Enqueue uuid now d skip origin (sched n) in
  mkNode s (workers n)
    (<[h := match r with Ok op => k op | Err e => HReturned (Err e) [] end]> (handlers n))
    (issued n ++ (OperationID <$> accepted_by (sched n) (Scheduler.EEnqueue uuid now d skip origin)))
    (finished n).

Definition step (n : node) (e : event) : next node :=
  match e with
  | EExecute h uuid now req origin =>
      Next (admit_request h uuid now (ExecServer.ActionDigest req) (ExecServer.SkipCacheLookup req)
              origin HAccepted n)
  | EExecuteCached h uuid now req r =>
      Next (admit_request h uuid now (ExecServer.ActionDigest req) true "" (HCached r) n)
  | EWaitExecution h name =>
      Next (start h (match GetOperation name (sched n) with
                     | Err e => HReturned (Err e) []
                     | Ok op => if op_Done op then HAnswer op else HFound name
                     end) (sched n) n)
  | EHandler h now send gone =>
      match handlers n !! h with
      | None => Blocked
      | Some x => next_map (λ xs, start h xs.1 xs.2 n) (handler_step now send gone x (sched n))
      end
  | EWorker k now res =>
      match workers n !! k with
      | None => Blocked
      | Some w =>
          next_map (λ ws, mkNode ws.2 (<[k := ws.1]> (workers n)) (handlers n) (issued n)
                            (finished n ++ served w))
            (worker_step now res w (sched n))
      end
  | ECancelOperation name now =>
      next_map (λ rs, mkNode rs.2 (workers n) (handlers n) (issued n) (finished n))
        (or_panic (CancelOperation name now (sched n)))
  | EDeleteOperation name =>
      Next (mkNode (DeleteOperation name (sched n)).2 (workers n) (handlers n) (issued n) (finished n))
  | ECleanupExpired now =>
      Next (mkNode (CleanupExpired now (sched n)) (workers n) (handlers n) (issued n) (finished n))
  end.

(** A call has a handler of its own, and [uuid.New] gives a new ID. *)
Definition admissible (n : node) (e : event) : Prop :=
  match e with
  | EExecute h uuid _ _ origin =>
      handlers n !! h = None ∧ newOperationID (sched n) uuid origin ∉ issued n
  | EExecuteCached h uuid _ _ _ =>
      handlers n !! h = None ∧ newOperationID (sched n) uuid "" ∉ issued n
  | EWaitExecution h _ => handlers n !! h = None
  | _ => True
  end.

(** A new node with [k] workers. *)
Definition NewNode (queueSize : nat) (nodeID : string) (k : nat) : node :=
  mkNode (NewScheduler queueSize nodeID) (gset_to_gmap WIdle (list_to_set (seq 0 k))) ∅ [] [].

Inductive reachable (n0 : node) : node → Prop :=
  | reach_start : reachable n0 n0
  | reach_step n e n' : reachable n0 n → admissible n e → step n e = Next n' → reachable n0 n'.

(** What goes on without the clients. *)
Definition internal (n n' : node) : Prop :=
  ∃ e, match e with EHandler _ _ _ _ | EWorker _ _ _ => True | _ => False end ∧ step n e = Next n'.

(** [k] steps of a handler that nobody interrupts. *)
Fixpoint alone (k : nat) (now : Z) (send : option error) (x : handler) (s : Scheduler)
    : next (handler * Scheduler) :=
  match k with
  | O => Next (x, s)
  | S k =>
      match handler_step now send false x s with
      | Next (x, s) => alone k now send x s
      | r => r
      end
  end.

(** The handler of a method of [ExecServer] that has come to [φ]; a request that is
    forwarded has no business here. *)
Definition resume (φ : ExecServer.phase) : handler :=
  match φ with
  | ExecServer.Finished r sent => HReturned r sent
  | ExecServer.Streaming name c sent => HLoop (mkStream _ name c false sent)
  | ExecServer.Forward _ => HReturned (Ok ()) []
  end.
Definition resumed (o : option (ExecServer.phase * Scheduler)) : next (handler * Scheduler) :=
  match o with Some (φ, s) => Next (resume φ, s) | None => Panic end.

(** The steps of [es], one after the other. *)
Fixpoint run (n : node) (es : list event) : option node :=
  match es with
  | [] => Some n
  | e :: es => match step n e with Next n' => run n' es | _ => None end
  end.
End node.

(** ** The subscription of a handler *)

Lemma remove_sub_keeps c d subs r : remove_sub c subs = Some r → d ≠ c → d ∈ subs → d ∈ r.
Proof.
  revert r. induction subs as [|x subs IH]; intros r; simpl; [done|].
  case_bool_decide as Hx; [subst; intros [= <-] ? [?|?]%elem_of_cons; [done|done]|].
  destruct (remove_sub c subs) as [r'|]; [|done]. intros [= <-] Hne [->|Hd]%elem_of_cons; [by left|].
  right. by apply IH.
Qed.

Section streams.
Context `{GrpcStatus, AnyPb}.
Implicit Types (s : Scheduler) (σ : stream).

(** The channel is open and subscribed to nothing but the stream's operation; as
    long as that is listed, it is subscribed and delivers only the listed object. *)
Record stream_ok s σ : Prop := mkStreamOk {
  so_open : ∃ ch, chans s !! s_chan σ = Some ch ∧ closed ch = false;
  so_only n : s_chan σ ∈ subs_of s n → n = s_name σ;
  so_listed l : operations s !! s_name σ = Some l →
    s_chan σ ∈ subs_of s (s_name σ) ∧
    ∀ ch u, chans s !! s_chan σ = Some ch → u ∈ buf ch → u = l;
}.

Definition update_ok s σ (u : nat) : Prop :=
  is_Some (heap s !! u) ∧ ∀ l, operations s !! s_name σ = Some l → u = l.

Definition completed s (name : string) : Prop :=
  ∃ op, lookup_op s name = Some op ∧ State op = StateCompleted.

(** No completion is missed: there is something to receive. *)
Definition awake s σ : Prop :=
  completed s (s_name σ) → ∃ ch, chans s !! s_chan σ = Some ch ∧ buf ch ≠ [].

(** What a step of somebody else may do to a stream. *)
Record frame s s' σ : Prop := mkFrame {
  f_ops l : operations s' !! s_name σ = Some l → operations s !! s_name σ = Some l;
  f_heap u : is_Some (heap s !! u) → is_Some (heap s' !! u);
  f_subs n : s_chan σ ∈ subs_of s' n → s_chan σ ∈ subs_of s n;
  f_listed : is_Some (operations s' !! s_name σ) →
    s_chan σ ∈ subs_of s (s_name σ) → s_chan σ ∈ subs_of s' (s_name σ);
  f_chan ch : chans s !! s_chan σ = Some ch →
    ∃ ch', chans s' !! s_chan σ = Some ch' ∧ closed ch' = closed ch ∧
      (∀ u, u ∈ buf ch' → u ∈ buf ch ∨ operations s !! s_name σ = Some u) ∧
      (buf ch ≠ [] → buf ch' ≠ []);
  f_awake : completed s' (s_name σ) →
    completed s (s_name σ) ∨ ∃ ch', chans s' !! s_chan σ = Some ch' ∧ buf ch' ≠ [];
}.

Lemma frame_stream_ok s s' σ : frame s s' σ → stream_ok s σ → stream_ok s' σ.
Proof using Type.
  intros [Ho Hh Hs Hl Hc Ha] [(ch & Hch & Hopen) Honly Hlisted].
  destruct (Hc ch Hch) as (ch' & Hch' & Hcl & Hbuf & _). split.
  - exists ch'. split; [done|congruence].
  - eauto.
  - intros l Hn. destruct (Hlisted l (Ho l Hn)) as [Hin Hall]. split; [apply Hl; [by eexists|done]|].
    intros ? u ? Hu. simplify_eq. destruct (Hbuf u Hu) as [?|Hu']; [by eapply Hall|].
    specialize (Ho l Hn). congruence.
Qed.

Lemma frame_update_ok s s' σ u : frame s s' σ → update_ok s σ u → update_ok s' σ u.
Proof using Type. intros [Ho Hh _ _ _ _] [? Hu]. split; [by apply Hh|]. intros l ?%Ho. by apply Hu. Qed.

Lemma frame_awake s s' σ : frame s s' σ → awake s σ → awake s' σ.
Proof using Type.
  intros [Ho Hh Hs Hl Hc Ha] Haw Hcomp. destruct (Ha Hcomp) as [Hcomp'|?]; [|done].
  destruct (Haw Hcomp') as (ch & Hch & Hne). destruct (Hc ch Hch) as (ch' & ? & _ & _ & Hne'). eauto.
Qed.

(** Every operation of the scheduler is a frame for the streams it is not for. *)
Lemma frame_same s s' σ :
  operations s' = operations s → heap s' = heap s → subscribers s' = subscribers s →
  chans s' !! s_chan σ = chans s !! s_chan σ → frame s s' σ.
Proof using Type.
  intros Ho Hh Hs Hc. unfold completed, lookup_op.
  split; unfold completed, lookup_op, subs_of; rewrite ?Ho, ?Hh, ?Hs, ?Hc; eauto 10.
Qed.

Lemma frame_refl s σ : frame s s σ.
Proof using Type. by apply frame_same. Qed.

Lemma frame_with_op s name l op op' cnt cs σ :
  wf s → operations s !! name = Some l → heap s !! l = Some op → delivered s name l cs →
  stream_ok s σ → frame s (with_op l op' cnt cs s) σ.
Proof using Type.
  intros Hwf Hn Hl [Hout Hin] [(ch & Hch & Hopen) Honly Hlisted]. split; simpl.
  - done.
  - intros u [x Hu]. apply lookup_insert_is_Some. destruct (decide (l = u)); [by left|right; eauto].
  - done.
  - done.
  - intros ch0 Hch0. rewrite Hch in Hch0. injection Hch0 as <-.
    destruct (decide (s_chan σ ∈ subs_of s name)) as [Hs|Hs].
    + destruct (Hin _ ch Hs Hch) as (ch' & ? & ? & Hb). exists ch'. split_and!; [done..| |].
      * intros u. rewrite Hb. destruct (_ <? _)%nat; [|by left].
        intros [?| ->%list_elem_of_singleton]%elem_of_app; [by left|right].
        by rewrite <- (Honly name Hs).
      * rewrite Hb. destruct (_ <? _)%nat; [|done]. by destruct (buf ch).
    + exists ch. rewrite Hout by done. split_and!; [done..|by left|done].
  - intros (op0 & Hop0 & Hst). destruct (decide (s_name σ = name)) as [<-|Hne].
    + right. destruct (Hlisted l Hn) as [Hs _]. destruct (Hin _ ch Hs Hch) as (ch' & ? & _ & Hb).
      exists ch'. split; [done|]. rewrite Hb. destruct (_ <? _)%nat eqn:E; [by destruct (buf ch)|].
      to_prop. unfold chan_cap in E. destruct (buf ch); simpl in E; [lia|done].
    + left. exists op0. split; [|done]. unfold lookup_op in *. simpl in Hop0.
      destruct (operations s !! s_name σ) as [l0|] eqn:Hl0; [|done]. simpl in *.
      rewrite lookup_insert_ne in Hop0; [done|]. intros ->.
      destruct (wf_ops s Hwf _ _ Hl0) as (? & ? & ?), (wf_ops s Hwf _ _ Hn) as (? & ? & ?). congruence.
Qed.

Lemma frame_enqueue uuid now d skip override s σ :
  wf s → opName (newOperationID s uuid override) ≠ s_name σ →
  frame s (Enqueue uuid now d skip override s).2 σ.
Proof using Type.
  intros Hwf Hne. unfold Enqueue. destruct (_ <? _)%nat; [|apply frame_refl]. simpl.
  split; simpl; eauto.
  - intros l. by rewrite lookup_insert_ne.
  - intros u Hu. apply lookup_insert_is_Some'. by right.
  - eauto 10.
  - intros (op & Hop & Hst). left. exists op. split; [|done]. unfold lookup_op in *. simpl in Hop.
    rewrite lookup_insert_ne in Hop by done. destruct (operations s !! s_name σ) as [l|] eqn:Hl; [|done].
    simpl in *. rewrite lookup_insert_ne in Hop; [done|].
    destruct (wf_ops s Hwf _ _ Hl) as (x & Hx & _). intros <-.
    assert (nextAddr s < nextAddr s)%nat; [eapply wf_heap_next; eauto|lia].
Qed.

Lemma frame_subscribe name s σ :
  s_chan σ ≠ nextAddr s → frame s (Subscribe name s).2 σ.
Proof using Type.
  intros Hne. assert (∀ n, s_chan σ ∈ subs_of (Subscribe name s).2 n ↔ s_chan σ ∈ subs_of s n) as Hs.
  { intros n. unfold subs_of at 1. simpl. rewrite subs_of_insert. case_decide; [|done]. subst n.
    unfold subs_of at 1. set_solver. }
  split; simpl; eauto.
  - intros n. apply Hs.
  - intros _. apply Hs.
  - intros ch Hch. exists ch. rewrite lookup_insert_ne by done. eauto.
Qed.

Lemma frame_recv c s u s' σ : s_chan σ ≠ c → recv c s = Some (u, s') → frame s s' σ.
Proof using Type.
  intros Hne. unfold recv. destruct (chans s !! c) as [ch|] eqn:Hch; simpl; [|done].
  destruct (buf ch); [done|]. intros [= <- <-]. apply frame_same; try done. simpl. by rewrite lookup_insert_ne.
Qed.

Lemma frame_unsubscribe name c s s' σ :
  wf s → s_chan σ ≠ c → unsubscribe name c s = Some s' → frame s s' σ.
Proof using Type.
  intros Hwf Hne. unfold unsubscribe. fold (subs_of s name).
  destruct (remove_sub c (subs_of s name)) as [r|] eqn:Hr; [|intros [= <-]; apply frame_refl].
  destruct (remove_sub_Some _ _ _ Hr (wf_subs_nodup s Hwf name)) as (Hc & _ & _ & Hsub).
  destruct (wf_subs s Hwf _ _ Hc) as (ch & Hch & Hcl). rewrite Hch, Hcl. intros [= <-].
  set (s' := set_chans _ _).
  assert (∀ n, s_chan σ ∈ subs_of s' n ↔ s_chan σ ∈ subs_of s n) as Hs.
  { intros n. unfold subs_of at 1, s'. simpl. rewrite subs_of_insert. case_decide; [|done]. subst n.
    split; [apply Hsub|]. intros Hin. by eapply remove_sub_keeps. }
  split; simpl; eauto.
  - intros n. apply Hs.
  - intros _. apply Hs.
  - intros ch0 Hch0. exists ch0. rewrite lookup_insert_ne by done. eauto.
Qed.

Lemma frame_unlisting s s' σ :
  heap s' = heap s → chans s' = chans s →
  (∀ n l, operations s' !! n = Some l → operations s !! n = Some l) →
  (∀ n c, c ∈ subs_of s' n → c ∈ subs_of s n) →
  (∀ n, is_Some (operations s' !! n) → subs_of s' n = subs_of s n) → frame s s' σ.
Proof using Type.
  intros Hh Hc Ho Hs Hl. split; rewrite ?Hh, ?Hc; eauto.
  - intros Hn. by rewrite Hl.
  - eauto 10.
  - intros (op & Hop & Hst). left. exists op. split; [|done]. unfold lookup_op in *.
    destruct (operations s' !! s_name σ) as [l|] eqn:E; [|done]. simpl in Hop.
    rewrite (Ho _ _ E). simpl. by rewrite <- Hh.
Qed.

Lemma frame_delete name s σ : frame s (DeleteOperation name s).2 σ.
Proof using Type.
  unfold DeleteOperation. destruct (operations s !! name); [|apply frame_refl].
  apply frame_unlisting; [done..| |done|done].
  intros m l. simpl. by intros [_ ?]%lookup_delete_Some.
Qed.

Lemma frame_cleanup now s σ : frame s (CleanupExpired now s) σ.
Proof using Type.
  pose proof (cleanup_subs_of now s) as Hsubs. rewrite CleanupExpired_eq in *. apply frame_unlisting; [done..| | |].
  - intros n l. simpl. rewrite cleanup_lookup. destruct (operations s !! n) as [l0|]; [|done].
    by destruct (expired s now l0).
  - intros n c. destruct (Hsubs n) as [->| ->]; set_solver.
  - intros n. simpl. unfold subs_of. simpl. rewrite !cleanup_lookup.
    destruct (operations s !! n) as [l0|]; [|done]. destruct (expired s now l0); [|done]. by intros [? ?].
Qed.

(** ** A step of a handler *)

Definition stream_of (x : handler) : option stream :=
  match x with
  | HInitial σ _ | HLoop σ | HUpdate σ _ | HSend σ _ _ | HSent σ _ | HLeave σ _ => Some σ
  | _ => None
  end.
Definition update_of (x : handler) : option nat :=
  match x with HUpdate _ u | HSend _ u _ | HSent _ u => Some u | _ => None end.
(** It receives next. *)
Definition receives (x : handler) : bool := match x with HInitial _ _ | HLoop _ => true | _ => false end.
Definition name_of (x : handler) : option string :=
  match x with HAccepted op => Some (op_Name op) | HFound name => Some name | x => s_name <$> stream_of x end.

Record handler_ok (names : list string) s (x : handler) : Prop := mkHandlerOk {
  hk_name name : name_of x = Some name → name ∈ names;
  hk_stream σ : stream_of x = Some σ → stream_ok s σ;
  hk_update σ u : stream_of x = Some σ → update_of x = Some u → update_ok s σ u;
  hk_awake σ : stream_of x = Some σ → receives x = true → awake s σ;
}.

Lemma frame_handler_ok names names' s s' x :
  (∀ σ, stream_of x = Some σ → stream_ok s σ → frame s s' σ) → (∀ n, n ∈ names → n ∈ names') →
  handler_ok names s x → handler_ok names' s' x.
Proof using Type.
  intros Hf Hsub [Hn Hs Hu Ha].
  split; [by eauto|intros σ Hσ|intros σ u Hσ Hux|intros σ Hσ Hr]; pose proof (Hf σ Hσ (Hs σ Hσ)).
  - eapply frame_stream_ok; eauto.
  - eapply frame_update_ok; eauto.
  - eapply frame_awake; eauto.
Qed.

(** What the others notice of a handler's step from [x] to [x']. *)
Record handler_moved s (x : handler) s' (x' : handler) : Prop := mkHandlerMoved {
  hm_wf : wf s';
  hm_queue : taskQueue s' = taskQueue s;
  hm_operations : operations s' = operations s;
  hm_completed name : completed s name → completed s' name;
  hm_frame σ' : stream_ok s σ' → (∀ σ, stream_of x = Some σ → s_chan σ' ≠ s_chan σ) → frame s s' σ';
  hm_ok names : handler_ok names s x → handler_ok names s' x';
  hm_chan σ' : stream_of x' = Some σ' →
    (∃ σ, stream_of x = Some σ ∧ s_chan σ' = s_chan σ) ∨ s_chan σ' = nextAddr s;
}.

Lemma completed_same s s' name :
  operations s' = operations s → heap s' = heap s → completed s name → completed s' name.
Proof using Type. intros Ho Hh (op & Hop & Hst). exists op. unfold lookup_op. by rewrite Ho, Hh. Qed.

Lemma completed_with_op s name l op op' cnt cs n :
  wf s → operations s !! name = Some l → heap s !! l = Some op →
  (n = name → State op' = StateCompleted) → completed s n → completed (with_op l op' cnt cs s) n.
Proof using Type.
  intros Hwf Hn Hl Hst (op0 & Hop0 & Hst0). unfold completed, lookup_op in *. simpl.
  destruct (operations s !! n) as [l0|] eqn:Hl0; [|done]. simpl in *.
  destruct (decide (l0 = l)) as [->|].
  - exists op'. rewrite lookup_insert_eq. split; [done|]. apply Hst.
    destruct (wf_ops s Hwf _ _ Hl0) as (? & ? & ?), (wf_ops s Hwf _ _ Hn) as (? & ? & ?). congruence.
  - exists op0. by rewrite lookup_insert_ne.
Qed.

(** A change of state: of a listed object, with its notification, or none. *)
Inductive touched s (name : string) (st : OperationState) : Scheduler → Prop :=
  | touched_none : operations s !! name = None → wf s → touched s name st s
  | touched_op l op op' cnt cs :
      operations s !! name = Some l → heap s !! l = Some op → delivered s name l cs → State op' = st →
      wf (with_op l op' cnt cs s) → touched s name st (with_op l op' cnt cs s).

Lemma touched_listed s name l op op' cs :
  wf s → operations s !! name = Some l → heap s !! l = Some op → Name op' = Name op →
  delivered s name l cs → touched s name (State op') (with_op l op' (count_after s op (State op')) cs s).
Proof using Type.
  intros Hwf Hn Hl Hname Hd. eapply touched_op; [done..|]. by eapply wf_change.
Qed.

Lemma UpdateState_touched s name st md now :
  wf s → ∃ s', UpdateState name st md now s = Some s' ∧ touched s name st s'.
Proof using Type.
  intros Hwf. destruct (operations s !! name) as [l|] eqn:Hn.
  - destruct (wf_ops s Hwf _ _ Hn) as (op & Hl & _).
    destruct (UpdateState_spec s name l op Hwf Hn Hl st md now) as (cs & Hd & ->).
    eexists. split; [done|]. by apply (touched_listed s name l op (mkOp _ st _ _ _ _ _) cs).
  - exists s. unfold UpdateState. rewrite Hn. split; [done|by constructor].
Qed.

Lemma Complete_touched s name r now :
  wf s → ∃ s', Complete name r now s = Some s' ∧ touched s name StateCompleted s'.
Proof using Type.
  intros Hwf. destruct (operations s !! name) as [l|] eqn:Hn.
  - destruct (wf_ops s Hwf _ _ Hn) as (op & Hl & _).
    destruct (Complete_spec s name l op Hwf Hn Hl r now) as (cs & Hd & ->).
    eexists. split; [done|]. by apply (touched_listed s name l op (mkOp _ StateCompleted _ _ _ _ _) cs).
  - exists s. unfold Complete. rewrite Hn. split; [done|by constructor].
Qed.

Lemma FailOp_touched s name e now :
  wf s → ∃ s', FailOp name e now s = Some s' ∧ touched s name StateCompleted s'.
Proof using Type.
  intros Hwf. destruct (operations s !! name) as [l|] eqn:Hn.
  - destruct (wf_ops s Hwf _ _ Hn) as (op & Hl & _).
    destruct (FailOp_spec s name l op Hwf Hn Hl e now) as (cs & Hd & ->).
    eexists. split; [done|]. by apply (touched_listed s name l op (mkOp _ StateCompleted _ _ _ _ _) cs).
  - exists s. unfold FailOp. rewrite Hn. split; [done|by constructor].
Qed.

Lemma CancelOperation_touched s name now :
  wf s → ∃ r s', CancelOperation name now s = Some (r, s') ∧ (s' = s ∨ touched s name StateCompleted s').
Proof using Type.
  intros Hwf. destruct (operations s !! name) as [l|] eqn:Hn.
  - destruct (wf_ops s Hwf _ _ Hn) as (op & Hl & _).
    destruct (decide (State op = StateQueued)) as [Hq|Hq];
      [|erewrite CancelOperation_rejected by eauto; eauto].
    destruct (CancelOperation_spec s name l op Hwf Hn Hl now Hq) as (cs & Hd & ->).
    do 2 eexists. split; [done|]. right. eapply touched_op; [done..|]. eapply wf_with_op; eauto.
    rewrite !bool_decide_eq_false_2 by (unfold executing; simpl; congruence). simpl. lia.
  - unfold CancelOperation. rewrite Hn. eauto.
Qed.

(** What a change of state means to the rest. *)
Record quiet s (name : string) (st : OperationState) s' : Prop := mkQuiet {
  q_wf : wf s';
  q_queue : taskQueue s' = taskQueue s;
  q_operations : operations s' = operations s;
  q_completed n : (n = name → st = StateCompleted) → completed s n → completed s' n;
  q_set : st = StateCompleted → is_Some (operations s !! name) → completed s' name;
  q_frame σ : stream_ok s σ → frame s s' σ;
}.

Lemma touched_quiet s name st s' : wf s → touched s name st s' → quiet s name st s'.
Proof using Type.
  intros Hwf [Hn _|l op op' cnt cs Hn Hl Hd Hst Hwf']; split; try done.
  - rewrite Hn. by intros _ [].
  - intros; apply frame_refl.
  - intros n Hname. eapply completed_with_op; eauto. intros Hnn. rewrite Hst. by apply Hname.
  - intros -> _. exists op'. unfold lookup_op. simpl. rewrite Hn. simpl. by rewrite lookup_insert_eq.
  - intros σ. by eapply frame_with_op.
Qed.

(** A step that leaves the scheduler as it is. *)
Lemma moved_same s x x' :
  wf s → (∀ names, handler_ok names s x → handler_ok names s x') →
  (∀ σ', stream_of x' = Some σ' → ∃ σ, stream_of x = Some σ ∧ s_chan σ' = s_chan σ) →
  handler_moved s x s x'.
Proof using Type. intros Hwf Hok Hc. split; auto using frame_refl. Qed.

Lemma stream_ok_send s σ op : stream_ok s σ → stream_ok s (send_on σ op).
Proof using Type. by intros []. Qed.

Lemma stream_chan_next s σ : wf s → stream_ok s σ → (s_chan σ < nextAddr s)%nat.
Proof using Type. intros Hwf [(ch & Hch & _) _ _]. apply (wf_chan_next s Hwf). by eexists. Qed.

Lemma moved_subscribe s name wait x x' :
  wf s → (∀ names, handler_ok names s x → name ∈ names) → stream_of x = None →
  let '(σ, s') := subscribed name wait s in
  stream_of x' = Some σ → update_of x' = None → name_of x' = Some name →
  handler_moved s x s' x'.
Proof using Type.
  intros Hwf Hname Hx. simpl. intros Hx' Hu Hn.
  pose proof (Subscribe_wf name s Hwf) as Hwf'. assert (∀ n, nextAddr s ∉ subs_of s n) as Hnew.
  { intros n Hc%(wf_subs_next _ _ _ Hwf). lia. }
  assert (∀ n, nextAddr s ∈ subs_of (Subscribe name s).2 n ↔ n = name) as Hsub.
  { intros n. unfold subs_of at 1. simpl. rewrite subs_of_insert. case_decide; [subst; set_solver|].
    split; [by intros ?%Hnew|done]. }
  split; simpl; try done.
  - intros σ' Hσ' _. apply (frame_subscribe name s σ'). apply (stream_chan_next s σ' Hwf) in Hσ'. lia.
  - intros names Hok. specialize (Hname names Hok).
    split; [naive_solver|intros σ Hσ|intros σ u Hσ ?; congruence|intros σ Hσ Hr];
      rewrite Hx' in Hσ; injection Hσ as <-; simpl.
    + split; simpl.
      * eexists. rewrite lookup_insert_eq. by split.
      * intros n. apply Hsub.
      * intros l Hl. split; [by apply Hsub|]. intros ch u. rewrite lookup_insert_eq, Hl.
        intros [= <-]. apply list_elem_of_singleton.
    + intros (op & Hop & _). unfold lookup_op in Hop. simpl in *. rewrite lookup_insert_eq.
      destruct (operations s !! name) as [l|]; [|done]. eexists. by split.
  - intros σ' Hσ. rewrite Hx' in Hσ. injection Hσ as <-. by right.
Qed.

Lemma GetOperation_Ok s name op : GetOperation name s = Ok op → is_Some (operations s !! name).
Proof using Type.
  unfold GetOperation, lookup_op. destruct (operations s !! name); [by eexists|done].
Qed.

Lemma GetOperation_Err s name e :
  ExecServer.packs → wf s → GetOperation name s = Err e → operations s !! name = None.
Proof using Type.
  intros Hp Hwf. unfold GetOperation, lookup_op. destruct (operations s !! name) as [l|] eqn:Hn; [|done].
  destruct (wf_ops s Hwf _ _ Hn) as (op & Hl & _). simpl. rewrite Hl.
  by destruct (ExecServer.toProto_packs op Hp) as (o & -> & _).
Qed.

Lemma awake_unlisted s σ : operations s !! s_name σ = None → awake s σ.
Proof using Type. intros Hn (op & Hop & _). unfold lookup_op in Hop. by rewrite Hn in Hop. Qed.

Lemma moved_recv s σ u s' :
  wf s → recv (s_chan σ) s = Some (u, s') → handler_moved s (HLoop σ) s' (HUpdate σ u).
Proof using Type.
  intros Hwf Hrecv. pose proof (recv_wf _ _ _ _ Hwf Hrecv) as Hwf'.
  assert (∀ σ', s_chan σ' ≠ s_chan σ → frame s s' σ') as Hframe by (intros; by eapply frame_recv).
  unfold recv in Hrecv. destruct (chans s !! s_chan σ) as [ch|] eqn:Hch; simpl in Hrecv; [|done].
  destruct (buf ch) as [|u' us] eqn:Hb; [done|]. injection Hrecv as -> <-.
  split; try done.
  - intros σ' _ Hne. by apply Hframe, Hne.
  - intros names [Hn Hs _ _]. destruct (Hs σ eq_refl) as [(ch' & Hch' & Hopen) Honly Hlisted]. simplify_eq.
    assert (∀ l u0, operations s !! s_name σ = Some l → u0 ∈ buf ch → u0 = l) as Hall.
    { intros l u0 Hl. apply (Hlisted l Hl); done. }
    split; simpl; try done.
    + intros ? [= <-]. split; simpl; [eexists; rewrite lookup_insert_eq; by split|done|].
      intros l Hl. split; [by destruct (Hlisted l Hl)|]. intros ch0 u0. simpl. rewrite lookup_insert_eq. intros [= <-] Hin.
      apply Hall; [done|]. rewrite Hb. by right.
    + intros ? ? [= <-] [= <-]. split; simpl.
      * eapply (wf_buf_heap s Hwf); [done|]. rewrite Hb. by left.
      * intros l Hl. apply Hall; [done|]. rewrite Hb. by left.
  - intros σ' [= <-]. eauto.
Qed.

Lemma moved_leave s σ r s' :
  wf s → unsubscribe (s_name σ) (s_chan σ) s = Some s' →
  handler_moved s (HLeave σ r) s' (HReturned r (s_sent σ)).
Proof using Type.
  intros Hwf Hun. destruct (unsubscribe_wf (s_name σ) (s_chan σ) s Hwf) as (s1 & Hs1 & Hwf1).
  assert (s1 = s') as -> by congruence.
  assert (operations s' = operations s ∧ heap s' = heap s ∧ taskQueue s' = taskQueue s) as (Ho & Hh & Hq).
  { clear -Hun. unfold unsubscribe in Hun. repeat case_match; by simplify_eq. }
  split; try done.
  - intros name. by apply completed_same.
  - intros σ' _ Hne. eapply frame_unsubscribe; [done| |done]. by apply Hne.
Qed.

(** No step of a handler panics. *)
Lemma handler_step_moved names now send gone x s :
  ExecServer.packs → wf s → handler_ok names s x →
  match handler_step now send gone x s with
  | Panic => False
  | Blocked => True
  | Next (x', s') => handler_moved s x s' x'
  end.
Proof using Type.
  intros Hp Hwf Hok. pose proof Hok as [Hn Hs Hu Ha]. destruct x as [r op|name|op|op|σ op|name|σ|σ u|σ u op|σ u|σ r|];
    simpl.
  - destruct (Complete_touched s (op_Name op) (mkExecuteResponse r true) now Hwf) as (s' & -> & Ht).
    simpl. destruct (touched_quiet _ _ _ _ Hwf Ht) as [??????]. split; try done; eauto.
  - apply moved_same; [done| |]; by destruct (GetOperation name s).
  - apply moved_same; [done| |]; by destruct send.
  - apply (moved_subscribe s (op_Name op) false (HAccepted op)); try done. intros names' [Hn' _ _ _]. by apply Hn'.
  - apply moved_same; [done| |].
    + intros names' [Hn' Hs' _ Ha'].
      destruct send; split; simpl in *; try done;
        intros ? [= <-]; [by apply stream_ok_send, Hs'|]. intros _. by apply (Ha' σ).
    + destruct send; simpl; intros ? [= <-]; eauto.
  - apply (moved_subscribe s name true (HFound name)); try done. intros names' [Hn' _ _ _]. by apply Hn'.
  - destruct (recv (s_chan σ) s) as [[u s']|] eqn:Hr; [by apply moved_recv|].
    destruct (so_open _ _ (Hs σ eq_refl)) as (ch & -> & ->). done.
  - apply moved_same; [done| |by destruct (GetOperation _ s); intros ? [= <-]; eauto].
    intros names' [Hn' Hs' Hu' _]. destruct (GetOperation (s_name σ) s) as [op|e] eqn:Hg; split; try done.
    intros ? [= <-] _. by eapply awake_unlisted, GetOperation_Err.
  - apply moved_same; [done| |].
    + intros names' [Hn' Hs' Hu' Ha']. destruct send; split; simpl in *; try done.
      * intros ? [= <-]. by apply stream_ok_send, Hs'.
      * intros ? ? [= <-] [= <-]. by apply (Hu' σ).
    + destruct send; simpl; intros ? [= <-]; eauto.
  - destruct (Hu σ u eq_refl eq_refl) as [[op Hop] Heq]. rewrite Hop.
    apply moved_same; [done| |by destruct (bool_decide _); intros ? [= <-]; eauto].
    intros names' [Hn' Hs' _ _]. destruct (bool_decide (State op = StateCompleted)) eqn:Hst;
      split; simpl in *; try done. intros ? [= <-] _ (op' & Hop' & Hst').
    unfold lookup_op in Hop'. destruct (operations s !! s_name σ) as [l|] eqn:Hl; [|done].
    simpl in Hop'. specialize (Heq l eq_refl) as ->. to_prop. congruence.
  - destruct (unsubscribe_wf (s_name σ) (s_chan σ) s Hwf) as (s' & Hun & _). rewrite Hun. simpl.
    by apply moved_leave.
  - done.
Qed.

(** ** A step of a worker *)

Definition holding (w : worker) : list string :=
  match w with WIdle => [] | WTaken t | WBusy t => [OperationID t] end.
Definition held (m : gmap nat worker) : list string := (map_to_list m).*2 ≫= holding.
Definition queued s : list string := OperationID <$> taskQueue s.

Lemma held_insert m k w :
  m !! k = Some w →
  ∃ rest, held m ≡ₚ holding w ++ rest ∧ ∀ w', held (<[k := w']> m) ≡ₚ holding w' ++ rest.
Proof using Type.
  intros Hk. exists (held (delete k m)). unfold held.
  split; [|intros w'; rewrite <- insert_delete_eq]; [rewrite <- (insert_delete_id m k w Hk) at 1|];
    rewrite map_to_list_insert by apply lookup_delete_eq; done.
Qed.

Record worker_moved s (w : worker) s' (w' : worker) : Prop := mkWorkerMoved {
  wm_wf : wf s';
  wm_operations : operations s' = operations s;
  wm_frame σ : stream_ok s σ → frame s s' σ;
  wm_tasks : holding w' ++ queued s' ++ served w ≡ₚ holding w ++ queued s;
  wm_completed n : n ∉ opName <$> holding w → completed s n → completed s' n;
  wm_served id : id ∈ served w → is_Some (operations s !! opName id) → completed s' (opName id);
}.

Lemma worker_moved_quiet s t st s' w w' :
  quiet s (opName (OperationID t)) st s' → holding w = [OperationID t] →
  (served w = [] ∧ holding w' = [OperationID t] ∨
   served w = [OperationID t] ∧ holding w' = [] ∧ st = StateCompleted) →
  worker_moved s w s' w'.
Proof using Type.
  intros [Hwf Hq Ho Hc Hset Hf] Hw Hw'. unfold queued.
  split; unfold queued; rewrite ?Hq, ?Hw; try done.
  - destruct Hw' as [[-> ->]|(-> & -> & _)]; simpl; [by rewrite app_nil_r|]. by rewrite Permutation_app_comm.
  - intros n Hn. apply Hc. intros ->. destruct Hn. simpl. by left.
  - destruct Hw' as [[-> _]|(-> & _ & ->)]; [by intros ? ?%not_elem_of_nil|].
    intros id ->%list_elem_of_singleton. by apply Hset.
Qed.

(** No step of a worker panics. *)
Lemma worker_step_moved now res w s :
  wf s →
  match worker_step now res w s with
  | Panic => False
  | Blocked => w = WIdle ∧ taskQueue s = []
  | Next (w', s') => worker_moved s w s' w'
  end.
Proof using Type.
  intros Hwf. destruct w as [|t|t]; simpl.
  - destruct (Dequeue s) as [[t s']|] eqn:Hd; [|unfold Dequeue in Hd; by destruct (taskQueue s)].
    pose proof (Dequeue_wf s t s' Hwf Hd) as Hwf'. unfold Dequeue in Hd.
    destruct (taskQueue s) as [|t' q] eqn:Hq; [done|]. injection Hd as -> <-.
    split; try done; unfold queued; simpl.
    + by intros; apply frame_same.
    + by rewrite Hq, app_nil_r.
    + by intros id ?%not_elem_of_nil.
  - destruct (UpdateState_touched s (opName (OperationID t)) StateExecuting
      (mkMetadata STAGE_EXECUTING (ActionDigest t)) now Hwf) as (s' & -> & Ht).
    eapply worker_moved_quiet; [by eapply touched_quiet|done|by left].
  - assert (∃ s', match res with
      | Ok r => Complete (opName (OperationID t)) (mkExecuteResponse r false) now s
      | Err e => FailOp (opName (OperationID t)) e now s
      end = Some s' ∧ touched s (opName (OperationID t)) StateCompleted s') as (s' & -> & Ht).
    { destruct res; [by apply Complete_touched|by apply FailOp_touched]. }
    eapply worker_moved_quiet; [by eapply touched_quiet|done|by right].
Qed.

(** ** The invariant of a node *)

Definition names_of (n : node) : list string := opName <$> issued n.

Record node_ok (n : node) : Prop := mkNodeOk {
  nk_wf : wf (sched n);
  nk_handler h x : handlers n !! h = Some x → handler_ok (names_of n) (sched n) x;
  nk_apart h h' x x' σ σ' : handlers n !! h = Some x → handlers n !! h' = Some x' →
    stream_of x = Some σ → stream_of x' = Some σ' → s_chan σ = s_chan σ' → h = h';
  nk_listed name : is_Some (operations (sched n) !! name) → name ∈ names_of n;
  nk_tasks : finished n ++ held (workers n) ++ queued (sched n) ≡ₚ issued n;
  nk_nodup : NoDup (issued n);
  nk_finished id : id ∈ finished n → is_Some (operations (sched n) !! opName id) →
    completed (sched n) (opName id);
}.

Lemma opName_inj id id' : opName id = opName id' → id = id'.
Proof using Type. unfold opName. simpl. by intros [= ->]. Qed.

(** A handler moves, or begins; [new] are the tasks it has put into the queue. *)
Lemma node_ok_handler n h x s new :
  node_ok n → wf s → queued s = queued (sched n) ++ new → NoDup new → (∀ id, id ∈ new → id ∉ issued n) →
  (∀ name, is_Some (operations s !! name) → is_Some (operations (sched n) !! name) ∨ name ∈ opName <$> new) →
  (∀ id, id ∈ issued n → completed (sched n) (opName id) → completed s (opName id)) →
  (∀ h' y σ, h' ≠ h → handlers n !! h' = Some y → stream_of y = Some σ → frame (sched n) s σ) →
  handler_ok (names_of n ++ (opName <$> new)) s x →
  (∀ h' y σ σ', h' ≠ h → handlers n !! h' = Some y → stream_of y = Some σ → stream_of x = Some σ' →
    s_chan σ ≠ s_chan σ') →
  node_ok (mkNode s (workers n) (<[h := x]> (handlers n)) (issued n ++ new) (finished n)).
Proof using Type.
  intros [Hwf Hh Hap Hli Ht Hnd Hfi] Hwf' Hq Hnew Hfresh Hops Hcomp Hframe Hx Hchan.
  assert (names_of n ++ (opName <$> new) = opName <$> (issued n ++ new)) as Hnames by by rewrite fmap_app.
  split; unfold names_of in *; simpl; rewrite <- ?Hnames; try done.
  - intros h' y [[<- <-]|[Hne Hy]]%lookup_insert_Some; [done|].
    eapply frame_handler_ok; [intros σ Hσ _; by eapply Hframe| |by eapply Hh].
    intros name Hn. apply elem_of_app. by left.
  - intros h1 h2 x1 x2 σ1 σ2 [[<- <-]|[Hn1 Hx1]]%lookup_insert_Some [[<- <-]|[Hn2 Hx2]]%lookup_insert_Some;
      intros Hσ1 Hσ2 Hc; [done| | |by eapply Hap].
    + by destruct (Hchan h2 x2 σ2 σ1 (not_eq_sym Hn2) Hx2 Hσ2 Hσ1).
    + by destruct (Hchan h1 x1 σ1 σ2 (not_eq_sym Hn1) Hx1 Hσ1 Hσ2).
  - intros name Hn. apply elem_of_app. destruct (Hops name Hn) as [?|?]; [left; auto|by right].
  - by rewrite Hq, <- Ht, <- !app_assoc.
  - apply NoDup_app. split_and!; [done| |done]. intros id Hid Hin. by apply (Hfresh id).
  - intros id Hid Hlist. assert (id ∈ issued n) as Hiss by (rewrite <- Ht; apply elem_of_app; by left).
    apply Hcomp; [done|]. apply Hfi; [done|]. destruct (Hops _ Hlist) as [?|(id' & Heq & Hin)%list_elem_of_fmap]; [done|].
    apply opName_inj in Heq as <-. by destruct (Hfresh id Hin).
Qed.

Lemma node_ok_step_handler n h x now send gone x' s :
  ExecServer.packs → node_ok n → handlers n !! h = Some x →
  handler_step now send gone x (sched n) = Next (x', s) → node_ok (start h x' s n).
Proof using Type.
  intros Hp Hok Hx Hstep. pose proof Hok as [Hwf Hh Hap Hli Ht Hnd Hfi].
  pose proof (handler_step_moved (names_of n) now send gone x (sched n) Hp Hwf (Hh h x Hx)) as Hm.
  rewrite Hstep in Hm. destruct Hm as [Hwf' Hq Hops Hcomp Hframe Hx' Hchan].
  assert (∀ h' y σ, h' ≠ h → handlers n !! h' = Some y → stream_of y = Some σ →
    stream_ok (sched n) σ ∧ ∀ σ', stream_of x = Some σ' → s_chan σ ≠ s_chan σ') as Hothers.
  { intros h' y σ Hne Hy Hσ. split; [by apply (hk_stream _ _ _ (Hh h' y Hy))|].
    intros σ' Hσ' Heq. by destruct Hne, (Hap h' h y x σ σ'). }
  unfold start. rewrite <- (app_nil_r (issued n)). apply node_ok_handler; try done.
  - unfold queued. by rewrite Hq, app_nil_r.
  - apply NoDup_nil_2.
  - by intros id ?%not_elem_of_nil.
  - intros name. rewrite Hops. by left.
  - intros id _. apply Hcomp.
  - intros h' y σ Hne Hy Hσ. by destruct (Hothers h' y σ Hne Hy Hσ) as [? ?]; apply Hframe.
  - simpl. rewrite app_nil_r. apply Hx'. by apply (Hh h).
  - intros h' y σ σ' Hne Hy Hσ Hσ'. destruct (Hothers h' y σ Hne Hy Hσ) as [Hs Hdiff].
    destruct (Hchan σ' Hσ') as [(σ0 & Hσ0 & ->)| ->]; [by apply Hdiff|].
    apply (stream_chan_next _ _ Hwf) in Hs. lia.
Qed.

Lemma node_ok_step_worker n k w now res w' s :
  node_ok n → workers n !! k = Some w → worker_step now res w (sched n) = Next (w', s) →
  node_ok (mkNode s (<[k := w']> (workers n)) (handlers n) (issued n) (finished n ++ served w)).
Proof using Type.
  intros [Hwf Hh Hap Hli Ht Hnd Hfi] Hk Hstep. pose proof (worker_step_moved now res w (sched n) Hwf) as Hm.
  rewrite Hstep in Hm. destruct Hm as [Hwf' Hops Hframe Htasks Hcomp Hserved].
  destruct (held_insert (workers n) k w Hk) as (rest & Hheld & Hheld').
  assert ((finished n ++ served w) ++ held (<[k := w']> (workers n)) ++ queued s ≡ₚ issued n) as Ht'.
  { rewrite Hheld', <- Ht, Hheld. rewrite <- !app_assoc. f_equiv.
    transitivity (rest ++ (holding w' ++ queued s ++ served w)); [by solve_Permutation|].
    rewrite Htasks. by solve_Permutation. }
  split; simpl; try done.
  - intros h x Hx. eapply frame_handler_ok; [intros σ _; apply Hframe|done|by eapply Hh].
  - intros name. rewrite Hops. apply Hli.
  - intros id Hid Hlist. rewrite Hops in Hlist. apply elem_of_app in Hid as [Hid|Hid]; [|by apply Hserved].
    apply Hcomp; [|by apply Hfi]. intros (id' & Heq%opName_inj & Hin)%list_elem_of_fmap. subst id'.
    rewrite <- Ht, Hheld in Hnd. apply NoDup_app in Hnd as (_ & Hnd & _). apply (Hnd id Hid).
    apply elem_of_app. left. apply elem_of_app. by left.
Qed.

Lemma node_ok_sched n s :
  node_ok n → wf s → taskQueue s = taskQueue (sched n) →
  (∀ name l, operations s !! name = Some l → operations (sched n) !! name = Some l) →
  (∀ name, is_Some (operations s !! name) → completed (sched n) name → completed s name) →
  (∀ σ, stream_ok (sched n) σ → frame (sched n) s σ) →
  node_ok (mkNode s (workers n) (handlers n) (issued n) (finished n)).
Proof using Type.
  intros [Hwf Hh Hap Hli Ht Hnd Hfi] Hwf' Hq Hops Hcomp Hframe. split; simpl; try done.
  - intros h x Hx. eapply frame_handler_ok; [intros σ _; apply Hframe|done|by eapply Hh].
  - intros name [l Hl%Hops]. apply Hli. by eexists.
  - unfold queued. by rewrite Hq.
  - intros id Hid [l Hl]. apply Hcomp; [by eexists|]. apply Hfi; [done|]. eexists. by apply Hops.
Qed.

Lemma handler_ok_free names s x :
  stream_of x = None → (∀ name, name_of x = Some name → name ∈ names) → handler_ok names s x.
Proof using Type. intros Hx Hn. split; [done|..]; intros; congruence. Qed.

(** Where an admitted request waits for its handler. *)
Definition admitted (k : Operation → handler) : Prop :=
  ∀ op, stream_of (k op) = None ∧ ∀ name, name_of (k op) = Some name → name = op_Name op.

Lemma node_ok_admit n h uuid now d skip origin k :
  ExecServer.packs → node_ok n → handlers n !! h = None → admitted k →
  newOperationID (sched n) uuid origin ∉ issued n →
  node_ok (admit_request h uuid now d skip origin k n).
Proof using Type.
  intros Hp Hok Hh Hk Hfresh. pose proof Hok as [Hwf _ _ _ _ _ _]. unfold admit_request.
  pose proof (Enqueue_wf uuid now d skip origin (sched n) Hwf) as Hwf'.
  pose proof (λ σ Hne, frame_enqueue uuid now d skip origin (sched n) σ Hwf Hne) as Hframe.
  set (id := newOperationID (sched n) uuid origin) in *.
  assert (∀ h' y σ, h' ≠ h → handlers n !! h' = Some y → stream_of y = Some σ → opName id ≠ s_name σ) as Hne.
  { intros h' y σ _ Hy Hσ Heq. apply Hfresh. assert (s_name σ ∈ names_of n) as Hin.
    { apply (hk_name _ _ _ (nk_handler n Hok h' y Hy)). by destruct y; simplify_eq/=. }
    rewrite <- Heq in Hin. by apply list_elem_of_fmap in Hin as (? & <-%opName_inj & ?). }
  unfold accepted_by. fold id. unfold Enqueue in *. fold id in Hwf', Hframe |- *.
  destruct (_ <? _)%nat; simpl in *.
  - match type of Hwf' with wf ?s' => set (s := s') in * end.
    destruct (ExecServer.toProto_packs (mkOp (opName id) StateQueued (mkMetadata STAGE_QUEUED d) None None
      now now) Hp) as (op & -> & Hop & _). simpl in Hop. destruct (Hk op) as [Hfree Hname].
    apply node_ok_handler; try done.
    + unfold queued, s. simpl. by rewrite fmap_app.
    + apply NoDup_singleton.
    + by intros ? ->%list_elem_of_singleton.
    + intros name. unfold s. simpl. rewrite lookup_insert_is_Some. intros [<-|[_ ?]]; [right|by left]. by left.
    + intros id' Hid' (op0 & Hop0 & Hst). exists op0. split; [|done]. unfold lookup_op, s in *. simpl.
      rewrite lookup_insert_ne by (intros ->%opName_inj; done).
      destruct (operations (sched n) !! opName id') as [l|] eqn:Hl; [|done]. simpl in *.
      destruct (wf_ops _ Hwf _ _ Hl) as (? & Hx & _). rewrite lookup_insert_ne; [done|].
      intros <-. assert (nextAddr (sched n) < nextAddr (sched n))%nat; [eapply (wf_heap_next _ Hwf); by eexists|lia].
    + intros h' y σ Hn Hy Hσ. apply Hframe. by eapply Hne.
    + apply handler_ok_free; [done|]. intros name ->%Hname. apply elem_of_app. right. rewrite Hop. by left.
    + intros h' y σ σ' _ _ _. by rewrite Hfree.
  - apply node_ok_handler; try done.
    + by rewrite app_nil_r.
    + apply NoDup_nil_2.
    + by intros ? ?%not_elem_of_nil.
    + by left.
    + intros; apply frame_refl.
Qed.

Lemma node_ok_new qs name k : node_ok (NewNode qs name k).
Proof using Type.
  split; simpl; try done.
  - apply wf_new.
  - intros name'. rewrite lookup_empty. by intros [].
  - unfold held. assert (∀ kw, kw ∈ map_to_list (gset_to_gmap WIdle (list_to_set (seq 0 k) : gset nat)) → kw.2 = WIdle)
      as Hidle.
    { intros [i w] Hin%elem_of_map_to_list. by apply lookup_gset_to_gmap_Some in Hin as [_ <-]. }
    induction (map_to_list _) as [|kw l IH]; [done|]. csimpl.
    rewrite (Hidle kw) by (by left). apply IH. intros; apply Hidle. by right.
  - apply NoDup_nil_2.
  - by intros id ?%not_elem_of_nil.
Qed.

(** Every step keeps the invariant, and none panics. *)
Lemma node_ok_step n e :
  ExecServer.packs → node_ok n → admissible n e →
  match step n e with Panic => False | Blocked => True | Next n' => node_ok n' end.
Proof using Type.
  intros Hp Hok Hadm. pose proof Hok as [Hwf Hh _ Hli _ _ _].
  destruct e as [h uuid now req origin|h uuid now req r|h name|h now send gone|k now res|name now|name|now];
    simpl in *.
  - by apply node_ok_admit; try (split; [done|]; by intros ? [= <-]); destruct Hadm.
  - by apply node_ok_admit; destruct Hadm.
  - unfold start. rewrite <- (app_nil_r (issued n)). apply node_ok_handler; try done.
    + by rewrite app_nil_r.
    + apply NoDup_nil_2.
    + by intros ? ?%not_elem_of_nil.
    + by left.
    + intros; apply frame_refl.
    + apply handler_ok_free; destruct (GetOperation name (sched n)) as [op|e] eqn:Hg; try done;
        destruct (op_Done op); try done.
      intros ? [= <-]. apply elem_of_app. left. by eapply Hli, GetOperation_Ok.
    + intros h' y σ σ' _ _ _. destruct (GetOperation _ _) as [op|e]; [by destruct (op_Done op)|done].
  - destruct (handlers n !! h) as [x|] eqn:Hx; [|done].
    pose proof (handler_step_moved _ now send gone x (sched n) Hp Hwf (Hh h x Hx)) as Hm.
    destruct (handler_step now send gone x (sched n)) as [| |[x' s]] eqn:Hs; try done.
    by eapply node_ok_step_handler.
  - destruct (workers n !! k) as [w|] eqn:Hk; [|done].
    pose proof (worker_step_moved now res w (sched n) Hwf) as Hm.
    destruct (worker_step now res w (sched n)) as [| |[w' s]] eqn:Hs; try done.
    by eapply node_ok_step_worker.
  - destruct (CancelOperation_touched (sched n) name now Hwf) as (r & s & -> & [->|Ht]); simpl.
    + by apply node_ok_sched; try done; intros; apply frame_refl.
    + destruct (touched_quiet _ _ _ _ Hwf Ht) as [??? Hc ??]. apply node_ok_sched; try done; [congruence|].
      intros n' _. by apply Hc.
  - pose proof (DeleteOperation_wf name (sched n) Hwf) as Hwf'.
    pose proof (frame_delete name (sched n)) as Hf. unfold DeleteOperation in *.
    destruct (operations (sched n) !! name); simpl in *; apply node_ok_sched; try done.
    + intros n' l'. simpl. by intros [_ ?]%lookup_delete_Some.
    + intros n' [l' Hl'] (op & Hop & Hst). simpl in Hl'. apply lookup_delete_Some in Hl' as [Hne Hl']. exists op. split; [|done].
      unfold lookup_op in *. simpl. by rewrite lookup_delete_ne.
  - pose proof (CleanupExpired_wf now (sched n) Hwf) as Hwf'.
    pose proof (frame_cleanup now (sched n)) as Hf. rewrite CleanupExpired_eq in *.
    assert (∀ n' l, delete_expired (sched n) now (map_to_list (operations (sched n))) (operations (sched n)) !! n'
      = Some l → operations (sched n) !! n' = Some l) as Hsub.
    { intros n' l. rewrite cleanup_lookup. destruct (operations (sched n) !! n'); [|done].
      by destruct (expired _ _ _). }
    apply node_ok_sched; try done.
    intros n' [l Hl] (op & Hop & Hst). exists op. split; [|done]. unfold lookup_op in *. simpl in *.
    by rewrite Hl, <- (Hsub _ _ Hl).
Qed.

Lemma reachable_ok qs name k n :
  ExecServer.packs → reachable (NewNode qs name k) n → node_ok n.
Proof using Type.
  intros Hp. induction 1 as [|n e n' _ IH Hadm Hstep]; [apply node_ok_new|].
  pose proof (node_ok_step n e Hp IH Hadm) as Hok. by rewrite Hstep in Hok.
Qed.

(** ** What is left to do

    A worker's step reduces [work]; a handler's step leaves it and reduces
    [chatter], except the completion of a cached request, which counts as work
    because it may notify other handlers. *)

Definition worker_rank (w : worker) : nat := match w with WIdle => 0 | WTaken _ => 2 | WBusy _ => 1 end.
Definition cached (x : handler) : nat := match x with HCached _ _ => 1 | _ => 0 end.
Definition work (n : node) : nat :=
  3 * List.length (taskQueue (sched n)) + total worker_rank (workers n) + total cached (handlers n).

Definition backlog s (x : handler) : nat :=
  match stream_of x with
  | Some σ => match chans s !! s_chan σ with Some ch => List.length (buf ch) | None => 0 end
  | None => 0
  end.
Definition handler_rank (x : handler) : nat :=
  match x with
  | HReturned _ _ => 0 | HAnswer _ | HLeave _ _ => 1 | HFinal _ | HLoop _ => 2
  | HInitial _ _ | HSent _ _ => 3 | HSend _ _ _ => 4 | HUpdate _ _ => 5 | HFound _ => 7
  | HAccepted _ | HCached _ _ => 8
  end.
Definition chatter (n : node) : nat :=
  total (λ x, handler_rank x + 4 * backlog (sched n) x) (handlers n).

Lemma worker_step_work now res w s w' s' :
  worker_step now res w s = Next (w', s') → wf s →
  3 * List.length (taskQueue s') + worker_rank w' < 3 * List.length (taskQueue s) + worker_rank w.
Proof using All.
  intros Hstep Hwf. destruct w as [|t|t]; simpl in Hstep.
  - unfold Dequeue in Hstep. destruct (taskQueue s) as [|t q]; [done|]. injection Hstep as <- <-. simpl. lia.
  - destruct (UpdateState_touched s (opName (OperationID t)) StateExecuting
      (mkMetadata STAGE_EXECUTING (ActionDigest t)) now Hwf) as (s1 & Hs1 & Ht). rewrite Hs1 in Hstep.
    injection Hstep as <- <-. rewrite (q_queue _ _ _ _ (touched_quiet _ _ _ _ Hwf Ht)). simpl. lia.
  - pose proof (worker_step_moved now res (WBusy t) s Hwf) as Hm.
    assert (∃ s1, match res with
      | Ok r => Complete (opName (OperationID t)) (mkExecuteResponse r false) now s
      | Err e => FailOp (opName (OperationID t)) e now s
      end = Some s1 ∧ touched s (opName (OperationID t)) StateCompleted s1) as (s1 & Hs1 & Ht).
    { destruct res; [by apply Complete_touched|by apply FailOp_touched]. }
    rewrite Hs1 in Hstep. injection Hstep as <- <-.
    rewrite (q_queue _ _ _ _ (touched_quiet _ _ _ _ Hwf Ht)). simpl. lia.
Qed.

(** A handler's step uses up a part of its own rank, and no other channel. *)
Lemma handler_step_rank names now send gone x s x' s' :
  handler_step now send gone x s = Next (x', s') → wf s → handler_ok names s x → cached x = 0%nat →
  (handler_rank x' + 4 * backlog s' x' < handler_rank x + 4 * backlog s x)%nat ∧ cached x' = 0%nat ∧
  ∀ c, (c < nextAddr s)%nat → (∀ σ, stream_of x = Some σ → c ≠ s_chan σ) → chans s' !! c = chans s !! c.
Proof using Type.
  intros Hstep Hwf [_ Hs _ _] Hc. unfold backlog.
  destruct x as [r op|name|op|op|σ op|name|σ|σ u|σ u op|σ u|σ r|]; simpl in *; try done.
  - injection Hstep as <- <-. destruct (GetOperation name s); simpl; split_and!; done || lia.
  - injection Hstep as <- <-. destruct send; simpl; split_and!; done || lia.
  - injection Hstep as <- <-. simpl. rewrite lookup_insert_eq. simpl.
    split_and!; [destruct (operations s !! _); simpl; lia|done|].
    intros c Hlt _. rewrite lookup_insert_ne; [done|lia].
  - injection Hstep as <- <-. destruct send; simpl; split_and!; done || lia.
  - injection Hstep as <- <-. simpl. rewrite lookup_insert_eq. simpl.
    split_and!; [destruct (operations s !! _); simpl; lia|done|].
    intros c Hlt _. rewrite lookup_insert_ne; [done|lia].
  - destruct (so_open _ _ (Hs σ eq_refl)) as (ch & Hch & Hopen). unfold recv in Hstep.
    rewrite Hch in Hstep. simpl in Hstep. rewrite Hopen in Hstep. destruct (buf ch) as [|u us] eqn:Hb; [done|].
    injection Hstep as <- <-. simpl. rewrite lookup_insert_eq, Hch, Hb. simpl. split_and!; [lia|done|].
    intros c _ Hne. rewrite lookup_insert_ne; [done|]. apply not_eq_sym. by apply Hne.
  - injection Hstep as <- <-. destruct (GetOperation _ s); simpl; split_and!; done || lia.
  - injection Hstep as <- <-. destruct send; simpl; split_and!; done || lia.
  - destruct (heap s !! u) as [op|]; [|done]. injection Hstep as <- <-.
    destruct (bool_decide _); simpl; split_and!; done || lia.
  - destruct (unsubscribe (s_name σ) (s_chan σ) s) as [s1|] eqn:Hun; [|done]. injection Hstep as <- <-.
    simpl. split_and!; [lia|done|]. intros c _ Hne. unfold unsubscribe in Hun.
    destruct (remove_sub _ _); [|by injection Hun as <-].
    destruct (chans s !! s_chan σ); [|by injection Hun as <-]. destruct (closed _); [done|].
    injection Hun as <-. simpl. rewrite lookup_insert_ne; [done|]. apply not_eq_sym. by apply Hne.
Qed.

Lemma internal_work n n' :
  ExecServer.packs → node_ok n → internal n n' →
  (work n' < work n)%nat ∨ work n' = work n ∧ (chatter n' < chatter n)%nat.
Proof using Type.
  intros Hp Hok (e & He & Hstep). pose proof Hok as [Hwf Hh Hap _ _ _ _].
  destruct e as [| | |h now send gone|k now res| | |]; try done; simpl in Hstep.
  - destruct (handlers n !! h) as [x|] eqn:Hx; [|done].
    destruct (handler_step now send gone x (sched n)) as [| |[x' s]] eqn:Hs; try done.
    injection Hstep as <-. unfold work, chatter. simpl.
    pose proof (handler_step_moved _ now send gone x (sched n) Hp Hwf (Hh h x Hx)) as Hm.
    rewrite Hs in Hm. rewrite (hm_queue _ _ _ _ Hm).
    pose proof (total_insert cached (handlers n) h x x' Hx) as Hc.
    destruct (cached x) as [|m] eqn:Hcx.
    + right. destruct (handler_step_rank _ now send gone x (sched n) x' s Hs Hwf (Hh h x Hx) Hcx)
        as (Hr & Hcx' & Hsame). split; [lia|].
      pose proof (total_update (λ y, handler_rank y + 4 * backlog (sched n) y)
        (λ y, handler_rank y + 4 * backlog s y) (handlers n) h x x' Hx) as Ht. simpl in Ht.
      enough (∀ h' y, h' ≠ h → handlers n !! h' = Some y → backlog s y = backlog (sched n) y) as Hy.
      { assert (∀ h' y, h' ≠ h → handlers n !! h' = Some y →
          handler_rank y + 4 * backlog (sched n) y = handler_rank y + 4 * backlog s y)%nat as Hy'
          by (intros h' y Hne Hl; by rewrite (Hy h' y Hne Hl)).
        specialize (Ht Hy'). lia. }
      intros h' y Hne Hy. unfold backlog. destruct (stream_of y) as [σ|] eqn:Hσ; [|done].
      pose proof (hk_stream _ _ _ (Hh h' y Hy) σ Hσ) as Hok'. rewrite Hsame; [done| |].
      * by apply stream_chan_next.
      * intros σ' Hσ' Heq. by destruct Hne, (Hap h' h y x σ σ').
    + left. assert (cached x' = 0%nat) by (destruct x; simplify_eq/=; by destruct (or_panic _); simplify_eq/=).
      destruct x; simplify_eq/=. lia.
  - destruct (workers n !! k) as [w|] eqn:Hk; [|done].
    destruct (worker_step now res w (sched n)) as [| |[w' s]] eqn:Hs; try done.
    injection Hstep as <-. left. unfold work. simpl.
    pose proof (total_insert worker_rank (workers n) k w w' Hk).
    pose proof (worker_step_work _ _ _ _ _ _ Hs Hwf). lia.
Qed.

Lemma internal_ok n n' : ExecServer.packs → node_ok n → internal n n' → node_ok n'.
Proof using Type.
  intros Hp Hok (e & He & Hstep). pose proof (node_ok_step n e Hp Hok) as Hn. rewrite Hstep in Hn.
  apply Hn. by destruct e.
Qed.

Lemma internal_sn n : ExecServer.packs → node_ok n → sn internal n.
Proof using Type.
  intros Hp. remember (work n) as a eqn:Ha. revert n Ha. induction (lt_wf a) as [a _ IHa].
  intros n Ha. remember (chatter n) as b eqn:Hb. revert n Ha Hb. induction (lt_wf b) as [b _ IHb].
  intros n -> -> Hok. constructor. intros n' Hn'. pose proof (internal_ok n n' Hp Hok Hn') as Hok'.
  destruct (internal_work n n' Hp Hok Hn') as [Hlt|[Heq Hlt]].
  - by eapply (IHa (work n')).
  - by eapply (IHb (chatter n')).
Qed.

(** *** A node at rest *)

Definition at_rest (n : node) : Prop := ∀ n', ¬ internal n n'.

Lemma rest_handler n h x :
  ExecServer.packs → node_ok n → at_rest n → handlers n !! h = Some x →
  (∃ r sent, x = HReturned r sent) ∨
  ∃ σ, x = HLoop σ ∧ ∀ ch, chans (sched n) !! s_chan σ = Some ch → buf ch = [].
Proof using Type.
  intros Hp Hok Hrest Hx. pose proof (nk_handler n Hok h x Hx) as Hx'.
  pose proof (handler_step_moved _ 0 None false x (sched n) Hp (nk_wf n Hok) Hx') as Hm.
  destruct (handler_step 0 None false x (sched n)) as [| |[x' s]] eqn:Hs; [done| |].
  - destruct x; simpl in Hs; simplify_eq; eauto.
    + by destruct (Complete _ _ _ _).
    + right. eexists. split; [done|]. intros ch Hch. unfold recv in Hs. rewrite Hch in Hs. simpl in Hs.
      by destruct (buf ch).
    + by destruct (heap _ !! _).
    + by destruct (unsubscribe _ _ _).
  - destruct (Hrest (start h x' s n)). exists (EHandler h 0 None false). split; [done|]. simpl. by rewrite Hx, Hs.
Qed.

Lemma rest_worker n k w :
  node_ok n → at_rest n → workers n !! k = Some w → w = WIdle ∧ taskQueue (sched n) = [].
Proof using Type.
  intros Hok Hrest Hk. pose proof (worker_step_moved 0 (Err EOF) w (sched n) (nk_wf n Hok)) as Hm.
  destruct (worker_step 0 (Err EOF) w (sched n)) as [| |[w' s]] eqn:Hs; [done|done|].
  exfalso. eapply Hrest. exists (EWorker k 0 (Err EOF)). split; [done|]. simpl. by rewrite Hk, Hs.
Qed.

Lemma rest_completed n name :
  node_ok n → at_rest n → workers n ≠ ∅ → is_Some (operations (sched n) !! name) →
  completed (sched n) name.
Proof using Type.
  intros Hok Hrest Hne Hname. apply map_choose in Hne as (k & w & Hk).
  destruct (rest_worker n k w Hok Hrest Hk) as [_ Hq].
  assert (held (workers n) = []) as Hheld.
  { unfold held. assert (∀ w', w' ∈ (map_to_list (workers n)).*2 → w' = WIdle) as Hidle.
    { intros w' ([k' w''] & -> & Hk'%elem_of_map_to_list)%list_elem_of_fmap.
      by destruct (rest_worker n k' w'' Hok Hrest Hk'). }
    induction (map_to_list (workers n)).*2 as [|w' l IH]; [done|]. csimpl.
    rewrite (Hidle w') by (by left). apply IH. intros; apply Hidle. by right. }
  apply (nk_listed n Hok) in Hname as Hin. apply list_elem_of_fmap in Hin as (id & -> & Hid).
  apply (nk_finished n Hok); [|done]. rewrite <- (nk_tasks n Hok), Hheld in Hid. unfold queued in Hid.
  rewrite Hq in Hid. simpl in Hid. by rewrite app_nil_r in Hid.
Qed.
End streams.

(** ** The properties *)

Section properties.
Context `{GrpcStatus, AnyPb}.


(** C3: an accepted task is executed exactly once.  At any time every accepted task
    is in exactly one place, the queue, the hands of one worker, or among the
    finished ones, and there only once: no two workers ever execute the same
    operation, none is executed again, and none is lost. *)
Theorem tasks_execute_once queueSize nodeID k n :
  ExecServer.packs → reachable (NewNode queueSize nodeID k) n →
  NoDup (finished n ++ held (workers n) ++ queued (sched n)) ∧
  finished n ++ held (workers n) ++ queued (sched n) ≡ₚ issued n.
Proof using Type.
  intros Hp Hok%reachable_ok; [|done]. split; [|apply (nk_tasks n Hok)].
  rewrite (nk_tasks n Hok). apply (nk_nodup n Hok).
Qed.

(** C26: a client gets the result of its operation.  When an operation that is
    listed is completed, a handler that waits for it is woken, and its next five
    steps send the completed operation, with its result or error, and return
    success, with the subscription gone. *)
Theorem waiting_client_gets_result queueSize nodeID k n h σ l op now :
  ExecServer.packs → reachable (NewNode queueSize nodeID k) n →
  handlers n !! h = Some (HLoop σ) → operations (sched n) !! s_name σ = Some l →
  heap (sched n) !! l = Some op → State op = StateCompleted →
  ∃ n' o, run n (replicate 5 (EHandler h now None false)) = Some n' ∧
    toProto op = Ok o ∧ op_Done o = true ∧
    handlers n' !! h = Some (HReturned (Ok ()) (s_sent σ ++ [o])) ∧
    s_chan σ ∉ subs_of (sched n') (s_name σ).
Proof using Type.
  intros Hp Hok%reachable_ok Hx Hn Hl Hst; [|done]. pose proof (nk_handler n Hok h _ Hx) as [_ Hs _ Ha].
  destruct (Hs σ eq_refl) as [(ch & Hch & Hopen) _ Hlisted]. destruct (Hlisted l Hn) as [Hin Hall].
  destruct (Ha σ eq_refl eq_refl) as (ch' & Hch' & Hne).
  { exists op. unfold lookup_op. by rewrite Hn. }
  assert (ch' = ch) as -> by congruence. destruct (buf ch) as [|u us] eqn:Hb; [done|].
  assert (u = l) as -> by (apply (Hall ch u Hch); rewrite Hb; by left).
  destruct (ExecServer.toProto_packs op Hp) as (o & Ho & _ & Hdone). rewrite Hst in Hdone.
  assert (recv (s_chan σ) (sched n) = Some (l,
    set_chans (<[s_chan σ := mkChan us (closed ch)]> (chans (sched n))) (sched n))) as Hrecv.
  { unfold recv. rewrite Hch. simpl. by rewrite Hb. }
  set (s1 := set_chans _ _) in Hrecv. pose proof (recv_wf _ _ _ _ (nk_wf n Hok) Hrecv) as Hwf1.
  destruct (unsubscribe_wf (s_name σ) (s_chan σ) s1 Hwf1) as (s2 & Hun & _).
  assert (GetOperation (s_name σ) s1 = Ok o) as Hget by (unfold GetOperation, lookup_op; simpl; by rewrite Hn; simpl; rewrite Hl).
  eexists _, o. split_and!; [|done|done| |].
  - simpl. rewrite Hx. simpl. rewrite Hrecv. simpl. rewrite lookup_insert_eq. simpl. rewrite Hget. simpl.
    rewrite lookup_insert_eq. simpl. rewrite lookup_insert_eq. simpl. rewrite Hl, Hst. simpl.
    rewrite lookup_insert_eq. simpl. rewrite Hun. simpl. done.
  - simpl. rewrite lookup_insert_eq. unfold ending. simpl. by rewrite andb_false_r.
  - simpl. unfold unsubscribe in Hun. fold (subs_of s1 (s_name σ)) in Hun.
    destruct (remove_sub (s_chan σ) (subs_of s1 (s_name σ))) as [r|] eqn:Hr;
      [|by apply ExecServer.remove_sub_None in Hr].
    simpl in Hun. rewrite lookup_insert_eq in Hun. simpl in Hun. rewrite Hopen in Hun. injection Hun as <-.
    unfold subs_of at 1. simpl. rewrite lookup_insert_eq. simpl.
    eapply ExecServer.remove_sub_gone; [apply (wf_subs_nodup s1 Hwf1)|exact Hr].
Qed.

Lemma loop_is_stream_step now send name c sent s : ∃ k,
  alone (S k) now send (HLoop (mkStream _ name c false sent)) s =
  match ExecServer.stream_step send name c sent s with
  | ExecServer.Waiting => Blocked
  | ExecServer.Panicked => Panic
  | ExecServer.Ended r sent s => Next (HReturned r sent, s)
  | ExecServer.Continues sent s => Next (HLoop (mkStream _ name c false sent), s)
  end.
Proof using Type.
  unfold ExecServer.stream_step, ExecServer.leave.
  destruct (recv c s) as [[u s1]|] eqn:Hr.
  + destruct (GetOperation name s1) as [o|e] eqn:Hg; [|exists 1%nat; simpl; by rewrite Hr; simpl; rewrite Hg].
    destruct send as [e|].
    * exists 3%nat. simpl. rewrite Hr. simpl. rewrite Hg. simpl. by destruct (unsubscribe name c s1).
    * destruct (heap s1 !! u) as [op|] eqn:Hh; [destruct (bool_decide (State op = StateCompleted)) eqn:Hst|].
      -- exists 4%nat. simpl. rewrite Hr. simpl. rewrite Hg. simpl. rewrite Hh. simpl. rewrite Hst. simpl.
         by destruct (unsubscribe name c s1).
      -- exists 3%nat. simpl. rewrite Hr. simpl. rewrite Hg. simpl. rewrite Hh. simpl. by rewrite Hst.
      -- exists 3%nat. simpl. rewrite Hr. simpl. rewrite Hg. simpl. by rewrite Hh.
  + destruct (chans s !! c) as [ch|] eqn:Hch; [destruct (closed ch) eqn:Hcl|].
    * exists 1%nat. simpl. rewrite Hr, Hch, Hcl. simpl. by destruct (unsubscribe name c s).
    * exists 0%nat. simpl. by rewrite Hr, Hch, Hcl.
    * exists 0%nat. simpl. by rewrite Hr, Hch.
Qed.

Lemma worker_is_executeTask S `{Worker.Sys, Worker.Stores S, Worker.Runner, Worker.WorkerPb, Worker.Sha}
    fuel wp t1 t2 others t s w s' w' :
  Worker.executeTask fuel wp t1 t2 others t s w = Some (s', w') ↔
  ∃ s1 s2 res, worker_step t1 (Err EOF) (WTaken t) s = Next (WBusy t, s1) ∧
    Scheduler.run s1 others = Some s2 ∧ Worker.execute fuel wp t w = (Some res, w') ∧
    worker_step t2 res (WBusy t) s2 = Next (WIdle, s').
Proof using Type.
  unfold Worker.executeTask, worker_step. split.
  + destruct (UpdateState _ _ _ _ _) as [s1|]; simpl; [|done].
    destruct (Scheduler.run s1 others) as [s2|] eqn:Hrun; simpl; [|done].
    destruct (Worker.execute fuel wp t w) as [[[r|e]|] w1]; simpl; [| |done].
    * destruct (Complete _ _ _ _) as [s3|] eqn:Hc; simpl; [|done]. intros [= <- <-].
      exists s1, s2, (Ok r). by rewrite Hc.
    * destruct (FailOp _ _ _ _) as [s3|] eqn:Hc; simpl; [|done]. intros [= <- <-].
      exists s1, s2, (Err e). by rewrite Hc.
  + intros (s1 & s2 & res & Hstart & Hrun & -> & Hend).
    destruct (UpdateState _ _ _ _ _) as [s1'|]; simpl in *; [|done]. injection Hstart as ->.
    rewrite Hrun. simpl. destruct res as [r|e]; simpl.
    * destruct (Complete _ _ _ _) as [s3|]; simpl in *; [|done]. by injection Hend as ->.
    * destruct (FailOp _ _ _ _) as [s3|]; simpl in *; [|done]. by injection Hend as ->.
Qed.


(** C27: a stream can end without the result.  The loop looks an operation up, sends
    it, and only then reads the state of the object itself: a worker that finishes
    in between makes the handler return success although nothing it has sent
    says that the operation is done. *)
Theorem stream_can_end_unfinished queueSize nodeID k n h σ u op i t now res :
  ExecServer.packs → reachable (NewNode queueSize nodeID k) n →
  handlers n !! h = Some (HSend σ u op) → Forall (λ o, op_Done o = false) (s_sent σ ++ [op]) →
  workers n !! i = Some (WBusy t) → opName (OperationID t) = s_name σ →
  is_Some (operations (sched n) !! s_name σ) →
  ∃ n' sent, run n [EHandler h now None false; EWorker i now res; EHandler h now None false;
                    EHandler h now None false] = Some n' ∧
    handlers n' !! h = Some (HReturned (Ok ()) sent) ∧ Forall (λ o, op_Done o = false) sent ∧
    completed (sched n') (s_name σ).
Proof using Type.
  intros Hp Hok%reachable_ok Hx Hsent Hi Ht [l Hn]; [|done].
  pose proof (nk_handler n Hok h _ Hx) as [_ Hs Hu _]. pose proof (nk_wf n Hok) as Hwf.
  destruct (Hu σ u eq_refl eq_refl) as [_ Heq]. rewrite (Heq l Hn) in Hx. clear Hu Heq.
  assert (∃ s, worker_step now res (WBusy t) (sched n) = Next (WIdle, s) ∧
    quiet (sched n) (s_name σ) StateCompleted s) as (s & Hw & Hq).
  { rewrite <- Ht. destruct res as [r|e]; simpl;
      [destruct (Complete_touched (sched n) (opName (OperationID t)) (mkExecuteResponse r false) now Hwf) as (s & -> & ?)
      |destruct (FailOp_touched (sched n) (opName (OperationID t)) e now Hwf) as (s & -> & ?)];
      exists s; (split; [done|by apply touched_quiet]). }
  pose proof (q_set _ _ _ _ Hq eq_refl ltac:(by eexists)) as Hcomp.
  pose proof Hcomp as (op' & Hop' & Hst'). unfold lookup_op in Hop'.
  rewrite (q_operations _ _ _ _ Hq), Hn in Hop'. simpl in Hop'.
  destruct (unsubscribe_wf (s_name σ) (s_chan σ) s (q_wf _ _ _ _ Hq)) as (s' & Hun & _).
  do 2 eexists. split_and!.
  - cbn -[worker_step]. rewrite Hx. cbn -[worker_step]. rewrite Hi, Hw. simpl. rewrite lookup_insert_eq. simpl.
    rewrite Hop', Hst'. simpl. rewrite lookup_insert_eq. simpl. rewrite Hun. simpl. done.
  - simpl. rewrite lookup_insert_eq. unfold ending. simpl. by rewrite andb_false_r.
  - done.
  - simpl. destruct Hcomp as (op2 & Hop2 & Hst2). exists op2. split; [|done]. unfold lookup_op in *.
    clear -Hun Hop2. unfold unsubscribe in Hun. repeat case_match; by simplify_eq/=.
Qed.

(** A cached answer can be unfinished: the task of a request that was
    answered from the cache is in the queue, and a worker that starts it between
    the completion and the lookup of the handler makes the only message of the
    stream an operation that is not done. *)
Theorem cached_answer_can_be_unfinished queueSize nodeID k n h name i t now res :
  ExecServer.packs → reachable (NewNode queueSize nodeID k) n →
  handlers n !! h = Some (HFinal name) → workers n !! i = Some (WTaken t) →
  opName (OperationID t) = name → is_Some (operations (sched n) !! name) →
  ∃ n' o, run n [EWorker i now res; EHandler h now None false; EHandler h now None false] = Some n' ∧
    handlers n' !! h = Some (HReturned (Ok ()) [o]) ∧ op_Done o = false.
Proof using Type.
  intros Hp Hok%reachable_ok Hx Hi <- [l Hn]; [|done]. pose proof (nk_wf n Hok) as Hwf.
  destruct (wf_ops _ Hwf _ _ Hn) as (op & Hl & Hname).
  destruct (UpdateState_spec (sched n) _ l op Hwf Hn Hl StateExecuting
    (mkMetadata STAGE_EXECUTING (ActionDigest t)) now) as (cs & _ & Hup).
  set (op' := mkOp _ _ _ _ _ _ _) in Hup. set (s := with_op _ _ _ _ _) in Hup.
  destruct (ExecServer.toProto_packs op' Hp) as (o & Ho & _ & Hdone). simpl in Hdone.
  assert (GetOperation (opName (OperationID t)) s = Ok o) as Hget.
  { unfold GetOperation, lookup_op. simpl. rewrite Hn. simpl. by rewrite lookup_insert_eq. }
  do 2 eexists. split_and!.
  - simpl. rewrite Hi. simpl. rewrite Hup. simpl. rewrite Hx. simpl. rewrite Hget. simpl.
    rewrite lookup_insert_eq. simpl. done.
  - simpl. apply lookup_insert_eq.
  - done.
Qed.
End properties.

(** ** Concrete instances *)
Module Demo.
Import Messages.Concrete ExecServer.Demo.

(** Runs with admissible events only. *)
Definition allowed (n : node) (e : event) : bool :=
  match e with
  | EExecute h uuid _ _ origin =>
      match handlers n !! h with
      | None => bool_decide (newOperationID (sched n) uuid origin ∉ issued n)
      | Some _ => false
      end
  | EExecuteCached h uuid _ _ _ =>
      match handlers n !! h with
      | None => bool_decide (newOperationID (sched n) uuid "" ∉ issued n)
      | Some _ => false
      end
  | EWaitExecution h _ => match handlers n !! h with None => true | Some _ => false end
  | _ => true
  end.

Lemma allowed_admissible n e : allowed n e = true → admissible n e.
Proof.
  destruct e; simpl; try done; destruct (handlers n !! h); try done; intros ?; to_prop; done.
Qed.

Fixpoint play (n : node) (es : list event) : option node :=
  match es with
  | [] => Some n
  | e :: es => if allowed n e then match step n e with Next n' => play n' es | _ => None end else None
  end.

Lemma play_reachable n0 n es n' : reachable n0 n → play n es = Some n' → reachable n0 n'.
Proof.
  revert n. induction es as [|e es IH]; intros n Hr; simpl; [by intros [= <-]|].
  destruct (allowed n e) eqn:Ha; [|done]. destruct (step n e) as [| |n1] eqn:Hs; try done.
  apply IH. eapply reach_step; [exact Hr|by apply allowed_admissible|exact Hs].
Qed.

Definition node0 : node := NewNode 4 "b" 2.
Definition after (es : list event) : node := default node0 (play node0 es).
Lemma played_reachable es : reachable node0 (after es).
Proof.
  unfold after. destruct (play node0 es) as [n|] eqn:Hp; simpl; [|constructor].
  eapply play_reachable; [constructor|exact Hp].
Qed.

(** A client executes; its handler has looked up the queued operation, and a worker
    executes the task. *)
Definition on : event := EHandler 0 1 None false.
Definition raced : node :=
  after [EExecute 0 "u1" 0 req ""; on; on; on; on; EWorker 0 2 (Err EOF); EWorker 0 3 (Err EOF)].
Definition task1 : Task := mkTask "b:u1" (mkPbDigest hash64 0) false 0.
Definition queued_op : Operation :=
  mkOperation _ name1 (inl (mkMetadata STAGE_QUEUED (mkPbDigest hash64 0))) false None.
Definition stream1 (sent : list Operation) : stream := mkStream _ name1 1 false sent.

Lemma raced_handler : handlers raced !! 0%nat = Some (HSend (stream1 [queued_op]) 0 queued_op).
Proof. vm_compute. reflexivity. Qed.


Lemma tasks_execute_once_witness : NoDup (finished raced ++ held (workers raced) ++ queued (sched raced)).
Proof. exact (proj1 (tasks_execute_once 4 "b" 2 raced concrete_packs (played_reachable _))). Defined.

Lemma stream_can_end_unfinished_witness :
  ∃ n' sent, handlers n' !! 0%nat = Some (HReturned (Ok ()) sent) ∧
    Forall (λ o, op_Done o = false) sent ∧ Node.completed (sched n') name1.
Proof.
  destruct (stream_can_end_unfinished 4 "b" 2 raced 0 (stream1 [queued_op]) 0 queued_op 0 task1 4
    (Err EOF) concrete_packs (played_reachable _) raced_handler)
    as (n' & sent & _ & Hret & Hsent & Hc);
    [repeat constructor|vm_compute; reflexivity|reflexivity|vm_compute; eexists; reflexivity|].
  exists n', sent. split; [exact Hret|]. split; [exact Hsent|exact Hc].
Defined.

(** The same race won by the handler: it has sent the queued state and waits when
    the worker finishes. *)
Definition finished_node : node :=
  after [EExecute 0 "u1" 0 req ""; on; on; on; on; on; on; EWorker 0 2 (Err EOF); EWorker 0 3 (Err EOF);
         EWorker 0 4 (Ok (mkActionResult [] [] 0 None None))].
Definition finished_op : OperationStatus :=
  mkOp name1 StateCompleted (mkMetadata STAGE_COMPLETED (mkPbDigest hash64 0)) (Some resp) None 0 4.

Lemma waiting_client_gets_result_witness :
  ∃ n' o, op_Done o = true ∧
    handlers n' !! 0%nat = Some (HReturned (Ok ()) ([queued_op; queued_op] ++ [o])).
Proof.
  destruct (waiting_client_gets_result 4 "b" 2 finished_node 0 (stream1 [queued_op; queued_op]) 0 finished_op 5
    concrete_packs (played_reachable _)) as (n' & o & _ & _ & Hd & Hret & _);
    [vm_compute; reflexivity..|].
  exists n', o. split; [exact Hd|exact Hret].
Defined.

(** A cache hit whose task a worker has taken. *)
Definition hit_node : node :=
  after [EExecuteCached 0 "u1" 0 req (mkActionResult [] [] 0 None None); on; EWorker 0 2 (Err EOF)].
Lemma cached_answer_can_be_unfinished_witness :
  ∃ n' o, handlers n' !! 0%nat = Some (HReturned (Ok ()) [o]) ∧ op_Done o = false.
Proof.
  destruct (cached_answer_can_be_unfinished 4 "b" 2 hit_node 0 name1 0
    (mkTask "b:u1" (mkPbDigest hash64 0) true 0) 3 (Err EOF) concrete_packs (played_reachable _))
    as (n' & o & _ & Hret & Hd);
    [vm_compute; reflexivity|vm_compute; reflexivity|reflexivity|vm_compute; eexists; reflexivity|].
  exists n', o. split; [exact Hret|exact Hd].
Defined.
End Demo.
End Node.
