(* ===== verification/ClusterRun.v ===== *)
(** The life of a cluster manager (src/pkg/cluster/cluster.go): joining, leaving,
    and the loop that broadcasts the state and looks for new peers.

    memberlist is a parameter: creating the list, joining, leaving, and the queue
    of broadcasts, which keeps a message until another one invalidates it.  The
    loop is a step per ticker event. *)

From S2P Require Import Prelude GoStrings Messages Float64 Cluster.
Local Open Scope Z_scope.

Module ClusterRun.
Import Cluster.

(** [stateBroadcast]. *)
Record stateBroadcast := mkBroadcast { data : string }.
Definition Invalidates (b other : stateBroadcast) : bool := true.
Definition Message (b : stateBroadcast) : string := data b.

#[export] Instance stateBroadcast_eq_dec : EqDecision stateBroadcast.
Proof. solve_decision. Defined.

(** The fields of [memberlist.Config] that [Start] sets; an empty advertised
    address is found by memberlist. *)
Record mlConfig := mkMlConfig {
  ml_Name : string; ml_BindPort : N; ml_AdvertiseAddr : string; ml_AdvertisePort : N }.

Class Memberlist := {
  ml_Create : mlConfig → option error;
  ml_Join : list string → option error;
  ml_Leave : option error;
  ml_Shutdown : option error;
  QueueBroadcast : stateBroadcast → list stateBroadcast → list stateBroadcast;
  QueueBroadcast_queued b q : b ∈ QueueBroadcast b q;
  QueueBroadcast_kept b q o : o ∈ QueueBroadcast b q → o = b ∨ (o ∈ q ∧ Invalidates b o = false);
  (** what the queue hands out to be sent, up to the limit *)
  TransmitLimited : Z → Z → list stateBroadcast → list stateBroadcast;
}.

(** The manager with its list and its queue of broadcasts, [None] before
    [Start]; [known] are the members memberlist knows. *)
Record Node := mkNodeRun {
  manager : Manager;
  members : option (list Cluster.Node);
  broadcasts : option (list stateBroadcast);
}.

(** *** The log of memberlist

    A line carries its level in brackets. *)

Definition log_level (msg : string) : Level * string :=
  if Contains msg "[DEBUG]" then (LevelDebug, ReplaceFirst msg "[DEBUG]" "")
  else if Contains msg "[WARN]" then (LevelWarn, ReplaceFirst msg "[WARN]" "")
  else if Contains msg "[ERR]" || Contains msg "[ERROR]"
  then (LevelError, ReplaceFirst (ReplaceFirst msg "[ERR]" "") "[ERROR]" "")
  else if Contains msg "[INFO]" then (LevelInfo, ReplaceFirst msg "[INFO]" "")
  else (LevelInfo, msg).

(** [logAdapter.Write]: the record that is logged, and the bytes reported as
    written. *)
Definition log_Write (p : string) : (Level * string) * Z :=
  let '(level, msg) := log_level (TrimSpace p) in
  ((level, TrimSpace (TrimPrefix (TrimSpace msg) "memberlist:")), Z.of_nat (String.length p)).

Example log_warning :
  log_Write "[WARN] memberlist: refuting " = ((LevelWarn, "refuting"), 28).
Proof. vm_compute. reflexivity. Qed.
Example log_error :
  log_Write " [ERR] memberlist: Failed fast [INFO] " = ((LevelError, "Failed fast [INFO]"), 38).
Proof. vm_compute. reflexivity. Qed.

Section run.
Context `{NodeStatePb, Memberlist}.
Implicit Types (n : Node).

Definition set_broadcasts (q : list stateBroadcast) n : Node := mkNodeRun (manager n) (members n) (Some q).

Definition ml_config (m : Manager) : mlConfig :=
  mkMlConfig (ns_Name (localState m)) (BindPort (cfg m)) (AdvertiseAddr (cfg m)) (BindPort (cfg m)).

(** [initial] are the members right after the list is created, [joined] the ones
    after joining.  A failed join is logged. *)
Definition Start (initial joined : list Cluster.Node) (at_ : nat → attempt) n : result unit * Node :=
  match ml_Create (ml_config (manager n)) with
  | Some e => (Err (Wrapped "failed to create memberlist" e), n)
  | None =>
      let n := mkNodeRun (manager n) (Some initial) (Some []) in
      match discoverPeers (cfg (manager n)) at_ with
      | Err e => (Err (Wrapped "peer discovery failed" e), n)
      | Ok peers =>
          if (0 <? List.length peers)%nat
          then (Ok (), mkNodeRun (manager n)
                         (Some match ml_Join peers with None => joined | Some _ => initial end) (Some []))
          else (Ok (), n)
      end
  end.

Definition Stop n : result unit :=
  match members n with
  | None => Ok ()
  | Some _ =>
      match ml_Leave with
      | Some e => Err (Wrapped "failed to leave cluster" e)
      | None => match ml_Shutdown with Some e => Err e | None => Ok () end
      end
  end.

Definition BroadcastState (load now : Z) n : Node :=
  match broadcasts n with
  | None => n
  | Some q =>
      match Marshal (GetLocalState load now (manager n)) with
      | Err _ => n
      | Ok data => set_broadcasts (QueueBroadcast (mkBroadcast data) q) n
      end
  end.

Definition GetBroadcasts (overhead limit : Z) n : list string :=
  match broadcasts n with None => [] | Some q => Message <$> TransmitLimited overhead limit q end.

(** The delegate's state for a push/pull exchange. *)
Definition LocalState (load now : Z) n : option string := NodeMeta 512 load now (manager n).

Definition Members n : nat := match members n with None => 1 | Some ms => List.length ms end.

Definition HealthyMembers n : list string :=
  match members n with
  | None => [ns_Name (localState (manager n))]
  | Some ms => merge_sort String.le (n_Name <$> ms)
  end.

(** *** The loop of [Run] *)

(** The state of the loop: the node, the load last seen by the load ticker, and
    the addresses joined so far. *)
Record loop := mkLoop { node : Node; lastLoad : Z; joins : list (list string) }.

Definition start_loop (load : Z) n : loop :=
  mkLoop n (if hasLoadProvider (manager n) then load else 0) [].

(** The tickers, with the answers of the load provider, the clock and the
    resolver, and the members when it looks for new ones. *)
Inductive tick :=
  | TPeriod (load now : Z)
  | TLoad (load now : Z)
  | TDns (at_ : nat → attempt) (ms : list Cluster.Node).

Definition run_tick (l : loop) (t : tick) : loop :=
  match t with
  | TPeriod load now => mkLoop (BroadcastState load now (node l)) (lastLoad l) (joins l)
  | TLoad load now =>
      let '(last, send) := loadTick load (lastLoad l) (manager (node l)) in
      mkLoop (if send then BroadcastState load now (node l) else node l) last (joins l)
  | TDns at_ ms =>
      if (DiscoveryMode (cfg (manager (node l))) =? "dns")%string then
        match discoverDNS (cfg (manager (node l))) at_ with
        | Err _ => l
        | Ok found =>
            let newPeers := filterKnownPeers (Some ms) found in
            if (0 <? List.length newPeers)%nat
            then mkLoop (node l) (lastLoad l) (joins l ++ [newPeers]) else l
        end
      else l
  end.

(** The period of the first ticker. *)
Definition period (c : ClusterConfig) : Z :=
  if BroadcastPeriod c <=? 0 then 500 * 1000000 else BroadcastPeriod c.

(** [Run]: the loop ends when the context does, with its error. *)
Definition Run (load : Z) (ts : list tick) (ended : option error) n : option error * loop :=
  (ended, foldl run_tick (start_loop load n) ts).
End run.

(** ** What peers receive *)

Section broadcast.
Context `{NodeStatePb, Memberlist}.
Implicit Types (n : Node) (l : loop).

Definition queue l : list stateBroadcast := default [] (broadcasts (node l)).

(** The codec accepts the states of the node. *)
Definition marshals n : Prop := ∀ load now, ∃ d, Marshal (GetLocalState load now (manager n)) = Ok d.

(** The load and the time of a tick that may have broadcast. *)
Definition observed (t : tick) (load now : Z) : Prop :=
  match t with
  | TPeriod l x => l = load ∧ x = now
  | TLoad l x => l = load ∧ x = now ∧ 0 < l
  | TDns _ _ => False
  end.

(** A message that carries the state of the node at one of the ticks. *)
Definition from_tick n (ts : list tick) (b : stateBroadcast) : Prop :=
  ∃ t load now, t ∈ ts ∧ observed t load now ∧ Marshal (GetLocalState load now (manager n)) = Ok (data b).

Lemma BroadcastState_queue load now n q :
  marshals n → broadcasts n = Some q →
  ∃ b q', BroadcastState load now n = set_broadcasts q' n ∧ b ∈ q' ∧ (∀ o, o ∈ q' → o = b) ∧
    Marshal (GetLocalState load now (manager n)) = Ok (data b).
Proof.
  intros Hm Hq. unfold BroadcastState. rewrite Hq. destruct (Hm load now) as [d Hd]. rewrite Hd.
  eexists (mkBroadcast d), _. split_and!; [done|apply QueueBroadcast_queued| |done].
  intros o Ho. by destruct (QueueBroadcast_kept _ _ _ Ho) as [|[_ [=]]].
Qed.

(** The queue holds at least one message, and only recent ones. *)
Definition fresh_queue n (ts : list tick) l : Prop :=
  manager (node l) = manager n ∧
  ∃ q, broadcasts (node l) = Some q ∧ q ≠ [] ∧ ∀ b, b ∈ q → from_tick n ts b.

Lemma from_tick_app n ts t b : from_tick n ts b → from_tick n (ts ++ [t]) b.
Proof. intros (t' & x & y & Ht & ?). exists t', x, y. by rewrite elem_of_app; auto. Qed.

Lemma broadcast_fresh n ts t l load now q :
  marshals n → manager (node l) = manager n → broadcasts (node l) = Some q → observed t load now →
  ∀ last js, fresh_queue n (ts ++ [t]) (mkLoop (BroadcastState load now (node l)) last js).
Proof.
  intros Hm Hman Hq Hobs last js.
  destruct (BroadcastState_queue load now (node l) q) as (b & q' & -> & Hb & Hall & Hd); [|done|].
  { intros x y. rewrite Hman. apply Hm. }
  split; [done|]. exists q'. split_and!; [done|by intros ->; apply not_elem_of_nil in Hb|].
  intros o ->%Hall. exists t, load, now. rewrite <- Hman. split; [set_solver|done].
Qed.

Lemma run_tick_fresh n ts t l : marshals n → fresh_queue n ts l → fresh_queue n (ts ++ [t]) (run_tick l t).
Proof.
  intros Hm (Hman & q & Hq & Hne & Hall).
  assert (∀ last js, fresh_queue n (ts ++ [t]) (mkLoop (node l) last js)) as Hkeep.
  { intros last js. split; [done|]. exists q. eauto using from_tick_app. }
  destruct t as [load now|load now|at_ ms]; simpl.
  - by eapply broadcast_fresh.
  - unfold loadTick. rewrite Hman. destruct (hasLoadProvider (manager n)); [|apply Hkeep].
    destruct (load =? lastLoad l); [apply Hkeep|]. destruct (Z.ltb_spec 0 load); [|apply Hkeep].
    by eapply broadcast_fresh.
  - specialize (Hkeep (lastLoad l)). destruct l as [nd last js]. simpl in *.
    destruct (_ =? _)%string; [|done]. destruct (discoverDNS _ _); [|done]. by destruct (_ <? _)%nat.
Qed.

(** The queue and the manager of a loop, whatever it did. *)
Lemma run_tick_ready n t l :
  manager (node l) = manager n → is_Some (broadcasts (node l)) →
  manager (node (run_tick l t)) = manager n ∧ is_Some (broadcasts (node (run_tick l t))).
Proof.
  assert (∀ load now n', manager n' = manager n → is_Some (broadcasts n') →
    manager (BroadcastState load now n') = manager n ∧ is_Some (broadcasts (BroadcastState load now n')))
    as Hb.
  { intros load now n' Hn [q Hq]. unfold BroadcastState. rewrite Hq.
    destruct (Marshal _); simpl; rewrite ?Hq; eauto. }
  intros Hn Hq. destruct t as [load now|load now|at_ ms]; simpl; [by apply Hb| |].
  - unfold loadTick. destruct (hasLoadProvider _); [|done]. destruct (_ =? _); [done|].
    destruct (0 <? load); [by apply Hb|done].
  - destruct (_ =? _)%string; [|done]. destruct (discoverDNS _ _); [|done]. by destruct (_ <? _)%nat.
Qed.

Lemma ready_run n ts l :
  manager (node l) = manager n → is_Some (broadcasts (node l)) →
  manager (node (foldl run_tick l ts)) = manager n ∧ is_Some (broadcasts (node (foldl run_tick l ts))).
Proof.
  revert l. induction ts as [|t ts IH]; intros l Hn Hq; simpl; [done|].
  by apply IH; apply (run_tick_ready n t l).
Qed.

Lemma fresh_run n later ts l :
  marshals n → fresh_queue n ts l → fresh_queue n (ts ++ later) (foldl run_tick l later).
Proof.
  intros Hm. revert ts l. induction later as [|t later IH]; intros ts l Hf; simpl; [by rewrite app_nil_r|].
  replace (ts ++ t :: later) with ((ts ++ [t]) ++ later) by (by rewrite <- app_assoc).
  by apply IH, run_tick_fresh.
Qed.

(** What a peer records on a state message of another node. *)
Lemma received peer state msg :
  Marshal state = Ok msg → ns_Name state ≠ "" → ns_Name state ≠ ns_Name (localState peer) →
  ∃ s, peers (NotifyMsg msg peer) !! ns_Name state = Some s ∧
    PendingTasks s = PendingTasks state ∧ MaxConcurrency s = MaxConcurrency state.
Proof.
  intros Hd Hname Hpeer. pose proof (Unmarshal_Marshal _ _ Hd) as Hu. unfold NotifyMsg.
  destruct (String.eqb_spec msg "") as [->|_].
  { rewrite Unmarshal_empty in Hu. by injection Hu as <-. }
  rewrite Hu, (proj2 (String.eqb_neq _ _) Hpeer). simpl.
  repeat case_match; simpl; rewrite lookup_insert_eq; by eexists.
Qed.

End broadcast.

(** ** Concrete instances *)
Module Demo.
(** A codec: a state is numbered and its number written in binary. *)
Definition tuple (s : NodeState) : string * string * Z * Z * string * Z :=
  (ns_Name s, GrpcAddress s, PendingTasks s, MaxConcurrency s, Tag s, LastUpdated s).
Definition untuple (t : string * string * Z * Z * string * Z) : NodeState :=
  let '(a, b, c, d, e, f) := t in mkNodeState a b c d e f.

Fixpoint bits (p : positive) : string :=
  match p with xH => "" | xO p => String "0" (bits p) | xI p => String "1" (bits p) end.
Fixpoint of_bits (s : string) : positive :=
  match s with
  | "" => xH
  | String a s => if (a =? "0")%char then xO (of_bits s) else xI (of_bits s)
  end.
Lemma of_bits_bits p : of_bits (bits p) = p.
Proof. induction p; simpl; congruence. Qed.

#[export, program] Instance codec : NodeStatePb := {|
  Marshal s := if bool_decide (tuple s = tuple zero_state) then Ok "" else Ok ("s" +:+ bits (encode (tuple s)));
  Unmarshal b := match b with
                 | "" => Ok zero_state
                 | String _ b => match decode (of_bits b) with
                                 | Some t => Ok (untuple t)
                                 | None => Err (Errorf "proto: cannot parse")
                                 end
                 end;
|}.
Next Obligation.
  intros [] b. simpl. case_bool_decide as E; intros [= <-].
  - by injection E as -> -> -> -> -> ->.
  - by rewrite of_bits_bits, decode_encode.
Qed.
Next Obligation. done. Qed.

(** A queue that replaces what a new message invalidates. *)
#[export, program] Instance ml : Memberlist := {|
  ml_Create _ := None; ml_Join _ := None; ml_Leave := None; ml_Shutdown := None;
  QueueBroadcast b q := b :: filter (λ o, Invalidates b o = false) q;
  TransmitLimited _ _ q := q;
|}.
Next Obligation. intros. by left. Qed.
Next Obligation.
  intros b q o Ho. apply elem_of_cons in Ho as [->|Ho]; [by left|].
  apply list_elem_of_filter in Ho as [? ?]. by right.
Qed.

Definition config1 : ClusterConfig := mkClusterConfig true "a" 7946 "" "list" [] "" 0.
Definition node1 : Node :=
  mkNodeRun (SetLoadProvider (NewManager config1 ":50051" 4 false (Ok "host") "u" 0)) (Some []) (Some []).
Definition peer1 : Manager :=
  NewManager (mkClusterConfig true "b" 7946 "" "list" [] "" 0) ":50051" 4 true (Ok "host") "u" 0.

End Demo.
End ClusterRun.
