(* ===== verification/Telemetry.v ===== *)
(** Telemetry (src/pkg/telemetry/telemetry.go): what [Setup] registers and when it
    fails.  The exporter, resources and providers of OpenTelemetry are a class;
    the global tracer provider and propagator are a state. *)

From S2P Require Import Prelude.
Local Open Scope Z_scope.

Module Telemetry.

Record Config := mkConfig { MetricsAddr : string; TracingEndpoint : string }.

(** The options of [otlptracegrpc.New] that are set. *)
Record exporter := mkExporter { Insecure : bool; Endpoint : string }.
Inductive attribute := ServiceName (s : string) | ServiceVersion (s : string).
Inductive propagator := TraceContext | Baggage.

Class Otel := {
  otlptracegrpc_New : exporter → option error;
  Resource : Type;
  resource_Default : Resource;
  (** the attributes under the SDK's schema URL *)
  resource_NewWithAttributes : list attribute → Resource;
  resource_Merge : Resource → Resource → result Resource;
  (** [TracerProvider.Shutdown] within a time limit, of a provider with or without
      an exporter *)
  tp_Shutdown : option (exporter * Resource) → Z → option error;
}.

(** A provider that exports in batches, or nothing. *)
Definition TracerProvider `{Otel} : Type := option (exporter * Resource).

Section setup.
Context `{Otel}.

Record globals := mkGlobals {
  tracerProvider : option TracerProvider;
  textMapPropagator : option (list propagator);
}.

Definition service : list attribute := [ServiceName "gorego"; ServiceVersion "0.0.1"].

(** The provider whose shutdown the returned function performs; the registry of
    metrics is always new and empty. *)
Definition Setup (cfg : Config) (g : globals) : result TracerProvider * globals :=
  if negb (TracingEndpoint cfg =? "")%string then
    let e := mkExporter true (TracingEndpoint cfg) in
    match otlptracegrpc_New e with
    | Some err => (Err (Wrapped "failed to create OTLP exporter" err), g)
    | None =>
        match resource_Merge resource_Default (resource_NewWithAttributes service) with
        | Err err => (Err (Wrapped "failed to create resource" err), g)
        | Ok res =>
            let tp := Some (e, res) in
            (Ok tp, mkGlobals (Some tp) (Some [TraceContext; Baggage]))
        end
    end
  else (Ok None, mkGlobals (Some None) (textMapPropagator g)).

(** The function [Setup] returns. *)
Definition shutdown (tp : TracerProvider) : option error :=
  Wrapped "tracer provider shutdown failed" <$> tp_Shutdown tp (5 * 1000000000).

(** What succeeds is registered, what fails leaves no trace; without an endpoint
    nothing can fail, and nothing is exported. *)
Lemma Setup_registers cfg g :
  match Setup cfg g with
  | (Ok tp, g') => tracerProvider g' = Some tp ∧
      (tp = None ↔ TracingEndpoint cfg = "") ∧
      textMapPropagator g' = match tp with Some _ => Some [TraceContext; Baggage] | None => textMapPropagator g end
  | (Err _, g') => g' = g ∧ TracingEndpoint cfg ≠ ""
  end.
Proof using Type.
  unfold Setup. destruct (TracingEndpoint cfg =? "")%string eqn:E; simpl; to_prop; [by split_and!|].
  destruct (otlptracegrpc_New _); [done|]. by destruct (resource_Merge _ _).
Qed.
End setup.
End Telemetry.
