(* ===== verification/Config.v ===== *)
(** The configuration (src/pkg/config/config.go) and what the program makes of
    its TLS sections: the server's credentials (loadServerTLS in
    src/cmd/gorego/main.go) and the connection to the backing cache
    (NewRemoteStore in src/pkg/storage/remote.go).

    Viper is a parameter: the source configures it, and it answers with a setting
    for each key.  The files and the X.509 code of crypto/tls are parameters too;
    which clients a server admits is what crypto/tls documents for each mode. *)

From S2P Require Import Prelude GoStrings Messages Fs Sandbox Cluster Remote Worker.
Local Open Scope Z_scope.

Module Config.

(** ** The data of the configuration *)

Record TLSConfig := mkTLSConfig {
  tls_Enabled : bool; CertFile : string; KeyFile : string; CAFile : string; ClientAuth : string }.
Record LocalCacheConfig := mkLocalCacheConfig { lc_Enabled : bool; lc_Dir : string; MaxSizeGB : Z }.
Record ExecutionConfig := mkExecutionConfig {
  ex_Enabled : bool; Concurrency : Z; BuildRoot : string; QueueSize : Z; ex_Sandbox : Sandbox.SandboxConfig }.
Record BackingCacheConfig := mkBackingCacheConfig {
  Target : string; Compression : string; PutRetryCount : Z; bc_TLS : TLSConfig }.
Record TelemetryConfig := mkTelemetryConfig { MetricsAddr : string; TracingEndpoint : string }.
Record Config := mkConfig {
  ListenAddr : string;
  TLS : TLSConfig;
  LocalCache : LocalCacheConfig;
  ForceUpdateATime : bool;
  LogLevel : string;
  BackingCache : BackingCacheConfig;
  Telemetry : TelemetryConfig;
  Execution : ExecutionConfig;
  ClusterSection : Cluster.ClusterConfig;
}.

(** An absolute directory of the configuration. *)
Definition dir_path (s : string) : path := Join [] [s].

(** What the worker pool reads of its section. *)
Definition worker_config (c : ExecutionConfig) : Worker.ExecutionConfig :=
  Worker.mkExecutionConfig (dir_path (BuildRoot c)) (Concurrency c) (ex_Sandbox c).

(** ** Loading it *)

Inductive value := VBool (b : bool) | VInt (z : Z) | VString (s : string) | VStrings (l : list string).

(** Where viper looks for the file. *)
Inductive location :=
  | ConfigFile (path : string)
  | Search (name ty : string) (dirs : list string).

(** What the source sets on a [viper.Viper]. *)
Record viper := mkViper {
  v_defaults : list (string * value);
  v_env_prefix : string;
  v_env_replace : list (string * string);
  v_automatic_env : bool;
  v_location : location;
}.

Inductive read_error := ConfigFileNotFoundError | OtherReadError (e : error).

(** *** Decoding: the mapstructure tags.  A key without a setting leaves the zero
    value; durations are written as a number and a unit. *)

Section decode.
Variable get : string → option value.

Definition get_bool (k : string) : result bool :=
  match get k with None => Ok false | Some (VBool b) => Ok b | _ => Err (Errorf k) end.
Definition get_int (k : string) : result Z :=
  match get k with None => Ok 0 | Some (VInt z) => Ok z | _ => Err (Errorf k) end.
Definition get_string (k : string) : result string :=
  match get k with None => Ok "" | Some (VString s) => Ok s | _ => Err (Errorf k) end.
Definition get_strings (k : string) : result (list string) :=
  match get k with None => Ok [] | Some (VStrings l) => Ok l | _ => Err (Errorf k) end.

Fixpoint split_digits (s : string) : string * string :=
  match s with
  | String a s' => if is_digit a then let '(d, u) := split_digits s' in (String a d, u) else ("", s)
  | "" => ("", "")
  end.
Definition duration_units : list (string * Z) :=
  [("ns", 1); ("us", 1000); ("ms", 1000000); ("s", 1000000000); ("m", 60000000000);
   ("h", 3600000000000)].
Definition get_duration (k : string) : result Z :=
  s ← get_string k;
  if (s =? "")%string then Ok 0 else
  let '(digits, unit_) := split_digits s in
  n ← ParseInt_digits digits;
  match list_find (λ u, u.1 = unit_) duration_units with
  | Some (_, (_, ns)) => Ok (n * ns)
  | None => Err (Errorf k)
  end.

Definition decode_tls (section : string) : result TLSConfig :=
  enabled ← get_bool (section +:+ ".enabled");
  cert ← get_string (section +:+ ".cert_file");
  key ← get_string (section +:+ ".key_file");
  ca ← get_string (section +:+ ".ca_file");
  auth ← get_string (section +:+ ".client_auth");
  mret (mkTLSConfig enabled cert key ca auth).

Definition decode_sandbox : result Sandbox.SandboxConfig :=
  enabled ← get_bool "execution.sandbox.enabled";
  binary ← get_string "execution.sandbox.binary_path";
  isolation ← get_bool "execution.sandbox.network_isolation";
  writable ← get_strings "execution.sandbox.writable_paths";
  kill ← get_int "execution.sandbox.kill_delay";
  debug ← get_bool "execution.sandbox.debug";
  mret (Sandbox.mkSandboxConfig enabled binary isolation writable kill debug).

Definition decode_execution : result ExecutionConfig :=
  enabled ← get_bool "execution.enabled";
  concurrency ← get_int "execution.concurrency";
  root ← get_string "execution.build_root";
  queue ← get_int "execution.queue_size";
  sandbox ← decode_sandbox;
  mret (mkExecutionConfig enabled concurrency root queue sandbox).

Definition decode_cluster : result Cluster.ClusterConfig :=
  enabled ← get_bool "cluster.enabled";
  node ← get_string "cluster.node_id";
  port ← get_int "cluster.bind_port";
  advertise ← get_string "cluster.advertise_addr";
  mode ← get_string "cluster.discovery_mode";
  peers ← get_strings "cluster.join_peers";
  dns ← get_string "cluster.dns_service_name";
  period ← get_duration "cluster.broadcast_period";
  mret (Cluster.mkClusterConfig enabled node (Z.to_N port) advertise mode peers dns period).

Definition decode_local_cache : result LocalCacheConfig :=
  enabled ← get_bool "local_cache.enabled";
  dir ← get_string "local_cache.dir";
  size ← get_int "local_cache.max_size_gb";
  mret (mkLocalCacheConfig enabled dir size).

Definition decode_backing_cache : result BackingCacheConfig :=
  target ← get_string "backing_cache.target";
  compression ← get_string "backing_cache.compression";
  retries ← get_int "backing_cache.put_retry_count";
  tls ← decode_tls "backing_cache.tls";
  mret (mkBackingCacheConfig target compression retries tls).

Definition decode_telemetry : result TelemetryConfig :=
  metrics ← get_string "telemetry.metrics_addr";
  tracing ← get_string "telemetry.tracing_endpoint";
  mret (mkTelemetryConfig metrics tracing).

Definition decode : result Config :=
  listen ← get_string "listen_addr";
  tls ← decode_tls "tls";
  local ← decode_local_cache;
  atime ← get_bool "force_update_atime";
  level ← get_string "log_level";
  backing ← decode_backing_cache;
  telemetry ← decode_telemetry;
  execution ← decode_execution;
  cluster ← decode_cluster;
  mret (mkConfig listen tls local atime level backing telemetry execution cluster).
End decode.

(** Decoding depends on the settings only. *)
Lemma decode_ext f g : (∀ k, f k = g k) → decode f = decode g.
Proof.
  intros Hfg.
  assert (∀ k, get_bool f k = get_bool g k) as Hb by (intros; unfold get_bool; by rewrite Hfg).
  assert (∀ k, get_int f k = get_int g k) as Hi by (intros; unfold get_int; by rewrite Hfg).
  assert (∀ k, get_string f k = get_string g k) as Hs by (intros; unfold get_string; by rewrite Hfg).
  assert (∀ k, get_strings f k = get_strings g k) as Hl by (intros; unfold get_strings; by rewrite Hfg).
  assert (∀ k, get_duration f k = get_duration g k) as Hd by (intros; unfold get_duration; by rewrite Hs).
  assert (∀ k, decode_tls f k = decode_tls g k) as Ht by (intros; unfold decode_tls; by rewrite Hb, !Hs).
  unfold decode, decode_local_cache, decode_backing_cache,
      decode_telemetry, decode_execution, decode_sandbox, decode_cluster.
  by rewrite !Hb, !Hi, !Hs, !Hl, !Hd, !Ht.
Qed.

(** Viper: what the file and the environment say about a key of a configured
    instance.  They precede the default, and an instance whose settings have the
    types of the fields is decoded by the tags. *)
Class Viper := {
  ReadInConfig : viper → option read_error;
  Unmarshal : viper → result Config;
  configured : viper → string → option value;
  Unmarshal_settings v cfg :
    decode (λ k, match configured v k with
                 | Some x => Some x
                 | None => (list_to_map (v_defaults v) : gmap string value) !! k
                 end) = Ok cfg →
    Unmarshal v = Ok cfg;
}.

Definition defaults : list (string * value) := [
  ("listen_addr", VString ":50051");
  ("local_cache.enabled", VBool true);
  ("local_cache.dir", VString "/tmp/gorego/cache");
  ("local_cache.max_size_gb", VInt 10);
  ("cluster.enabled", VBool false);
  ("cluster.bind_port", VInt 7946);
  ("cluster.discovery_mode", VString "list");
  ("cluster.broadcast_period", VString "500ms");
  ("cluster.node_id", VString "");
  ("cluster.advertise_addr", VString "");
  ("cluster.dns_service_name", VString "");
  ("force_update_atime", VBool false);
  ("log_level", VString "warn");
  ("telemetry.metrics_addr", VString ":9090");
  ("execution.enabled", VBool true);
  ("execution.concurrency", VInt 0);
  ("execution.build_root", VString "/tmp/gorego/builds");
  ("execution.queue_size", VInt 1000);
  ("execution.sandbox.enabled", VBool false);
  ("execution.sandbox.binary_path", VString "/usr/bin/linux-sandbox");
  ("execution.sandbox.network_isolation", VBool true);
  ("execution.sandbox.writable_paths", VStrings []);
  ("execution.sandbox.kill_delay", VInt 5);
  ("execution.sandbox.debug", VBool false);
  ("backing_cache.put_retry_count", VInt 3);
  ("backing_cache.tls.enabled", VBool false);
  ("backing_cache.tls.cert_file", VString "");
  ("backing_cache.tls.key_file", VString "");
  ("backing_cache.tls.ca_file", VString "");
  ("backing_cache.tls.client_auth", VString "none")].

Definition loader (configPath : string) : viper :=
  mkViper defaults "GOREGO" [(".", "_")] true
    (if negb (configPath =? "")%string then ConfigFile configPath
     else Search "config" "yaml" ["."; "./config"]).

Definition LoadConfig `{Viper} (configPath : string) : result Config :=
  let v := loader configPath in
  match ReadInConfig v with
  | Some (OtherReadError e) => Err e
  | Some ConfigFileNotFoundError | None => Unmarshal v
  end.

(** ** TLS *)

(** [tls.ClientAuthType]. *)
Inductive ClientAuthType :=
  | NoClientCert | RequestClientCert | RequireAnyClientCert
  | VerifyClientCertIfGiven | RequireAndVerifyClientCert.

#[export] Instance ClientAuthType_eq_dec : EqDecision ClientAuthType.
Proof. solve_decision. Defined.

(** The key pairs and the pools of certificates in files; [issued] says whether a
    pool contains the authority of a certificate, [None] being the host's pool. *)
Class Tls := {
  certificate : Type;
  pool : Type;
  LoadX509KeyPair : string → string → result certificate;
  ReadPEM : string → result string;
  CertsFromPEM : string → option pool;
  issued : option pool → certificate → bool;
}.

(** The fields of [tls.Config] the sources set. *)
Record tls_config `{Tls} := mkTls {
  Certificates : list certificate;
  tc_ClientAuth : ClientAuthType;
  ClientCAs : option pool;
  RootCAs : option pool;
}.
Arguments mkTls {_}.

Section tls.
Context `{Tls}.

(** The pool of a CA file. *)
Definition load_pool (file : string) : result pool :=
  pem ← match ReadPEM file with Ok s => Ok s | Err e => Err (Wrapped "failed to read CA file" e) end;
  match CertsFromPEM pem with Some p => Ok p | None => Err (Errorf "failed to append CA cert") end.

Definition client_auth_mode (mode : string) : result ClientAuthType :=
  if (mode =? "request")%string then Ok RequestClientCert
  else if (mode =? "require")%string then Ok RequireAnyClientCert
  else if (mode =? "verify_if_given")%string then Ok VerifyClientCertIfGiven
  else if (mode =? "require_and_verify")%string then Ok RequireAndVerifyClientCert
  else Err (Errorf "unknown client_auth mode").

(** [None] are no credentials: the server speaks plain text. *)
Definition loadServerTLS (c : TLSConfig) : result (option tls_config) :=
  if negb (tls_Enabled c) then Ok None else
  match LoadX509KeyPair (CertFile c) (KeyFile c) with
  | Err e => Err (Wrapped "failed to load server cert/key" e)
  | Ok cert =>
      if (ClientAuth c =? "none")%string || (ClientAuth c =? "")%string
      then Ok (Some (mkTls [cert] NoClientCert None None))
      else if (CAFile c =? "")%string
      then Err (Errorf "client_auth enabled but no ca_file provided")
      else
        ca ← load_pool (CAFile c);
        auth ← client_auth_mode (ClientAuth c);
        Ok (Some (mkTls [cert] auth (Some ca) None))
  end.

(** The clients a TLS server accepts, by the certificate they present. *)
Definition accepts (t : tls_config) (client : option certificate) : bool :=
  match tc_ClientAuth t, client with
  | NoClientCert, _ | RequestClientCert, _ => true
  | RequireAnyClientCert, cert => bool_decide (is_Some cert)
  | VerifyClientCertIfGiven, None => true
  | RequireAndVerifyClientCert, None => false
  | VerifyClientCertIfGiven, Some cert | RequireAndVerifyClientCert, Some cert => issued (ClientCAs t) cert
  end.

(** ** The connection to the backing cache *)

(** [client.DialParams] with the credentials among its options; the limit is on
    the size of received messages. *)
Record DialParams := mkDialParams {
  Service : string;
  NoSecurity : bool;
  credentials : option tls_config;
  MaxCallRecvMsgSize : Z;
}.

Definition client_tls (c : TLSConfig) : result tls_config :=
  certs ←
    (if negb (CertFile c =? "")%string && negb (KeyFile c =? "")%string
     then match LoadX509KeyPair (CertFile c) (KeyFile c) with
          | Ok cert => Ok [cert]
          | Err e => Err (Wrapped "failed to load client cert/key" e)
          end
     else Ok []);
  roots ← (if negb (CAFile c =? "")%string then p ← load_pool (CAFile c); Ok (Some p) else Ok None);
  Ok (mkTls certs NoClientCert None roots).

Definition dial_params (c : BackingCacheConfig) : result DialParams :=
  let dialAddr := TrimPrefix (TrimPrefix (Target c) "grpc://") "grpcs://" in
  let limit := 100 * 1024 * 1024 in
  if tls_Enabled (bc_TLS c) then
    creds ← client_tls (bc_TLS c); Ok (mkDialParams dialAddr false (Some creds) limit)
  else Ok (mkDialParams dialAddr true None limit).

(** [NewClient] is the SDK's; it may refuse the parameters. *)
Definition NewRemoteStore (NewClient : DialParams → option error) (c : BackingCacheConfig)
    : result Remote.RemoteStore :=
  params ← dial_params c;
  match NewClient params with
  | Some e => Err e
  | None => Ok (Remote.mkRemoteStore (Compression c))
  end.

(** ** The properties *)

(** The modes in which a client's certificate is verified. *)
Definition verifying (mode : string) : Prop := mode = "verify_if_given" ∨ mode = "require_and_verify".

Lemma client_auth_mode_ok mode auth :
  client_auth_mode mode = Ok auth →
  (mode = "request" ∧ auth = RequestClientCert) ∨ (mode = "require" ∧ auth = RequireAnyClientCert) ∨
  (mode = "verify_if_given" ∧ auth = VerifyClientCertIfGiven) ∨
  (mode = "require_and_verify" ∧ auth = RequireAndVerifyClientCert).
Proof.
  unfold client_auth_mode.
  repeat (match goal with |- context [(?a =? ?b)%string] => destruct (String.eqb_spec a b) end);
    intros [= <-]; auto 6.
Qed.


(** The connection to the backing cache is encrypted if and only if the TLS
    section is enabled, and then the server's certificate is always checked,
    against the CA file if there is one.  The scheme of the target decides
    nothing: a grpcs:// target is dialed like the same target with grpc://, in
    plain text when the section is disabled. *)
Theorem backing_cache_security c params host :
  dial_params c = Ok params →
  (NoSecurity params = false ↔ tls_Enabled (bc_TLS c) = true) ∧
  (∀ t, credentials params = Some t →
     (CAFile (bc_TLS c) = "" ∧ RootCAs t = None) ∨
     ∃ ca, load_pool (CAFile (bc_TLS c)) = Ok ca ∧ RootCAs t = Some ca) ∧
  (Target c = "grpcs://" +:+ host →
   HasPrefix host "grpcs://" = false →
   dial_params (mkBackingCacheConfig ("grpc://" +:+ host) (Compression c) (PutRetryCount c) (bc_TLS c))
   = Ok params).
Proof.
  intros Hd. unfold dial_params in *. split_and!.
  - destruct (tls_Enabled (bc_TLS c)).
    + destruct (client_tls _); [|done]. by injection Hd as <-.
    + by injection Hd as <-.
  - intros t Ht. destruct (tls_Enabled (bc_TLS c)); [|by injection Hd as <-].
    unfold client_tls in Hd.
    destruct (if negb (CertFile (bc_TLS c) =? "")%string && negb (KeyFile (bc_TLS c) =? "")%string
              then _ else _) as [certs|]; [|done]. simpl in Hd.
    destruct (String.eqb_spec (CAFile (bc_TLS c)) "") as [->|]; simpl in Hd.
    { injection Hd as <-. injection Ht as <-. by left. }
    destruct (load_pool _) as [ca|]; [|done]. injection Hd as <-. injection Ht as <-. eauto.
  - intros Ht Hh. cbn [Target bc_TLS]. rewrite TrimPrefix_app.
    replace (TrimPrefix host "grpcs://") with host by (unfold TrimPrefix; by rewrite Hh).
    replace (TrimPrefix (TrimPrefix (Target c) "grpc://") "grpcs://") with host in Hd; [done|].
    rewrite Ht. symmetry. apply (TrimPrefix_app "grpcs://").
Qed.
End tls.

(** ** Concrete instances *)
Module Demo.
(** Certificates are named after the authority that issued them. *)
#[export] Instance toy_tls : Tls := {|
  certificate := string; pool := string;
  LoadX509KeyPair cert key := if (cert =? "")%string then Err ErrNotExist else Ok cert;
  ReadPEM file := Ok file;
  CertsFromPEM pem := Some pem;
  issued ca cert := match ca with Some ca => HasPrefix cert ca | None => false end;
|}.

Definition mutual : TLSConfig := mkTLSConfig true "srv.pem" "srv.key" "corp" "require_and_verify".
Definition lax : TLSConfig := mkTLSConfig true "srv.pem" "srv.key" "corp" "require".

Definition strict : tls_config := @mkTls toy_tls ["srv.pem"] RequireAndVerifyClientCert (Some "corp") None.


(** The mode require wants a CA file, and accepts a certificate of anyone. *)
Example require_accepts_strangers :
  ∃ t, loadServerTLS lax = Ok (Some t) ∧ accepts t (Some "mallory") = true.
Proof. eexists. split; vm_compute; reflexivity. Qed.

Definition secure_looking : BackingCacheConfig :=
  mkBackingCacheConfig "grpcs://cache:443" "" 3 (mkTLSConfig false "" "" "" "none").

Lemma backing_cache_security_witness :
  dial_params secure_looking = Ok (mkDialParams "cache:443" true None 104857600) ∧
  dial_params (mkBackingCacheConfig "grpc://cache:443" "" 3 (bc_TLS secure_looking)) =
    Ok (mkDialParams "cache:443" true None 104857600).
Proof.
  split; [vm_compute; reflexivity|].
  apply (backing_cache_security secure_looking (mkDialParams "cache:443" true None 104857600) "cache:443");
    vm_compute; reflexivity.
Defined.
End Demo.
End Config.
