(* ===== verification/Main.v ===== *)
(** The program (src/cmd/gorego/main.go): how a configuration becomes a running
    node, and how the node ends.

    [boot] is [main] up to the signal handling: it builds the components with
    their own constructors, in the order of the source, and records the
    background goroutines it starts.  [step] is the life of the process after
    that: its goroutines form an [errgroup], whose context ends with the first
    error. *)

From S2P Require Import Prelude GoStrings Messages Scheduler Float64 Cluster Janitor Fs Storage.
From S2P Require Import Proxy ExecServer Remote Sandbox Worker Config ClusterRun Telemetry.
Local Open Scope Z_scope.

Module Main.
Import Config.

(** ** Log levels *)

Definition lower_byte (a : ascii) : ascii :=
  let n := N_of_ascii a in
  if (65 <=? n)%N && (n <=? 90)%N then ascii_of_N (n + 32) else a.

(** [strings.ToLower]; of the letters outside ASCII, the dotted capital I (bytes
    C4 B0) and the Kelvin sign (E2 84 AA) have a lower case in ASCII, the others
    are left as they are. *)
Fixpoint ToLower (s : string) : string :=
  match s with
  | String "196" (String "176" s) => String "i" (ToLower s)
  | String "226" (String "132" (String "170" s)) => String "k" (ToLower s)
  | String a s => String (lower_byte a) (ToLower s)
  | "" => ""
  end.

Definition parseLogLevel (level : string) : Level :=
  let l := ToLower level in
  if (l =? "debug")%string then LevelDebug
  else if (l =? "info")%string then LevelInfo
  else if (l =? "warn")%string || (l =? "warning")%string then LevelWarn
  else if (l =? "error")%string then LevelError
  else LevelWarn.

(** ** A running node *)

(** The goroutines of the group. *)
Inductive routine :=
  | RMetrics | RMetricsShutdown | RJanitor | RCluster | RScheduler | RWorkers | RServe.

#[export] Instance routine_eq_dec : EqDecision routine.
Proof. solve_decision. Defined.
#[export] Instance routine_countable : Countable routine.
Proof.
  refine (inj_countable'
    (λ r, match r with RMetrics => 0 | RMetricsShutdown => 1 | RJanitor => 2 | RCluster => 3
                     | RScheduler => 4 | RWorkers => 5 | RServe => 6 end)%nat
    (λ n, match n with 0 => RMetrics | 1 => RMetricsShutdown | 2 => RJanitor | 3 => RCluster
                     | 4 => RScheduler | 5 => RWorkers | _ => RServe end)%nat _).
  by intros [].
Defined.

(** The registered gRPC services, with what they were made from. *)
Inductive service :=
  | SvcCAS | SvcCapabilities (execEnabled : bool) | SvcByteStream | SvcActionCache
  | SvcExecution (srv : ExecServer.ExecutionServer) | SvcOperations | SvcHealth | SvcReflection.

Inductive backing := BackingNull | BackingRemote (r : Remote.RemoteStore).
Inductive store :=
  | ProxyOf (p : Proxy.ProxyStore) (b : backing)
  | RemoteOnly (r : Remote.RemoteStore).

(** What [main] has built when it waits for a signal. *)
Record node `{Tls} := mkNode {
  n_level : Level;
  n_store : store;
  n_janitor : option Janitor.Janitor;
  n_cluster : option ClusterRun.Node;
  n_sched : option Scheduler.Scheduler;
  n_pool : option Worker.WorkerPool;
  n_tls : option tls_config;
  n_services : list service;
}.
Arguments mkNode {_}.

(** The host: what the calls of [main] that leave the repository answer. *)
Class Host := {
  otel :: Telemetry.Otel;
  NewClient : ∀ `{Tls}, DialParams → option error;
  Hostname : result string;
  new_uuid : string;
  start_time : Z;
  sandbox_stat : option error;
  members_created : list Cluster.Node;
  members_joined : list Cluster.Node;
  resolver : nat → Cluster.attempt;
  Listen : string → option error;
}.

(** *** The computation of [main]: it may exit with status 1, or panic. *)

Inductive stop := Exit1 | Panicked.

(** The file system and the goroutines started so far. *)
Record state := mkState { s_world : World; s_started : list routine }.
Definition Boot (A : Type) := state → (stop + A) * state.

#[export] Instance Boot_ret : MRet Boot := λ A a s, (inr a, s).
#[export] Instance Boot_bind : MBind Boot := λ A B k m s,
  match m s with (inr a, s) => k a s | (inl e, s) => (inl e, s) end.

Definition go (r : routine) : Boot unit := λ s, (inr (), mkState (s_world s) (s_started s ++ [r])).
Definition stop_with {A} (e : stop) : Boot A := λ s, (inl e, s).
(** [if err != nil { os.Exit(1) }]. *)
Definition or_exit {A} (r : result A) : Boot A :=
  match r with Ok a => mret a | Err _ => stop_with Exit1 end.
Definition check (e : option error) : Boot unit :=
  match e with None => mret () | Some _ => stop_with Exit1 end.
Definition on_disk {A} (m : M A) : Boot A := λ s,
  match m (s_world s) with
  | (Some (Ok a), w) => (inr a, mkState w (s_started s))
  | (Some (Err _), w) => (inl Exit1, mkState w (s_started s))
  | (None, w) => (inl Panicked, mkState w (s_started s))
  end.

Section main.
Context `{Tls, Viper, Host, OS, ClusterRun.Memberlist, Worker.Sys}.
Implicit Types (c : Config).

(** The error of setting up telemetry, with nothing registered before. *)
Definition telemetry_Setup c : option error :=
  match Telemetry.Setup (Telemetry.mkConfig (MetricsAddr (Telemetry c)) (TracingEndpoint (Telemetry c)))
          (Telemetry.mkGlobals None None) with
  | (Err e, _) => Some e
  | (Ok _, _) => None
  end.

Definition boot_store c : Boot (store * option Janitor.Janitor) :=
  let remote := or_exit (NewRemoteStore NewClient (BackingCache c)) in
  if lc_Enabled (LocalCache c) then
    localStore ← on_disk (Storage.NewLocalStore (dir_path (lc_Dir (LocalCache c))) (ForceUpdateATime c));
    let jan := Janitor.NewJanitor (lc_Dir (LocalCache c)) (MaxSizeGB (LocalCache c)) in
    let localStore := Storage.SetOnPutCallback localStore in
    _ ← go RJanitor;
    b ← (if (Target (BackingCache c) =? "")%string then mret BackingNull
         else r ← remote; mret (BackingRemote r));
    mret (ProxyOf (Proxy.NewProxyStore localStore (PutRetryCount (BackingCache c))) b, Some jan)
  else if (Target (BackingCache c) =? "")%string then stop_with Exit1
  else r ← remote; mret (RemoteOnly r, None).

Definition advertised_concurrency c : Z :=
  if Concurrency (Execution c) =? 0 then Worker.NumCPU else Concurrency (Execution c).

Definition boot_cluster c : Boot (option ClusterRun.Node) :=
  if Cluster.Enabled (ClusterSection c) then
    let m := Cluster.NewManager (ClusterSection c) (ListenAddr c) (advertised_concurrency c) false
               Hostname new_uuid start_time in
    let '(r, n) := ClusterRun.Start members_created members_joined resolver
                     (ClusterRun.mkNodeRun m None None) in
    _ ← or_exit r; _ ← go RCluster; mret (Some n)
  else mret None.

Definition set_load_provider (n : ClusterRun.Node) : ClusterRun.Node :=
  ClusterRun.mkNodeRun (Cluster.SetLoadProvider (ClusterRun.manager n))
    (ClusterRun.members n) (ClusterRun.broadcasts n).

Definition node_id (cm : option ClusterRun.Node) : string :=
  match cm with Some n => Cluster.ns_Name (Cluster.localState (ClusterRun.manager n)) | None => "" end.

(** A channel of a negative size panics. *)
Definition boot_execution c (cm : option ClusterRun.Node)
    : Boot (option ClusterRun.Node * option (Scheduler.Scheduler * Worker.WorkerPool)) :=
  if ex_Enabled (Execution c) then
    _ ← (if QueueSize (Execution c) <? 0 then stop_with Panicked else mret ());
    let sched := Scheduler.NewScheduler (Z.to_nat (QueueSize (Execution c))) (node_id cm) in
    let cm := set_load_provider <$> cm in
    _ ← go RScheduler;
    pool ← or_exit (Worker.NewWorkerPool sandbox_stat (worker_config (Execution c)));
    _ ← go RWorkers;
    mret (cm, Some (sched, pool))
  else mret (cm, None).

Definition register c (cm : option ClusterRun.Node) (sched : option Scheduler.Scheduler) : list service :=
  [SvcCAS; SvcCapabilities (ex_Enabled (Execution c)); SvcByteStream; SvcActionCache] ++
  match sched with
  | Some s => if ex_Enabled (Execution c)
              then [SvcExecution (ExecServer.NewExecutionServer s (ClusterRun.manager <$> cm)); SvcOperations]
              else []
  | None => []
  end ++ [SvcHealth; SvcReflection].

Definition boot_server c (cm : option ClusterRun.Node) (sched : option Scheduler.Scheduler)
    : Boot (option tls_config * list service) :=
  _ ← check (Listen (ListenAddr c));
  tls ← or_exit (loadServerTLS (TLS c));
  let services := register c cm sched in
  _ ← go RServe;
  mret (tls, services).

Definition boot c : Boot node :=
  _ ← check (telemetry_Setup c);
  _ ← go RMetrics;
  _ ← go RMetricsShutdown;
  '(store, jan) ← boot_store c;
  cm ← boot_cluster c;
  '(cm, exec) ← boot_execution c cm;
  '(tls, services) ← boot_server c cm (fst <$> exec);
  mret (mkNode (parseLogLevel (LogLevel c)) store jan cm (fst <$> exec) (snd <$> exec) tls services).

(** [main] up to waiting for a signal. *)
Definition main (configPath : string) : Boot node :=
  cfg ← or_exit (LoadConfig configPath); boot cfg.
End main.

(** ** The life of the process *)

(** Where [main] is: in the [select], after the signal before each of its steps,
    in [g.Wait], or returned. *)
Inductive phase := PSelect | PLeave | PGraceful | PCancel | PWait | PExited.

#[export] Instance phase_eq_dec : EqDecision phase.
Proof. solve_decision. Defined.

Record process := mkProcess {
  running : gset routine;
  ctx_ended : bool;
  group_err : option error;
  at_ : phase;
  serving : bool;      (** the health status *)
  drained : bool;      (** [GracefulStop] has returned *)
  handlers : nat;      (** requests in flight *)
}.

(** What a goroutine can return, and when ([None] is a nil error).  The janitor,
    the cluster loop and the workers hide the cancellation of the context; the
    scheduler returns it.  [Serve] ends with the listener or after [GracefulStop]. *)
Inductive returns (p : process) : routine → option error → Prop :=
  | metrics_fail e : returns p RMetrics (Some e)
  | metrics_closed : ctx_ended p = true → returns p RMetrics None
  | metrics_shutdown r : ctx_ended p = true → returns p RMetricsShutdown r
  | janitor_ends : ctx_ended p = true → returns p RJanitor None
  | cluster_ends : ctx_ended p = true → returns p RCluster None
  | scheduler_ends : ctx_ended p = true → returns p RScheduler (Some CtxCanceled)
  | workers_fail e : returns p RWorkers (Some e)
  | workers_end : ctx_ended p = true → returns p RWorkers None
  | serve_fail e : returns p RServe (Some e)
  | serve_stopped : drained p = true → returns p RServe None.

(** [errgroup]: the first error is kept and ends the context. *)
Definition return_ (r : routine) (res : option error) (p : process) : process :=
  match res with
  | None => mkProcess (running p ∖ {[r]}) (ctx_ended p) (group_err p) (at_ p) (serving p) (drained p) (handlers p)
  | Some e => mkProcess (running p ∖ {[r]}) true (Some (default e (group_err p)))
                (at_ p) (serving p) (drained p) (handlers p)
  end.

Definition move (ph : phase) (p : process) : process :=
  mkProcess (running p) (ctx_ended p) (group_err p) ph (serving p) (drained p) (handlers p).

(** The server takes requests until [GracefulStop] is called. *)
Definition accepting (p : process) : bool :=
  bool_decide (RServe ∈ running p) && negb (drained p) &&
  match at_ p with PGraceful => false | _ => true end.

Inductive step : process → process → Prop :=
  | do_return p r res : r ∈ running p → returns p r res → step p (return_ r res p)
  | do_request p : accepting p = true →
      step p (mkProcess (running p) (ctx_ended p) (group_err p) (at_ p) (serving p) (drained p) (S (handlers p)))
  | do_answer p n : handlers p = S n →
      step p (mkProcess (running p) (ctx_ended p) (group_err p) (at_ p) (serving p) (drained p) n)
  | do_signal p : at_ p = PSelect →
      step p (mkProcess (running p) (ctx_ended p) (group_err p) PLeave false (drained p) (handlers p))
  | do_ended p : at_ p = PSelect → ctx_ended p = true → step p (move PWait p)
  | do_leave p : at_ p = PLeave → step p (move PGraceful p)
  | do_graceful p : at_ p = PGraceful → handlers p = 0%nat →
      step p (mkProcess (running p) (ctx_ended p) (group_err p) PCancel (serving p) true 0)
  | do_cancel p : at_ p = PCancel →
      step p (mkProcess (running p) true (group_err p) PWait (serving p) (drained p) (handlers p))
  | do_wait p : at_ p = PWait → running p = ∅ →
      step p (mkProcess ∅ true (group_err p) PExited (serving p) (drained p) (handlers p)).

(** The process when [main] reaches the [select]. *)
Definition started (rs : list routine) : process :=
  mkProcess (list_to_set rs) false None PSelect true false 0.
Definition reachable (rs : list routine) : process → Prop := rtc step (started rs).

(** ** The end of the process: lemmas *)

Definition failed (p : process) : Prop :=
  RMetrics ∉ running p ∨ RWorkers ∉ running p ∨ RServe ∉ running p.

(** What holds in every state of a process. *)
Record inv (p : process) : Prop := {
  inv_ctx : ctx_ended p = true → drained p = true ∨ failed p;
  inv_drained : drained p = true →
    handlers p = 0%nat ∧ serving p = false ∧ (at_ p = PCancel ∨ at_ p = PWait ∨ at_ p = PExited);
  inv_wait : at_ p = PWait → ctx_ended p = true;
  inv_serving : drained p = false → serving p = false → at_ p = PLeave ∨ at_ p = PGraceful;
  inv_closing : at_ p = PLeave ∨ at_ p = PGraceful → serving p = false ∧ drained p = false;
  inv_cancel : at_ p = PCancel → drained p = true;
  inv_exited : at_ p = PExited → running p = ∅;
}.

Lemma failed_mono p p' : running p' ⊆ running p → failed p → failed p'.
Proof. unfold failed. set_solver. Qed.

Lemma step_running p p' : step p p' → running p' ⊆ running p.
Proof. destruct 1; simpl; try set_solver. destruct res; set_solver. Qed.

Lemma return_failed p r e : returns p r (Some e) → ctx_ended p = true ∨ failed (return_ r (Some e) p).
Proof. unfold failed. inversion 1; subst; simpl; auto; right; set_solver. Qed.

Lemma inv_step p p' : inv p → step p p' → inv p'.
Proof.
  intros I Hs. pose proof (failed_mono _ _ (step_running _ _ Hs)) as Hf.
  destruct I as [Ic Id Iw Is Icl Ica Ie].
  destruct Hs as [p r res Hr Hret|p Hacc|p n Hn|p Hat|p Hat Hc|p Hat|p Hat Hh|p Hat|p Hat Hrun].
  - assert (at_ p ≠ PExited) by (intros ?%Ie; set_solver).
    destruct res as [e|]; [pose proof (return_failed _ _ _ Hret) as He|]; clear Hret Hr;
      split; simpl in *; intuition congruence.
  - unfold accepting in Hacc. apply andb_true_iff in Hacc as [[_ Hd]%andb_true_iff Hg].
    apply negb_true_iff in Hd. assert (at_ p ≠ PGraceful) by (intros E; by rewrite E in Hg).
    split; simpl in *; intuition congruence.
  - destruct (drained p) eqn:Ed; split; simpl in *; intuition congruence.
  - destruct (drained p) eqn:Ed; split; simpl in *; intuition congruence.
  - destruct (drained p) eqn:Ed; split; simpl in *; intuition congruence.
  - destruct (drained p) eqn:Ed; split; simpl in *; intuition congruence.
  - destruct (drained p) eqn:Ed; split; simpl in *; intuition congruence.
  - destruct (drained p) eqn:Ed; split; simpl in *; intuition congruence.
  - assert (failed p) by (unfold failed; set_solver).
    destruct (drained p) eqn:Ed; split; simpl in *; intuition congruence.
Qed.

Lemma inv_reachable rs p : reachable rs p → inv p.
Proof.
  intros Hr. unfold reachable in Hr. remember (started rs) as p0 eqn:E.
  assert (inv p0) as Hi by (subst; split; simpl; intuition congruence).
  clear E. induction Hr; eauto using inv_step.
Qed.

(** *** After [GracefulStop] has been called *)

Definition closing (p : process) : Prop := at_ p = PGraceful ∨ drained p = true.

Definition rank (ph : phase) : nat :=
  match ph with PGraceful => 3 | PCancel => 2 | PWait => 1 | _ => 0 end.
Definition remaining (p : process) : nat := size (running p) + handlers p + rank (at_ p).

Lemma size_remove (r : routine) (X : gset routine) : r ∈ X → (size (X ∖ {[r]}) < size X)%nat.
Proof. intros Hr. apply subset_size. set_solver. Qed.

Lemma closing_step p p' :
  inv p → closing p → step p p' → closing p' ∧ (remaining p' < remaining p)%nat.
Proof.
  intros [_ Id _ _ _ _ _] Hc Hs. unfold closing, remaining in *.
  destruct Hs as [p r res Hr Hret|p Hacc|p n Hn|p Hat|p Hat _|p Hat|p Hat Hh|p Hat|p Hat Hrun]; simpl in *.
  - pose proof (size_remove r (running p) Hr). destruct res; simpl; (split; [done|lia]).
  - exfalso. unfold accepting in Hacc. destruct Hc as [Hc|Hc]; rewrite Hc in Hacc; simpl in Hacc;
      by rewrite ?andb_false_r in Hacc.
  - split; [done|lia].
  - exfalso. intuition congruence.
  - exfalso. intuition congruence.
  - exfalso. intuition congruence.
  - rewrite Hat, Hh. simpl. split; [by right|lia].
  - rewrite Hat. simpl. split; [|lia]. intuition congruence.
  - rewrite Hat, Hrun. simpl. split; [|lia]. intuition congruence.
Qed.

(** A goroutine of a drained process whose context has ended can return. *)
Lemma can_return p r : ctx_ended p = true → drained p = true → ∃ res, returns p r res.
Proof.
  intros Hc Hd. destruct r; [exists None|exists None|exists None|exists None|
    exists (Some CtxCanceled)|exists None|exists None]; by constructor.
Qed.

Lemma closing_progress p :
  inv p → closing p → (at_ p = PExited ∧ running p = ∅) ∨ ∃ p', step p p'.
Proof.
  intros [_ Id Iw _ _ Ica Ie] Hc. destruct (at_ p) eqn:Hat; unfold closing in Hc; rewrite Hat in Hc.
  - exfalso. intuition congruence.
  - exfalso. intuition congruence.
  - right. destruct (handlers p) as [|n] eqn:Hh; eexists; [by apply do_graceful|by eapply do_answer].
  - right. eexists. by apply do_cancel.
  - right. destruct Hc as [?|Hd]; [done|].
    destruct (set_choose_or_empty (running p)) as [[r Hr]|He].
    + destruct (can_return p r) as [res Hres]; [auto|done|]. eexists. by eapply do_return.
    + eexists. apply do_wait; [done|]. by apply leibniz_equiv.
  - left. auto.
Qed.

Lemma closing_rtc p p' : inv p → closing p → rtc step p p' → inv p' ∧ closing p'.
Proof.
  intros Hi Hc Hr. induction Hr as [|p p' p'' Hs Hr IH]; [done|].
  apply IH; [by eapply inv_step|by eapply closing_step].
Qed.

Lemma closing_bounded p n p' : inv p → closing p → nsteps step n p p' → (n ≤ remaining p)%nat.
Proof.
  intros Hi Hc Hr. induction Hr as [|n p p' p'' Hs Hr IH]; [lia|].
  destruct (closing_step _ _ Hi Hc Hs) as [Hc' Hlt].
  specialize (IH (inv_step _ _ Hi Hs) Hc'). lia.
Qed.

(** *** After a goroutine has failed *)

(** A step in which the server does not itself fail. *)
Definition serve_step (p p' : process) : Prop :=
  step p p' ∧ (RServe ∈ running p → RServe ∈ running p').

(** [main] waits for the group, and nothing stops the server. *)
Record hung (p : process) : Prop := {
  hung_wait : at_ p = PWait;
  hung_open : drained p = false;
  hung_serves : RServe ∈ running p;
  hung_healthy : serving p = true;
}.

Lemma hung_step p p' : hung p → serve_step p p' → hung p'.
Proof.
  intros [Hw Hd Hs Hh] [Hst Hk]. specialize (Hk Hs).
  destruct Hst as [p r res Hr Hret|p Hacc|p n Hn|p Hat|p Hat _|p Hat|p Hat _|p Hat|p Hat Hrun];
    try congruence; try (split; simpl in *; congruence).
  - destruct res; split; simpl in *; done.
  - exfalso. simpl in Hk. set_solver.
Qed.

Lemma hung_rtc p p' : hung p → rtc serve_step p p' → hung p'.
Proof. intros Hh Hr. induction Hr; eauto using hung_step. Qed.

Lemma hung_accepting p : hung p → accepting p = true.
Proof.
  intros [Hw Hd Hs Hh]. unfold accepting. by rewrite Hw, Hd, bool_decide_eq_true_2.
Qed.

(** The goroutines that watch the context return one after the other. *)
Lemma background_returns rs p :
  ctx_ended p = true → is_Some (group_err p) → RServe ∉ rs →
  ∃ p', rtc step p p' ∧ running p' = running p ∖ list_to_set rs ∧ group_err p' = group_err p ∧
    at_ p' = at_ p ∧ serving p' = serving p ∧ drained p' = drained p.
Proof.
  revert p. induction rs as [|r rs IH]; intros p Hc He Hrs.
  { exists p. split_and!; [done|simpl; set_solver|done..]. }
  apply not_elem_of_cons in Hrs as [Hr Hrs].
  destruct (decide (r ∈ running p)) as [Hin|Hin].
  - assert (∃ res, returns p r res) as [res Hres].
    { destruct r; [exists None|exists None|exists None|exists None|exists (Some CtxCanceled)|exists None|done];
        by constructor. }
    destruct (IH (return_ r res p)) as (p' & Hr' & Hrun & Hg & Ha & Hsv & Hd);
      [by destruct res|destruct res; [by eexists|done]|done|].
    exists p'. split_and!.
    + eapply rtc_l; [by apply (do_return p r res)|done].
    + rewrite Hrun. destruct res; simpl; set_solver.
    + rewrite Hg. destruct res; simpl; [|done]. destruct He as [e' ->]. done.
    + by rewrite Ha; destruct res.
    + by rewrite Hsv; destruct res.
    + by rewrite Hd; destruct res.
  - destruct (IH p) as (p' & Hr' & Hrun & Hrest); [done..|].
    exists p'. split_and!; [done| |apply Hrest..]. rewrite Hrun. simpl. set_solver.
Qed.

(** ** What [boot] builds: lemmas *)

Lemma bind_inr {A B} (m : Boot A) (k : A → Boot B) s b s' :
  (m ≫= k) s = (inr b, s') → ∃ a s1, m s = (inr a, s1) ∧ k a s1 = (inr b, s').
Proof.
  unfold mbind, Boot_bind. destruct (m s) as [[e|a] s1] eqn:E; [done|]. eauto.
Qed.

Lemma boot_eq {A B} (m : Boot A) (k : A → Boot B) s a s1 : m s = (inr a, s1) → (m ≫= k) s = k a s1.
Proof. intros Hm. unfold mbind, Boot_bind. by rewrite Hm. Qed.

Lemma or_exit_inr {A} (r : result A) s a s' : or_exit r s = (inr a, s') → r = Ok a ∧ s' = s.
Proof. destruct r; simpl; [by intros [= -> ->]|done]. Qed.

Lemma check_inr e s a s' : check e s = (inr a, s') → e = None ∧ s' = s.
Proof. destruct e; simpl; [done|by intros [= _ ->]]. Qed.

Lemma go_inr r s a s' : go r s = (inr a, s') → s' = mkState (s_world s) (s_started s ++ [r]).
Proof. by intros [= _ <-]. Qed.

Lemma ret_inr {A} (x a : A) (s s' : state) : (mret x : Boot A) s = (inr a, s') → a = x ∧ s' = s.
Proof. by intros [= -> ->]. Qed.

Lemma on_disk_inr {A} (m : M A) s a s' :
  on_disk m s = (inr a, s') → (m (s_world s)).1 = Some (Ok a) ∧ s_started s' = s_started s.
Proof.
  unfold on_disk. destruct (m (s_world s)) as [[[x|e]|] w]; [|done..]. by intros [= -> <-].
Qed.

(** One bind of a boot that did not stop. *)
Ltac boot_step H :=
  let a := fresh "a" in let s := fresh "s" in
  apply bind_inr in H as (a & s & ? & H).
Ltac boot_simpl := repeat match goal with
  | H : or_exit _ _ = (inr _, _) |- _ => apply or_exit_inr in H as [? ->]
  | H : check _ _ = (inr _, _) |- _ => apply check_inr in H as [? ->]
  | H : go _ _ = (inr _, _) |- _ => apply go_inr in H as ->
  | H : mret _ _ = (inr _, _) |- _ => apply ret_inr in H as [? ->]; simplify_eq
  | H : stop_with _ _ = (inr _, _) |- _ => discriminate H
  | H : on_disk _ _ = (inr _, _) |- _ => apply on_disk_inr in H as [? ?]
  end.

Section boot.
Context `{Tls, Viper, Host, OS, ClusterRun.Memberlist, Worker.Sys}.
Implicit Types (c : Config).

Lemma NewLocalStore_root dir atime w ls :
  (Storage.NewLocalStore dir atime w).1 = Some (Ok ls) → Storage.rootDir ls = dir.
Proof.
  unfold Storage.NewLocalStore, mbind, M_bind.
  destruct (os_MkdirAll _ w) as [[[]|] w1]; [|done..].
  destruct (os_MkdirAll _ w1) as [[[]|] w2]; [|done..]. by intros [= <-].
Qed.

(** The store [main] builds for a configuration. *)
Definition store_ok c (st : store) (jan : option Janitor.Janitor) : Prop :=
  match st, jan with
  | ProxyOf p b, Some j =>
      lc_Enabled (LocalCache c) = true ∧
      Storage.rootDir (Proxy.local p) = dir_path (Janitor.rootDir j) ∧
      Storage.onPutCallback (Proxy.local p) = true ∧
      (1 ≤ Proxy.putRetryCount p)%nat ∧
      (b = BackingNull ↔ Target (BackingCache c) = "")
  | RemoteOnly r, None => lc_Enabled (LocalCache c) = false ∧ Target (BackingCache c) ≠ ""
  | _, _ => False
  end.

Lemma boot_store_spec c s st jan s' :
  boot_store c s = (inr (st, jan), s') →
  s_started s' = s_started s ++ (if lc_Enabled (LocalCache c) then [RJanitor] else []) ∧ store_ok c st jan.
Proof.
  unfold boot_store, store_ok. destruct (lc_Enabled (LocalCache c)).
  - intros Hb. boot_step Hb. boot_step Hb. boot_step Hb. boot_simpl.
    match goal with Hn : (Storage.NewLocalStore _ _ _).1 = _ |- _ =>
      pose proof (NewLocalStore_root _ _ _ _ Hn) as Hroot end.
    match goal with Hb : _ = (inr a1, s2) |- _ => rename Hb into Hback end.
    assert (s_started s2 = s_started s ++ [RJanitor] ∧ (a1 = BackingNull ↔ Target (BackingCache c) = ""))
      as [-> Hnull].
    { destruct (String.eqb_spec (Target (BackingCache c)) "") as [->|Ht]; [|boot_step Hback];
        boot_simpl; simpl; (split; [congruence|done]). }
    split_and!; [done|done|done|done| |done].
    simpl. destruct (Z.ltb_spec (PutRetryCount (BackingCache c)) 1); lia.
  - destruct (String.eqb_spec (Target (BackingCache c)) "") as [->|Ht]; intros Hb; [done|].
    boot_step Hb. boot_simpl. by rewrite app_nil_r.
Qed.

(** The state that a cluster node advertises. *)
Definition advertises c (n : ClusterRun.Node) : Prop :=
  let m := ClusterRun.manager n in
  Cluster.concurrency m = advertised_concurrency c ∧
  Cluster.MaxConcurrency (Cluster.localState m) = int32 (advertised_concurrency c) ∧
  Cluster.PendingTasks (Cluster.localState m) = 0 ∧
  Cluster.GrpcAddress (Cluster.localState m) = ListenAddr c ∧
  is_Some (ClusterRun.members n) ∧ is_Some (ClusterRun.broadcasts n) ∧ Cluster.peers m = ∅.

Lemma boot_cluster_spec c s cm s' :
  boot_cluster c s = (inr cm, s') →
  s_started s' = s_started s ++ (if Cluster.Enabled (ClusterSection c) then [RCluster] else []) ∧
  match cm with
  | Some n => Cluster.Enabled (ClusterSection c) = true ∧ advertises c n ∧
              Cluster.hasLoadProvider (ClusterRun.manager n) = false
  | None => Cluster.Enabled (ClusterSection c) = false
  end.
Proof.
  unfold boot_cluster. destruct (Cluster.Enabled (ClusterSection c)); intros Hb.
  2: { boot_simpl. by rewrite app_nil_r. }
  destruct (ClusterRun.Start _ _ _ _) as [r n] eqn:Hs. boot_step Hb. boot_step Hb. boot_simpl.
  split; [done|]. split; [done|]. unfold advertises.
  unfold ClusterRun.Start in Hs. destruct (ClusterRun.ml_Create _); [done|].
  destruct (Cluster.discoverPeers _ _); [|done]. destruct (_ <? _)%nat; simplify_eq; simpl; eauto 10.
Qed.

Lemma boot_execution_spec c cm s cm' exec s' :
  boot_execution c cm s = (inr (cm', exec), s') →
  s_started s' = s_started s ++ (if ex_Enabled (Execution c) then [RScheduler; RWorkers] else []) ∧
  match exec with
  | Some (sched, pool) => ex_Enabled (Execution c) = true ∧ cm' = set_load_provider <$> cm ∧
      sched = Scheduler.NewScheduler (Z.to_nat (QueueSize (Execution c))) (node_id cm) ∧
      Worker.NewWorkerPool sandbox_stat (worker_config (Execution c)) = Ok pool
  | None => ex_Enabled (Execution c) = false ∧ cm' = cm
  end.
Proof.
  unfold boot_execution. destruct (ex_Enabled (Execution c)); intros Hb.
  2: { boot_simpl. by rewrite app_nil_r. }
  boot_step Hb. boot_step Hb. boot_step Hb. boot_step Hb.
  match goal with Hq : _ s = (inr a, s0) |- _ => rename Hq into Hq end.
  destruct (_ <? 0); boot_simpl. simpl. by rewrite <- app_assoc.
Qed.

(** The goroutines of a configuration, in the order they are started. *)
Definition routines c : list routine :=
  [RMetrics; RMetricsShutdown] ++
  (if lc_Enabled (LocalCache c) then [RJanitor] else []) ++
  (if Cluster.Enabled (ClusterSection c) then [RCluster] else []) ++
  (if ex_Enabled (Execution c) then [RScheduler; RWorkers] else []) ++ [RServe].

Lemma boot_spec c s n s' :
  boot c s = (inr n, s') →
  s_started s' = s_started s ++ routines c ∧
  store_ok c (n_store n) (n_janitor n) ∧ loadServerTLS (TLS c) = Ok (n_tls n) ∧
  n_services n = register c (n_cluster n) (n_sched n) ∧
  (∃ cm, n_cluster n = (if ex_Enabled (Execution c) then set_load_provider <$> cm else cm) ∧
    match cm with
    | Some k => Cluster.Enabled (ClusterSection c) = true ∧ advertises c k ∧
                Cluster.hasLoadProvider (ClusterRun.manager k) = false
    | None => Cluster.Enabled (ClusterSection c) = false
    end) ∧
  if ex_Enabled (Execution c) then
    n_sched n = Some (Scheduler.NewScheduler (Z.to_nat (QueueSize (Execution c))) (node_id (n_cluster n))) ∧
    ∃ pool, n_pool n = Some pool ∧ Worker.NewWorkerPool sandbox_stat (worker_config (Execution c)) = Ok pool
  else n_sched n = None ∧ n_pool n = None.
Proof.
  unfold boot. intros Hb. do 3 boot_step Hb. apply bind_inr in Hb as ([st jan] & s3 & Hst & Hb).
  apply bind_inr in Hb as (cm & s4 & Hcm & Hb). apply bind_inr in Hb as ([cm' exec] & s5 & Hex & Hb).
  apply bind_inr in Hb as ([tls services] & s6 & Hsrv & Hb). do 3 boot_step Hsrv. boot_simpl.
  apply boot_store_spec in Hst as [Hst Hstore]. apply boot_cluster_spec in Hcm as [Hcm Hclu].
  apply boot_execution_spec in Hex as [Hex Hexec].
  split_and!; [|done|done|done|..]; simpl.
  - rewrite Hex, Hcm, Hst. simpl. unfold routines. by rewrite <- !app_assoc.
  - exists cm. split; [|by destruct cm].
    destruct exec as [[sched pool]|]; destruct Hexec as [-> Hrest]; [apply Hrest|done].
  - destruct exec as [[sched pool]|]; destruct Hexec as [-> Hrest]; [|done].
    destruct Hrest as (-> & -> & Hpool). split; [by destruct cm|eauto].
Qed.

(** ** The properties *)

Definition serves_execution (n : node) : Prop := ∃ srv, SvcExecution srv ∈ n_services n.


Lemma routines_serve c : RMetrics ∈ routines c ∧ RServe ∈ routines c.
Proof.
  unfold routines. split; [by left|]. rewrite !elem_of_app. do 4 right. by left.
Qed.

(** C31: when the metrics server of a node fails, on a port in use for instance, and
    no signal has arrived yet, [main] waits for the group while nothing stops the
    gRPC server: the process reaches a state in which the server is its only
    goroutine left (no workers, no scheduler, no janitor, no cluster), and from
    then on, as long as the server itself does not fail, it keeps accepting
    requests, reports itself healthy, does not react to signals and never exits. *)
Theorem metrics_failure_hangs_server c s n s' e :
  boot c s = (inr n, s') → s_started s = [] →
  ∃ p, reachable (s_started s') p ∧ running p = {[RServe]} ∧ group_err p = Some e ∧
    ∀ p', rtc serve_step p p' →
      running p' = {[RServe]} ∧ accepting p' = true ∧ serving p' = true ∧ at_ p' = PWait.
Proof.
  intros (Hrs & _)%boot_spec Hs. rewrite Hs in Hrs. simpl in Hrs. rewrite Hrs. clear Hs Hrs.
  destruct (routines_serve c) as [Hm Hserve].
  set (p1 := return_ RMetrics (Some e) (started (routines c))). set (p2 := move PWait p1).
  assert (reachable (routines c) p2) as Hr.
  { eapply rtc_l; [apply (do_return _ RMetrics (Some e))|apply rtc_once, do_ended]; try done.
    - simpl. set_solver.
    - constructor. }
  set (rs := [RMetricsShutdown; RJanitor; RCluster; RScheduler; RWorkers]).
  destruct (background_returns rs p2) as (p & Hp & Hrun & Hg & Ha & Hsv & Hd); [done|by eexists|set_solver|].
  assert (running p = {[RServe]}) as Hp1.
  { rewrite Hrun. apply leibniz_equiv. intros r.
    change (running p2) with (list_to_set (routines c) ∖ {[RMetrics]} : gset routine).
    rewrite elem_of_difference, elem_of_difference, !elem_of_list_to_set, !elem_of_singleton.
    split; [|intros ->; set_solver]. clear. intros [[_ Hnm] Hn]. subst rs. destruct r; set_solver. }
  exists p. split_and!; [by eapply rtc_trans|done|by rewrite Hg|].
  assert (hung p) as Hh by (split; [by rewrite Ha|by rewrite Hd|set_solver|by rewrite Hsv]).
  intros p' Hp'. pose proof (hung_rtc _ _ Hh Hp') as Hh'.
  split_and!; [|by apply hung_accepting|apply Hh'|apply Hh'].
  assert (running p' ⊆ running p).
  { clear -Hp'. induction Hp' as [|x y z [Hxy _] _ IH]; [done|]. pose proof (step_running _ _ Hxy). set_solver. }
  pose proof (hung_serves _ Hh'). apply leibniz_equiv. set_solver.
Qed.


(** As long as the metrics server, the workers and the gRPC server run, the
    context of the background goroutines ends only after the node has reported
    itself as not serving and [GracefulStop] has returned with no request left: no
    shutdown takes the workers away from a request that waits for them. *)
Theorem workers_outlive_requests rs p :
  reachable rs p → {[RMetrics; RWorkers; RServe]} ⊆ running p → ctx_ended p = true →
  drained p = true ∧ handlers p = 0%nat ∧ serving p = false.
Proof.
  intros Hi%inv_reachable Hsub Hc. destruct (inv_ctx _ Hi Hc) as [Hd|Hf].
  - by destruct (inv_drained _ Hi Hd) as (? & ? & _).
  - exfalso. unfold failed in Hf. set_solver.
Qed.

(** *** The capacity of a node *)

Lemma int32_id z : - 2 ^ 31 ≤ z < 2 ^ 31 → int32 z = z.
Proof. intros. unfold int32. rewrite Z.mod_small by lia. lia. Qed.

Lemma pool_concurrency c pool :
  Worker.NewWorkerPool sandbox_stat (worker_config (Execution c)) = Ok pool →
  Worker.concurrency pool =
    if Concurrency (Execution c) <=? 0 then Worker.NumCPU else Concurrency (Execution c).
Proof. unfold Worker.NewWorkerPool. destruct (Sandbox.New _ _); [|done]. by intros [= <-]. Qed.

(** No peer is below a ratio that is negative or zero. *)
Lemma never_below order load capacity :
  (∀ p, p ∈ order → 0 ≤ Cluster.PendingTasks p) → 0 ≤ load → capacity < 0 →
  Cluster.best_loop order None load capacity = None.
Proof.
  intros Hp Hl Hc. pose proof (Cluster.best_loop_spec order None load capacity) as Hb.
  destruct (Cluster.best_loop _ _ _ _) as [p|]; [|done].
  destruct Hb as [[? _]|(Hin & Hcap & Hlt & _)]; [done|]. exfalso.
  unfold Cluster.peerHasCapacity in Hcap. apply Z.ltb_lt in Hcap. specialize (Hp p Hin).
  unfold Cluster.peer_ratio, Cluster.ratio in Hlt.
  by rewrite f64_lt_signs in Hlt; [|apply f64_div_sign; lia|apply f64_div_sign].
Qed.

Lemma boot_capacity c s n s' cm :
  boot c s = (inr n, s') → n_cluster n = Some cm →
  let m := ClusterRun.manager cm in
  Cluster.concurrency m = advertised_concurrency c ∧
  Cluster.MaxConcurrency (Cluster.localState m) = int32 (advertised_concurrency c) ∧
  Cluster.PendingTasks (Cluster.localState m) = 0 ∧
  Cluster.hasLoadProvider m = ex_Enabled (Execution c).
Proof.
  intros (_ & _ & _ & _ & (cm' & Hcm & Hclu) & _)%boot_spec Hn. rewrite Hn in Hcm.
  destruct cm' as [k|].
  - destruct Hclu as (_ & (Hcc & Hm & Hp & _) & Hlp).
    by destruct (ex_Enabled (Execution c)); injection Hcm as ->.
  - by destruct (ex_Enabled (Execution c)).
Qed.

(** The parts a configuration asks for. *)
Lemma boot_parts c s n s' :
  boot c s = (inr n, s') → Cluster.Enabled (ClusterSection c) = true →
  ∃ cm, n_cluster n = Some cm ∧ (ex_Enabled (Execution c) = true → is_Some (n_pool n)).
Proof.
  intros (_ & _ & _ & _ & (cm' & Hcm & Hclu) & Hex)%boot_spec Hen.
  destruct cm' as [k|]; [|congruence].
  exists (if ex_Enabled (Execution c) then set_load_provider k else k).
  destruct (ex_Enabled (Execution c)); (split; [done|]); [|done].
  intros _. destruct Hex as (_ & pool & -> & _). by eexists.
Qed.

(** C32: what a node advertises is what it runs, for a configured concurrency from
    zero on that fits an int32: peers see the number of its workers.  A negative
    one is treated differently by [main] and by the worker pool: the node runs one
    worker per CPU, but advertises the negative number, so that no peer ever
    forwards to it; nor does it ever forward itself, whatever its load. *)
Theorem advertised_capacity c s n s' cm pool load :
  boot c s = (inr n, s') → n_cluster n = Some cm → n_pool n = Some pool →
  - 2 ^ 31 ≤ Concurrency (Execution c) < 2 ^ 31 → Worker.NumCPU < 2 ^ 31 → 0 ≤ load < 2 ^ 31 →
  let m := ClusterRun.manager cm in
  (0 ≤ Concurrency (Execution c) →
    ∀ now, Cluster.MaxConcurrency (Cluster.GetLocalState load now m) = Worker.concurrency pool ∧
           Cluster.PendingTasks (Cluster.GetLocalState load now m) = load) ∧
  (Concurrency (Execution c) < 0 →
    Worker.concurrency pool = Worker.NumCPU ∧
    (∀ now, Cluster.peerHasCapacity (Cluster.GetLocalState load now m) = false) ∧
    ∀ order, (∀ p, p ∈ order → 0 ≤ Cluster.PendingTasks p) → Cluster.SelectBestPeer order load m = None).
Proof.
  intros Hb Hcm Hpool Hc Hcpu Hload m.
  destruct (boot_capacity _ _ _ _ _ Hb Hcm) as (Hcc & Hmax & _ & Hlp). fold m in Hcc, Hmax, Hlp.
  apply boot_spec in Hb as (_ & _ & _ & _ & _ & Hex). destruct (ex_Enabled (Execution c));
    [|destruct Hex; congruence]. destruct Hex as (_ & pool' & Hp & Hnew).
  rewrite Hpool in Hp. injection Hp as <-. apply pool_concurrency in Hnew. rewrite Hnew.
  pose proof Worker.NumCPU_pos. unfold advertised_concurrency in Hcc, Hmax. split.
  - intros Hnn now. simpl. rewrite Hlp, Hmax. split; [|apply int32_id; lia].
    destruct (Z.eqb_spec (Concurrency (Execution c)) 0), (Z.leb_spec (Concurrency (Execution c)) 0);
      try lia; apply int32_id; lia.
  - intros Hneg. rewrite (proj2 (Z.leb_le _ 0)) by lia.
    rewrite (proj2 (Z.eqb_neq _ 0)) in Hcc, Hmax by lia. split_and!; [done| |].
    + intros now. unfold Cluster.peerHasCapacity. simpl. rewrite Hlp, Hmax, !int32_id by lia.
      apply Z.ltb_ge. lia.
    + intros order Hord. unfold Cluster.SelectBestPeer, Cluster.localLoad. rewrite Hlp, Hcc.
      by rewrite never_below; [destruct (_ && _)|done|lia|done].
Qed.

(** A node of a cluster that does not execute advertises its CPUs (or its
    configured concurrency) as capacity and a load of zero for ever, although it
    does not register the Execution service: a busy node that knows it as its peer
    forwards every execution to it, whatever capacity of its own is left. *)
Theorem cache_only_node_attracts_execution c s n s' cm load now busy order :
  boot c s = (inr n, s') → n_cluster n = Some cm → ex_Enabled (Execution c) = false →
  0 < int32 (advertised_concurrency c) < 2 ^ 26 →
  let st := Cluster.GetLocalState load now (ClusterRun.manager cm) in
  Cluster.peers busy = {[ Cluster.ns_Name st := st ]} → order ≡ₚ Cluster.GetPeers busy →
  ∀ busy_load, Cluster.hasLoadProvider busy = true →
    0 < busy_load < 2 ^ 26 → 0 < Cluster.concurrency busy < 2 ^ 26 →
    Cluster.SelectBestPeer order busy_load busy = Some st ∧ ¬ serves_execution n.
Proof.
  intros Hb Hcm Hex Hcap st Hpeers Hord bl Hlp Hbl Hbc.
  destruct (boot_capacity _ _ _ _ _ Hb Hcm) as (_ & Hmax & Hpend & Hprov). rewrite Hex in Hprov.
  assert (order = [st]) as ->.
  { apply Permutation_singleton_r. unfold Cluster.GetPeers in Hord.
    by rewrite Hpeers, map_to_list_singleton in Hord. }
  split.
  - rewrite Cluster.SelectBestPeer_loop. unfold Cluster.localLoad. rewrite Hlp. simpl.
    unfold Cluster.peerHasCapacity. simpl. rewrite Hprov, Hmax, Hpend.
    rewrite (proj2 (Z.ltb_lt 0 _)) by lia. simpl. unfold Cluster.ratio.
    rewrite !f64_div_int by lia. by rewrite rnd_strict by nia.
  - apply boot_spec in Hb as (_ & _ & _ & Hsvc & _). unfold serves_execution, register in *.
    intros [srv Hsrv]. rewrite Hsvc, Hex in Hsrv. destruct (n_sched n); simpl in Hsrv; set_solver.
Qed.

(** *** Without a configuration *)

Definition default_config : Config := {|
  ListenAddr := ":50051";
  TLS := mkTLSConfig false "" "" "" "";
  LocalCache := mkLocalCacheConfig true "/tmp/gorego/cache" 10;
  ForceUpdateATime := false;
  LogLevel := "warn";
  BackingCache := mkBackingCacheConfig "" "" 3 (mkTLSConfig false "" "" "" "none");
  Telemetry := mkTelemetryConfig ":9090" "";
  Execution := mkExecutionConfig true 0 "/tmp/gorego/builds" 1000
    (Sandbox.mkSandboxConfig false "/usr/bin/linux-sandbox" true [] 5 false);
  ClusterSection := Cluster.mkClusterConfig false "" 7946 "" "list" [] "" 500000000;
|}.

Lemma LoadConfig_defaults path :
  (∀ e, ReadInConfig (loader path) ≠ Some (OtherReadError e)) →
  (∀ k, configured (loader path) k = None) →
  LoadConfig path = Ok default_config.
Proof.
  intros Hread Hnone. unfold LoadConfig.
  assert (Unmarshal (loader path) = Ok default_config) as Hu.
  { apply Unmarshal_settings.
    rewrite (decode_ext _ (λ k, (list_to_map (v_defaults (loader path)) : gmap string value) !! k))
      by (intros k; by rewrite Hnone).
    vm_compute. reflexivity. }
  destruct (ReadInConfig _) as [[|e]|]; [done| |done]. by destruct (Hread e).
Qed.

(** With nothing configured (an empty file, no environment), the program comes
    up as a complete node on its own: it serves every service without TLS on a
    local store of at most ten gigabytes in front of no backing cache, runs one
    worker per CPU without a sandbox on a queue of a thousand tasks, joins no
    cluster, and runs exactly the goroutines this needs. *)
Theorem default_node path s ls :
  (∀ e, ReadInConfig (loader path) ≠ Some (OtherReadError e)) →
  (∀ k, configured (loader path) k = None) →
  Listen ":50051" = None →
  (Storage.NewLocalStore ["tmp"; "gorego"; "cache"] false (s_world s)).1 = Some (Ok ls) →
  s_started s = [] →
  ∃ n s', main path s = (inr n, s') ∧
    s_started s' = [RMetrics; RMetricsShutdown; RJanitor; RScheduler; RWorkers; RServe] ∧
    n_level n = LevelWarn ∧
    n_store n = ProxyOf (Proxy.mkProxyStore (Storage.SetOnPutCallback ls) 3) BackingNull ∧
    (∃ j, n_janitor n = Some j ∧ Janitor.maxSize j = 10 * 2 ^ 30) ∧
    n_cluster n = None ∧ n_tls n = None ∧
    (∃ sched, n_sched n = Some sched ∧ Scheduler.queueSize sched = 1000%nat ∧ Scheduler.nodeID sched = "" ∧
       SvcExecution (ExecServer.NewExecutionServer sched None) ∈ n_services n) ∧
    n_pool n = Some (Worker.mkWorkerPool ["tmp"; "gorego"; "builds"] Worker.NumCPU None).
Proof.
  intros Hread Hnone Hlisten Hls Hs. destruct s as [w started]. simpl in Hls, Hs. subst started.
  set (w' := (Storage.NewLocalStore ["tmp"; "gorego"; "cache"] false w).2).
  assert (∀ rs, on_disk (Storage.NewLocalStore ["tmp"; "gorego"; "cache"] false) (mkState w rs)
                = (inr ls, mkState w' rs)) as Hdisk.
  { intros rs. unfold on_disk, w'. simpl. by destruct (Storage.NewLocalStore _ _ _) as [r ?]; simpl in *; subst. }
  unfold main. rewrite LoadConfig_defaults by done.
  assert (or_exit (Ok default_config) = (mret default_config : Boot Config)) as -> by done.
  rewrite (boot_eq (mret default_config) boot _ default_config (mkState w [])) by done.
  unfold boot. change (telemetry_Setup default_config) with (@None error).
  rewrite (boot_eq (check None) _ _ () _ eq_refl).
  rewrite (boot_eq (go RMetrics) _ _ () _ eq_refl), (boot_eq (go RMetricsShutdown) _ _ () _ eq_refl).
  rewrite (boot_eq (boot_store default_config) _ _
    (ProxyOf (Proxy.mkProxyStore (Storage.SetOnPutCallback ls) 3) BackingNull,
     Some (Janitor.NewJanitor "/tmp/gorego/cache" 10)) (mkState w' [RMetrics; RMetricsShutdown; RJanitor])).
  2: { unfold boot_store. change (dir_path _) with ["tmp"; "gorego"; "cache"].
       change (ForceUpdateATime _) with false. cbn [lc_Enabled LocalCache default_config].
       by rewrite (boot_eq _ _ _ ls _ (Hdisk _)). }
  change ":50051" with (ListenAddr default_config) in Hlisten. unfold boot_server.
  rewrite Hlisten. eexists _, _. split; [reflexivity|]. cbn [n_store n_level n_janitor n_cluster].
  split_and!; try done; [by eexists|]. eexists. split_and!; try done.
  simpl. set_solver.
Qed.
End boot.

(** ** Concrete instances *)
Module Demo.
Import Config.Demo ClusterRun.Demo.

#[export] Existing Instance Schedules.calm.

(** A file that says what [cfg] says, and no environment. *)
Definition settings (over : string → option value) : Viper.
Proof.
  refine {| ReadInConfig v := None;
            Unmarshal v := decode (λ k, match over k with
                                        | Some x => Some x
                                        | None => (list_to_map (v_defaults v) : gmap string value) !! k
                                        end);
            configured v k := over k |}.
  by intros v cfg.
Defined.
#[export] Instance unset : Viper := settings (λ _, None).

#[export] Instance otel_host : Telemetry.Otel := {|
  Telemetry.otlptracegrpc_New _ := None; Telemetry.Resource := list Telemetry.attribute;
  Telemetry.resource_Default := []; Telemetry.resource_NewWithAttributes l := l;
  Telemetry.resource_Merge a b := Ok (a ++ b); Telemetry.tp_Shutdown _ _ := None;
|}.

#[export] Instance host : Host := {|
  otel := otel_host; NewClient _ _ := None; Hostname := Ok "host"; new_uuid := "u";
  start_time := 0; sandbox_stat := None; members_created := []; members_joined := [];
  resolver _ := Cluster.mkAttempt (Ok []) None None; Listen _ := None;
|}.

#[export, program] Instance four_cpus : Worker.Sys := {|
  Worker.call_fault _ _ := None; Worker.privileged := true; Worker.Environ := []; Worker.NumCPU := 4;
  Worker.range_over _ _ m := map_to_list m;
|}.
Next Obligation. done. Qed.
Next Obligation. done. Qed.
Next Obligation. done. Qed.

Definition s0 : state :=
  mkState (mkWorld (mkFsys {[ ["tmp"] := NDir ]} ∅) (mkReader [] None) 0 [] 0) [].

(** The default configuration, with a cluster, and with [concurrency]. *)
Definition in_cluster (exec : bool) (concurrency : Z) : Config :=
  mkConfig ":50051" (TLS default_config) (LocalCache default_config) false "info"
    (BackingCache default_config) (Telemetry default_config)
    (mkExecutionConfig exec concurrency "/tmp/builds" 10 (ex_Sandbox (Execution default_config)))
    (Cluster.mkClusterConfig true "a" 7946 "" "list" [] "" 0).

(** A boot that ends in a node. *)
Lemma boots (m : Boot node) s : (if (m s).1 is inr _ then true else false) = true →
  { n & { s' | m s = (inr n, s') } }.
Proof. destruct (m s) as [[e|n] s']; [done|]. intros _. by exists n, s'. Defined.

Lemma default_node_witness :
  ∃ n s', main "" s0 = (inr n, s') ∧ n_tls n = None ∧
    n_pool n = Some (Worker.mkWorkerPool ["tmp"; "gorego"; "builds"] 4 None).
Proof.
  destruct (default_node "" s0 (Storage.mkLocalStore ["tmp"; "gorego"; "cache"] false false))
    as (n & s' & Hm & _ & _ & _ & _ & _ & Ht & _ & Hp);
    [intros e; discriminate|reflexivity|reflexivity|vm_compute; reflexivity|reflexivity|].
  exists n, s'. split; [exact Hm|]. split; [exact Ht|exact Hp].
Defined.


Lemma metrics_failure_hangs_server_witness :
  ∃ p, reachable (routines default_config) p ∧ running p = {[RServe]} ∧ accepting p = true ∧
    serving p = true ∧ at_ p = PWait.
Proof.
  destruct (boots (boot default_config) s0) as (n & s' & Hb); [vm_compute; reflexivity|].
  destruct (metrics_failure_hangs_server _ _ _ _ (ErrIO "address already in use") Hb) as (p & Hr & _ & _ & Hall);
    [reflexivity|].
  destruct (Hall p) as (? & ? & ? & ?); [reflexivity|]. exists p. split_and!; try assumption.
  replace (routines default_config) with (s_started s'); [exact Hr|].
  transitivity (s_started (boot default_config s0).2); [by rewrite Hb|vm_compute; reflexivity].
Defined.

(** A signal with one request in flight. *)
Definition shutting : process := mkProcess (list_to_set (routines default_config)) false None PGraceful false false 1.

Lemma shutting_reachable : reachable (routines default_config) shutting.
Proof.
  eapply rtc_l; [by apply do_request; vm_compute|]. eapply rtc_l; [by apply do_signal|].
  eapply rtc_l; [by apply do_leave|]. reflexivity.
Qed.


Definition drained_process : process := mkProcess (list_to_set (routines default_config)) true None PWait false true 0.

Lemma drained_reachable : reachable (routines default_config) drained_process.
Proof.
  eapply rtc_l; [by apply do_signal|]. eapply rtc_l; [by apply do_leave|].
  eapply rtc_l; [by apply do_graceful|]. eapply rtc_l; [by apply do_cancel|]. reflexivity.
Qed.

Lemma workers_outlive_requests_witness : drained drained_process = true ∧ handlers drained_process = 0%nat.
Proof.
  destruct (workers_outlive_requests (routines default_config) drained_process drained_reachable)
    as (Hd & Hh & _); [apply (bool_decide_unpack _); vm_compute; exact I|reflexivity|]. split; [exact Hd|exact Hh].
Defined.

(** A node with a concurrency of -1, and one that only caches. *)
Lemma advertised_capacity_witness :
  ∃ n s' cm pool, boot (in_cluster true (-1)) s0 = (inr n, s') ∧ n_cluster n = Some cm ∧
    n_pool n = Some pool ∧ Worker.concurrency pool = 4 ∧
    Cluster.peerHasCapacity (Cluster.GetLocalState 0 9 (ClusterRun.manager cm)) = false.
Proof.
  destruct (boots (boot (in_cluster true (-1))) s0) as (n & s' & Hb); [vm_compute; reflexivity|].
  destruct (boot_parts _ _ _ _ Hb) as (cm & Hcm & Hp); [reflexivity|].
  destruct (Hp eq_refl) as [pool Hpool].
  destruct (advertised_capacity _ _ _ _ cm pool 0 Hb Hcm Hpool) as (_ & Hneg);
    [simpl; lia|reflexivity|lia|].
  destruct (Hneg eq_refl) as (Hc & Hcap & _). exists n, s', cm, pool.
  split_and!; [exact Hb|exact Hcm|exact Hpool|exact Hc|exact (Hcap 9)].
Defined.

Lemma cache_only_node_attracts_execution_witness :
  ∃ n s' cm st, boot (in_cluster false 0) s0 = (inr n, s') ∧ n_cluster n = Some cm ∧
    Cluster.SelectBestPeer [st] 1
      (Cluster.set_peers {[ "a" := st ]} (Cluster.SetLoadProvider ClusterRun.Demo.peer1)) = Some st ∧
    ¬ serves_execution n.
Proof.
  destruct (boots (boot (in_cluster false 0)) s0) as (n & s' & Hb); [vm_compute; reflexivity|].
  destruct (boot_parts _ _ _ _ Hb) as (cm & Hcm & _); [reflexivity|].
  pose (st := Cluster.GetLocalState 7 9 (ClusterRun.manager cm)). exists n, s', cm, st.
  assert (Cluster.ns_Name st = "a") as Hname.
  { transitivity (node_id (n_cluster n)); [by rewrite Hcm|].
    transitivity (match (boot (in_cluster false 0) s0).1 with inr n => node_id (n_cluster n) | _ => "" end);
      [by rewrite Hb|vm_compute; reflexivity]. }
  destruct (cache_only_node_attracts_execution _ _ _ _ cm 7 9
    (Cluster.set_peers {[ "a" := st ]} (Cluster.SetLoadProvider ClusterRun.Demo.peer1)) [st] Hb Hcm)
    with (busy_load := 1) as [Hsel Hno]; [reflexivity|vm_compute; intuition congruence| |reflexivity|reflexivity|lia|vm_compute; intuition congruence|].
  - fold st. by rewrite Hname.
  - split_and!; [exact Hb|exact Hcm|exact Hsel|exact Hno].
Defined.
End Demo.
End Main.
